(* ===== verification/_CoqProject ===== *)
-Q . S2P
Prelude.v
Runtime.v
Pool.v
PoolOps.v
PoolProps.v
Uds.v
UdsLemmas.v
UdsProps.v
SessionSource.v
SessionLemmas.v
AgentMain.v
AgentProps.v
LoopClient.v
Remote.v
RemoteLemmas.v
Install.v
InjectProps.v
Symbols.v
SymbolsProps.v
InjectorMain.v
Bpf.v
InjectorLoop.v
DaemonProps.v
System.v
SystemProps.v
