(* ===== verification/Prelude.v ===== *)
(** * ticketconnect: a verification library

    ** The program

    ticketconnect gives unmodified TLS clients a resumption session before their
    handshake.  It has two processes and a kernel probe.

    - The _agent_ (src/ticket-agent) keeps, per destination [host:port], a small
      stock of TLS 1.3 sessions that were captured from handshakes of its own
      (session_source.c, pool.c) and hands each of them out once over a local
      socket (uds.c).  main.c is its command line.
    - The _probe_ (src/bpf/ssl_connect.bpf.c) runs at the entry of [SSL_connect]
      in the processes that are watched: it records the thread and the [SSL *]
      argument, submits the record to a ring buffer and stops the thread.
    - The _injector_ (src/injector) attaches the probe to the TLS libraries it
      finds in /proc and handles the records: it asks the agent for a session
      (the client side of uds.c), attaches to the stopped process with ptrace,
      resolves the functions it needs in the process's libraries (symbols.c),
      calls them there (remote.c) to parse and install the session (install.c)
      and lets the thread go.

    ** The files

    - [Prelude]: machine integers, the effect monad [M] with [returns] and
      [returns_or], the tactics and hint databases, generic lemmas on lists and arithmetic.
    - [Runtime]: what the sources use of C and its library: C strings, the heap
      with [malloc] and [free], the clock.
    - [Pool], [PoolOps], [PoolProps]: ticket-agent/pool.c.  [struct Pool] is
      [Pool], [struct Pool_dest] is [Pool_dest]; the operations have the names of
      the C functions.  [pool_inv] is the invariant, [sessions] the abstraction
      (one stack of sessions per destination), [pool_step] the accounting of heap
      blocks.  [SourceOk] is the interface to the session source ([SourceOkOr] that
      of a source that may have no result for a named reason).
    - [Uds], [UdsLemmas], [UdsProps]: ticket-agent/uds.c, the agent's side
      ([handle_conn], [uds_serve]) and the injector's side ([uds_get]) over a
      socket that delivers and accepts bytes in arbitrary pieces.  [listen_env]
      answers the set-up calls of the listening socket, [listener] is its
      descriptor and its file.
    - [SessionSource], [SessionLemmas]: ticket-agent/session_source.c over the
      class [Tls] (OpenSSL, the name service and the network); [AgentMain],
      [AgentProps]: ticket-agent/main.c, with the instance [live_source_ok] that
      discharges [SourceOkOr] for the live source.
    - [LoopClient]: demo/loop_client.c, a client the injector works on, over the
      same class [Tls].
    - [Remote], [RemoteLemmas]: injector/remote.c over a traced process with
      registers, byte memory, a trace state and a history of events, the stops of
      the target among them; the class [Kernel] holds what the kernel refuses and
      what the target does when it runs.
    - [Install], [InjectProps]: injector/install.c over [Remote] and the class
      [Resolver].  [injected] says, of the events of an injection, which transfers
      and which completed calls there were.
    - [Symbols], [SymbolsProps]: injector/symbols.c, with [fgets] and [sscanf] on
      the text of /proc/<pid>/maps and the ELF file as bytes.
    - [InjectorMain]: injector/main.c: [scan], [file_key], [on_event] and the
      command line; [symbols_resolver] is the instance of [Resolver] made from
      [Symbols], its faults included.  [InjectorLoop]: the rest of main.c, set-up,
      main loop and clean-up, over a node of processes and the objects of libbpf
      ([objects]: skeleton, link, ring buffer).
    - [Bpf], [DaemonProps]: bpf/ssl_connect.bpf.c ([excluded], [on_ssl_connect],
      the latter with the ordered list of what it does) and the theorems about the daemon and the probe.
    - [System], [SystemProps]: any number of threads and processes, the probe, the
      ring buffer and the daemon as a transition system, by an executable function
      [sys_next] and the relation [sys_step] it computes.

    ** What the theorems show

    - C1 to C6, the pool: any sequence of calls is free of undefined behaviour,
      terminates, keeps the invariant and hands out a buffer at most once; get,
      depth and maintain implement the stack of sessions; creating, using and
      freeing a pool leaks nothing; the in-place eviction is a filter.
    - C7 to C12, the protocol: a session goes through the two ends of the socket
      unchanged; the agent's answer to every byte stream; the parser accepts
      exactly the well-formed requests and has a code for each way to be malformed;
      the client copes with every response; the accept loop serves all the
      connections it accepts and closes what it opened; reading and writing terminate and do not
      depend on how the stream is cut.
    - C13 to C18, the agent: what a fetch delivers and that it releases every
      library object; the live source keeps the contract of the pool, with the
      first ticket of a verified handshake; destinations are split at the last
      colon; the whole program releases what it acquired for every command line;
      what [get] writes.
    - C19, the demonstration client: it reports a resumption only for a connection
      in which a session was installed from outside, and leaks nothing.
    - C20 to C25, the injection: a remote call leaves registers and code as they
      were whatever the kernel and the target do, and implements a function call
      where they do what they are asked; the stack it builds is safe; the
      installation releases the target, is confined to the mapping it made and
      succeeds only after [SSL_set_session] of the parsed session returned 1; it
      touches nothing when a symbol is missing; a seizure that fails half-way is
      not undone.
    - C26 to C29, symbol resolution: a maps text round trips; which library is
      found; the dynamic symbol table, found as the ELF format says, is searched
      correctly; the address returned.
    - C30 to C36, the daemon and the probe: the key that identifies a file is
      injective; a scan stays inside its table; the handler always releases and
      reports success only after the agent's bytes were installed; the daemon as a
      whole handles its events and cleans up; exclusion by name; the probe reports
      what it freezes before it freezes it.
    - C37 to C39, probe and daemon together: with single-threaded processes, ids
      reported as the injector knows them and a session for every event every run ends, within six steps per connection,
      with everyone released, and every reported connection has its session before
      it goes on, unless its process is back at [SSL_connect] before the daemon has
      sent SIGCONT; what can go wrong otherwise, as explicit runs.

    ** Undefined behaviour, termination, bounds

    A routine is a function into [M]; its value [None] is undefined behaviour of
    the C program (an index out of range, a double free, a use after free) or fuel
    that ran out, so [returns] excludes both.  Where the code itself does not guard
    against something, [returns_or bad] names it: the routine returns, with the
    property stated, unless [bad], and [bad] is a statement about the parameters
    and the arguments only: a failed [SSL_new] (C13 to C15, C17, C19), a failed
    [SSL_CTX_new] of the client (C19), a number on the command line that is not an
    [int] (C17, C19, C34), a malformed library of a target (C32, C34), as many
    libraries as the table has cells and a failed [ring_buffer__new] (C34).  Fuel is used where the recursion is
    not structural, and is sufficient by the theorems that use it:
    - reading and writing exactly n bytes: two more than the length of the script
      of kernel answers, because every iteration consumes an answer;
    - the refill loop of [pool_maintain]: [target_depth] plus one, because every
      iteration that does not leave the loop adds an entry;
    - the wait loop of [remote_call]: 17, because the code gives up after 16
      spurious stops;
    - the loops over the lines of a file: one more than its length, because every
      line consumes a character;
    - the loop over the symbols: the length of the file plus 4096, because a
      symbol outside the mapping is a fault; numbers in text: 20 decimal or
      16 hexadecimal digits, enough for 64 bits.

    Integers are [Z]; the conversions of the code are explicit ([u8], [u32],
    [s32], [u64], [s64]).

    ** Parameters

    Code outside the repository enters as parameters with what the sources rely
    on as hypotheses: [Env] (allocation, and a clock below 2^62 seconds), [Tls]
    with [TlsOk] (the length [i2d_SSL_SESSION] reports is that of its output and
    fits an [int]; a ticket's lifetime has 32 bits), [Kernel], [Files], [Proc] and
    [Bpf] (nothing is assumed of them; for C29 and C33, that the files of the target
    are what the theorem says).  The session installed in a connection of the
    demonstration client from outside, the room on the disk for a file that is
    written, and what the set-up calls of the listening socket answer are
    arguments.  What [System] takes from the kernel's signals and ptrace is said there.

    ** Not modelled

    The test programs, the build and deployment files; the signal handler (that it
    has run is an input of each poll); the death of a process between the probe and
    the daemon in [System]; what a terminal does with printed lines; the
    descriptors and mappings of the files symbols.c opens and closes. *)

From stdpp Require Import base numbers list gmap strings.

Open Scope Z_scope.

(** ** Machine integers

    A w-bit integer is a [Z]; every conversion the C code performs is one of the
    wrap-around functions below ([uint8_t], [uint32_t], [unsigned long],
    [int], [long]/[time_t] on x86-64). *)

Definition wrapU (w z : Z) : Z := z mod 2 ^ w.
Definition wrapS (w z : Z) : Z := (z + 2 ^ (w - 1)) mod 2 ^ w - 2 ^ (w - 1).

Abbreviation u8 := (wrapU 8).
Abbreviation u32 := (wrapU 32).
Abbreviation u64 := (wrapU 64).
Abbreviation s32 := (wrapS 32).
Abbreviation s64 := (wrapS 64).

Definition byte_ok (b : Z) : bool := (0 <=? b) && (b <? 256).
Definition bytes_ok (l : list Z) : bool := forallb byte_ok l.

(** ** The effect monad

    A computation of the C program takes a state and either returns a value and
    a new state, or has no result at all ([None]).  [None] stands for undefined
    behaviour of the C program (access outside an array, double free) and, in
    the loops that carry fuel, for fuel that ran out; a theorem that a routine
    [returns] therefore excludes both. *)

Definition M (S A : Type) : Type := S -> option (A * S).

#[global] Instance M_ret S : MRet (M S) := fun A a s => Some (a, s).
#[global] Instance M_bind S : MBind (M S) := fun A B k m s =>
  match m s with
  | None => None
  | Some (a, s') => k a s'
  end.

Definition ub {S A} : M S A := fun _ => None.
Definition get_state {S} : M S S := fun s => Some (s, s).
Definition put_state {S} (s : S) : M S unit := fun _ => Some (tt, s).
Definition lift_option {S A} (o : option A) : M S A := fun s =>
  match o with
  | None => None
  | Some a => Some (a, s)
  end.

(** [returns_or bad m s Q]: run from [s], [m] ends with a result and a final state
    that satisfy [Q]; it has no result only for the reason [bad].  [returns m s Q]
    allows no reason: [m] has no undefined behaviour and terminates. *)
Definition returns_or (bad : Prop) {S A} (m : M S A) (s : S) (Q : A -> S -> Prop) : Prop :=
  match m s with
  | Some (a, s') => Q a s'
  | None => bad
  end.

Abbreviation returns := (returns_or False).

(** ** Tactics *)

(** Split the innermost [if]/[match] of the goal, turning boolean tests into
    propositions. *)
Ltac bool_prop :=
  repeat match goal with
  | H : (_ && _)%bool = true |- _ => apply andb_true_iff in H; destruct H
  | H : (_ || _)%bool = false |- _ => apply orb_false_iff in H; destruct H
  | H : negb _ = true |- _ => apply negb_true_iff in H
  | H : negb _ = false |- _ => apply negb_false_iff in H
  | H : (_ <? _) = true |- _ => apply Z.ltb_lt in H
  | H : (_ <? _) = false |- _ => apply Z.ltb_ge in H
  | H : (_ <=? _) = true |- _ => apply Z.leb_le in H
  | H : (_ <=? _) = false |- _ => apply Z.leb_gt in H
  | H : (_ =? _) = true |- _ => apply Z.eqb_eq in H
  | H : (_ =? _) = false |- _ => apply Z.eqb_neq in H
  | H : (_ <? _)%nat = true |- _ => apply Nat.ltb_lt in H
  | H : (_ <? _)%nat = false |- _ => apply Nat.ltb_ge in H
  | H : (_ <=? _)%nat = true |- _ => apply Nat.leb_le in H
  | H : (_ <=? _)%nat = false |- _ => apply Nat.leb_gt in H
  | H : (_ =? _)%nat = true |- _ => apply Nat.eqb_eq in H
  | H : (_ =? _)%nat = false |- _ => apply Nat.eqb_neq in H
  end.

Ltac case_if :=
  match goal with
  | |- context [if ?b then _ else _] =>
      let E := fresh "E" in destruct b eqn:E; bool_prop
  end.

Create HintDb tc.

(** ** Machine-integer lemmas *)

Lemma wrapU_range (w z : Z) : 0 <= w -> 0 <= wrapU w z < 2 ^ w.
Proof. intros Hw. apply Z.mod_pos_bound. lia. Qed.

Lemma wrapU_small (w z : Z) : 0 <= z < 2 ^ w -> wrapU w z = z.
Proof. apply Z.mod_small. Qed.

Lemma wrapS_small (w z : Z) :
  0 < w -> - 2 ^ (w - 1) <= z < 2 ^ (w - 1) -> wrapS w z = z.
Proof.
  intros Hw Hz. unfold wrapS.
  assert (2 ^ w = 2 * 2 ^ (w - 1)) by (rewrite <- Z.pow_succ_r by lia; f_equal; lia).
  rewrite Z.mod_small by lia. lia.
Qed.

Lemma wrapS_range (w z : Z) : 0 < w -> - 2 ^ (w - 1) <= wrapS w z < 2 ^ (w - 1).
Proof.
  intros Hw. unfold wrapS.
  assert (2 ^ w = 2 * 2 ^ (w - 1)) by (rewrite <- Z.pow_succ_r by lia; f_equal; lia).
  pose proof (Z.mod_pos_bound (z + 2 ^ (w - 1)) (2 ^ w)). lia.
Qed.

Lemma s32_nonneg (n : Z) : 0 <= n < 2 ^ 32 -> 0 <= s32 n -> s32 n = n.
Proof.
  intros Hn. destruct (decide (n < 2 ^ 31)); [intros _; apply wrapS_small; lia|].
  unfold wrapS. replace (n + 2 ^ (32 - 1)) with ((n - 2 ^ 31) + 1 * 2 ^ 32) by lia.
  rewrite Z.mod_add, Z.mod_small by lia. lia.
Qed.

Lemma byte_ok_spec (b : Z) : byte_ok b = true <-> 0 <= b < 256.
Proof. unfold byte_ok. rewrite andb_true_iff, Z.leb_le, Z.ltb_lt. done. Qed.

Lemma byte_ok_u8 (z : Z) : byte_ok (u8 z) = true.
Proof. apply byte_ok_spec. apply (wrapU_range 8); lia. Qed.

Lemma bytes_ok_Forall (l : list Z) : bytes_ok l = true <-> Forall (fun b => 0 <= b < 256) l.
Proof.
  unfold bytes_ok. rewrite forallb_forall, Forall_forall.
  setoid_rewrite byte_ok_spec. by setoid_rewrite list_elem_of_In.
Qed.

Lemma bytes_ok_app (l k : list Z) : bytes_ok (l ++ k) = (bytes_ok l && bytes_ok k)%bool.
Proof. apply forallb_app. Qed.

Lemma bytes_ok_take (n : nat) (l : list Z) : bytes_ok l = true -> bytes_ok (take n l) = true.
Proof. rewrite !bytes_ok_Forall. apply Forall_take. Qed.

(** ** Rules of the effect monad *)

Section Rules.
Context {S : Type} {bad : Prop}.

Lemma returns_intro {A} (m : M S A) (a : A) (s s' : S) (Q : A -> S -> Prop) :
  m s = Some (a, s') -> Q a s' -> returns_or bad m s Q.
Proof. intros Hm HQ. unfold returns_or. by rewrite Hm. Qed.

Lemma returns_ret {A} (a : A) (s : S) (Q : A -> S -> Prop) :
  Q a s -> returns_or bad (mret a) s Q.
Proof. done. Qed.

Lemma returns_bind {A B} (m : M S A) (k : A -> M S B) (s : S) (Q : B -> S -> Prop) :
  returns_or bad m s (fun a s' => returns_or bad (k a) s' Q) -> returns_or bad (m ≫= k) s Q.
Proof. unfold returns_or, mbind, M_bind. by destruct (m s) as [[a s']|]. Qed.

Lemma returns_mono {A} (m : M S A) (s : S) (P Q : A -> S -> Prop) :
  returns_or bad m s P -> (forall a s', P a s' -> Q a s') -> returns_or bad m s Q.
Proof. unfold returns_or. intros HP HPQ. destruct (m s) as [[a s']|]; auto. Qed.

Lemma returns_get (s : S) (Q : S -> S -> Prop) : Q s s -> returns_or bad get_state s Q.
Proof. done. Qed.

Lemma returns_put (s s' : S) (Q : unit -> S -> Prop) : Q tt s' -> returns_or bad (put_state s') s Q.
Proof. done. Qed.

Lemma returns_lift {A} (o : option A) (a : A) (s : S) (Q : A -> S -> Prop) :
  o = Some a -> Q a s -> returns_or bad (lift_option o) s Q.
Proof. by intros ->. Qed.

(** Looking up what may be missing for the reason [bad]. *)
Lemma returns_lift_or {A} (o : option A) (s : S) (Q : A -> S -> Prop) :
  (o = None -> bad) -> (forall a, o = Some a -> Q a s) -> returns_or bad (lift_option o) s Q.
Proof. unfold returns_or, lift_option. destruct o; auto. Qed.

Lemma returns_ub {A} (s : S) (Q : A -> S -> Prop) : bad -> returns_or bad ub s Q.
Proof. done. Qed.

(** A computation that returns has exactly one outcome. *)
Lemma returns_det {A} (m : M S A) (s s' : S) (a : A) (Q : A -> S -> Prop) :
  returns_or bad m s Q -> m s = Some (a, s') -> Q a s'.
Proof. unfold returns_or. intros H Hm. by rewrite Hm in H. Qed.

(** The outcome together with its equation. *)
Lemma returns_eqn {A} (m : M S A) (s : S) (P Q : A -> S -> Prop) :
  returns_or bad m s P -> (forall a s', m s = Some (a, s') -> P a s' -> Q a s') ->
  returns_or bad m s Q.
Proof. unfold returns_or. intros HP HPQ. destruct (m s) as [[a s']|]; auto. Qed.

(** What always returns does so whatever else is excused. *)
Lemma returns_excuse {A} (m : M S A) (s : S) (Q : A -> S -> Prop) :
  returns m s Q -> returns_or bad m s Q.
Proof. unfold returns_or. by destruct (m s) as [[a s']|]. Qed.

End Rules.

Lemma returns_elim {S A} (m : M S A) (s : S) (Q : A -> S -> Prop) :
  returns m s Q -> exists a s', m s = Some (a, s') /\ Q a s'.
Proof. unfold returns_or. destruct (m s) as [[a s']|]; [eauto|done]. Qed.

(** Fewer reasons are better. *)
Lemma returns_reason {S A} (bad bad' : Prop) (m : M S A) (s : S) (Q : A -> S -> Prop) :
  (bad -> bad') -> returns_or bad m s Q -> returns_or bad' m s Q.
Proof. unfold returns_or. destruct (m s) as [[a s']|]; auto. Qed.

Arguments returns_or : simpl never.

(** ** List lemmas shared by the components *)

Section Lists.
Context {A : Type}.
Implicit Types l k : list A.

Lemma take_S_insert l (n : nat) (x : A) :
  (n < length l)%nat -> take (Datatypes.S n) (<[n:=x]> l) = take n l ++ [x].
Proof.
  intros Hn. rewrite (take_S_r _ _ x).
  - by rewrite take_insert_ge by lia.
  - by rewrite list_lookup_insert_eq.
Qed.

Lemma omap_cons {B} (f : A -> option B) (x : A) l :
  omap f (x :: l) = match f x with Some y => y :: omap f l | None => omap f l end.
Proof. reflexivity. Qed.

Lemma filter_all_true (f : A -> bool) l :
  Forall (fun x => f x = true) l -> List.filter f l = l.
Proof. induction 1 as [|x l Hx _ IH]; simpl; [done|]. by rewrite Hx, IH. Qed.

End Lists.
