(* ===== verification/Runtime.v ===== *)
(** * Runtime: what the C code uses of the language and its standard library

    - C strings and the string functions the sources call ([strlen], [strcmp],
      [strstr], [strrchr], [snprintf] with a [%s] conversion);
    - the process heap with [malloc]/[calloc]/[free];
    - the clock behind [time(NULL)].

    A [char] buffer is a list of byte values; the C string it holds is the part
    before the first NUL ([cstr]).  Heap blocks are identified by their address,
    a natural number handed out by a counter, and a block stays in [w_heap]
    exactly while it is allocated, so that freeing a block twice or freeing an
    address that was never allocated is undefined behaviour.  What the
    environment decides (whether an allocation succeeds, what the clock reads)
    is an answer of [Env] indexed by the number of environment calls made so
    far ([w_step]). *)

From stdpp Require Import base numbers list gmap strings.
From S2P Require Import Prelude.

Open Scope Z_scope.

(** ** C strings *)

Definition of_string (s : String.string) : list Z :=
  map (fun c => Z.of_N (Ascii.N_of_ascii c)) (String.list_ascii_of_string s).

Fixpoint cstr (bs : list Z) : list Z :=
  match bs with
  | [] => []
  | b :: t => if b =? 0 then [] else b :: cstr t
  end.

Definition no_nul (s : list Z) : bool := forallb (fun b => negb (b =? 0)) s.

Definition strlen (s : list Z) : Z := Z.of_nat (length s).

Definition strcmp_eq (a b : list Z) : bool := bool_decide (a = b).

(** [snprintf(buf, cap, "%s", s)] with [cap > 0]: the string left in [buf]. *)
Definition snprintf_s (cap : nat) (s : list Z) : list Z := take (cap - 1) s.

(** The guarded form [if (buf != NULL && cap > 0) snprintf(buf, cap, "%s", s)];
    [None] is the null pointer, and the result is what was written, if anything. *)
Definition snprintf_opt (buf : option nat) (s : list Z) : option (list Z) :=
  match buf with
  | None => None
  | Some cap => if (0 <? cap)%nat then Some (snprintf_s cap s) else None
  end.

Fixpoint starts_with (p s : list Z) : bool :=
  match p, s with
  | [], _ => true
  | a :: p', b :: s' => (a =? b) && starts_with p' s'
  | _ :: _, [] => false
  end.

(** [strstr(s, needle) != NULL] *)
Fixpoint strstr (s needle : list Z) : bool :=
  starts_with needle s ||
  match s with
  | [] => false
  | _ :: t => strstr t needle
  end.

(** [strrchr(s, c) - s], or [None] for a null result. *)
Fixpoint strrchr (s : list Z) (c : Z) : option nat :=
  match s with
  | [] => None
  | b :: t =>
      match strrchr t c with
      | Some i => Some (S i)
      | None => if b =? c then Some O else None
      end
  end.

(** The C locale's [isspace] and [isdigit]; [skip_ws] skips leading white space. *)
Definition is_space (b : Z) : bool := (b =? 32) || ((9 <=? b) && (b <=? 13)).
Definition is_digit (b : Z) : bool := (48 <=? b) && (b <=? 57).

Fixpoint skip_ws (s : list Z) : list Z :=
  match s with
  | b :: t => if is_space b then skip_ws t else s
  | [] => []
  end.

(** ** The process: heap and clock *)

Record World := mkWorld {
  w_heap : gmap nat (list Z);
  w_next : nat;
  w_step : nat
}.

(** The clock counts seconds since the Epoch. *)
Class Env := {
  env_alloc : nat -> bool;
  env_time : nat -> Z;
  env_time_ok : forall k, 0 <= env_time k < 2 ^ 62
}.

Definition tick (w : World) : World := mkWorld (w_heap w) (w_next w) (S (w_step w)).

Section Libc.
Context {env : Env}.

(** [malloc]/[calloc] of a block whose initial contents are [init]; [None] is
    the null pointer. *)
Definition malloc (init : list Z) : M World (option nat) := fun w =>
  if env_alloc (w_step w)
  then Some (Some (w_next w),
             mkWorld (<[w_next w := init]> (w_heap w)) (S (w_next w)) (S (w_step w)))
  else Some (None, tick w).

Definition free (p : option nat) : M World unit := fun w =>
  match p with
  | None => Some (tt, w)
  | Some l =>
      match w_heap w !! l with
      | None => None
      | Some _ => Some (tt, mkWorld (delete l (w_heap w)) (w_next w) (w_step w))
      end
  end.

(** The contents of an allocated block. *)
Definition load (p : option nat) : M World (list Z) := fun w =>
  match p ≫= fun l => w_heap w !! l with
  | None => None
  | Some bs => Some (bs, w)
  end.

(** Overwrite an allocated block with contents of the same length. *)
Definition store (p : option nat) (bs : list Z) : M World unit := fun w =>
  match p with
  | None => None
  | Some l =>
      match w_heap w !! l with
      | None => None
      | Some old =>
          if (length bs =? length old)%nat
          then Some (tt, mkWorld (<[l := bs]> (w_heap w)) (w_next w) (w_step w))
          else None
      end
  end.

(** [time(NULL)] *)
Definition time : M World Z := fun w => Some (env_time (w_step w), tick w).

End Libc.

(** The sum of two [long]s, which is undefined when it overflows. *)
Definition add_long {S} (a b : Z) : M S Z :=
  if (- 2 ^ 63 <=? a + b) && (a + b <? 2 ^ 63) then mret (a + b) else ub.

(** Array cells: reading or writing outside the array is undefined behaviour. *)
Definition arr_get {S A} (a : list A) (i : nat) : M S A := lift_option (a !! i).
Definition arr_set {S A} (a : list A) (i : nat) (x : A) : M S (list A) :=
  if (i <? length a)%nat then mret (<[i:=x]> a) else ub.

(** ** Predicates and frame relations *)

Definition heap_wf (w : World) : Prop :=
  forall l, is_Some (w_heap w !! l) -> (l < w_next w)%nat.

(** Time and the allocator only move forward. *)
Definition world_le (w w' : World) : Prop :=
  (w_next w <= w_next w')%nat /\ (w_step w <= w_step w')%nat.

Definition free_all (ls : list nat) (h : gmap nat (list Z)) : gmap nat (list Z) :=
  foldr delete h ls.

(** [owns_step own own' h h']: a computation that owned the blocks [own] now
    owns [own'].  Every block outside [own'] is as it was, except that the
    blocks of [own] it gave up are gone; and what it acquired was not allocated
    before.  So nothing foreign was freed, taken or overwritten, and nothing was
    leaked. *)
Definition owns_step (own own' : list nat) (h h' : gmap nat (list Z)) : Prop :=
  (forall l, l ∉ own' -> h' !! l = if decide (l ∈ own) then None else h !! l) /\
  (forall l, l ∈ own' -> l ∉ own -> h !! l = None).

(** ** Lemmas on strings *)

Lemma cstr_no_nul (s : list Z) : no_nul (cstr s) = true.
Proof.
  induction s as [|b s IH]; simpl; [done|].
  destruct (b =? 0) eqn:E; simpl; [done|]. by rewrite E, IH.
Qed.

Lemma cstr_id (s : list Z) : no_nul s = true -> cstr s = s.
Proof.
  induction s as [|b s IH]; simpl; [done|].
  intros H. apply andb_true_iff in H as [Hb Hs]. apply negb_true_iff in Hb.
  by rewrite Hb, IH.
Qed.

Lemma cstr_app_nul (s t : list Z) : no_nul s = true -> cstr (s ++ 0 :: t) = s.
Proof.
  induction s as [|b s IH]; simpl; [done|].
  intros H. apply andb_true_iff in H as [Hb Hs]. apply negb_true_iff in Hb.
  by rewrite Hb, IH.
Qed.

Lemma cstr_snoc_nul (s : list Z) : cstr (s ++ [0]) = cstr s.
Proof. induction s as [|b s IH]; simpl; [done|]. by rewrite IH. Qed.

Lemma cstr_length (s : list Z) : (length (cstr s) <= length s)%nat.
Proof. induction s as [|b s IH]; simpl; [done|]. destruct (b =? 0); simpl; lia. Qed.

Lemma no_nul_app (s t : list Z) : no_nul (s ++ t) = (no_nul s && no_nul t)%bool.
Proof. apply forallb_app. Qed.

Lemma no_nul_take (n : nat) (s : list Z) : no_nul s = true -> no_nul (take n s) = true.
Proof.
  intros H. rewrite <- (take_drop n s), no_nul_app in H.
  by apply andb_true_iff in H as [? _].
Qed.

Lemma strcmp_eq_true (a b : list Z) : strcmp_eq a b = true <-> a = b.
Proof. apply bool_decide_eq_true. Qed.

Lemma strcmp_eq_refl (a : list Z) : strcmp_eq a a = true.
Proof. by apply strcmp_eq_true. Qed.

Lemma strcmp_eq_false (a b : list Z) : strcmp_eq a b = false <-> a <> b.
Proof. apply bool_decide_eq_false. Qed.

Lemma snprintf_s_id (cap : nat) (s : list Z) : (length s < cap)%nat -> snprintf_s cap s = s.
Proof. intros H. apply take_ge. lia. Qed.

Lemma snprintf_s_length (cap : nat) (s : list Z) :
  (0 < cap)%nat -> (length (snprintf_s cap s) < cap)%nat.
Proof. intros H. unfold snprintf_s. rewrite length_take. lia. Qed.

Lemma snprintf_s_no_nul (cap : nat) (s : list Z) :
  no_nul s = true -> no_nul (snprintf_s cap s) = true.
Proof. apply no_nul_take. Qed.

Lemma starts_with_spec (p s : list Z) : starts_with p s = true <-> exists t, s = p ++ t.
Proof.
  revert s. induction p as [|a p IH]; intros s; simpl; [naive_solver|].
  destruct s as [|b s].
  - split; [done|]. intros [t Ht]. done.
  - rewrite andb_true_iff, Z.eqb_eq, IH. split.
    + intros [-> [t ->]]. by exists t.
    + intros [t Ht]. simplify_eq. split; [done|]. by exists t.
Qed.

Lemma strstr_spec (s p : list Z) : strstr s p = true <-> exists t u, s = t ++ p ++ u.
Proof.
  induction s as [|b s IH]; simpl.
  - rewrite orb_false_r, starts_with_spec. split.
    + intros [t Ht]. by exists [], t.
    + intros (t & u & H). destruct t; simpl in *; [by exists u|done].
  - rewrite orb_true_iff, starts_with_spec, IH. split.
    + intros [[t Ht]|(t & u & ->)]; [by exists [], t|by exists (b :: t), u].
    + intros ([|c t] & u & H); simpl in *; [left; by exists u|].
      right. simplify_eq. by exists t, u.
Qed.

Lemma strrchr_None (s : list Z) (c : Z) : strrchr s c = None <-> c ∉ s.
Proof.
  induction s as [|b s IH]; simpl; [split; [intros _; apply not_elem_of_nil|done]|].
  rewrite not_elem_of_cons. destruct (strrchr s c) as [i|].
  - split; [done|]. intros [_ H]. by apply IH in H.
  - destruct (b =? c) eqn:E; bool_prop; split; [done|naive_solver|naive_solver|done].
Qed.

Lemma strrchr_app (t u : list Z) (c : Z) : c ∉ u -> strrchr (t ++ c :: u) c = Some (length t).
Proof.
  intros Hu. induction t as [|b t IH]; simpl.
  - apply strrchr_None in Hu. by rewrite Hu, Z.eqb_refl.
  - by rewrite IH.
Qed.

Lemma strrchr_split (s : list Z) (c : Z) (i : nat) :
  strrchr s c = Some i -> exists t u, s = t ++ c :: u /\ length t = i /\ c ∉ u.
Proof.
  revert i. induction s as [|b s IH]; intros i; simpl; [done|].
  destruct (strrchr s c) as [j|] eqn:E.
  - intros [= <-]. destruct (IH j eq_refl) as (t & u & -> & <- & Hu). by exists (b :: t), u.
  - apply strrchr_None in E. destruct (b =? c) eqn:Eb; [|done].
    intros [= <-]. apply Z.eqb_eq in Eb as ->. by exists [], s.
Qed.

(** ** Lemmas on the heap *)

Lemma free_all_lookup (ls : list nat) (h : gmap nat (list Z)) (l : nat) :
  free_all ls h !! l = if decide (l ∈ ls) then None else h !! l.
Proof.
  induction ls as [|k ls IH]; simpl; [done|].
  rewrite lookup_delete, IH. repeat case_decide; set_solver.
Qed.

Lemma world_le_refl (w : World) : world_le w w.
Proof. split; lia. Qed.

Lemma world_le_trans (w1 w2 w3 : World) : world_le w1 w2 -> world_le w2 w3 -> world_le w1 w3.
Proof. unfold world_le. lia. Qed.

Lemma world_le_tick (w : World) : world_le w (tick w).
Proof. split; simpl; lia. Qed.

#[export] Hint Resolve world_le_refl world_le_tick : tc.

Lemma heap_wf_fresh (w : World) (l : nat) :
  heap_wf w -> (w_next w <= l)%nat -> w_heap w !! l = None.
Proof.
  intros Hwf Hl. destruct (w_heap w !! l) eqn:E; [|done].
  assert (l < w_next w)%nat; [|lia]. apply Hwf. eauto.
Qed.

Lemma heap_wf_alloc (w : World) (bs : list Z) (k : nat) :
  heap_wf w -> heap_wf (mkWorld (<[w_next w := bs]> (w_heap w)) (S (w_next w)) k).
Proof. intros Hwf l. simpl. rewrite lookup_insert. case_decide; [lia|]. intros Hl%Hwf. lia. Qed.

Lemma owns_step_refl (own : list nat) (h : gmap nat (list Z)) :
  (forall l, l ∈ own -> is_Some (h !! l)) -> owns_step own own h h.
Proof. intros H. split; [|done]. intros l Hl. by rewrite decide_False. Qed.

Lemma owns_step_trans (o1 o2 o3 : list nat) (h1 h2 h3 : gmap nat (list Z)) :
  owns_step o1 o2 h1 h2 -> owns_step o2 o3 h2 h3 -> owns_step o1 o3 h1 h3.
Proof.
  intros [H12 F12] [H23 F23]. split.
  - intros l Hl. rewrite H23 by done. destruct (decide (l ∈ o2)).
    + case_decide; [done|]. symmetry. by apply F12.
    + by rewrite H12.
  - intros l H3 H1. destruct (decide (l ∈ o2)); [by apply F12|].
    specialize (F23 l H3 n). rewrite H12 in F23 by done. by rewrite decide_False in F23.
Qed.

(** Ownership does not depend on the order in which the blocks are listed. *)
#[export] Instance owns_step_proper :
  Proper ((≡ₚ) ==> (≡ₚ) ==> (=) ==> (=) ==> iff) owns_step.
Proof.
  intros o1 o2 Ho o1' o2' Ho' h ? <- h' ? <-. unfold owns_step.
  assert (forall l, l ∈ o1 <-> l ∈ o2) as E by (intros l; by rewrite Ho).
  assert (forall l, l ∈ o1' <-> l ∈ o2') as E' by (intros l; by rewrite Ho').
  split; intros [H F]; (split; [intros l Hl | intros l Hl Hn; apply F; naive_solver]);
    (rewrite H by naive_solver); apply decide_ext; naive_solver.
Qed.

(** The frame rule: blocks [rest] that are allocated and not part of the
    footprint stay disjoint from what the computation owns, and unchanged. *)
Lemma owns_step_frame (o o' rest : list nat) (h h' : gmap nat (list Z)) :
  owns_step o o' h h' -> (forall l, l ∈ rest -> l ∉ o) ->
  (forall l, l ∈ rest -> is_Some (h !! l)) ->
  owns_step (o ++ rest) (o' ++ rest) h h' /\
  (forall l, l ∈ rest -> l ∉ o' /\ h' !! l = h !! l).
Proof.
  intros [H F] Hd Hr.
  assert (forall l, l ∈ rest -> l ∉ o') as Hd'.
  { intros l Hl Ho'. destruct (Hr l Hl) as [bs Hb]. rewrite F in Hb by auto. done. }
  split; [split|].
  - intros l Hl. rewrite not_elem_of_app in Hl. destruct Hl as [Hl Hl'].
    rewrite H by done. apply decide_ext. set_solver.
  - intros l Hl Hn. apply F; set_solver.
  - intros l Hl. split; [by apply Hd'|]. rewrite H by auto. by rewrite decide_False by auto.
Qed.

Section LibcRules.
Context {env : Env} {bad : Prop}.

Lemma returns_malloc (init : list Z) (w : World) (Q : option nat -> World -> Prop) :
  (env_alloc (w_step w) = true ->
     Q (Some (w_next w))
       (mkWorld (<[w_next w := init]> (w_heap w)) (S (w_next w)) (S (w_step w)))) ->
  (env_alloc (w_step w) = false -> Q None (tick w)) ->
  returns_or bad (malloc init) w Q.
Proof.
  intros Hs Hf. unfold returns_or, malloc. destruct (env_alloc (w_step w)); auto.
Qed.

Lemma returns_free (l : nat) (w : World) (Q : unit -> World -> Prop) :
  is_Some (w_heap w !! l) ->
  Q tt (mkWorld (delete l (w_heap w)) (w_next w) (w_step w)) ->
  returns_or bad (free (Some l)) w Q.
Proof. intros [bs Hl] HQ. unfold returns_or, free. by rewrite Hl. Qed.

Lemma returns_free_null (w : World) (Q : unit -> World -> Prop) :
  Q tt w -> returns_or bad (free None) w Q.
Proof. done. Qed.

Lemma returns_load (l : nat) (bs : list Z) (w : World) (Q : list Z -> World -> Prop) :
  w_heap w !! l = Some bs -> Q bs w -> returns_or bad (load (Some l)) w Q.
Proof. intros Hl HQ. unfold returns_or, load. simpl. by rewrite Hl. Qed.

Lemma returns_store (l : nat) (bs old : list Z) (w : World) (Q : unit -> World -> Prop) :
  w_heap w !! l = Some old -> length bs = length old ->
  Q tt (mkWorld (<[l := bs]> (w_heap w)) (w_next w) (w_step w)) ->
  returns_or bad (store (Some l) bs) w Q.
Proof.
  intros Hl Hn HQ. unfold returns_or, store. by rewrite Hl, Hn, Nat.eqb_refl.
Qed.

Lemma returns_time (w : World) (Q : Z -> World -> Prop) :
  Q (env_time (w_step w)) (tick w) -> returns_or bad time w Q.
Proof. done. Qed.

Lemma returns_add_long {S} (a b : Z) (s : S) (Q : Z -> S -> Prop) :
  - 2 ^ 63 <= a + b < 2 ^ 63 -> Q (a + b) s -> returns_or bad (add_long a b) s Q.
Proof.
  intros H HQ. unfold add_long. rewrite (proj2 (Z.leb_le _ _)), (proj2 (Z.ltb_lt _ _)) by lia.
  by apply returns_ret.
Qed.

Lemma returns_arr_get {S A} (a : list A) (i : nat) (x : A) (s : S) (Q : A -> S -> Prop) :
  a !! i = Some x -> Q x s -> returns_or bad (arr_get a i) s Q.
Proof. intros Hi HQ. by eapply returns_lift. Qed.

Lemma returns_arr_set {S A} (a : list A) (i : nat) (x : A) (s : S) (Q : list A -> S -> Prop) :
  (i < length a)%nat -> Q (<[i:=x]> a) s -> returns_or bad (arr_set a i x) s Q.
Proof.
  intros Hi HQ. unfold arr_set. apply Nat.ltb_lt in Hi. rewrite Hi. by apply returns_ret.
Qed.

End LibcRules.
