(* ===== verification/Pool.v ===== *)
(** * Pool: the per-destination session inventory (ticket-agent/pool.c)

    The linked list of [struct Pool_dest] is a list of records, head first; the
    [entries] array of a destination is a list of exactly [target_depth] cells
    of which the first [count] are in use.  Stale cells behind [count] keep
    whatever the compaction of [evict_expired] left in them, aliases of live DER
    buffers included.  The heap blocks of the C structures (the pool, each
    destination, each array) are tracked by address; the DER buffers live in the
    heap with their contents.

    [pool_inv] is the invariant of the component, [sessions] its abstraction (a
    stack of sessions per destination).  The operations are related to that
    abstraction in [PoolOps]; [dest_step] and [pool_step] say what an operation
    does to the heap blocks the pool owns. *)

From stdpp Require Import base numbers list gmap strings.
From S2P Require Import Prelude Runtime.

Open Scope Z_scope.

Definition DEST_MAX : Z := 255.
Definition GROUP_MAX : nat := 64.

(** ** The session source behind the pool

    [Pool_source_fn]: what a successful call leaves in its out-parameters; a
    failed call (non-zero return) is [None].  The arguments are the destination
    and the capacity of the group buffer. *)
Record Fetched := mkFetched {
  f_der : option nat;
  f_der_len : Z;
  f_is_pqc : Z;
  f_group : list Z;
  f_lifetime : Z
}.

Definition Pool_source_fn : Type := list Z -> nat -> M World (option Fetched).

(** The contract pool.h states for a source: success hands over one freshly
    allocated buffer of [der_len] bytes, failure allocates nothing, and the group
    name fits its buffer; a lifetime in seconds is far below the range of [long]. *)
Class SourceOkOr (bad : Prop) (src : Pool_source_fn) : Prop :=
  source_returns : forall dest cap w,
    heap_wf w -> (0 < cap)%nat ->
    returns_or bad (src dest cap) w (fun r w' =>
      heap_wf w' /\ world_le w w' /\
      match r with
      | None => w_heap w' = w_heap w
      | Some f => exists l bs,
          f_der f = Some l /\ w_heap w !! l = None /\
          w_heap w' = <[l := bs]> (w_heap w) /\
          f_der_len f = Z.of_nat (length bs) /\ 0 < f_der_len f < 2 ^ 31 /\
          (length (f_group f) < cap)%nat /\ no_nul (f_group f) = true /\
          f_lifetime f < 2 ^ 62
      end).

Abbreviation SourceOk := (SourceOkOr False).

(** ** Data *)

Record Pool_entry := mkEntry {
  pe_der : option nat;
  pe_der_len : Z;
  pe_is_pqc : Z;
  pe_group : list Z;
  pe_expires_at : Z
}.

Definition zero_entry : Pool_entry := mkEntry None 0 0 [] 0.

Record Pool_dest := mkDest {
  pd_addr : nat;
  pd_dest : list Z;
  pd_arr : nat;
  pd_entries : list Pool_entry;
  pd_count : nat
}.

Record Pool := mkPool {
  p_addr : nat;
  p_src : Pool_source_fn;
  p_target_depth : Z;
  p_dests : list Pool_dest
}.

Definition set_dest (p : Pool) (i : nat) (d : Pool_dest) : Pool :=
  mkPool (p_addr p) (p_src p) (p_target_depth p) (<[i:=d]> (p_dests p)).

Section Operations.
Context {env : Env}.

Definition pool_new (src : Pool_source_fn) (target_depth : Z) : M World (option Pool) :=
  let target_depth := if target_depth <? 1 then 1 else target_depth in
  p ← malloc [];
  match p with
  | None => mret None
  | Some a => mret (Some (mkPool a src target_depth []))
  end.

(** [entry_clear(&entries[i])] *)
Definition entry_clear (es : list Pool_entry) (i : nat) : M World (list Pool_entry) :=
  e ← arr_get es i;
  _ ← free (pe_der e);
  arr_set es i zero_entry.

(** The inner loop of [pool_free]: [for (i = 0; i < count; ++i)]. *)
Fixpoint clear_entries (n : nat) (es : list Pool_entry) (i : nat) : M World (list Pool_entry) :=
  match n with
  | O => mret es
  | S n' => es' ← entry_clear es i; clear_entries n' es' (S i)
  end.

Fixpoint free_dests (ds : list Pool_dest) : M World unit :=
  match ds with
  | [] => mret tt
  | d :: next =>
      _ ← clear_entries (pd_count d) (pd_entries d) 0;
      _ ← free (Some (pd_arr d));
      _ ← free (Some (pd_addr d));
      free_dests next
  end.

Definition pool_free (p : option Pool) : M World unit :=
  match p with
  | None => mret tt
  | Some p => _ ← free_dests (p_dests p); free (Some (p_addr p))
  end.

(** [dest_find]: the position of the first node with that name. *)
Fixpoint dest_find (ds : list Pool_dest) (dest : list Z) : option nat :=
  match ds with
  | [] => None
  | d :: ds' => if strcmp_eq (pd_dest d) dest then Some O else S <$> dest_find ds' dest
  end.

(** [dest_intern]: the pool with the destination present and its position, or
    [None] for the null return. *)
Definition dest_intern (p : Pool) (dest : list Z) : M World (option (Pool * nat)) :=
  if DEST_MAX <? strlen dest then mret None
  else
    match dest_find (p_dests p) dest with
    | Some i => mret (Some (p, i))
    | None =>
        d ← malloc [];
        match d with
        | None => mret None
        | Some da =>
            es ← malloc [];
            match es with
            | None => _ ← free (Some da); mret None
            | Some ea =>
                let nd := mkDest da (snprintf_s (Z.to_nat DEST_MAX + 1) dest) ea
                            (replicate (Z.to_nat (p_target_depth p)) zero_entry) 0 in
                mret (Some (mkPool (p_addr p) (p_src p) (p_target_depth p) (nd :: p_dests p), O))
            end
        end
    end.

(** The loop of [evict_expired]; [n] is the number of iterations left, [r] and
    [w] the read and write positions. *)
Fixpoint evict_loop (n : nat) (now : Z) (es : list Pool_entry) (r w : nat)
    : M World (list Pool_entry * nat) :=
  match n with
  | O => mret (es, w)
  | S n' =>
      e ← arr_get es r;
      if now <? pe_expires_at e then
        es' ← (if negb (w =? r)%nat then arr_set es w e else mret es);
        evict_loop n' now es' (S r) (S w)
      else
        es' ← entry_clear es r;
        evict_loop n' now es' (S r) w
  end.

Definition evict_expired (d : Pool_dest) : M World Pool_dest :=
  now ← time;
  '(es, w) ← evict_loop (pd_count d) now (pd_entries d) 0 0;
  mret (mkDest (pd_addr d) (pd_dest d) (pd_arr d) es w).

(** The refill loop of [pool_maintain]; every iteration that does not leave the
    loop adds an entry, so fuel [S target_depth] is never exhausted.  The expiry
    is the sum of the clock and the clamped lifetime, which must not overflow. *)
Fixpoint fill_loop (fuel : nat) (src : Pool_source_fn) (target : Z) (dest : list Z)
    (d : Pool_dest) : M World Pool_dest :=
  match fuel with
  | O => ub
  | S fuel' =>
      if Z.of_nat (pd_count d) <? target then
        r ← src dest GROUP_MAX;
        match r with
        | None => mret d
        | Some f =>
            now ← time;
            expires ← add_long now (if 0 <? f_lifetime f then f_lifetime f else 0);
            es ← arr_set (pd_entries d) (pd_count d)
                   (mkEntry (f_der f) (f_der_len f) (f_is_pqc f)
                      (snprintf_s GROUP_MAX (f_group f)) expires);
            fill_loop fuel' src target dest
              (mkDest (pd_addr d) (pd_dest d) (pd_arr d) es (S (pd_count d)))
        end
      else mret d
  end.

Definition pool_maintain (p : Pool) (dest : list Z) : M World (Z * Pool) :=
  r ← dest_intern p dest;
  match r with
  | None => mret (0, p)
  | Some (p, i) =>
      d ← arr_get (p_dests p) i;
      d ← evict_expired d;
      d ← fill_loop (S (Z.to_nat (p_target_depth p))) (p_src p) (p_target_depth p) dest d;
      mret (Z.of_nat (pd_count d), set_dest p i d)
  end.

Definition pool_depth (p : Pool) (dest : list Z) : M World (Z * Pool) :=
  match dest_find (p_dests p) dest with
  | None => mret (0, p)
  | Some i =>
      d ← arr_get (p_dests p) i;
      d ← evict_expired d;
      mret (Z.of_nat (pd_count d), set_dest p i d)
  end.

(** What a hit leaves in the out-parameters of [pool_get]. *)
Record Got := mkGot {
  g_der : option nat;
  g_der_len : Z;
  g_is_pqc : Z;
  g_group : option (list Z)
}.

Definition pool_get (p : Pool) (dest : list Z) (group : option nat)
    : M World (option Got * Pool) :=
  match dest_find (p_dests p) dest with
  | None => mret (None, p)
  | Some i =>
      d ← arr_get (p_dests p) i;
      d ← evict_expired d;
      if (pd_count d =? 0)%nat then mret (None, set_dest p i d)
      else
        let c := (pd_count d - 1)%nat in
        e ← arr_get (pd_entries d) c;
        es ← arr_set (pd_entries d) c zero_entry;
        mret (Some (mkGot (pe_der e) (pe_der_len e) (pe_is_pqc e)
                      (snprintf_opt group (pe_group e))),
              set_dest p i (mkDest (pd_addr d) (pd_dest d) (pd_arr d) es c))
  end.

End Operations.

(** ** Invariant and abstraction *)

(** The cells in use. *)
Definition live (d : Pool_dest) : list Pool_entry := take (pd_count d) (pd_entries d).

Definition entry_ok (h : gmap nat (list Z)) (e : Pool_entry) : Prop :=
  exists l bs, pe_der e = Some l /\ h !! l = Some bs /\
    pe_der_len e = Z.of_nat (length bs) /\ 0 < pe_der_len e < 2 ^ 31 /\
    (length (pe_group e) < GROUP_MAX)%nat /\ no_nul (pe_group e) = true.

Definition dest_ok (target : Z) (h : gmap nat (list Z)) (d : Pool_dest) : Prop :=
  Z.of_nat (length (pd_entries d)) = target /\
  (pd_count d <= length (pd_entries d))%nat /\
  strlen (pd_dest d) <= DEST_MAX /\
  Forall (entry_ok h) (live d).

Definition ders (es : list Pool_entry) : list nat := omap pe_der es.
Arguments ders : simpl never.
Definition dest_blocks (d : Pool_dest) : list nat := pd_addr d :: pd_arr d :: ders (live d).
Definition dests_blocks (ds : list Pool_dest) : list nat := mjoin (dest_blocks <$> ds).
Definition pool_blocks (p : Pool) : list nat := p_addr p :: dests_blocks (p_dests p).

(** Every block the pool refers to is allocated and referred to once, the arrays
    have their capacity, and a destination has one node. *)
Definition pool_inv (p : Pool) (w : World) : Prop :=
  heap_wf w /\ 1 <= p_target_depth p /\
  Forall (dest_ok (p_target_depth p) (w_heap w)) (p_dests p) /\
  NoDup (pool_blocks p) /\
  Forall (fun l => is_Some (w_heap w !! l)) (pool_blocks p) /\
  NoDup (pd_dest <$> p_dests p).

Record session := mkSession {
  s_der : list Z;
  s_is_pqc : Z;
  s_group : list Z;
  s_expires_at : Z
}.

Definition abs_entry (h : gmap nat (list Z)) (e : Pool_entry) : option session :=
  bs ← (pe_der e ≫= fun l => h !! l);
  Some (mkSession bs (pe_is_pqc e) (pe_group e) (pe_expires_at e)).

Definition abs_dest (h : gmap nat (list Z)) (d : Pool_dest) : list session :=
  omap (abs_entry h) (live d).

(** The sessions held for a destination, oldest first. *)
Definition sessions (p : Pool) (w : World) (dest : list Z) : list session :=
  match dest_find (p_dests p) dest with
  | None => []
  | Some i => from_option (abs_dest (w_heap w)) [] (p_dests p !! i)
  end.

(** A source that never fails. *)
Definition source_total (src : Pool_source_fn) : Prop :=
  forall dest cap w, heap_wf w -> returns (src dest cap) w (fun r _ => is_Some r).

(** What a computation on one destination guarantees: its identity is kept, it
    stays well formed, and its buffers moved from [live d] to [live d'] plus the
    blocks [out] handed to the caller. *)
Definition dest_step (t : Z) (out : list nat) (d d' : Pool_dest) (w w' : World) : Prop :=
  heap_wf w' /\ world_le w w' /\
  pd_addr d' = pd_addr d /\ pd_dest d' = pd_dest d /\ pd_arr d' = pd_arr d /\
  dest_ok t (w_heap w') d' /\ NoDup (out ++ ders (live d')) /\
  owns_step (ders (live d)) (out ++ ders (live d')) (w_heap w) (w_heap w').

(** The same for an operation on the whole pool. *)
Definition pool_step (out : list nat) (p p' : Pool) (w w' : World) : Prop :=
  pool_inv p' w' /\ world_le w w' /\
  p_src p' = p_src p /\ p_target_depth p' = p_target_depth p /\
  NoDup (out ++ pool_blocks p') /\
  owns_step (pool_blocks p) (out ++ pool_blocks p') (w_heap w) (w_heap w').

(** The blocks of the pool other than the buffers of the destination at [i]. *)
Definition rest_blocks (p : Pool) (i : nat) : list nat :=
  p_addr p :: dests_blocks (take i (p_dests p)) ++ dests_blocks (drop (S i) (p_dests p)) ++
  match p_dests p !! i with Some d => [pd_addr d; pd_arr d] | None => [] end.

Definition fresh_at (now : Z) (s : session) : bool := now <? s_expires_at s.

(** ** Lemmas: entries and their buffers *)

Lemma elem_of_ders (es : list Pool_entry) (l : nat) :
  l ∈ ders es <-> exists e, e ∈ es /\ pe_der e = Some l.
Proof. apply list_elem_of_omap. Qed.

Lemma ders_app (es fs : list Pool_entry) : ders (es ++ fs) = ders es ++ ders fs.
Proof. apply omap_app. Qed.

Lemma ders_filter_sublist (f : Pool_entry -> bool) (es : list Pool_entry) :
  ders (List.filter f es) `sublist_of` ders es.
Proof.
  unfold ders. induction es as [|e es IH]; simpl; [done|].
  destruct (f e); simpl; destruct (pe_der e); simpl; auto using sublist.
Qed.

Lemma elem_of_ders_filter (f : Pool_entry -> bool) (es : list Pool_entry) (l : nat) :
  NoDup (ders es) -> l ∈ ders es ->
  l ∈ ders (List.filter f es) <-> l ∉ ders (List.filter (fun e => negb (f e)) es).
Proof.
  unfold ders. induction es as [|e es IH]; simpl; [set_solver|].
  intros Hnd Hl.
  assert (forall g, l ∈ omap pe_der (List.filter g es) -> l ∈ omap pe_der es) as Hsub.
  { intros g Hg. by eapply elem_of_sublist, ders_filter_sublist. }
  destruct (f e); simpl; destruct (pe_der e) as [k|] eqn:Ek; simpl in *; auto.
  - apply NoDup_cons in Hnd as [Hk Hnd]. rewrite elem_of_cons in Hl |- *.
    destruct (decide (l = k)) as [->|Hlk]; [|rewrite <- IH; naive_solver].
    split; [|by left]. intros _ Hc. by apply Hk, (Hsub (fun e => negb (f e))).
  - apply NoDup_cons in Hnd as [Hk Hnd]. rewrite elem_of_cons in Hl. rewrite not_elem_of_cons.
    destruct (decide (l = k)) as [->|Hlk]; [|rewrite IH by naive_solver; naive_solver].
    split; [|naive_solver]. intros Hc. by apply Hsub in Hc.
Qed.

Lemma entry_ok_ext (h h' : gmap nat (list Z)) (e : Pool_entry) :
  (forall l, pe_der e = Some l -> h' !! l = h !! l) -> entry_ok h e -> entry_ok h' e.
Proof.
  intros Hext (l & bs & Hl & Hb & Hrest). exists l, bs. by rewrite Hext.
Qed.

Lemma entries_ok_ext (h h' : gmap nat (list Z)) (es : list Pool_entry) :
  (forall l, l ∈ ders es -> h' !! l = h !! l) -> Forall (entry_ok h) es -> Forall (entry_ok h') es.
Proof.
  rewrite !Forall_forall. intros Hext Hok e He. apply (entry_ok_ext h); [|by apply Hok].
  intros l Hl. apply Hext, elem_of_ders. eauto.
Qed.

Lemma abs_entries_ext (h h' : gmap nat (list Z)) (es : list Pool_entry) :
  (forall l, l ∈ ders es -> h' !! l = h !! l) -> omap (abs_entry h') es = omap (abs_entry h) es.
Proof.
  unfold ders. induction es as [|e es IH]; intros Hext; [done|]. rewrite !omap_cons in *.
  assert (abs_entry h' e = abs_entry h e) as ->.
  { unfold abs_entry. destruct (pe_der e) as [l|]; simpl in *; [|done].
    rewrite Hext by set_solver. done. }
  rewrite IH; [done|]. intros l Hl. apply Hext. destruct (pe_der e); set_solver.
Qed.

Lemma entries_ok_alloc (h : gmap nat (list Z)) (es : list Pool_entry) (l : nat) :
  Forall (entry_ok h) es -> l ∈ ders es -> is_Some (h !! l).
Proof.
  intros Hok (e & He & Hl)%elem_of_ders. rewrite Forall_forall in Hok.
  destruct (Hok e He) as (l' & bs & ? & ? & _). simplify_eq. eauto.
Qed.

Lemma abs_entry_ok (h : gmap nat (list Z)) (e : Pool_entry) :
  entry_ok h e -> exists s, abs_entry h e = Some s /\ s_expires_at s = pe_expires_at e /\
    s_is_pqc s = pe_is_pqc e /\ s_group s = pe_group e /\ pe_der_len e = Z.of_nat (length (s_der s)).
Proof.
  intros (l & bs & Hl & Hb & Hlen & _). unfold abs_entry. rewrite Hl. simpl. rewrite Hb. simpl.
  eexists. naive_solver.
Qed.

(** Abstraction commutes with dropping the expired entries. *)
Lemma abs_filter (h : gmap nat (list Z)) (now : Z) (es : list Pool_entry) :
  Forall (entry_ok h) es ->
  omap (abs_entry h) (List.filter (fun e => now <? pe_expires_at e) es) =
  List.filter (fresh_at now) (omap (abs_entry h) es).
Proof.
  induction 1 as [|e es He _ IH]; [done|].
  destruct (abs_entry_ok _ _ He) as (s & Hs & Hexp & _). rewrite (omap_cons _ e es), Hs.
  cbn [List.filter]. unfold fresh_at at 1. rewrite Hexp.
  destruct (now <? pe_expires_at e); [rewrite omap_cons, Hs|]; by rewrite IH.
Qed.

Lemma abs_length (h : gmap nat (list Z)) (es : list Pool_entry) :
  Forall (entry_ok h) es -> length (omap (abs_entry h) es) = length es.
Proof.
  induction 1 as [|e es He _ IH]; [done|].
  destruct (abs_entry_ok _ _ He) as (s & Hs & _). rewrite omap_cons, Hs. simpl. by rewrite IH.
Qed.

(** ** Lemmas: the loops *)

Section Loops.
Context {env : Env} {bad : Prop}.

Abbreviation keeps now := (fun e => now <? pe_expires_at e).
Abbreviation expired now := (fun e => negb (now <? pe_expires_at e)).

Lemma returns_entry_clear (es : list Pool_entry) (i : nat) (e : Pool_entry) (w : World)
    (Q : list Pool_entry -> World -> Prop) :
  es !! i = Some e -> entry_ok (w_heap w) e ->
  Q (<[i:=zero_entry]> es) (mkWorld (free_all (ders [e]) (w_heap w)) (w_next w) (w_step w)) ->
  returns_or bad (entry_clear es i) w Q.
Proof.
  intros Hi (l & bs & Hl & Hb & _) HQ. unfold entry_clear, ders in *.
  apply returns_bind. eapply returns_arr_get; [done|].
  rewrite omap_cons, Hl in HQ. simpl in HQ. rewrite Hl.
  apply returns_bind, returns_free; [by rewrite Hb|].
  apply returns_arr_set; [by eapply lookup_lt_Some|done].
Qed.

(** One loop iteration removes an entry [e] from the front of the unread part;
    the rest stays well formed when the buffer of [e] is freed. *)
Lemma entries_ok_free (h : gmap nat (list Z)) (e : Pool_entry) (es : list Pool_entry) :
  NoDup (ders (e :: es)) -> Forall (entry_ok h) es ->
  Forall (entry_ok (free_all (ders [e]) h)) es.
Proof.
  intros Hnd. apply entries_ok_ext. intros l Hl. rewrite free_all_lookup, decide_False; [done|].
  change (e :: es) with ([e] ++ es) in Hnd. rewrite ders_app in Hnd.
  apply NoDup_app in Hnd as (_ & Hd & _). intros Hc. by apply (Hd l).
Qed.

Lemma NoDup_ders_tail (e : Pool_entry) (es : list Pool_entry) :
  NoDup (ders (e :: es)) -> NoDup (ders es).
Proof.
  unfold ders. rewrite omap_cons. destruct (pe_der e); [|done]. by intros [_ ?]%NoDup_cons.
Qed.

Lemma free_all_app (ls ks : list nat) (h : gmap nat (list Z)) :
  free_all ls (free_all ks h) = free_all (ls ++ ks) h.
Proof. unfold free_all. by rewrite foldr_app. Qed.

Lemma free_all_perm (ls ks : list nat) (h : gmap nat (list Z)) :
  ls ≡ₚ ks -> free_all ls h = free_all ks h.
Proof.
  intros Hp. apply map_eq. intros l. rewrite !free_all_lookup.
  apply decide_ext. by rewrite Hp.
Qed.

Lemma evict_loop_spec (n : nat) (now : Z) (es : list Pool_entry) (r w : nat) (wd : World) :
  (w <= r)%nat -> (r + n <= length es)%nat ->
  Forall (entry_ok (w_heap wd)) (take n (drop r es)) ->
  NoDup (ders (take n (drop r es))) ->
  returns_or bad (evict_loop n now es r w) wd (fun '(es', w') wd' =>
    length es' = length es /\ (w' <= r + n)%nat /\
    take w' es' = take w es ++ List.filter (keeps now) (take n (drop r es)) /\
    wd' = mkWorld (free_all (ders (List.filter (expired now) (take n (drop r es)))) (w_heap wd))
            (w_next wd) (w_step wd)).
Proof.
  revert es r w wd. induction n as [|n IH]; intros es r w wd Hwr Hlen Hok Hnd.
  { apply returns_ret. rewrite take_0, app_nil_r. destruct wd. simpl. repeat split; lia. }
  destruct (lookup_lt_is_Some_2 es r) as [e He]; [lia|].
  rewrite (drop_S es e r) in * by done. rewrite firstn_cons in *.
  apply Forall_cons in Hok as [Hoke Hok].
  apply returns_bind. eapply returns_arr_get; [done|]. cbn [List.filter].
  destruct (now <? pe_expires_at e) eqn:Enow; cbn [negb].
  - apply NoDup_ders_tail in Hnd. apply returns_bind.
    assert (forall es', length es' = length es -> drop (S r) es' = drop (S r) es ->
      take (S w) es' = take w es ++ [e] ->
      returns_or bad (evict_loop n now es' (S r) (S w)) wd (fun '(es'', w') wd' =>
        length es'' = length es /\ (w' <= r + S n)%nat /\
        take w' es'' = take w es ++ e :: List.filter (keeps now) (take n (drop (S r) es)) /\
        wd' = mkWorld (free_all (ders (List.filter (expired now) (take n (drop (S r) es))))
                (w_heap wd)) (w_next wd) (w_step wd))) as Hstep.
    { intros es' Hl Hdr Htk. eapply returns_mono; [apply IH|]; rewrite ?Hdr; try done; try lia.
      intros [es'' w'] wd' (Hl'' & Hw' & Htk' & Hwd'). rewrite Htk', Htk, <- app_assoc.
      repeat split; [lia|lia|done]. }
    destruct (w =? r)%nat eqn:Ewr; bool_prop; cbn [negb].
    + apply returns_ret, Hstep; [done..|]. subst. by apply take_S_r.
    + apply returns_arr_set; [lia|]. apply Hstep.
      * apply length_insert.
      * apply drop_insert_lt. lia.
      * apply take_S_insert. lia.
  - apply returns_bind. eapply returns_entry_clear; [done..|].
    eapply returns_mono; [apply IH|].
    + lia.
    + rewrite length_insert. lia.
    + rewrite drop_insert_lt by lia. simpl. by apply entries_ok_free.
    + rewrite drop_insert_lt by lia. by apply NoDup_ders_tail in Hnd.
    + rewrite length_insert, drop_insert_lt by lia.
      intros [es' w'] wd' (Hl & Hw' & Htk & ->). rewrite take_insert_ge in Htk by lia.
      repeat split; [done|lia|done|]. f_equal. simpl. rewrite free_all_app.
      apply free_all_perm.
      etrans; [apply Permutation_app_comm|]. by rewrite <- ders_app.
Qed.

Lemma evict_expired_spec (t : Z) (d : Pool_dest) (w : World) :
  dest_ok t (w_heap w) d -> NoDup (ders (live d)) ->
  returns_or bad (evict_expired d) w (fun d' w' =>
    let now := env_time (w_step w) in
    pd_addr d' = pd_addr d /\ pd_dest d' = pd_dest d /\ pd_arr d' = pd_arr d /\
    length (pd_entries d') = length (pd_entries d) /\
    (pd_count d' <= length (pd_entries d'))%nat /\
    live d' = List.filter (keeps now) (live d) /\
    w' = mkWorld (free_all (ders (List.filter (expired now) (live d))) (w_heap w))
           (w_next w) (S (w_step w))).
Proof.
  intros (_ & Hc & _ & Hok) Hnd. unfold evict_expired, live in *.
  apply returns_bind, returns_time. apply returns_bind.
  eapply returns_mono; [apply evict_loop_spec; rewrite ?drop_0; simpl; done || lia|].
  rewrite drop_0. intros [es c] w' (Hl & Hc' & Htk & ->). apply returns_ret. simpl in *.
  repeat split; [done|lia|]. by rewrite Htk.
Qed.

Lemma filter_partition_ders (now : Z) (es : list Pool_entry) (h : gmap nat (list Z)) :
  NoDup (ders es) -> (forall l, l ∈ ders es -> is_Some (h !! l)) ->
  owns_step (ders es) (ders (List.filter (keeps now) es)) h
    (free_all (ders (List.filter (expired now) es)) h).
Proof.
  intros Hnd Hal. split.
  - intros l Hl. rewrite free_all_lookup. destruct (decide (l ∈ ders es)) as [He|He].
    + rewrite decide_True; [done|]. destruct (decide (l ∈ ders (List.filter (expired now) es)))
        as [|Hn]; [done|]. by apply elem_of_ders_filter in Hn.
    + rewrite decide_False; [done|]. intros Hc. apply He.
      by eapply elem_of_sublist, ders_filter_sublist.
  - intros l Hl Hn. destruct Hn. by eapply elem_of_sublist, ders_filter_sublist.
Qed.

Lemma evict_expired_step (t : Z) (d : Pool_dest) (w : World) :
  heap_wf w -> dest_ok t (w_heap w) d -> NoDup (ders (live d)) ->
  returns_or bad (evict_expired d) w (fun d' w' =>
    let now := env_time (w_step w) in
    dest_step t [] d d' w w' /\ w_step w' = S (w_step w) /\
    abs_dest (w_heap w') d' = List.filter (fresh_at now) (abs_dest (w_heap w) d)).
Proof.
  intros Hwf Hd Hnd. eapply returns_mono; [by eapply evict_expired_spec|].
  intros d' w' (Ha & Hn & Har & Hlen & Hc & Hlive & ->). simpl.
  destruct Hd as (Ht & _ & Hdl & Hok).
  assert (forall l, l ∈ ders (live d) -> is_Some (w_heap w !! l)) as Hal
    by (intros l; by apply entries_ok_alloc).
  pose proof (filter_partition_ders (env_time (w_step w)) (live d) (w_heap w) Hnd Hal) as Hown.
  assert (forall l, l ∈ ders (live d') ->
    free_all (ders (List.filter (expired (env_time (w_step w))) (live d))) (w_heap w) !! l
    = w_heap w !! l) as Hsame.
  { intros l Hl. rewrite free_all_lookup, decide_False; [done|]. rewrite Hlive in Hl.
    apply elem_of_ders_filter in Hl; [done..|]. by eapply elem_of_sublist, ders_filter_sublist. }
  assert (Forall (entry_ok (w_heap w)) (live d')) as Hok'.
  { rewrite Hlive. apply List.Forall_forall. intros e [He _]%List.filter_In.
    by eapply List.Forall_forall in Hok. }
  split_and!; [|done|].
  - split_and!; simpl; try done; try lia.
    + intros l. simpl. rewrite free_all_lookup. case_decide; [by intros []|apply Hwf].
    + split; simpl; lia.
    + split_and!; [lia|done|by rewrite Hn|]. by eapply entries_ok_ext.
    + rewrite Hlive. by eapply sublist_NoDup, ders_filter_sublist.
    + rewrite Hlive. done.
  - unfold abs_dest. rewrite (abs_entries_ext (w_heap w)) by done.
    rewrite Hlive. by apply abs_filter.
Qed.

Lemma dest_step_refl (t : Z) (d : Pool_dest) (w : World) :
  heap_wf w -> dest_ok t (w_heap w) d -> NoDup (ders (live d)) -> dest_step t [] d d w w.
Proof.
  intros Hwf Hd Hnd. split_and!; try done; auto with tc.
  apply owns_step_refl. intros l. destruct Hd as (_ & _ & _ & Hok). by apply entries_ok_alloc.
Qed.

Lemma dest_step_trans (t : Z) (out : list nat) (d1 d2 d3 : Pool_dest) (w1 w2 w3 : World) :
  dest_step t [] d1 d2 w1 w2 -> dest_step t out d2 d3 w2 w3 -> dest_step t out d1 d3 w1 w3.
Proof.
  intros (_ & Hle & Ha & Hn & Har & _ & _ & Ho) (Hwf & Hle' & Ha' & Hn' & Har' & Hd & Hnd & Ho').
  split_and!; try congruence; try done; [by eapply world_le_trans|by eapply owns_step_trans].
Qed.

(** Storing a fetched session in the first free cell. *)
Lemma add_entry_step (t : Z) (d : Pool_dest) (f : Fetched) (l : nat) (bs : list Z) (exp : Z)
    (w w' : World) :
  heap_wf w' -> world_le w w' -> dest_ok t (w_heap w) d -> NoDup (ders (live d)) ->
  (pd_count d < length (pd_entries d))%nat ->
  f_der f = Some l -> w_heap w !! l = None -> w_heap w' = <[l := bs]> (w_heap w) ->
  f_der_len f = Z.of_nat (length bs) -> 0 < f_der_len f < 2 ^ 31 ->
  (length (f_group f) < GROUP_MAX)%nat -> no_nul (f_group f) = true ->
  let e := mkEntry (f_der f) (f_der_len f) (f_is_pqc f) (snprintf_s GROUP_MAX (f_group f)) exp in
  let d' := mkDest (pd_addr d) (pd_dest d) (pd_arr d) (<[pd_count d:=e]> (pd_entries d))
              (S (pd_count d)) in
  dest_step t [] d d' w w' /\
  abs_dest (w_heap w') d' = abs_dest (w_heap w) d ++ [mkSession bs (f_is_pqc f) (f_group f) exp].
Proof.
  intros Hwf Hle Hd Hnd Hc Hl Hfree Hh Hlen Hb Hg Hgn e d'.
  destruct Hd as (Ht & Hcl & Hdl & Hok).
  assert (live d' = live d ++ [e]) as Hlive by (apply take_S_insert; lia).
  assert (l ∉ ders (live d)) as Hnl.
  { intros Hc'. destruct (entries_ok_alloc _ _ _ Hok Hc'). congruence. }
  assert (forall k, k ∈ ders (live d) -> w_heap w' !! k = w_heap w !! k) as Hsame.
  { intros k Hk. rewrite Hh, lookup_insert_ne; [done|]. congruence. }
  assert (ders [e] = [l]) as He by (unfold ders; rewrite omap_cons; simpl; by rewrite Hl).
  assert (w_heap w' !! l = Some bs) as Hlb by (rewrite Hh; apply lookup_insert_eq).
  split; [split_and!; try done|].
  - split_and!; simpl; rewrite ?length_insert; try lia.
    rewrite Hlive. apply Forall_app. split; [by eapply entries_ok_ext|]. apply Forall_singleton.
    exists l, bs. simpl. rewrite snprintf_s_id by done. done.
  - simpl. rewrite Hlive, ders_app, He. apply NoDup_app. split_and!; [done| |apply NoDup_singleton].
    intros k Hk ->%list_elem_of_singleton. done.
  - simpl. rewrite Hlive, ders_app, He. split.
    + intros k Hk. rewrite Hh, lookup_insert_ne by set_solver. rewrite decide_False; set_solver.
    + intros k Hk Hn. assert (k = l) as -> by set_solver. done.
  - unfold abs_dest. rewrite Hlive, omap_app, (abs_entries_ext (w_heap w)) by done. f_equal.
    rewrite omap_cons. unfold abs_entry. simpl. rewrite Hl. simpl. rewrite Hlb. simpl.
    by rewrite snprintf_s_id.
Qed.

Lemma fill_loop_step (fuel : nat) (src : Pool_source_fn) (t : Z) (dest : list Z)
    (d : Pool_dest) (w : World) :
  SourceOkOr bad src -> heap_wf w -> dest_ok t (w_heap w) d -> NoDup (ders (live d)) ->
  t - Z.of_nat (pd_count d) < Z.of_nat fuel ->
  returns_or bad (fill_loop fuel src t dest d) w (fun d' w' =>
    dest_step t [] d d' w w' /\
    (exists new, abs_dest (w_heap w') d' = abs_dest (w_heap w) d ++ new) /\
    (source_total src -> Z.of_nat (pd_count d') = t)).
Proof.
  intros Hsrc. revert d w. induction fuel as [|fuel IH]; intros d w Hwf Hd Hnd Hf.
  { destruct Hd as (Ht & Hc & _). lia. }
  simpl. destruct (Z.of_nat (pd_count d) <? t) eqn:Ec; bool_prop.
  2: { apply returns_ret. split_and!; [by apply dest_step_refl|by exists []; rewrite app_nil_r|].
       intros _. destruct Hd as (Ht & Hc & _). lia. }
  apply returns_bind. eapply returns_eqn; [apply Hsrc; [done|unfold GROUP_MAX; lia]|].
  intros r w1 Hr (Hwf1 & Hle1 & Hres). destruct r as [f|].
  2: { apply returns_ret. split_and!.
       - destruct (dest_step_refl t d w) as (? & ? & ? & ? & ? & ? & ? & ?); [done..|].
         unfold dest_step. rewrite Hres. split_and!; done.
       - exists []. by rewrite app_nil_r, Hres.
       - intros Htot. by destruct (returns_det _ _ _ _ _ (Htot dest GROUP_MAX w Hwf) Hr). }
  destruct Hres as (l & bs & Hl & Hfree & Hh & Hlen & Hb & Hg & Hgn & Hlt).
  assert (pd_count d < length (pd_entries d))%nat as Hcl by (destruct Hd as (Ht & _); lia).
  pose proof (env_time_ok (w_step w1)) as Hnow.
  apply returns_bind, returns_time, returns_bind, returns_add_long; [case_if; lia|].
  apply returns_bind, returns_arr_set; [done|]. set (exp := env_time _ + _).
  destruct (add_entry_step t d f l bs exp w (tick w1)) as [Hst Habs]; try done.
  { eapply world_le_trans; [done|apply world_le_tick]. }
  pose proof Hst as (Hwf2 & _ & _ & _ & _ & Hd2 & Hnd2 & _).
  eapply returns_mono; [apply IH; try done; simpl in *; lia|].
  intros d' w' (Hst' & (new & Hnew) & Htot). split_and!; [|rewrite Hnew, Habs|done].
  - by eapply dest_step_trans.
  - eexists. by rewrite <- app_assoc.
Qed.

End Loops.

(** ** Lemmas: the list of destinations *)

Lemma dest_find_Some (ds : list Pool_dest) (dest : list Z) (i : nat) :
  dest_find ds dest = Some i -> exists d, ds !! i = Some d /\ pd_dest d = dest.
Proof.
  revert i. induction ds as [|d ds IH]; intros i; simpl; [done|].
  destruct (strcmp_eq (pd_dest d) dest) eqn:E.
  - intros [= <-]. apply strcmp_eq_true in E. eauto.
  - intros (j & Hj & ->)%fmap_Some. apply IH in Hj. done.
Qed.

Lemma dest_find_None (ds : list Pool_dest) (dest : list Z) :
  dest_find ds dest = None -> dest ∉ pd_dest <$> ds.
Proof.
  induction ds as [|d ds IH]; simpl; [set_solver|].
  destruct (strcmp_eq (pd_dest d) dest) eqn:E; [done|].
  apply strcmp_eq_false in E. intros H%fmap_None. apply IH in H. set_solver.
Qed.

Lemma dest_find_lookup (ds : list Pool_dest) (i : nat) (d : Pool_dest) :
  NoDup (pd_dest <$> ds) -> ds !! i = Some d -> dest_find ds (pd_dest d) = Some i.
Proof.
  revert i. induction ds as [|d0 ds IH]; intros i Hnd Hi; [done|]. simpl in *.
  apply NoDup_cons in Hnd as [Hn Hnd]. destruct i as [|i]; simpl in Hi.
  - simplify_eq. by rewrite strcmp_eq_refl.
  - destruct (strcmp_eq (pd_dest d0) (pd_dest d)) eqn:E.
    + apply strcmp_eq_true in E. destruct Hn. rewrite E. apply list_elem_of_fmap.
      exists d. split; [done|]. by eapply list_elem_of_lookup_2.
    + by rewrite (IH i).
Qed.

Lemma dest_find_names (ds ds' : list Pool_dest) (dest : list Z) :
  pd_dest <$> ds = pd_dest <$> ds' -> dest_find ds dest = dest_find ds' dest.
Proof.
  revert ds'. induction ds as [|d ds IH]; intros [|d' ds'] H; try done. simpl in *.
  injection H as Hd H. by rewrite Hd, (IH ds').
Qed.

Lemma set_dest_names (p : Pool) (i : nat) (d d' : Pool_dest) :
  p_dests p !! i = Some d -> pd_dest d' = pd_dest d ->
  pd_dest <$> p_dests (set_dest p i d') = pd_dest <$> p_dests p.
Proof.
  intros Hi Hn. simpl. rewrite list_fmap_insert, Hn. apply list_insert_id.
  by rewrite list_lookup_fmap, Hi.
Qed.

Lemma pool_blocks_split (p : Pool) (i : nat) (d : Pool_dest) :
  p_dests p !! i = Some d -> pool_blocks p ≡ₚ ders (live d) ++ rest_blocks p i.
Proof.
  intros Hi. unfold pool_blocks, rest_blocks, dests_blocks. rewrite Hi.
  rewrite <- (take_drop_middle (p_dests p) i d Hi) at 1.
  rewrite fmap_app, fmap_cons, join_app. simpl. unfold dest_blocks at 2. solve_Permutation.
Qed.

Lemma rest_blocks_set (p : Pool) (i : nat) (d d' : Pool_dest) :
  p_dests p !! i = Some d -> pd_addr d' = pd_addr d -> pd_arr d' = pd_arr d ->
  rest_blocks (set_dest p i d') i = rest_blocks p i.
Proof.
  intros Hi Ha Har. unfold rest_blocks. simpl.
  rewrite take_insert_ge, drop_insert_lt by lia.
  rewrite list_lookup_insert_eq by (by eapply lookup_lt_Some). by rewrite Hi, Ha, Har.
Qed.

Lemma rest_blocks_other (p : Pool) (i j : nat) (dj : Pool_dest) (l : nat) :
  i <> j -> p_dests p !! j = Some dj -> l ∈ ders (live dj) -> l ∈ rest_blocks p i.
Proof.
  intros Hij Hj Hl.
  assert (l ∈ dest_blocks dj) as Hb by (unfold dest_blocks; set_solver).
  assert (forall ds, dj ∈ ds -> l ∈ dests_blocks ds) as Hin.
  { intros ds Hd. apply list_elem_of_join. exists (dest_blocks dj). split; [done|].
    apply list_elem_of_fmap. eauto. }
  unfold rest_blocks. destruct (decide (j < i)%nat).
  - assert (dj ∈ take i (p_dests p)).
    { apply list_elem_of_lookup. exists j. by rewrite lookup_take_lt. }
    set_solver.
  - assert (dj ∈ drop (S i) (p_dests p)).
    { apply list_elem_of_lookup. exists (j - S i)%nat. rewrite lookup_drop. rewrite <- Hj.
      f_equal. lia. }
    set_solver.
Qed.

(** ** Lemmas: from one destination to the pool *)

Lemma pool_inv_dest (p : Pool) (w : World) (i : nat) (d : Pool_dest) :
  pool_inv p w -> p_dests p !! i = Some d ->
  heap_wf w /\ dest_ok (p_target_depth p) (w_heap w) d /\ NoDup (ders (live d)).
Proof.
  intros (Hwf & _ & Hok & Hnd & _) Hi. split_and!; [done|by eapply Forall_lookup_1 in Hok|].
  rewrite pool_blocks_split in Hnd by done. by apply NoDup_app in Hnd as [? _].
Qed.

Lemma dest_ok_ext (t : Z) (h h' : gmap nat (list Z)) (d : Pool_dest) :
  (forall l, l ∈ ders (live d) -> h' !! l = h !! l) -> dest_ok t h d -> dest_ok t h' d.
Proof. intros Hext (? & ? & ? & Hok). split_and!; try done. by eapply entries_ok_ext. Qed.

Section Update.
Context (p : Pool) (w w' : World) (i : nat) (d d' : Pool_dest) (out : list nat).
Context (Hinv : pool_inv p w) (Hi : p_dests p !! i = Some d).
Context (Hstep : dest_step (p_target_depth p) out d d' w w').

Lemma update_frame :
  owns_step (ders (live d) ++ rest_blocks p i)
    ((out ++ ders (live d')) ++ rest_blocks p i) (w_heap w) (w_heap w') /\
  NoDup ((out ++ ders (live d')) ++ rest_blocks p i) /\
  (forall l, l ∈ rest_blocks p i -> w_heap w' !! l = w_heap w !! l).
Proof.
  destruct Hinv as (_ & _ & _ & Hnd & Hal & _).
  destruct Hstep as (_ & _ & _ & _ & _ & _ & Hnd' & Hown).
  rewrite (pool_blocks_split p i d Hi) in Hnd, Hal.
  apply NoDup_app in Hnd as (_ & Hdisj & Hndr). apply Forall_app in Hal as [_ Hal].
  rewrite Forall_forall in Hal.
  destruct (owns_step_frame _ _ (rest_blocks p i) _ _ Hown) as [Hf Hr]; [naive_solver|done|].
  split_and!; [done| |naive_solver]. apply NoDup_app. naive_solver.
Qed.

Lemma update_names : pd_dest <$> p_dests (set_dest p i d') = pd_dest <$> p_dests p.
Proof. eapply set_dest_names; [done|]. by destruct Hstep as (_ & _ & _ & ? & _). Qed.

Lemma update_blocks : pool_blocks (set_dest p i d') ≡ₚ ders (live d') ++ rest_blocks p i.
Proof.
  destruct Hstep as (_ & _ & Ha & _ & Har & _).
  rewrite <- (rest_blocks_set p i d d') by done. apply pool_blocks_split. simpl.
  apply list_lookup_insert_eq. by eapply lookup_lt_Some.
Qed.

Lemma pool_update : pool_step out p (set_dest p i d') w w'.
Proof.
  destruct update_frame as (Hf & Hnd & Hr).
  pose proof Hinv as (Hwf & Ht & Hok & Hnd0 & Hal & Hnn).
  destruct Hstep as (Hwf' & Hle & _ & _ & _ & Hd' & _ & _).
  unfold pool_step. rewrite update_blocks, (pool_blocks_split p i d Hi), (assoc_L (++)).
  split_and!; try done. split_and!; try done.
  - apply Forall_lookup. intros j dj Hj. simpl in Hj.
    apply list_lookup_insert_Some in Hj as [(<- & <- & _)|[Hij Hj]]; [done|].
    apply (dest_ok_ext _ (w_heap w)); [|by eapply Forall_lookup_1 in Hok].
    intros l Hl. apply Hr. by eapply rest_blocks_other.
  - rewrite update_blocks. rewrite <- (assoc_L (++)) in Hnd. by apply NoDup_app in Hnd as (_ & _ & ?).
  - rewrite update_blocks. apply Forall_app. split.
    + apply Forall_forall. intros l. destruct Hd' as (_ & _ & _ & Hd'). by apply entries_ok_alloc.
    + rewrite (pool_blocks_split p i d Hi) in Hal. apply Forall_app in Hal as [_ Hal].
      apply Forall_forall. intros l Hl. rewrite Hr by done. by eapply Forall_forall in Hal.
  - by rewrite update_names.
Qed.

Lemma sessions_update_same : sessions (set_dest p i d') w' (pd_dest d) = abs_dest (w_heap w') d'.
Proof.
  unfold sessions. rewrite (dest_find_names _ (p_dests p)) by apply update_names.
  destruct Hinv as (_ & _ & _ & _ & _ & Hnn). rewrite (dest_find_lookup _ i) by done. simpl.
  by rewrite list_lookup_insert_eq by (by eapply lookup_lt_Some).
Qed.

Lemma sessions_lookup : sessions p w (pd_dest d) = abs_dest (w_heap w) d.
Proof.
  unfold sessions. destruct Hinv as (_ & _ & _ & _ & _ & Hnn).
  rewrite (dest_find_lookup _ i) by done. by rewrite Hi.
Qed.

Lemma sessions_update_other (dest : list Z) :
  dest <> pd_dest d -> sessions (set_dest p i d') w' dest = sessions p w dest.
Proof.
  intros Hne. unfold sessions. rewrite (dest_find_names _ (p_dests p)) by apply update_names.
  destruct (dest_find (p_dests p) dest) as [j|] eqn:E; [|done].
  apply dest_find_Some in E as (dj & Hj & <-).
  assert (i <> j) as Hij by congruence. simpl.
  rewrite list_lookup_insert_ne by done. rewrite Hj. simpl.
  apply abs_entries_ext. intros l Hl. destruct update_frame as (_ & _ & Hr). apply Hr.
  by eapply rest_blocks_other.
Qed.

End Update.
