(* ===== verification/PoolOps.v ===== *)
(** * PoolOps: the pool operations against their specification

    The operations of [Pool] are proved, without undefined behaviour and with
    termination, to implement the abstract inventory [sessions]: a stack of
    sessions per destination.  The ownership side ([pool_step]) says that every
    operation accounts for every heap block: nothing is leaked, freed twice or
    taken from the rest of the program. *)

From stdpp Require Import base numbers list gmap strings.
From S2P Require Import Prelude Runtime Pool.

Open Scope Z_scope.

(** ** A client of the pool: any sequence of calls *)

Inductive pool_op :=
  | OpMaintain (dest : list Z)
  | OpDepth (dest : list Z)
  | OpGet (dest : list Z).

Section Client.
Context {env : Env}.

Definition run_op (o : pool_op) (p : Pool) : M World (list Got * Pool) :=
  match o with
  | OpMaintain dest => '(_, p') ← pool_maintain p dest; mret ([], p')
  | OpDepth dest => '(_, p') ← pool_depth p dest; mret ([], p')
  | OpGet dest => '(r, p') ← pool_get p dest (Some GROUP_MAX); mret (option_list r, p')
  end.

(** The sessions handed out, in order, and the final pool. *)
Fixpoint run_ops (os : list pool_op) (p : Pool) : M World (list Got * Pool) :=
  match os with
  | [] => mret ([], p)
  | o :: os' =>
      '(g, p1) ← run_op o p;
      '(gs, p2) ← run_ops os' p1;
      mret (g ++ gs, p2)
  end.

End Client.

(** The heap blocks of the sessions handed out. *)
Definition got_blocks (gs : list Got) : list nat := omap g_der gs.
Arguments got_blocks : simpl never.

(** The entry [pool_get] must hand out for the session [s] of block [l]. *)
Definition got_is (h : gmap nat (list Z)) (group : option nat) (g : Got) (l : nat) (s : session)
    : Prop :=
  g_der g = Some l /\ h !! l = Some (s_der s) /\
  g_der_len g = Z.of_nat (length (s_der s)) /\ 0 < g_der_len g < 2 ^ 31 /\
  g_is_pqc g = s_is_pqc s /\ g_group g = snprintf_opt group (s_group s) /\
  (length (s_group s) < GROUP_MAX)%nat /\ no_nul (s_group s) = true.

(** ** Lemmas *)

Lemma pool_step_refl (p : Pool) (w w' : World) :
  pool_inv p w -> w_heap w' = w_heap w -> heap_wf w' -> world_le w w' -> pool_step [] p p w w'.
Proof.
  intros (Hwf & Ht & Hok & Hnd & Hal & Hnn) Hh Hwf' Hle.
  unfold pool_step, pool_inv. rewrite Hh. split_and!; try done.
  apply owns_step_refl. by apply Forall_forall.
Qed.

Lemma pool_step_trans (out : list nat) (p1 p2 p3 : Pool) (w1 w2 w3 : World) :
  pool_step [] p1 p2 w1 w2 -> pool_step out p2 p3 w2 w3 -> pool_step out p1 p3 w1 w3.
Proof.
  intros (_ & Hle & Hs & Ht & _ & Ho) (Hinv & Hle' & Hs' & Ht' & Hnd & Ho').
  split_and!; try congruence; try done; [by eapply world_le_trans|by eapply owns_step_trans].
Qed.

Lemma set_dest_set_dest (p : Pool) (i : nat) (d d' : Pool_dest) :
  set_dest (set_dest p i d) i d' = set_dest p i d'.
Proof. unfold set_dest. simpl. by rewrite list_insert_insert_eq. Qed.

Section Operations.
Context {env : Env} {bad : Prop}.

Lemma returns_find (p : Pool) (dest : list Z) (w : World) :
  pool_inv p w ->
  (dest_find (p_dests p) dest = None /\ sessions p w dest = []) \/
  exists i d, dest_find (p_dests p) dest = Some i /\ p_dests p !! i = Some d /\ pd_dest d = dest /\
    sessions p w dest = abs_dest (w_heap w) d.
Proof.
  intros Hinv. destruct (dest_find (p_dests p) dest) as [i|] eqn:E.
  - right. apply dest_find_Some in E as H. destruct H as (d & Hi & <-). exists i, d.
    split_and!; try done. by eapply sessions_lookup.
  - left. unfold sessions. by rewrite E.
Qed.

(** Eviction on the destination at [i], seen from the pool. *)
Lemma evict_in_pool (p : Pool) (w : World) (i : nat) (d : Pool_dest)
    (Q : Pool_dest -> World -> Prop) :
  pool_inv p w -> p_dests p !! i = Some d ->
  (forall d' w', dest_step (p_target_depth p) [] d d' w w' -> pd_dest d' = pd_dest d ->
     abs_dest (w_heap w') d' =
       List.filter (fresh_at (env_time (w_step w))) (sessions p w (pd_dest d)) ->
     Q d' w') ->
  returns_or bad (evict_expired d) w Q.
Proof.
  intros Hinv Hi HQ. destruct (pool_inv_dest p w i d Hinv Hi) as (Hwf & Hd & Hnd).
  eapply returns_mono; [by eapply evict_expired_step|].
  intros d' w' (Hst & _ & Habs). apply HQ; [done|by destruct Hst as (_ & _ & _ & ? & _)|].
  by rewrite (sessions_lookup p w i d).
Qed.

Lemma pool_depth_spec (p : Pool) (dest : list Z) (w : World) :
  pool_inv p w ->
  returns_or bad (pool_depth p dest) w (fun '(n, p') w' =>
    pool_step [] p p' w w' /\
    sessions p' w' dest = List.filter (fresh_at (env_time (w_step w))) (sessions p w dest) /\
    n = Z.of_nat (length (sessions p' w' dest)) /\
    (forall k, k <> dest -> sessions p' w' k = sessions p w k)).
Proof.
  intros Hinv. unfold pool_depth.
  destruct (returns_find p dest w Hinv) as [[-> Hs]|(i & d & -> & Hi & <- & _)].
  - apply returns_ret. rewrite Hs. split_and!; try done.
    destruct Hinv. by apply pool_step_refl; auto with tc.
  - apply returns_bind. eapply returns_arr_get; [done|].
    apply returns_bind. eapply evict_in_pool; [done..|]. intros d' w' Hst _ Habs.
    apply returns_ret. rewrite (sessions_update_same p w w' i d d' []) by done.
    split_and!; try done.
    + by eapply pool_update.
    + destruct Hst as (_ & _ & _ & _ & _ & (_ & Hc & _ & Hok) & _).
      unfold abs_dest. rewrite abs_length by done. unfold live. rewrite length_take. lia.
    + intros k Hk. by eapply sessions_update_other.
Qed.

(** Taking the last cell in use out of a destination. *)
Lemma pop_entry_step (t : Z) (d : Pool_dest) (e : Pool_entry) (c : nat) (w : World) :
  heap_wf w -> dest_ok t (w_heap w) d -> NoDup (ders (live d)) ->
  pd_count d = S c -> pd_entries d !! c = Some e ->
  let d' := mkDest (pd_addr d) (pd_dest d) (pd_arr d) (<[c:=zero_entry]> (pd_entries d)) c in
  exists l s, dest_step t [l] d d' w w /\
    abs_dest (w_heap w) d = abs_dest (w_heap w) d' ++ [s] /\
    (forall group, got_is (w_heap w) group
      (mkGot (pe_der e) (pe_der_len e) (pe_is_pqc e) (snprintf_opt group (pe_group e))) l s).
Proof.
  intros Hwf (Ht & Hcl & Hdl & Hok) Hnd Hc He d'.
  assert (live d' = take c (pd_entries d)) as Hlive' by (unfold live; simpl; by rewrite take_insert_ge).
  assert (live d = live d' ++ [e]) as Hlive.
  { rewrite Hlive'. unfold live. rewrite Hc. by apply take_S_r. }
  rewrite Hlive in Hok, Hnd. apply Forall_app in Hok as [Hok He'].
  apply Forall_singleton in He' as (l & bs & Hl & Hb & Hlen & Hrest).
  assert (ders [e] = [l]) as Hde by (unfold ders; rewrite omap_cons; by rewrite Hl).
  rewrite ders_app, Hde in Hnd.
  exists l, (mkSession bs (pe_is_pqc e) (pe_group e) (pe_expires_at e)). split_and!.
  - split_and!; try done; auto with tc.
    + split_and!; simpl; rewrite ?length_insert; [done|lia|done|done].
    + by rewrite Permutation_app_comm.
    + rewrite Hlive, ders_app, Hde, (Permutation_app_comm [l]). apply owns_step_refl.
      intros k [Hk|Hk]%elem_of_app; [by eapply entries_ok_alloc|].
      apply list_elem_of_singleton in Hk as ->. eauto.
  - unfold abs_dest. rewrite Hlive, omap_app. f_equal. rewrite omap_cons.
    unfold abs_entry. rewrite Hl. simpl. by rewrite Hb.
  - intros group. unfold got_is. simpl. naive_solver.
Qed.

Lemma pool_get_spec (p : Pool) (dest : list Z) (group : option nat) (w : World) :
  pool_inv p w ->
  returns_or bad (pool_get p dest group) w (fun '(r, p') w' =>
    let kept := List.filter (fresh_at (env_time (w_step w))) (sessions p w dest) in
    (forall k, k <> dest -> sessions p' w' k = sessions p w k) /\
    match r with
    | None => pool_step [] p p' w w' /\ kept = [] /\ sessions p' w' dest = []
    | Some g => exists l s, pool_step [l] p p' w w' /\
        kept = sessions p' w' dest ++ [s] /\ got_is (w_heap w') group g l s
    end).
Proof.
  intros Hinv. unfold pool_get.
  destruct (returns_find p dest w Hinv) as [[-> Hs]|(i & d & -> & Hi & <- & _)].
  { apply returns_ret. rewrite Hs. split_and!; try done.
    destruct Hinv. by apply pool_step_refl; auto with tc. }
  apply returns_bind. eapply returns_arr_get; [done|].
  apply returns_bind. eapply evict_in_pool; [done..|]. intros d1 w1 Hst _ Habs.
  pose proof Hst as (Hwf1 & _ & _ & _ & _ & Hd1 & Hnd1 & _).
  destruct (pd_count d1 =? 0)%nat eqn:Ec; bool_prop.
  - apply returns_ret. assert (abs_dest (w_heap w1) d1 = []) as Hnil.
    { unfold abs_dest, live. by rewrite Ec. }
    rewrite (sessions_update_same p w w1 i d d1 []) by done.
    split_and!; [intros k Hk; by eapply sessions_update_other|by eapply pool_update|congruence|done].
  - destruct (pd_count d1) as [|c] eqn:Hc; [done|]. simpl. rewrite Nat.sub_0_r.
    assert (c < length (pd_entries d1))%nat as Hlt by (destruct Hd1 as (_ & ? & _); lia).
    destruct (lookup_lt_is_Some_2 _ _ Hlt) as [e He].
    apply returns_bind. eapply returns_arr_get; [done|].
    apply returns_bind, returns_arr_set; [done|]. apply returns_ret.
    destruct (pop_entry_step _ d1 e c w1 Hwf1 Hd1 Hnd1 Hc He) as (l & s & Hpop & Hss & Hg).
    pose proof (dest_step_trans _ _ _ _ _ _ _ _ Hst Hpop) as Hall.
    split; [intros k Hk; by eapply sessions_update_other|].
    exists l, s. split_and!; [by eapply pool_update| |apply Hg].
    rewrite <- Habs, Hss. f_equal. symmetry. by eapply sessions_update_same.
Qed.

(** A destination added at the head of the list, with two fresh blocks. *)
Section InternNew.
Context (p : Pool) (dest : list Z) (w w' : World) (da ea : nat).
Context (Hinv : pool_inv p w) (Hn : dest ∉ pd_dest <$> p_dests p) (Hdl : strlen dest <= DEST_MAX).
Context (Hwf' : heap_wf w') (Hle : world_le w w') (Hne : da <> ea).
Context (Hda : w_heap w !! da = None) (Hea : w_heap w !! ea = None).
Context (Hh : w_heap w' = <[ea := []]> (<[da := []]> (w_heap w))).

Let nd := mkDest da dest ea (replicate (Z.to_nat (p_target_depth p)) zero_entry) 0.
Let p' := mkPool (p_addr p) (p_src p) (p_target_depth p) (nd :: p_dests p).

Lemma intern_new_same (l : nat) : l ∈ pool_blocks p -> w_heap w' !! l = w_heap w !! l.
Proof.
  destruct Hinv as (_ & _ & _ & _ & Hal & _). intros Hl.
  eapply Forall_forall in Hal as [bs Hbs]; [|done]. rewrite Hh, !lookup_insert_ne; congruence.
Qed.

Lemma intern_new_ders (d : Pool_dest) (l : nat) :
  d ∈ p_dests p -> l ∈ ders (live d) -> w_heap w' !! l = w_heap w !! l.
Proof.
  intros (i & Hi)%list_elem_of_lookup Hl. apply intern_new_same.
  rewrite (pool_blocks_split p i d Hi). set_solver.
Qed.

Lemma intern_new_blocks : pool_blocks p' ≡ₚ [da; ea] ++ pool_blocks p.
Proof. unfold pool_blocks, p', dests_blocks. simpl. solve_Permutation. Qed.

Lemma intern_new_NoDup : NoDup ([da; ea] ++ pool_blocks p).
Proof.
  destruct Hinv as (_ & _ & _ & Hnd & Hal & _). apply NoDup_app. split_and!; [| |done].
  - repeat constructor; set_solver.
  - intros l Hl Hl'. eapply Forall_forall in Hal as [bs Hbs]; [|done].
    assert (w_heap w !! l = None) by set_solver. congruence.
Qed.

Lemma intern_new_sessions (k : list Z) : sessions p' w' k = sessions p w k.
Proof.
  unfold sessions. simpl. destruct (strcmp_eq dest k) eqn:E.
  - apply strcmp_eq_true in E as <-. simpl.
    destruct (dest_find (p_dests p) dest) as [i|] eqn:Ef; [|done].
    apply dest_find_Some in Ef as (d & Hi & Hd). destruct Hn. rewrite <- Hd.
    apply list_elem_of_fmap. eexists. split; [done|]. by eapply list_elem_of_lookup_2.
  - destruct (dest_find (p_dests p) k) as [i|] eqn:Ef; [|done]. simpl.
    apply dest_find_Some in Ef as (d & Hi & Hd). rewrite Hi. simpl.
    apply abs_entries_ext. intros l. apply intern_new_ders. by eapply list_elem_of_lookup_2.
Qed.

Lemma intern_new_inv : pool_inv p' w'.
Proof.
  destruct Hinv as (_ & Ht & Hok & _ & Hal & Hnn). split_and!; try done.
  - constructor.
    + split_and!; simpl; rewrite ?length_replicate; try lia. constructor.
    + apply Forall_forall. intros d Hd. apply (dest_ok_ext _ (w_heap w)).
      * intros l. by apply intern_new_ders.
      * by eapply Forall_forall in Hok.
  - rewrite intern_new_blocks. apply intern_new_NoDup.
  - rewrite intern_new_blocks. apply Forall_app. split.
    + rewrite Hh. repeat constructor; simplify_map_eq; eauto.
    + apply Forall_forall. intros l Hl. rewrite intern_new_same by done.
      by eapply Forall_forall in Hal.
  - simpl. by constructor.
Qed.

Lemma intern_new_step : pool_step [] p p' w w'.
Proof.
  unfold pool_step. simpl. rewrite intern_new_blocks.
  split_and!; try done; [apply intern_new_inv|apply intern_new_NoDup|]. split.
  - intros l Hl. rewrite Hh, !lookup_insert_ne by set_solver. rewrite decide_False; set_solver.
  - intros l Hl Hnl. set_solver.
Qed.

End InternNew.

(** Interning fails only for an overlong name or when memory is exhausted, and
    then changes nothing. *)
Lemma dest_intern_spec (p : Pool) (dest : list Z) (w : World) :
  pool_inv p w ->
  returns_or bad (dest_intern p dest) w (fun r w' =>
    match r with
    | None => w_heap w' = w_heap w /\ heap_wf w' /\ world_le w w' /\
        (strlen dest <= DEST_MAX -> exists k, env_alloc k = false)
    | Some (p1, i) => pool_step [] p p1 w w' /\ strlen dest <= DEST_MAX /\
        (forall k, sessions p1 w' k = sessions p w k) /\
        exists d, p_dests p1 !! i = Some d /\ pd_dest d = dest
    end).
Proof.
  intros Hinv. pose proof Hinv as (Hwf & _). unfold dest_intern.
  destruct (DEST_MAX <? strlen dest) eqn:El; bool_prop.
  { apply returns_ret. split_and!; auto with tc; lia. }
  destruct (dest_find (p_dests p) dest) as [i|] eqn:Ef.
  { apply returns_ret. split_and!; [by apply pool_step_refl; auto with tc|done|done|].
    by apply dest_find_Some. }
  apply returns_bind, returns_malloc; intros Ha.
  2: { apply returns_ret. split_and!; simpl; auto with tc. eauto. }
  assert (forall l, (w_next w <= l)%nat -> w_heap w !! l = None) as Hfree.
  { intros l Hl. destruct (w_heap w !! l) eqn:E; [|done]. assert (l < w_next w)%nat; [|lia].
    apply Hwf. eauto. }
  apply returns_bind, returns_malloc; simpl; intros Ha'.
  - apply returns_ret. rewrite snprintf_s_id by (unfold strlen, DEST_MAX in *; lia).
    set (w' := mkWorld _ _ _).
    assert (heap_wf w') as Hwf'.
    { intros l. simpl. rewrite !lookup_insert. repeat case_decide; try lia.
      intros Hl. apply Hwf in Hl. lia. }
    assert (world_le w w') by (split; simpl; lia).
    assert (dest ∉ pd_dest <$> p_dests p) by (by apply dest_find_None).
    assert (w_next w <> S (w_next w)) by lia.
    split_and!; [|done| |by eexists]; [|intros k];
      (apply intern_new_step || apply intern_new_sessions); try done; apply Hfree; lia.
  - apply returns_bind, returns_free; simpl; [by rewrite lookup_insert_eq|].
    apply returns_ret. split_and!; simpl.
    + apply delete_insert_id. apply Hfree. lia.
    + intros l. simpl. rewrite delete_insert_id by (apply Hfree; lia). intros Hl.
      apply Hwf in Hl. lia.
    + split; simpl; lia.
    + eauto.
Qed.

Lemma pool_maintain_spec (p : Pool) (dest : list Z) (w : World) :
  SourceOkOr bad (p_src p) -> pool_inv p w ->
  returns_or bad (pool_maintain p dest) w (fun '(n, p') w' =>
    pool_step [] p p' w w' /\ 0 <= n <= p_target_depth p /\
    (forall k, k <> dest -> sessions p' w' k = sessions p w k) /\
    ((n = 0 /\ p' = p /\ (strlen dest <= DEST_MAX -> exists k, env_alloc k = false)) \/
     (exists now new, (exists k, now = env_time k) /\
        sessions p' w' dest = List.filter (fresh_at now) (sessions p w dest) ++ new /\
        n = Z.of_nat (length (sessions p' w' dest)) /\
        (source_total (p_src p) -> n = p_target_depth p)))).
Proof.
  intros Hsrc Hinv. unfold pool_maintain. apply returns_bind.
  eapply returns_mono; [by apply dest_intern_spec|]. intros [[p1 i]|] w1.
  2: { intros (Hh & Hwf & Hle & Hal). apply returns_ret. pose proof Hinv as (_ & Ht & _).
       split_and!; [by apply pool_step_refl|lia|lia| |by left].
       intros k _. unfold sessions. by rewrite Hh. }
  intros (Hst1 & Hdl & Hs1 & d & Hi & <-).
  pose proof Hst1 as (Hinv1 & _ & Hsrc1 & Ht1 & _).
  apply returns_bind. eapply returns_arr_get; [done|].
  apply returns_bind. eapply evict_in_pool; [done..|]. intros d2 w2 Hst2 Hd2n Habs2.
  pose proof Hst2 as (Hwf2 & _ & _ & _ & _ & Hd2 & Hnd2 & _).
  apply returns_bind. eapply returns_mono; [apply fill_loop_step; try done|].
  { by rewrite Hsrc1. } { lia. }
  intros d3 w3 (Hst3 & (new & Habs3) & Htot). apply returns_ret.
  pose proof (dest_step_trans _ _ _ _ _ _ _ _ Hst2 Hst3) as Hall.
  assert (length (abs_dest (w_heap w3) d3) = pd_count d3 /\
    Z.of_nat (pd_count d3) <= p_target_depth p1) as [Hlen Hb].
  { destruct Hst3 as (_ & _ & _ & _ & _ & (Hl3 & Hc3 & _ & Hok3) & _). unfold abs_dest.
    rewrite abs_length by done. unfold live. rewrite length_take. lia. }
  rewrite (sessions_update_same p1 w1 w3 i d d3 []) by done.
  split_and!; [|lia|lia| |].
  - eapply pool_step_trans; [done|]. by eapply pool_update.
  - intros k Hk. rewrite <- Hs1. by eapply sessions_update_other.
  - right. exists (env_time (w_step w1)), new.
    split_and!; [eauto|by rewrite Habs3, Habs2, Hs1|lia|]. rewrite <- Hsrc1, <- Ht1. done.
Qed.

(** Two operations in sequence, the caller keeping what the first handed out. *)
Lemma pool_step_compose (o1 o2 : list nat) (p1 p2 p3 : Pool) (w1 w2 w3 : World) :
  pool_step o1 p1 p2 w1 w2 -> Forall (fun l => is_Some (w_heap w2 !! l)) o1 ->
  pool_step o2 p2 p3 w2 w3 ->
  pool_step (o1 ++ o2) p1 p3 w1 w3 /\ (forall l, l ∈ o1 -> w_heap w3 !! l = w_heap w2 !! l).
Proof.
  intros (_ & Hle & Hs & Ht & Hnd & Ho) Hal (Hinv & Hle' & Hs' & Ht' & Hnd' & Ho').
  apply NoDup_app in Hnd as (Hnd1 & Hdis & _). rewrite Forall_forall in Hal.
  destruct (owns_step_frame _ _ o1 _ _ Ho') as [Hf Hr]; [done|done|].
  rewrite (Permutation_app_comm (pool_blocks p2)), (Permutation_app_comm (o2 ++ _)) in Hf.
  split; [|naive_solver]. unfold pool_step. rewrite <- (assoc_L (++)).
  split_and!; try congruence; try done.
  - by eapply world_le_trans.
  - apply NoDup_app. split_and!; [done|naive_solver|done].
  - by eapply owns_step_trans.
Qed.

Lemma run_op_spec (o : pool_op) (p : Pool) (w : World) :
  SourceOkOr bad (p_src p) -> pool_inv p w ->
  returns_or bad (run_op o p) w (fun '(gs, p') w' =>
    pool_step (got_blocks gs) p p' w w' /\
    Forall (fun l => is_Some (w_heap w' !! l)) (got_blocks gs)).
Proof.
  intros Hsrc Hinv. destruct o as [dest|dest|dest]; simpl; apply returns_bind.
  - eapply returns_mono; [by apply pool_maintain_spec|].
    intros [n p'] w' (Hst & _). by apply returns_ret.
  - eapply returns_mono; [by apply pool_depth_spec|].
    intros [n p'] w' (Hst & _). by apply returns_ret.
  - eapply returns_mono; [by apply pool_get_spec|].
    intros [[g|] p'] w' (_ & H); apply returns_ret; simpl; [|by destruct H].
    destruct H as (l & s & Hst & _ & Hl & Hb & _). unfold got_blocks.
    rewrite omap_cons, Hl. simpl. split; [done|]. repeat constructor. eauto.
Qed.

Lemma run_ops_spec (os : list pool_op) (p : Pool) (w : World) :
  SourceOkOr bad (p_src p) -> pool_inv p w ->
  returns_or bad (run_ops os p) w (fun '(gs, p') w' =>
    pool_step (got_blocks gs) p p' w w' /\
    Forall (fun l => is_Some (w_heap w' !! l)) (got_blocks gs)).
Proof.
  revert p w. induction os as [|o os IH]; intros p w Hsrc Hinv; simpl.
  { apply returns_ret. split; [|constructor]. destruct Hinv. by apply pool_step_refl; auto with tc. }
  apply returns_bind. eapply returns_mono; [by apply run_op_spec|].
  intros [g p1] w1 [Hst Hal]. pose proof Hst as (Hinv1 & _ & Hs1 & _).
  apply returns_bind. eapply returns_mono; [apply IH; [by rewrite Hs1|done]|].
  intros [gs p2] w2 [Hst2 Hal2]. apply returns_ret.
  destruct (pool_step_compose _ _ _ _ _ _ _ _ Hst Hal Hst2) as [Hall Hsame].
  unfold got_blocks in *. rewrite omap_app. split; [done|]. apply Forall_app. split; [|done].
  rewrite Forall_forall in Hal |- *. intros l Hl. rewrite Hsame by done. by apply Hal.
Qed.

Lemma pool_new_spec (src : Pool_source_fn) (target : Z) (w : World) :
  heap_wf w ->
  returns_or bad (pool_new src target) w (fun r w' =>
    match r with
    | None => w_heap w' = w_heap w /\ env_alloc (w_step w) = false
    | Some p => pool_inv p w' /\ p_src p = src /\ p_target_depth p = Z.max 1 target /\
        (forall dest, sessions p w' dest = []) /\
        owns_step [] (pool_blocks p) (w_heap w) (w_heap w')
    end).
Proof.
  intros Hwf. unfold pool_new. apply returns_bind, returns_malloc; intros Ha; apply returns_ret.
  2: done.
  assert (w_heap w !! w_next w = None) as Hfree by by apply heap_wf_fresh.
  split_and!; simpl; try done; [split_and!; simpl|case_if; lia|split].
  - by apply heap_wf_alloc.
  - case_if; lia.
  - constructor.
  - apply NoDup_singleton.
  - repeat constructor. by rewrite lookup_insert_eq.
  - constructor.
  - intros l Hl. rewrite lookup_insert_ne by set_solver. by rewrite decide_False by set_solver.
  - intros l Hl _. assert (l = w_next w) as -> by set_solver. done.
Qed.

Lemma clear_entries_spec (n : nat) (es : list Pool_entry) (i : nat) (w : World) :
  (i + n <= length es)%nat -> Forall (entry_ok (w_heap w)) (take n (drop i es)) ->
  NoDup (ders (take n (drop i es))) ->
  returns_or bad (clear_entries n es i) w (fun _ w' =>
    w' = mkWorld (free_all (ders (take n (drop i es))) (w_heap w)) (w_next w) (w_step w)).
Proof.
  revert es i w. induction n as [|n IH]; intros es i w Hlen Hok Hnd; simpl.
  { apply returns_ret. by destruct w. }
  destruct (lookup_lt_is_Some_2 es i) as [e He]; [lia|].
  rewrite (drop_S es e i) in * by done. rewrite firstn_cons in *.
  apply Forall_cons in Hok as [Hoke Hok].
  apply returns_bind. eapply returns_entry_clear; [done..|].
  eapply returns_mono; [apply IH|].
  - rewrite length_insert. lia.
  - rewrite drop_insert_lt by lia. by apply entries_ok_free.
  - rewrite drop_insert_lt by lia. unfold ders in Hnd. rewrite omap_cons in Hnd.
    destruct (pe_der e); [|done]. by apply NoDup_cons in Hnd as [_ ?].
  - rewrite drop_insert_lt by lia. intros _ w' ->. f_equal. simpl. rewrite free_all_app.
    apply free_all_perm. etrans; [apply Permutation_app_comm|]. by rewrite <- ders_app.
Qed.

Lemma free_dest_spec (t : Z) (d : Pool_dest) (w : World) (k : M World unit)
    (Q : unit -> World -> Prop) :
  dest_ok t (w_heap w) d -> NoDup (dest_blocks d) ->
  Forall (fun l => is_Some (w_heap w !! l)) (dest_blocks d) ->
  returns_or bad k (mkWorld (free_all (dest_blocks d) (w_heap w)) (w_next w) (w_step w)) Q ->
  returns_or bad (clear_entries (pd_count d) (pd_entries d) 0 ≫= fun _ =>
           free (Some (pd_arr d)) ≫= fun _ => free (Some (pd_addr d)) ≫= fun _ => k) w Q.
Proof.
  intros (Ht & Hc & _ & Hd) Hnd Hal HQ. unfold dest_blocks in Hnd, Hal.
  apply NoDup_cons in Hnd as [Ha Hnd]. apply NoDup_cons in Hnd as [Hr Hnd].
  apply Forall_cons in Hal as [Haa Hal]. apply Forall_cons in Hal as [Har Hal].
  rewrite not_elem_of_cons in Ha. destruct Ha as [Hne Ha].
  apply returns_bind. eapply returns_mono; [apply clear_entries_spec; rewrite ?drop_0; done|].
  rewrite drop_0. intros _ w1 ->. simpl.
  apply returns_bind, returns_free; simpl.
  { rewrite free_all_lookup. by rewrite decide_False. }
  apply returns_bind, returns_free; simpl.
  { rewrite lookup_delete_ne by done. rewrite free_all_lookup. by rewrite decide_False. }
  done.
Qed.

Lemma dests_blocks_cons (d : Pool_dest) (ds : list Pool_dest) :
  dests_blocks (d :: ds) = dest_blocks d ++ dests_blocks ds.
Proof. done. Qed.

Lemma free_dests_spec (t : Z) (ds : list Pool_dest) (w : World) :
  Forall (dest_ok t (w_heap w)) ds -> NoDup (dests_blocks ds) ->
  Forall (fun l => is_Some (w_heap w !! l)) (dests_blocks ds) ->
  returns_or bad (free_dests ds) w (fun _ w' =>
    w' = mkWorld (free_all (dests_blocks ds) (w_heap w)) (w_next w) (w_step w)).
Proof.
  revert w. induction ds as [|d ds IH]; intros w Hok Hnd Hal.
  { apply returns_ret. by destruct w. }
  apply Forall_cons in Hok as [Hd Hok]. rewrite dests_blocks_cons in *.
  apply NoDup_app in Hnd as (Hnd & Hdis & Hnds). apply Forall_app in Hal as [Hal Hals].
  eapply free_dest_spec; [done..|].
  assert (forall l, l ∈ dests_blocks ds ->
    free_all (dest_blocks d) (w_heap w) !! l = w_heap w !! l) as Hsame.
  { intros l Hl. rewrite free_all_lookup, decide_False; [done|]. intros Hc'. by apply (Hdis l). }
  eapply returns_mono; [apply IH; cbn [w_heap]|].
  - apply Forall_forall. intros d' Hd'. apply (dest_ok_ext _ (w_heap w)).
    + intros l Hl. apply Hsame, list_elem_of_join. exists (dest_blocks d').
      split; [unfold dest_blocks; set_solver|]. apply list_elem_of_fmap. eauto.
    + by eapply Forall_forall in Hok.
  - done.
  - apply Forall_forall. intros l Hl. rewrite Hsame by done. by eapply Forall_forall in Hals.
  - intros _ w' ->. cbn [w_heap w_next w_step]. f_equal.
    rewrite free_all_app. apply free_all_perm, Permutation_app_comm.
Qed.

Lemma pool_free_spec (p : Pool) (w : World) :
  pool_inv p w ->
  returns_or bad (pool_free (Some p)) w (fun _ w' =>
    owns_step (pool_blocks p) [] (w_heap w) (w_heap w')).
Proof.
  intros (Hwf & Ht & Hok & Hnd & Hal & _). simpl.
  apply NoDup_cons in Hnd as [Hn Hnd]. apply Forall_cons in Hal as [Ha Hal].
  apply returns_bind. eapply returns_mono; [by eapply free_dests_spec|]. intros _ w' ->.
  apply returns_free; simpl.
  { rewrite free_all_lookup. by rewrite decide_False. }
  split; [|set_solver]. intros l _. simpl.
  rewrite lookup_delete, free_all_lookup. repeat case_decide; set_solver.
Qed.

End Operations.
