(* ===== verification/PoolProps.v ===== *)
(** * PoolProps: the properties of the session pool

    The theorems about ticket-agent/pool.c, each with a witness on a concrete
    pool: the source of test/test_pool.c, two destinations, one expired and one
    live session. *)

From stdpp Require Import base numbers list gmap strings.
From S2P Require Import Prelude Runtime Pool PoolOps.

Open Scope Z_scope.

(** ** A concrete environment, source and pool *)

(** Every allocation succeeds and the clock stands at [t]. *)
Lemma demo_time_ok (k : nat) : 0 <= 1000 < 2 ^ 62.
Proof. lia. Qed.

Definition demo_env : Env :=
  {| env_alloc := fun _ => true; env_time := fun _ => 1000; env_time_ok := demo_time_ok |}.

(** The canned source of test/test_pool.c: the same DER every time, with a
    lifetime chosen by the test; it fails when memory is exhausted. *)
Definition fake_source {env : Env} (lifetime : Z) : Pool_source_fn := fun _ cap =>
  d ← malloc (of_string "SESSION0");
  match d with
  | None => mret None
  | Some l => mret (Some (mkFetched (Some l) 8 1 (snprintf_s cap (of_string "X25519MLKEM768")) lifetime))
  end.

Definition demo_dest : list Z := of_string "a:1".
Definition demo_entry (l : nat) (expires : Z) : Pool_entry :=
  mkEntry (Some l) 8 1 (of_string "X25519MLKEM768") expires.

(** "a:1" holds an expired session (block 3) and a live one (block 4); "b:2" is
    empty; block 7 belongs to someone else. *)
Definition demo_pool : Pool :=
  mkPool 0 (@fake_source demo_env 3600) 3
    [ mkDest 1 demo_dest 2 [demo_entry 3 900; demo_entry 4 2000; zero_entry] 2;
      mkDest 5 (of_string "b:2") 6 (replicate 3 zero_entry) 0 ].

Definition demo_heap : gmap nat (list Z) :=
  list_to_map [(0, []); (1, []); (2, []); (3, of_string "SESSION0");
               (4, of_string "SESSION0"); (5, []); (6, []); (7, [42%Z])]%nat.
Definition demo_world : World := mkWorld demo_heap 8 0.

(** ** Lemmas on the concrete objects *)

Lemma fake_source_ok {env : Env} (lifetime : Z) :
  lifetime < 2 ^ 62 -> SourceOk (fake_source lifetime).
Proof.
  intros Hlt dest cap w Hwf Hcap. unfold fake_source.
  apply returns_bind, returns_malloc; intros Ha; apply returns_ret.
  - split_and!; [|split; simpl; lia|].
    + by apply heap_wf_alloc.
    + exists (w_next w), (of_string "SESSION0"). split_and!; try done.
      * by apply heap_wf_fresh.
      * by apply snprintf_s_length.
      * by apply snprintf_s_no_nul.
  - split_and!; [done|auto with tc|done].
Qed.

Lemma demo_source_ok : SourceOk (@fake_source demo_env 3600).
Proof. by apply fake_source_ok. Qed.

Lemma demo_heap_wf : heap_wf demo_world.
Proof.
  intros l [bs H]. change (demo_heap !! l = Some bs) in H.
  apply elem_of_list_to_map_2 in H. simpl.
  repeat (apply elem_of_cons in H as [H|H]; [simplify_eq; lia|]). by apply not_elem_of_nil in H.
Qed.

Lemma demo_entry_ok (l : nat) (expires : Z) :
  demo_heap !! l = Some (of_string "SESSION0") -> entry_ok demo_heap (demo_entry l expires).
Proof. intros Hl. exists l, (of_string "SESSION0"). split_and!; try done; vm_compute; lia. Qed.

Lemma demo_dest_ok :
  dest_ok 3 demo_heap (mkDest 1 demo_dest 2 [demo_entry 3 900; demo_entry 4 2000; zero_entry] 2).
Proof.
  split_and!; try done; [simpl; lia|].
  apply Forall_cons. split; [by apply demo_entry_ok|].
  apply Forall_cons. split; [by apply demo_entry_ok|constructor].
Qed.

Lemma demo_pool_inv : pool_inv demo_pool demo_world.
Proof.
  split_and!; [apply demo_heap_wf|done| | | |].
  - apply Forall_cons. split; [apply demo_dest_ok|].
    apply Forall_cons. split; [|constructor]. split_and!; try done. simpl; lia.
  - apply (bool_decide_unpack _). vm_compute. exact I.
  - apply (bool_decide_unpack _). vm_compute. exact I.
  - apply (bool_decide_unpack _). vm_compute. exact I.
Qed.

(** ** Theorems *)

Section Theorems.
Context {env : Env}.

(** C1. Whatever sequence of [pool_maintain], [pool_depth] and [pool_get] calls
    is made on a well-formed pool, no call has undefined behaviour and all of
    them return; the pool stays well formed; the sessions handed out are
    pairwise distinct blocks the pool no longer refers to (single use, ownership
    transferred exactly once); and outside the pool and those blocks the heap is
    untouched, with nothing leaked, freed twice or stolen. *)
Theorem pool_calls_safe (os : list pool_op) (p : Pool) (w : World) :
  SourceOk (p_src p) -> pool_inv p w ->
  returns (run_ops os p) w (fun '(gs, p') w' =>
    pool_inv p' w' /\
    NoDup (got_blocks gs ++ pool_blocks p') /\
    Forall (fun l => is_Some (w_heap w' !! l)) (got_blocks gs) /\
    owns_step (pool_blocks p) (got_blocks gs ++ pool_blocks p') (w_heap w) (w_heap w')).
Proof.
  intros Hsrc Hinv. eapply returns_mono; [by apply run_ops_spec|].
  intros [gs p'] w' [(? & _ & _ & _ & ? & ?) ?]. done.
Qed.

(** C2. [pool_get] refines a pop of the abstract stack: it drops the expired
    sessions of the destination, and either reports a miss exactly when none is
    left, or hands out the newest session that is still unexpired at the time it
    read, with its DER, length, provenance and group, and removes it.  Other
    destinations are unaffected. *)
Theorem pool_get_refines (p : Pool) (dest : list Z) (group : option nat) (w : World) :
  pool_inv p w ->
  returns (pool_get p dest group) w (fun '(r, p') w' =>
    let now := env_time (w_step w) in
    let kept := List.filter (fresh_at now) (sessions p w dest) in
    (forall k, k <> dest -> sessions p' w' k = sessions p w k) /\
    match r with
    | None => kept = [] /\ sessions p' w' dest = []
    | Some g => exists l s, kept = sessions p' w' dest ++ [s] /\ now < s_expires_at s /\
        g_der g = Some l /\ w_heap w' !! l = Some (s_der s) /\
        g_der_len g = Z.of_nat (length (s_der s)) /\ g_is_pqc g = s_is_pqc s /\
        g_group g = snprintf_opt group (s_group s)
    end).
Proof.
  intros Hinv. eapply returns_mono; [by apply pool_get_spec|].
  intros [[g|] p'] w' [Ho H]; split; try done; [|by destruct H as (_ & ? & ?)].
  destruct H as (l & s & _ & Hk & Hl & Hb & Hlen & _ & Hq & Hg & _).
  exists l, s. split_and!; try done.
  assert (In s (List.filter (fresh_at (env_time (w_step w))) (sessions p w dest))) as Hin.
  { rewrite Hk. apply in_or_app. right. by left. }
  apply List.filter_In in Hin as [_ Hin]. by apply Z.ltb_lt in Hin.
Qed.

(** C3. [pool_maintain] keeps the unexpired sessions of the destination in order
    and appends new ones, never beyond the target depth; it returns the number
    held afterwards, reaches the target when the source does not fail, and gives
    up with 0 and an unchanged pool only for a name over 255 bytes or when memory
    is exhausted.  Other destinations are unaffected. *)
Theorem pool_maintain_refines (p : Pool) (dest : list Z) (w : World) :
  SourceOk (p_src p) -> pool_inv p w ->
  returns (pool_maintain p dest) w (fun '(n, p') w' =>
    pool_inv p' w' /\ 0 <= n <= p_target_depth p /\
    (forall k, k <> dest -> sessions p' w' k = sessions p w k) /\
    ((n = 0 /\ p' = p /\ (strlen dest <= DEST_MAX -> exists k, env_alloc k = false)) \/
     (exists now new, (exists k, now = env_time k) /\
        sessions p' w' dest = List.filter (fresh_at now) (sessions p w dest) ++ new /\
        n = Z.of_nat (length (sessions p' w' dest)) /\
        (source_total (p_src p) -> n = p_target_depth p)))).
Proof.
  intros Hsrc Hinv. eapply returns_mono; [by apply pool_maintain_spec|].
  intros [n p'] w' ((Hi & _) & H). done.
Qed.

(** C4. [pool_depth] returns exactly the number of sessions of the destination
    that are unexpired at the time it read, and drops the others. *)
Theorem pool_depth_refines (p : Pool) (dest : list Z) (w : World) :
  pool_inv p w ->
  returns (pool_depth p dest) w (fun '(n, p') w' =>
    let now := env_time (w_step w) in
    pool_inv p' w' /\
    n = Z.of_nat (length (List.filter (fresh_at now) (sessions p w dest))) /\
    sessions p' w' dest = List.filter (fresh_at now) (sessions p w dest) /\
    (forall k, k <> dest -> sessions p' w' k = sessions p w k)).
Proof.
  intros Hinv. eapply returns_mono; [by apply pool_depth_spec|].
  intros [n p'] w' ((Hi & _) & Hs & Hn & Ho). cbv zeta. by rewrite <- Hs.
Qed.

(** C5. A pool created by [pool_new], used by any sequence of calls and released
    by [pool_free] leaves the heap as it found it plus exactly the blocks of the
    sessions that were handed out. *)
Theorem pool_lifecycle_no_leak (src : Pool_source_fn) (target : Z) (os : list pool_op) (w : World) :
  SourceOk src -> heap_wf w ->
  returns (
    p ← pool_new src target;
    match p with
    | None => mret []
    | Some p => '(gs, p') ← run_ops os p; _ ← pool_free (Some p'); mret gs
    end) w (fun gs w' =>
    NoDup (got_blocks gs) /\ owns_step [] (got_blocks gs) (w_heap w) (w_heap w')).
Proof.
  intros Hsrc Hwf. apply returns_bind. eapply returns_mono; [by apply pool_new_spec|].
  intros [p|] w1 H1.
  2: { destruct H1 as [H1 _]. apply returns_ret. rewrite H1. split; [constructor|].
       apply owns_step_refl. set_solver. }
  destruct H1 as (Hinv & Hs & _ & _ & Ho1).
  apply returns_bind. eapply returns_mono; [apply run_ops_spec; [by rewrite Hs|done]|].
  intros [gs p'] w2 [(Hinv2 & _ & _ & _ & Hnd & Ho2) Hal].
  apply returns_bind. eapply returns_mono; [by apply pool_free_spec|].
  intros [] w3 Ho3. apply returns_ret.
  apply NoDup_app in Hnd as (Hnd & Hdis & _). split; [done|].
  destruct (owns_step_frame _ _ (got_blocks gs) _ _ Ho3) as [Ho3' _]; [done|by apply Forall_forall|].
  rewrite (Permutation_app_comm (pool_blocks p')) in Ho3'.
  eapply owns_step_trans; [eapply owns_step_trans; [exact Ho1|exact Ho2]|exact Ho3'].
Qed.

(** C6. The in-place compaction of [evict_expired] is a filter: whatever the
    stale cells behind [count] hold, the cells in use afterwards are those whose
    expiry lies after the clock reading, in their order, and exactly the buffers
    of the others are freed, each once. *)
Theorem evict_expired_is_filter (t : Z) (d : Pool_dest) (w : World) :
  dest_ok t (w_heap w) d -> NoDup (ders (live d)) ->
  returns (evict_expired d) w (fun d' w' =>
    let now := env_time (w_step w) in
    live d' = List.filter (fun e => now <? pe_expires_at e) (live d) /\
    length (pd_entries d') = length (pd_entries d) /\
    (pd_count d' <= length (pd_entries d'))%nat /\
    w_heap w' = free_all (ders (List.filter (fun e => negb (now <? pe_expires_at e)) (live d)))
                  (w_heap w)).
Proof.
  intros Hd Hnd. eapply returns_mono; [by eapply evict_expired_spec|].
  intros d' w' (_ & _ & _ & Hlen & Hc & Hl & ->). done.
Qed.

End Theorems.

(** [pool_maintain] reports sessions that are already expired: with a source
    whose sessions have no lifetime it returns the full target depth although no
    session it holds can be served, so its result is the number of entries held,
    not the available depth. *)
Example pool_maintain_counts_expired :
  exists p : Pool, exists w : World, exists p' : Pool, exists w' : World, exists p'' w'',
    pool_inv p w /\
    pool_maintain (env := demo_env) p demo_dest w = Some ((3, p'), w') /\
    pool_depth (env := demo_env) p' demo_dest w' = Some ((0, p''), w'').
Proof.
  exists (mkPool 0 (@fake_source demo_env 0) 3 []), (mkWorld {[0%nat := []]} 1 0).
  do 4 eexists. split_and!; [|vm_compute; reflexivity|vm_compute; reflexivity].
  split_and!; try done.
  - intros l [bs H]. simpl in *. apply lookup_singleton_Some in H as [<- _]. lia.
  - apply (bool_decide_unpack _). vm_compute. exact I.
  - apply (bool_decide_unpack _). vm_compute. exact I.
  - constructor.
Qed.

(** ** Witnesses *)

Lemma pool_calls_safe_witness :
  SourceOk (p_src demo_pool) /\ pool_inv demo_pool demo_world /\
  returns (run_ops (env := demo_env) [OpGet demo_dest; OpMaintain demo_dest; OpDepth demo_dest]
             demo_pool) demo_world (fun '(gs, p') w' =>
    pool_inv p' w' /\
    NoDup (got_blocks gs ++ pool_blocks p') /\
    Forall (fun l => is_Some (w_heap w' !! l)) (got_blocks gs) /\
    owns_step (pool_blocks demo_pool) (got_blocks gs ++ pool_blocks p') demo_heap (w_heap w')).
Proof.
  split; [apply demo_source_ok|]. split; [apply demo_pool_inv|].
  apply (pool_calls_safe (env := demo_env) _ demo_pool demo_world demo_source_ok demo_pool_inv).
Defined.

Lemma pool_get_refines_witness :
  pool_inv demo_pool demo_world /\
  returns (pool_get (env := demo_env) demo_pool demo_dest (Some 64%nat)) demo_world
    (fun '(r, p') w' =>
    let kept := List.filter (fresh_at 1000) (sessions demo_pool demo_world demo_dest) in
    (forall k, k <> demo_dest -> sessions p' w' k = sessions demo_pool demo_world k) /\
    match r with
    | None => kept = [] /\ sessions p' w' demo_dest = []
    | Some g => exists l s, kept = sessions p' w' demo_dest ++ [s] /\ 1000 < s_expires_at s /\
        g_der g = Some l /\ w_heap w' !! l = Some (s_der s) /\
        g_der_len g = Z.of_nat (length (s_der s)) /\ g_is_pqc g = s_is_pqc s /\
        g_group g = snprintf_opt (Some 64%nat) (s_group s)
    end).
Proof.
  split; [apply demo_pool_inv|].
  apply (pool_get_refines (env := demo_env) demo_pool demo_dest (Some 64%nat) demo_world).
  apply demo_pool_inv.
Defined.

Lemma pool_maintain_refines_witness :
  SourceOk (p_src demo_pool) /\ pool_inv demo_pool demo_world /\
  returns (pool_maintain (env := demo_env) demo_pool demo_dest) demo_world (fun '(n, p') w' =>
    pool_inv p' w' /\ 0 <= n <= 3 /\
    (forall k, k <> demo_dest -> sessions p' w' k = sessions demo_pool demo_world k) /\
    ((n = 0 /\ p' = demo_pool /\
        (strlen demo_dest <= DEST_MAX -> exists k, @env_alloc demo_env k = false)) \/
     (exists now new, (exists k, now = @env_time demo_env k) /\
        sessions p' w' demo_dest =
          List.filter (fresh_at now) (sessions demo_pool demo_world demo_dest) ++ new /\
        n = Z.of_nat (length (sessions p' w' demo_dest)) /\
        (source_total (p_src demo_pool) -> n = 3)))).
Proof.
  split; [apply demo_source_ok|]. split; [apply demo_pool_inv|].
  apply (pool_maintain_refines (env := demo_env) demo_pool demo_dest demo_world).
  - apply demo_source_ok.
  - apply demo_pool_inv.
Defined.

Lemma pool_depth_refines_witness :
  pool_inv demo_pool demo_world /\
  returns (pool_depth (env := demo_env) demo_pool demo_dest) demo_world (fun '(n, p') w' =>
    pool_inv p' w' /\
    n = Z.of_nat (length (List.filter (fresh_at 1000) (sessions demo_pool demo_world demo_dest))) /\
    sessions p' w' demo_dest =
      List.filter (fresh_at 1000) (sessions demo_pool demo_world demo_dest) /\
    (forall k, k <> demo_dest -> sessions p' w' k = sessions demo_pool demo_world k)).
Proof.
  split; [apply demo_pool_inv|].
  apply (pool_depth_refines (env := demo_env) demo_pool demo_dest demo_world demo_pool_inv).
Defined.

Lemma pool_lifecycle_witness :
  SourceOk (@fake_source demo_env 3600) /\ heap_wf demo_world /\
  returns (
    p ← pool_new (env := demo_env) (@fake_source demo_env 3600) 2;
    match p with
    | None => mret []
    | Some p =>
        '(gs, p') ← run_ops (env := demo_env) [OpMaintain demo_dest; OpGet demo_dest] p;
        _ ← pool_free (Some p'); mret gs
    end) demo_world (fun gs w' =>
    NoDup (got_blocks gs) /\ owns_step [] (got_blocks gs) demo_heap (w_heap w')).
Proof.
  split; [apply demo_source_ok|]. split; [apply demo_heap_wf|].
  apply (pool_lifecycle_no_leak (env := demo_env) (@fake_source demo_env 3600) 2 _ demo_world).
  - apply demo_source_ok.
  - apply demo_heap_wf.
Defined.

Lemma evict_expired_witness :
  let d := mkDest 1 demo_dest 2 [demo_entry 3 900; demo_entry 4 2000; zero_entry] 2 in
  dest_ok 3 demo_heap d /\ NoDup (ders (live d)) /\
  returns (evict_expired (env := demo_env) d) demo_world (fun d' w' =>
    live d' = List.filter (fun e => 1000 <? pe_expires_at e) (live d) /\
    length (pd_entries d') = length (pd_entries d) /\
    (pd_count d' <= length (pd_entries d'))%nat /\
    w_heap w' = free_all (ders (List.filter (fun e => negb (1000 <? pe_expires_at e)) (live d)))
                  demo_heap).
Proof.
  intros d.
  assert (dest_ok 3 demo_heap d) as Hd by apply demo_dest_ok.
  assert (NoDup (ders (live d))) as Hn by (apply (bool_decide_unpack _); vm_compute; exact I).
  split; [exact Hd|]. split; [exact Hn|].
  apply (evict_expired_is_filter (env := demo_env) 3 d demo_world Hd Hn).
Defined.

(** The concrete pool behaves as test/test_pool.c expects: the expired session
    is not served, the live one is, and the next request misses. *)
Example demo_get_then_miss :
  match run_ops (env := demo_env) [OpGet demo_dest; OpGet demo_dest] demo_pool demo_world with
  | Some ((gs, _), _) =>
      gs = [mkGot (Some 4%nat) 8 1 (Some (of_string "X25519MLKEM768"))]
  | None => False
  end.
Proof. vm_compute. reflexivity. Qed.
