(* ===== verification/Uds.v ===== *)
(** * Uds: the node-local socket protocol (ticket-agent/uds.c)

    Both ends of the protocol: the agent's [handle_conn]/[uds_serve] and the
    injector's [uds_get], over a model of a stream socket.  A connection carries
    the scripts of what the kernel answers to successive [read] and [write]
    calls: data in chunks of any size, short writes, interruptions ([EINTR]),
    errors (a receive timeout included) and the end of the stream.  Every
    statement below therefore holds for every way the kernel may split the byte
    stream. *)

From stdpp Require Import base numbers list gmap strings.
From S2P Require Import Prelude Runtime Pool.

Open Scope Z_scope.

(** ** Constants of uds.h *)

Definition UDS_MAGIC : Z := 0x54.
Definition UDS_VERSION : Z := 1.
Definition UDS_OP_GET : Z := 1.
Definition UDS_STATUS_OK : Z := 0.
Definition UDS_STATUS_MISS : Z := 1.
Definition UDS_STATUS_ERROR : Z := 2.
Definition UDS_REQ_HDR : nat := 4.
Definition UDS_RESP_HDR : nat := 9.
Definition UDS_DEST_MAX : Z := 255.
Definition SUN_PATH_SIZE : Z := 108.

(** ** Stream sockets *)

Inductive read_event :=
  | RData (b : Z) (bs : list Z)
  | REof
  | RIntr
  | RErr.

Inductive write_event :=
  | WOk (n : nat)
  | WIntr
  | WErr.

Record Conn := mkConn {
  c_in : list read_event;
  c_wr : list write_event;
  c_out : list Z;
  c_open : bool
}.

Inductive io_result :=
  | IoOk (bs : list Z)
  | IoIntr
  | IoErr.

Definition set_in (c : Conn) (evs : list read_event) : Conn :=
  mkConn evs (c_wr c) (c_out c) (c_open c).

(** [read(fd, buf, n)]: at most [n] bytes of the next chunk; the end of the
    script is the end of the stream. *)
Definition sys_read (n : nat) (c : Conn) : io_result * Conn :=
  match c_in c with
  | [] => (IoOk [], c)
  | REof :: _ => (IoOk [], c)
  | RIntr :: t => (IoIntr, set_in c t)
  | RErr :: t => (IoErr, set_in c t)
  | RData b bs :: t =>
      (IoOk (take n (b :: bs)),
       set_in c (match drop n (b :: bs) with
                 | [] => t
                 | b' :: bs' => RData b' bs' :: t
                 end))
  end.

(** [write(fd, buf, n)]: the number of bytes taken, or an error; the end of the
    script accepts everything. *)
Definition sys_write (bs : list Z) (c : Conn) : io_result * Conn :=
  match c_wr c with
  | [] => (IoOk bs, mkConn (c_in c) [] (c_out c ++ bs) (c_open c))
  | WOk k :: t => (IoOk (take k bs), mkConn (c_in c) t (c_out c ++ take k bs) (c_open c))
  | WIntr :: t => (IoIntr, mkConn (c_in c) t (c_out c) (c_open c))
  | WErr :: t => (IoErr, mkConn (c_in c) t (c_out c) (c_open c))
  end.

Definition sys_close (c : Conn) : Conn := mkConn (c_in c) (c_wr c) (c_out c) false.

(** Copying [n] bytes out of a buffer at [off]. *)
Definition mem_slice {S} (buf : list Z) (off n : nat) : M S (list Z) :=
  if (off + n <=? length buf)%nat then mret (take n (drop off buf)) else ub.

(** ** Exact reads and writes *)

(** The loop of [read_exact]; every iteration that stays in the loop consumes an
    event of the script, so fuel beyond its length is never exhausted. *)
Fixpoint read_loop {S} (fuel n : nat) (got : list Z) (c : Conn) : M S (Z * list Z * Conn) :=
  match fuel with
  | O => ub
  | Datatypes.S fuel' =>
      if (length got <? n)%nat then
        match sys_read (n - length got) c with
        | (IoOk [], c') => mret (0, got, c')
        | (IoErr, c') => mret (-1, got, c')
        | (IoIntr, c') => read_loop fuel' n got c'
        | (IoOk bs, c') => read_loop fuel' n (got ++ bs) c'
        end
      else mret (1, got, c)
  end.

Definition read_exact {S} (n : nat) (c : Conn) : M S (Z * list Z * Conn) :=
  read_loop (2 + length (c_in c)) n [] c.

Fixpoint write_loop {S} (fuel : nat) (bs : list Z) (sent : nat) (c : Conn) : M S (Z * Conn) :=
  match fuel with
  | O => ub
  | Datatypes.S fuel' =>
      if (sent <? length bs)%nat then
        match sys_write (drop sent bs) c with
        | (IoErr, c') => mret (-1, c')
        | (IoIntr, c') => write_loop fuel' bs sent c'
        | (IoOk ws, c') => write_loop fuel' bs (sent + length ws) c'
        end
      else mret (1, c)
  end.

Definition write_all {S} (bs : list Z) (c : Conn) : M S (Z * Conn) :=
  write_loop (2 + length (c_wr c)) bs 0 c.

(** ** Framing *)

Definition put_u32 (v : Z) : list Z :=
  [u8 (Z.shiftr v 24); u8 (Z.shiftr v 16); u8 (Z.shiftr v 8); u8 v].

Definition get_u32 {S} (p : list Z) (off : nat) : M S Z :=
  p0 ← arr_get p off;
  p1 ← arr_get p (off + 1);
  p2 ← arr_get p (off + 2);
  p3 ← arr_get p (off + 3);
  mret (Z.lor (Z.lor (Z.lor (u32 (Z.shiftl p0 24)) (u32 (Z.shiftl p1 16)))
                 (u32 (Z.shiftl p2 8))) p3).

(** [uds_parse_request]: the return code, what was stored in [*op] and the bytes
    stored in [dest] (terminator included), if any. *)
Definition uds_parse_request {S} (buf : list Z) (len dest_cap : Z)
    : M S (Z * option Z * option (list Z)) :=
  if len <? Z.of_nat UDS_REQ_HDR then mret (-1, None, None)
  else
    b0 ← arr_get buf 0;
    b1 ← arr_get buf 1;
    if negb (b0 =? UDS_MAGIC) || negb (b1 =? UDS_VERSION) then mret (-2, None, None)
    else
      dest_len ← arr_get buf 3;
      if (dest_len =? 0) || negb (Z.of_nat UDS_REQ_HDR + dest_len =? len)
      then mret (-3, None, None)
      else if dest_cap <? dest_len + 1 then mret (-4, None, None)
      else
        op ← arr_get buf 2;
        if negb (op =? UDS_OP_GET) then mret (-5, Some op, None)
        else
          d ← mem_slice buf UDS_REQ_HDR (Z.to_nat dest_len);
          mret (0, Some op, Some (d ++ [0])).

Definition status_frame (status : Z) : list Z :=
  [UDS_MAGIC; UDS_VERSION; status; 0; 0; 0; 0; 0; 0].

Definition send_status {S} (c : Conn) (status : Z) : M S (Z * Conn) :=
  write_all (status_frame status) c.

(** ** The agent side *)

Section Server.
Context {env : Env}.

(** The tail of [handle_conn] after a hit: build the frame in a heap block of
    exactly the computed size, send it, release both buffers, refill. *)
Definition send_session (c : Conn) (pool : Pool) (dest : list Z) (g : Got)
    : M World (Conn * Pool) :=
  let group := from_option id [] (g_group g) in
  let group_len := strlen group in
  let total := u64 (Z.of_nat UDS_RESP_HDR + group_len + u64 (g_der_len g)) in
  resp ← malloc (replicate (Z.to_nat total) 0);
  match resp with
  | None =>
      _ ← free (g_der g);
      '(_, c) ← send_status c UDS_STATUS_ERROR;
      mret (c, pool)
  | Some r =>
      der ← load (g_der g);
      payload ← mem_slice der 0 (Z.to_nat (u64 (g_der_len g)));
      _ ← store (Some r)
            ([UDS_MAGIC; UDS_VERSION; UDS_STATUS_OK;
              (if g_is_pqc g =? 0 then 0 else 1); u8 group_len] ++
             put_u32 (u32 (g_der_len g)) ++ group ++ payload);
      out ← load (Some r);
      '(_, c) ← write_all out c;
      _ ← free (Some r);
      _ ← free (g_der g);
      '(_, pool) ← pool_maintain pool dest;
      mret (c, pool)
  end.

Definition handle_conn (c : Conn) (pool : Pool) : M World (Conn * Pool) :=
  '(rc, hdr, c) ← read_exact UDS_REQ_HDR c;
  if negb (rc =? 1) then mret (c, pool)
  else
    f0 ← arr_get hdr 0;
    f1 ← arr_get hdr 1;
    f3 ← arr_get hdr 3;
    if negb (f0 =? UDS_MAGIC) || negb (f1 =? UDS_VERSION) || (f3 =? 0) then
      '(_, c) ← send_status c UDS_STATUS_ERROR;
      mret (c, pool)
    else
      let dest_len := f3 in
      '(rc, rest, c) ← read_exact (Z.to_nat dest_len) c;
      if negb (rc =? 1) then mret (c, pool)
      else
        '(rc, _, dest) ← uds_parse_request (hdr ++ rest) (Z.of_nat UDS_REQ_HDR + dest_len)
                           (UDS_DEST_MAX + 1);
        match rc =? 0, dest with
        | true, Some buf =>
            let dest := cstr buf in
            '(r, pool) ← pool_get pool dest (Some 64%nat);
            match r with
            | None =>
                '(_, c) ← send_status c UDS_STATUS_MISS;
                '(_, pool) ← pool_maintain pool dest;
                mret (c, pool)
            | Some g => send_session c pool dest g
            end
        | _, _ =>
            '(_, c) ← send_status c UDS_STATUS_ERROR;
            mret (c, pool)
        end.

(** What [accept] returns, call after call. *)
Inductive accept_event :=
  | AConn (c : Conn)
  | AIntr
  | AErr.

(** The accept loop: the connections it served and closed, the pool, and whether
    the loop has ended ([accept] failed) or is still waiting for a client. *)
Fixpoint serve_loop (evs : list accept_event) (pool : Pool)
    : M World (list Conn * Pool * bool) :=
  match evs with
  | [] => mret ([], pool, false)
  | AIntr :: t => serve_loop t pool
  | AErr :: _ => mret ([], pool, true)
  | AConn c :: t =>
      '(c, pool) ← handle_conn c pool;
      '(cs, pool, ended) ← serve_loop t pool;
      mret (sys_close c :: cs, pool, ended)
  end.

(** What the kernel answers to the calls of [uds_serve] other than [accept], and
    whether a file was left at the path of the socket. *)
Record listen_env := mkListen {
  l_socket : bool;
  l_path : bool;
  l_unlink : bool;
  l_bind : bool;
  l_listen : bool;
  l_unlink_end : bool
}.

(** What [uds_serve] leaves of its own socket: the descriptor and the file. *)
Record listener := mkListener {
  ls_open : bool;
  ls_path : bool
}.

(** [uds_serve]: the return code ([None] while the loop still waits), the
    connections served, the pool and the listening socket. *)
Definition uds_serve (path : list Z) (le : listen_env) (evs : list accept_event) (pool : Pool)
    : M World (option Z * list Conn * Pool * listener) :=
  if negb (l_socket le) then mret (Some 1, [], pool, mkListener false (l_path le))
  else
    let lfd := mkListener true (l_path le) in
    let close := fun l => mkListener false (ls_path l) in
    if SUN_PATH_SIZE <=? strlen path then mret (Some 1, [], pool, close lfd)
    else
      let lfd := mkListener (ls_open lfd) (ls_path lfd && negb (l_unlink le)) in
      if negb (l_bind le) then mret (Some 1, [], pool, close lfd)
      else
        let lfd := mkListener (ls_open lfd) true in
        if negb (l_listen le) then mret (Some 1, [], pool, close lfd)
        else
          '(cs, pool, ended) ← serve_loop evs pool;
          if (ended : bool) then
            let lfd := close lfd in
            let lfd := mkListener (ls_open lfd) (ls_path lfd && negb (l_unlink_end le)) in
            mret (Some 0, cs, pool, lfd)
          else mret (None, cs, pool, lfd).

End Server.

(** ** The injector side *)

(** What the kernel answers to [socket] and [connect]. *)
Record peer := mkPeer {
  pr_socket : bool;
  pr_connect : bool;
  pr_conn : Conn
}.

Definition request_frame (dest : list Z) : list Z :=
  [UDS_MAGIC; UDS_VERSION; UDS_OP_GET; u8 (strlen dest)] ++ dest.

Section Client.
Context {env : Env}.

(** The part of [uds_get] after the response header was accepted. *)
Definition get_body (hdr : list Z) (c : Conn) (group : option nat)
    : M World (Z * option Got * Conn) :=
  pqc ← arr_get hdr 3;
  group_len ← arr_get hdr 4;
  n ← get_u32 hdr 5;
  '(grc, gbuf, c) ← (if 0 <? group_len then read_exact (Z.to_nat group_len) c
                     else mret (1, [], c));
  if negb (grc =? 1) then mret (-1, None, sys_close c)
  else
    buf ← malloc (replicate (Z.to_nat (if 0 <? n then n else 1)) 0);
    match buf with
    | None => mret (-1, None, sys_close c)
    | Some b =>
        '(rc, bs, c) ← read_exact (Z.to_nat n) c;
        if negb (rc =? 1) then
          _ ← free (Some b);
          mret (-1, None, sys_close c)
        else
          old ← load (Some b);
          _ ← store (Some b) (bs ++ drop (length bs) old);
          mret (UDS_STATUS_OK,
                Some (mkGot (Some b) (s32 n) pqc (snprintf_opt group (cstr gbuf))),
                sys_close c)
    end.

(** [uds_get]: the status, what it left in the out-parameters, and the socket if
    one was created. *)
Definition uds_get (path dest : list Z) (pr : peer) (group : option nat)
    : M World (Z * option Got * option Conn) :=
  let dest_len := strlen dest in
  if (dest_len =? 0) || (UDS_DEST_MAX <? dest_len) then mret (-1, None, None)
  else if negb (pr_socket pr) then mret (-1, None, None)
  else if SUN_PATH_SIZE <=? strlen path then mret (-1, None, Some (sys_close (pr_conn pr)))
  else if negb (pr_connect pr) then mret (-1, None, Some (sys_close (pr_conn pr)))
  else
    '(rc, c) ← write_all (request_frame dest) (pr_conn pr);
    if negb (rc =? 1) then mret (-1, None, Some (sys_close c))
    else
      '(rc, hdr, c) ← read_exact UDS_RESP_HDR c;
      if negb (rc =? 1) then mret (-1, None, Some (sys_close c))
      else
        h0 ← arr_get hdr 0;
        h1 ← arr_get hdr 1;
        if negb (h0 =? UDS_MAGIC) || negb (h1 =? UDS_VERSION)
        then mret (-1, None, Some (sys_close c))
        else
          status ← arr_get hdr 2;
          if negb (status =? UDS_STATUS_OK) then mret (status, None, Some (sys_close c))
          else
            '(rc, g, c) ← get_body hdr c group;
            mret (rc, g, Some c).

End Client.

(** ** Specification vocabulary *)

(** The bytes a script delivers before the stream ends or fails. *)
Fixpoint delivered (evs : list read_event) : list Z :=
  match evs with
  | [] => []
  | RData b bs :: t => b :: bs ++ delivered t
  | RIntr :: t => delivered t
  | REof :: _ => []
  | RErr :: _ => []
  end.

(** Writes that never fail (they may be short or interrupted). *)
Definition writes_ok (c : Conn) : bool :=
  forallb (fun e => match e with WErr => false | _ => true end) (c_wr c).

Definition conn_bytes_ok (c : Conn) : bool := bytes_ok (delivered (c_in c)).

(** The response that carries a session. *)
Definition response_frame (s : session) : list Z :=
  [UDS_MAGIC; UDS_VERSION; UDS_STATUS_OK; (if s_is_pqc s =? 0 then 0 else 1);
   strlen (s_group s)] ++ put_u32 (Z.of_nat (length (s_der s))) ++ s_group s ++ s_der s.

(** What the bytes a client sent ask for: nothing complete, something malformed,
    or a session for a destination (the raw bytes of the name field). *)
Inductive request :=
  | ReqShort
  | ReqBad
  | ReqGet (name : list Z).

Definition classify (bs : list Z) : request :=
  match bs with
  | f0 :: f1 :: f2 :: f3 :: rest =>
      if negb (f0 =? UDS_MAGIC) || negb (f1 =? UDS_VERSION) || (f3 =? 0) then ReqBad
      else if (length rest <? Z.to_nat f3)%nat then ReqShort
      else if f2 =? UDS_OP_GET then ReqGet (take (Z.to_nat f3) rest)
      else ReqBad
  | _ => ReqShort
  end.

(** A frame read as a list: what a parser should make of it.  The codes name the
    first thing that is wrong: too short for a header, not this protocol, a length
    field that is zero or not that of the rest, no room for the terminator, an
    unknown operation. *)
Definition parse_outcome (buf : list Z) (cap : Z) : Z * option Z * option (list Z) :=
  match buf with
  | magic :: version :: op :: len :: rest =>
      if decide (magic = UDS_MAGIC /\ version = UDS_VERSION) then
        if decide (rest <> [] /\ len = strlen rest) then
          if decide (strlen rest < cap) then
            if decide (op = UDS_OP_GET) then (0, Some op, Some (rest ++ [0]))
            else (-5, Some op, None)
          else (-4, None, None)
        else (-3, None, None)
      else (-2, None, None)
  | _ => (-1, None, None)
  end.

(** The connections accepted before [accept] fails for good. *)
Fixpoint accepted (evs : list accept_event) : list Conn :=
  match evs with
  | [] => []
  | AConn c :: t => c :: accepted t
  | AIntr :: t => accepted t
  | AErr :: _ => []
  end.

Definition accept_fails (evs : list accept_event) : bool :=
  existsb (fun e => match e with AErr => true | _ => false end) evs.
