(* ===== verification/UdsLemmas.v ===== *)
(** * UdsLemmas: exact I/O, framing and both ends of the socket protocol

    The loops [read_exact] and [write_all] are independent of how the kernel
    splits the stream; on top of them, what the agent answers and what the
    injector accepts. *)

From stdpp Require Import base numbers list gmap strings.
From S2P Require Import Prelude Runtime Pool PoolOps Uds.

Open Scope Z_scope.

(** What [read_exact] promises: on a stream that delivers enough bytes the first
    [n] of them, otherwise a failure; nothing else of the connection changes. *)
Definition read_post {S} (n : nat) (c : Conn) (s : S) : Z * list Z * Conn -> S -> Prop :=
  fun '(rc, bs, c') s' =>
    s' = s /\ c_out c' = c_out c /\ c_wr c' = c_wr c /\ c_open c' = c_open c /\
    (if (n <=? length (delivered (c_in c)))%nat
     then rc = 1 /\ bs = take n (delivered (c_in c)) /\
          delivered (c_in c') = drop n (delivered (c_in c))
     else rc = 0 \/ rc = -1).

(** What [write_all] promises: success means everything was sent once, in order;
    a failure sent a prefix; without write errors it succeeds. *)
Definition write_post {S} (bs : list Z) (c : Conn) (s : S) : Z * Conn -> S -> Prop :=
  fun '(rc, c') s' =>
    s' = s /\ c_in c' = c_in c /\ c_open c' = c_open c /\
    (writes_ok c = true -> rc = 1 /\ writes_ok c' = true) /\
    ((rc = 1 /\ c_out c' = c_out c ++ bs) \/
     (rc = -1 /\ exists k, c_out c' = c_out c ++ take k bs)).

Section Io.
Context {S : Type} {bad : Prop}.

Lemma read_loop_full (fuel n : nat) (got : list Z) (c : Conn) (s : S) :
  (0 < fuel)%nat -> (n <= length got)%nat ->
  read_loop fuel n got c s = Some ((1, got, c), s).
Proof.
  intros Hf Hn. destruct fuel as [|fuel]; [lia|]. simpl.
  replace (length got <? n)%nat with false by (symmetry; apply Nat.ltb_ge; lia). done.
Qed.

Lemma read_loop_spec (fuel n : nat) (got : list Z) (c : Conn) (s : S) :
  (length (c_in c) < fuel)%nat -> (length got <= n)%nat ->
  returns_or bad (read_loop fuel n got c) s (fun '(rc, bs, c') s' =>
    s' = s /\ c_out c' = c_out c /\ c_wr c' = c_wr c /\ c_open c' = c_open c /\
    (if (n <=? length (got ++ delivered (c_in c)))%nat
     then rc = 1 /\ bs = take n (got ++ delivered (c_in c)) /\
          delivered (c_in c') = drop n (got ++ delivered (c_in c))
     else rc = 0 \/ rc = -1)).
Proof.
  destruct c as [evs wr out op]. cbn [c_in c_out c_wr c_open].
  revert got evs. induction fuel as [|fuel IH]; intros got evs Hf Hg; [lia|].
  destruct (decide (length got = n)) as [Heq|Hne].
  { eapply returns_intro; [apply read_loop_full; lia|]. cbn [c_in c_out c_wr c_open].
    rewrite (proj2 (Nat.leb_le _ _)) by (rewrite length_app; lia).
    rewrite take_app_length', drop_app_length' by lia. naive_solver. }
  simpl. replace (length got <? n)%nat with true by (symmetry; apply Nat.ltb_lt; lia).
  destruct evs as [|[b bs| | |] t]; simpl in Hf |- *; unfold sys_read; simpl.
  - apply returns_ret. rewrite app_nil_r. case_if; [lia|naive_solver].
  - (* data *)
    destruct (n - length got)%nat as [|k] eqn:Ek; [lia|]. simpl.
    destruct (drop k bs) as [|b' bs'] eqn:Ed.
    + (* the whole chunk fits *)
      assert (length bs <= k)%nat as Hle.
      { apply (f_equal length) in Ed. rewrite length_drop in Ed. simpl in Ed. lia. }
      rewrite take_ge by lia.
      eapply returns_mono; [apply IH; [simpl; lia|rewrite length_app; simpl; lia]|].
      intros [[rc xs] c'] s'. rewrite <- (assoc_L (++)). done.
    + (* the chunk is longer than what is missing *)
      assert (k < length bs)%nat as Hlt.
      { apply (f_equal length) in Ed. rewrite length_drop in Ed. simpl in Ed. lia. }
      assert (length (got ++ b :: take k bs) = n) as Hn
        by (rewrite length_app; simpl; rewrite length_take; lia).
      eapply returns_intro; [apply read_loop_full; [lia|by rewrite Hn]|]. simpl.
      assert (got ++ b :: bs ++ delivered t = (got ++ b :: take k bs) ++ (b' :: bs') ++ delivered t)
        as Hsplit.
      { rewrite <- Ed, <- !(assoc_L (++)). simpl. by rewrite (assoc_L (++)), take_drop. }
      rewrite Hsplit, (proj2 (Nat.leb_le _ _)) by (rewrite length_app; lia).
      rewrite take_app_length', drop_app_length' by done. done.
  - apply returns_ret. rewrite app_nil_r. case_if; [lia|naive_solver].
  - eapply returns_mono; [apply IH; [simpl; lia|done]|]. done.
  - apply returns_ret. rewrite app_nil_r. case_if; [lia|naive_solver].
Qed.

Lemma read_exact_spec (n : nat) (c : Conn) (s : S) :
  returns_or bad (read_exact n c) s (read_post n c s).
Proof. unfold read_exact. eapply returns_mono; [apply read_loop_spec; simpl; lia|]. done. Qed.

Lemma write_loop_spec (fuel : nat) (bs : list Z) (sent : nat) (c : Conn) (s : S) :
  (1 + length (c_wr c) < fuel)%nat ->
  returns_or bad (write_loop fuel bs sent c) s (write_post (drop sent bs) c s).
Proof.
  destruct c as [ins wr out op]. cbn [c_wr].
  revert sent wr out. induction fuel as [|fuel IH]; intros sent wr out Hf; [lia|].
  simpl. destruct (sent <? length bs)%nat eqn:E; bool_prop.
  2: { apply returns_ret. split_and!; try done. left. rewrite drop_ge by lia.
       by rewrite app_nil_r. }
  destruct wr as [|[k| |] t]; simpl in Hf |- *; unfold sys_write; simpl.
  - destruct fuel as [|fuel]; [lia|]. simpl. rewrite length_drop.
    replace (sent + (length bs - sent) <? length bs)%nat with false
      by (symmetry; apply Nat.ltb_ge; lia).
    apply returns_ret. split_and!; try done. by left.
  - eapply returns_mono; [apply IH; lia|]. intros [rc c'] s' (-> & Hi & Ho & Hw & Hout).
    split_and!; try done. cbn [c_out] in *.
    assert (drop sent bs = take k (drop sent bs) ++ drop (sent + length (take k (drop sent bs))) bs)
      as Hsp.
    { rewrite <- drop_drop. rewrite length_take. rewrite <- (take_drop k (drop sent bs)) at 1.
      f_equal. destruct (decide (k <= length (drop sent bs))%nat).
      - by rewrite Nat.min_l.
      - rewrite Nat.min_r by lia. rewrite (drop_ge _ k), drop_ge by lia. done. }
    destruct Hout as [[-> ->]|[-> [j ->]]].
    + left. split; [done|]. rewrite <- (assoc_L (++)). by rewrite <- Hsp.
    + right. split; [done|]. exists (length (take k (drop sent bs)) + j)%nat.
      rewrite <- (assoc_L (++)). f_equal. symmetry. rewrite Hsp at 2. apply take_app_add.
  - eapply returns_mono; [apply IH; lia|]. intros [rc c'] s' (-> & Hi & Ho & Hw & Hout). done.
  - apply returns_ret. split_and!; try done. right. split; [done|]. exists O. by rewrite app_nil_r.
Qed.

Lemma write_all_spec (bs : list Z) (c : Conn) (s : S) :
  returns_or bad (write_all bs c) s (write_post bs c s).
Proof. unfold write_all. eapply returns_mono; [apply write_loop_spec; lia|]. done. Qed.

End Io.

(** ** Framing *)

Section Framing.
Context {bad : Prop}.

Lemma lor_bytes_u32 (v : Z) :
  0 <= v < 2 ^ 32 ->
  Z.lor (Z.lor (Z.lor (u32 (Z.shiftl (u8 (Z.shiftr v 24)) 24))
                  (u32 (Z.shiftl (u8 (Z.shiftr v 16)) 16)))
           (u32 (Z.shiftl (u8 (Z.shiftr v 8)) 8))) (u8 v) = v.
Proof.
  intros Hv. unfold wrapU. rewrite <- !Z.land_ones by lia.
  apply Z.bits_inj'. intros n Hn.
  rewrite !Z.lor_spec, !Z.land_spec, !Z.shiftl_spec, !Z.land_spec by lia.
  destruct (decide (32 <= n)).
  { rewrite (Z.testbit_ones_nonneg 32), (Z.testbit_ones_nonneg 8 n) by lia.
    rewrite (Z.bits_above_log2 v n); [|lia|].
    - replace (n <? 32) with false by (symmetry; apply Z.ltb_ge; lia).
      by rewrite !andb_false_r.
    - destruct (decide (v = 0)) as [->|]; [simpl; lia|].
      assert (Z.log2 v < 32); [apply Z.log2_lt_pow2; lia|lia]. }
  rewrite (Z.testbit_ones_nonneg 32), (Z.testbit_ones_nonneg 8 n) by lia.
  replace (n <? 32) with true by (symmetry; apply Z.ltb_lt; lia). rewrite !andb_true_r.
  assert (forall k, 0 <= k -> Z.testbit (Z.shiftr v k) (n - k) && Z.testbit (Z.ones 8) (n - k)
    = if (k <=? n) && (n <? k + 8) then Z.testbit v n else false) as Hb.
  { intros k Hk. destruct (k <=? n) eqn:E; bool_prop; cbn [andb].
    - rewrite Z.shiftr_spec, (Z.testbit_ones_nonneg 8) by lia. replace (n - k + k) with n by lia.
      destruct (n <? k + 8) eqn:E2; bool_prop.
      + replace (n - k <? 8) with true by (symmetry; apply Z.ltb_lt; lia). by rewrite andb_true_r.
      + replace (n - k <? 8) with false by (symmetry; apply Z.ltb_ge; lia). by rewrite andb_false_r.
    - rewrite !(Z.testbit_neg_r _ (n - k)) by lia. done. }
  rewrite !Hb by lia.
  destruct (Z.testbit v n); rewrite ?andb_false_r; repeat case_match; try done; lia.
Qed.

Lemma bytes_ok_put_u32 (v : Z) : bytes_ok (put_u32 v) = true.
Proof. cbn [bytes_ok put_u32 forallb]. by rewrite !byte_ok_u8. Qed.

Lemma get_put_u32 {S} (pre post : list Z) (v : Z) (s : S) (Q : Z -> S -> Prop) :
  0 <= v < 2 ^ 32 -> Q v s -> returns_or bad (get_u32 (pre ++ put_u32 v ++ post) (length pre)) s Q.
Proof.
  intros Hv HQ. unfold get_u32.
  assert (forall k x, put_u32 v !! k = Some x ->
    (pre ++ put_u32 v ++ post) !! (length pre + k)%nat = Some x) as Hlk.
  { intros k x Hk. rewrite lookup_app_r by lia. replace (length pre + k - length pre)%nat with k by lia.
    apply lookup_app_l_Some. done. }
  apply returns_bind. eapply returns_arr_get;
    [replace (length pre) with (length pre + 0)%nat by lia; by apply Hlk|].
  do 3 (apply returns_bind; eapply returns_arr_get; [by apply Hlk|]).
  apply returns_ret. by rewrite lor_bytes_u32.
Qed.

Lemma lor_range (w a b : Z) :
  0 <= w -> 0 <= a < 2 ^ w -> 0 <= b < 2 ^ w -> 0 <= Z.lor a b < 2 ^ w.
Proof.
  intros Hw Ha Hb.
  assert (Z.lor a b = wrapU w (Z.lor a b)) as ->; [|by apply wrapU_range].
  unfold wrapU. rewrite <- Z.land_ones, Z.land_lor_distr_l, !Z.land_ones by lia.
  by rewrite !Z.mod_small.
Qed.

Lemma get_u32_range {S} (p : list Z) (off : nat) (s : S) (Q : Z -> S -> Prop) :
  bytes_ok p = true -> (off + 4 <= length p)%nat ->
  (forall v, 0 <= v < 2 ^ 32 -> Q v s) -> returns_or bad (get_u32 p off) s Q.
Proof.
  intros Hb Hl HQ. apply bytes_ok_Forall in Hb. unfold get_u32.
  destruct (lookup_lt_is_Some_2 p off) as [p0 H0]; [lia|].
  destruct (lookup_lt_is_Some_2 p (off + 1)) as [p1 H1]; [lia|].
  destruct (lookup_lt_is_Some_2 p (off + 2)) as [p2 H2]; [lia|].
  destruct (lookup_lt_is_Some_2 p (off + 3)) as [p3 H3]; [lia|].
  do 4 (apply returns_bind; eapply returns_arr_get; [done|]).
  apply returns_ret, HQ. eapply Forall_lookup_1 in Hb; [|exact H3].
  repeat apply lor_range; try lia; apply (wrapU_range 32); lia.
Qed.

Lemma request_frame_eq (dest : list Z) :
  strlen dest <= 255 ->
  request_frame dest = [UDS_MAGIC; UDS_VERSION; UDS_OP_GET; strlen dest] ++ dest.
Proof. intros H. unfold request_frame. rewrite wrapU_small; [done|]. unfold strlen in *. lia. Qed.

(** [uds_parse_request] on a complete frame: it accepts exactly the frames the
    client builds, for destinations that fit, and never reads outside the frame. *)
Lemma parse_request_spec {S} (buf : list Z) (cap : Z) (s : S) :
  bytes_ok buf = true ->
  returns_or bad (uds_parse_request buf (Z.of_nat (length buf)) cap) s (fun '(rc, op, d) s' =>
    s' = s /\ rc <= 0 /\ (rc <> 0 -> d = None) /\
    (rc = 0 -> exists dest, buf = request_frame dest /\ 1 <= strlen dest <= 255 /\
       strlen dest < cap /\ op = Some UDS_OP_GET /\ d = Some (dest ++ [0])) /\
    (forall dest, buf = request_frame dest -> 1 <= strlen dest <= 255 -> strlen dest < cap -> rc = 0)).
Proof.
  intros Hok. apply bytes_ok_Forall in Hok. unfold uds_parse_request, UDS_REQ_HDR.
  destruct buf as [|b0 [|b1 [|b2 [|b3 rest]]]];
    try (apply returns_ret; split_and!; try done; intros dest Hd; by destruct dest).
  assert (0 <= b3 < 256) as Hb3 by (do 3 apply Forall_inv_tail in Hok; by apply Forall_inv in Hok).
  replace (Z.of_nat (length (b0 :: b1 :: b2 :: b3 :: rest)) <? Z.of_nat 4) with false
    by (symmetry; apply Z.ltb_ge; simpl; lia).
  do 2 (apply returns_bind; eapply returns_arr_get; [done|]).
  assert (forall dest, b0 :: b1 :: b2 :: b3 :: rest = request_frame dest -> strlen dest <= 255 ->
    b0 = UDS_MAGIC /\ b1 = UDS_VERSION /\ b2 = UDS_OP_GET /\ b3 = strlen dest /\ rest = dest) as Hinj.
  { intros dest Hd Hl. rewrite request_frame_eq in Hd by lia.
    injection Hd as ? ? ? ? ?. done. }
  destruct (b0 =? UDS_MAGIC) eqn:E0; bool_prop; cbn [negb orb].
  2: { apply returns_ret; split_and!; try done. intros dest Hd Hl _. by destruct (Hinj dest Hd (proj2 Hl)) as (? & ? & ? & ? & ?). }
  destruct (b1 =? UDS_VERSION) eqn:E1; bool_prop; cbn [negb orb].
  2: { apply returns_ret; split_and!; try done. intros dest Hd Hl _. by destruct (Hinj dest Hd (proj2 Hl)) as (? & ? & ? & ? & ?). }
  apply returns_bind; eapply returns_arr_get; [done|].
  destruct (b3 =? 0) eqn:E3; bool_prop; cbn [orb].
  { apply returns_ret; split_and!; try done. intros dest Hd Hl _.
    destruct (Hinj dest Hd (proj2 Hl)) as (_ & _ & _ & ? & _). lia. }
  destruct (Z.of_nat 4 + b3 =? _) eqn:El; bool_prop; cbn [negb].
  2: { apply returns_ret; split_and!; try done. intros dest Hd Hl _. simpl in El. unfold strlen in *.
       destruct (Hinj dest Hd (proj2 Hl)) as (_ & _ & _ & -> & ->). lia. }
  assert (Z.of_nat (length rest) = b3) as Hlen by (simpl in El; lia).
  case_if.
  { apply returns_ret; split_and!; try done. intros dest Hd Hl Hc.
    destruct (Hinj dest Hd (proj2 Hl)) as (_ & _ & _ & ? & _). lia. }
  apply returns_bind; eapply returns_arr_get; [done|].
  destruct (b2 =? UDS_OP_GET) eqn:E2; bool_prop; cbn [negb].
  2: { apply returns_ret; split_and!; try done. intros dest Hd Hl _. by destruct (Hinj dest Hd (proj2 Hl)) as (? & ? & ? & ? & ?). }
  unfold mem_slice. replace (4 + Z.to_nat b3 <=? _)%nat with true
    by (symmetry; apply Nat.leb_le; simpl; lia).
  apply returns_bind, returns_ret, returns_ret. simpl. rewrite drop_0, take_ge by lia.
  split_and!; try done. intros _. exists rest.
  rewrite request_frame_eq by (unfold strlen; lia). unfold strlen. subst. split_and!; done || lia.
Qed.

(** The outcome in full, codes included. *)
Lemma parse_request_outcome {S} (buf : list Z) (cap : Z) (s : S) :
  bytes_ok buf = true ->
  returns_or bad (uds_parse_request buf (Z.of_nat (length buf)) cap) s (fun r s' =>
    s' = s /\ r = parse_outcome buf cap).
Proof.
  intros Hok. apply bytes_ok_Forall in Hok. unfold uds_parse_request, UDS_REQ_HDR.
  destruct buf as [|b0 [|b1 [|b2 [|b3 rest]]]]; try by apply returns_ret.
  assert (0 <= b3 < 256) as Hb3 by (do 3 apply Forall_inv_tail in Hok; by apply Forall_inv in Hok).
  replace (Z.of_nat (length (b0 :: b1 :: b2 :: b3 :: rest)) <? Z.of_nat 4) with false
    by (symmetry; apply Z.ltb_ge; simpl; lia).
  do 2 (apply returns_bind; eapply returns_arr_get; [done|]). unfold parse_outcome, strlen.
  case_if.
  { apply returns_ret. split; [done|]. rewrite decide_False; [done|]. intros [-> ->]. done. }
  rewrite decide_True by done. apply returns_bind; eapply returns_arr_get; [done|].
  replace (Z.of_nat (length (b0 :: b1 :: b2 :: b3 :: rest)))
    with (4 + Z.of_nat (length rest)) by (simpl; lia).
  destruct ((b3 =? 0) || negb (Z.of_nat 4 + b3 =? 4 + Z.of_nat (length rest))) eqn:El.
  { apply returns_ret. split; [done|]. rewrite decide_False; [done|]. intros [Hne ->].
    apply orb_true_iff in El as [El|El]; bool_prop; [|lia]. destruct rest; [done|]. simpl in El. lia. }
  bool_prop. rewrite decide_True by (split; [by intros ->; simpl in *; lia|lia]).
  case_if.
  { apply returns_ret. by rewrite decide_False by lia. }
  rewrite decide_True by lia. apply returns_bind; eapply returns_arr_get; [done|].
  case_if.
  { apply returns_ret. by rewrite decide_False by done. }
  unfold mem_slice. replace (4 + Z.to_nat b3 <=? _)%nat with true
    by (symmetry; apply Nat.leb_le; simpl; lia).
  apply returns_bind, returns_ret, returns_ret. simpl. rewrite drop_0, take_ge by lia.
  by rewrite decide_True by done.
Qed.

(** ** The pool in a changed heap *)

Lemma pool_inv_ext (p : Pool) (w w' : World) :
  pool_inv p w -> heap_wf w' ->
  (forall l, l ∈ pool_blocks p -> w_heap w' !! l = w_heap w !! l) ->
  pool_inv p w' /\ (forall k, sessions p w' k = sessions p w k).
Proof.
  intros (Hwf & Ht & Hok & Hnd & Hal & Hnn) Hwf' Hsame.
  assert (forall i d, p_dests p !! i = Some d -> forall l, l ∈ ders (live d) ->
    w_heap w' !! l = w_heap w !! l) as Hd.
  { intros i d Hi l Hl. apply Hsame. rewrite (pool_blocks_split p i d Hi). set_solver. }
  split; [split_and!; try done|].
  - apply Forall_lookup. intros i d Hi. apply (dest_ok_ext _ (w_heap w)); [by eapply Hd|].
    by eapply Forall_lookup_1 in Hok.
  - apply Forall_forall. intros l Hl. rewrite Hsame by done. by eapply Forall_forall in Hal.
  - intros k. unfold sessions. destruct (dest_find (p_dests p) k) as [i|]; [|done].
    destruct (p_dests p !! i) as [d|] eqn:Hi; [|done]. simpl. apply abs_entries_ext. by eapply Hd.
Qed.

(** Releasing a session the pool handed out. *)
Lemma pool_step_release (p p' : Pool) (l : nat) (w w1 w2 : World) :
  pool_step [l] p p' w w1 -> w_heap w2 = delete l (w_heap w1) ->
  (w_next w1 <= w_next w2)%nat -> (w_step w1 <= w_step w2)%nat ->
  pool_step [] p p' w w2 /\ (forall k, sessions p' w2 k = sessions p' w1 k).
Proof.
  intros (Hinv & Hle & Hs & Ht & Hnd & [Ho Hf]) Hh Hn Hst. apply NoDup_cons in Hnd as [Hl Hnd].
  assert (heap_wf w2) as Hwf2.
  { intros k. rewrite Hh, lookup_delete. case_decide; [by intros []|].
    intros Hk. destruct Hinv as (Hwf & _). apply Hwf in Hk. lia. }
  destruct (pool_inv_ext p' w1 w2 Hinv Hwf2) as [Hinv2 Hss].
  { intros k Hk. rewrite Hh, lookup_delete_ne; [done|]. set_solver. }
  split; [|done]. split_and!; try done.
  - unfold world_le in *. lia.
  - split.
    + intros k Hk. simpl in *. rewrite Hh, lookup_delete. case_decide as Hlk.
      * subst k. case_decide; [done|]. symmetry. apply Hf; [by left|done].
      * apply Ho. set_solver.
    + intros k Hk. apply Hf. set_solver.
Qed.

End Framing.

(** ** The agent: one connection *)

Section Server.
Context {env : Env} {bad : Prop}.

(** The answer owed to a request, given the sessions held before it. *)
Definition answer_ok (p : Pool) (w : World) (r : request) (ans : list Z) : Prop :=
  match r with
  | ReqShort => ans = []
  | ReqBad => ans = status_frame UDS_STATUS_ERROR
  | ReqGet name =>
      match last (List.filter (fresh_at (env_time (w_step w))) (sessions p w (cstr name))) with
      | None => ans = status_frame UDS_STATUS_MISS
      | Some s => ans = response_frame s \/
          (ans = status_frame UDS_STATUS_ERROR /\ exists k, env_alloc k = false)
      end
  end.

(** What [handle_conn] promises: the pool stays well formed and accounts for all
    its blocks, and over a working socket exactly the owed answer is sent. *)
Definition handle_post (c : Conn) (p : Pool) (w : World) : Conn * Pool -> World -> Prop :=
  fun '(c', p') w' =>
    pool_step [] p p' w w' /\ c_open c' = c_open c /\
    exists ans, answer_ok p w (classify (delivered (c_in c))) ans /\
      (writes_ok c = true -> c_out c' = c_out c ++ ans).

Lemma handle_post_status (c c1 c2 : Conn) (p p' : Pool) (w w' : World) (status rc : Z) :
  pool_step [] p p' w w' ->
  c_out c1 = c_out c -> c_open c1 = c_open c -> c_wr c1 = c_wr c ->
  answer_ok p w (classify (delivered (c_in c))) (status_frame status) ->
  write_post (status_frame status) c1 w' (rc, c2) w' ->
  handle_post c p w (c2, p') w'.
Proof.
  intros Hst Ho Hop Hwr Hans (_ & _ & Hop2 & Hok & Hout). split_and!; [done|congruence|].
  exists (status_frame status). split; [done|]. intros Hw.
  destruct Hok as [-> _]; [unfold writes_ok in *; by rewrite Hwr|].
  destruct Hout as [[_ ->]|[? _]]; [|done]. by rewrite Ho.
Qed.

Lemma response_frame_length (s : session) :
  length (response_frame s) = (9 + length (s_group s) + length (s_der s))%nat.
Proof. unfold response_frame. rewrite !length_app. cbn [length put_u32]. lia. Qed.

(** The end of every path of [send_session]: one frame was written whole. *)
Lemma write_frame_rule (ans : list Z) (c : Conn) (w : World) (Q : Z * Conn -> World -> Prop) :
  (forall rc c', c_open c' = c_open c -> (writes_ok c = true -> c_out c' = c_out c ++ ans) ->
     Q (rc, c') w) ->
  returns_or bad (write_all ans c) w Q.
Proof.
  intros HQ. eapply returns_mono; [apply write_all_spec|].
  intros [rc c2] w2 (-> & _ & Hop & Hok & Hout). apply HQ; [done|].
  intros Hw. destruct (Hok Hw) as [-> _]. by destruct Hout as [[_ ->]|[? _]].
Qed.

(** The malloc/store/load/free of the response buffer leaves the heap as it was. *)
Lemma send_session_spec (c : Conn) (p p1 : Pool) (dest : list Z) (g : Got) (l : nat) (s : session)
    (w w1 : World) :
  SourceOkOr bad (p_src p) -> pool_step [l] p p1 w w1 ->
  got_is (w_heap w1) (Some 64%nat) g l s ->
  returns_or bad (send_session c p1 dest g) w1 (fun '(c', p') w' =>
    pool_step [] p p' w w' /\ c_open c' = c_open c /\
    exists ans, (ans = response_frame s \/
        (ans = status_frame UDS_STATUS_ERROR /\ exists k, env_alloc k = false)) /\
      (writes_ok c = true -> c_out c' = c_out c ++ ans)).
Proof.
  intros Hsrc Hst (Hder & Hblk & Hlen & Hb & Hpqc & Hgrp & Hgl & Hgn).
  assert (g_group g = Some (s_group s)) as Hgrp'.
  { rewrite Hgrp. simpl. by rewrite snprintf_s_id. }
  unfold GROUP_MAX in Hgl. unfold send_session. rewrite Hgrp', Hder.
  cbv beta zeta. cbn [from_option id].
  rewrite (wrapU_small 64 (g_der_len g)) by lia.
  rewrite (wrapU_small 64 (Z.of_nat UDS_RESP_HDR + _ + _)) by (unfold strlen, UDS_RESP_HDR; lia).
  pose proof Hst as (Hinv1 & _ & Hsrc1 & Ht1 & Hnd & _). pose proof Hinv1 as (Hwf1 & _).
  apply returns_bind, returns_malloc; intros Ha.
  - (* the frame is built, sent, and released *)
    set (total := Z.to_nat (Z.of_nat UDS_RESP_HDR + _ + _)).
    assert (w_heap w1 !! w_next w1 = None) as Hfr by by apply heap_wf_fresh.
    assert (l <> w_next w1) as Hlr by congruence.
    apply returns_bind. eapply returns_load; [simpl; rewrite lookup_insert_ne; done|].
    unfold mem_slice. rewrite (proj2 (Nat.leb_le _ _)) by (simpl; lia).
    apply returns_bind, returns_ret. rewrite drop_0, take_ge by lia.
    match goal with |- context [store _ ?f] => assert (f = response_frame s) as -> end.
    { unfold response_frame.
      rewrite Hpqc, (wrapU_small 32), (wrapU_small 8 (strlen _)) by (unfold strlen; lia).
      by rewrite Hlen. }
    assert (length (response_frame s) = total) as Htot
      by (rewrite response_frame_length; unfold total, UDS_RESP_HDR, strlen; lia).
    apply returns_bind. eapply returns_store; [apply lookup_insert_eq|by rewrite length_replicate|].
    apply returns_bind. eapply returns_load; [simpl; by rewrite lookup_insert_eq|].
    apply returns_bind, write_frame_rule. intros rc c2 Hop Hout.
    apply returns_bind, returns_free; [simpl; by rewrite lookup_insert_eq|].
    apply returns_bind, returns_free.
    { simpl. rewrite lookup_delete_ne, !lookup_insert_ne by done. eauto. }
    set (w3 := mkWorld _ _ _).
    destruct (pool_step_release p p1 l w w1 w3 Hst) as [Hrel _].
    { simpl. rewrite insert_insert_eq. by rewrite delete_insert_id. } { simpl; lia. } { simpl; lia. }
    pose proof Hrel as (Hinv3 & _).
    apply returns_bind. eapply returns_mono; [apply pool_maintain_spec; [by rewrite Hsrc1|done]|].
    intros [n p2] w4 (Hst4 & _). apply returns_ret.
    split_and!; [by eapply pool_step_trans|done|]. exists (response_frame s). split; [by left|done].
  - (* no memory for the frame *)
    apply returns_bind, returns_free; [simpl; eauto|].
    set (w3 := mkWorld _ _ _).
    destruct (pool_step_release p p1 l w w1 w3 Hst) as [Hrel _]; [done|simpl; lia..|].
    apply returns_bind, write_frame_rule. intros rc c2 Hop Hout. apply returns_ret.
    split_and!; [done..|]. exists (status_frame UDS_STATUS_ERROR). split; [right; eauto|done].
Qed.

(** The session lookup and answer for a well-formed request. *)
Lemma answer_get_spec (c c1 : Conn) (p : Pool) (name : list Z) (w : World) :
  SourceOkOr bad (p_src p) -> pool_inv p w -> classify (delivered (c_in c)) = ReqGet name ->
  c_out c1 = c_out c -> c_open c1 = c_open c -> c_wr c1 = c_wr c ->
  returns_or bad (
    '(r, pool) ← pool_get p (cstr name) (Some 64%nat);
    match r with
    | None =>
        '(_, c) ← send_status c1 UDS_STATUS_MISS;
        '(_, pool) ← pool_maintain pool (cstr name);
        mret (c, pool)
    | Some g => send_session c1 pool (cstr name) g
    end) w (handle_post c p w).
Proof.
  intros Hsrc Hinv Hcl Ho Hop Hwr.
  apply returns_bind. eapply returns_mono; [by apply pool_get_spec|].
  intros [[g|] p1] w1 [_ Hr].
  - destruct Hr as (l & s & Hst & Hk & Hg).
    eapply returns_mono; [by eapply send_session_spec|].
    intros [c' p'] w' (Hst' & Hop' & ans & Hans & Hout). split_and!; [done|congruence|].
    exists ans. rewrite Hcl. simpl. rewrite Hk, last_snoc. split; [done|].
    intros Hw. rewrite Hout, Ho; [done|]. unfold writes_ok in *. by rewrite Hwr.
  - destruct Hr as (Hst & Hk & Hs). pose proof Hst as (Hinv1 & _ & Hsrc1 & _).
    apply returns_bind. eapply returns_mono; [apply write_all_spec|].
    intros [rc c2] w2 Hwp. pose proof Hwp as (-> & _).
    apply returns_bind. eapply returns_mono; [apply pool_maintain_spec; [by rewrite Hsrc1|done]|].
    intros [n p2] w3 (Hst3 & _). apply returns_ret.
    assert (handle_post c p w (c2, p1) w1) as (_ & Hop2 & Hans).
    { eapply handle_post_status; try done. rewrite Hcl. simpl. by rewrite Hk. }
    split_and!; [by eapply pool_step_trans|done|done].
Qed.

Lemma classify_frame (f0 f1 f2 f3 : Z) (rest : list Z) :
  0 <= f3 < 256 -> f0 = UDS_MAGIC -> f1 = UDS_VERSION -> f3 <> 0 ->
  (Z.to_nat f3 <= length rest)%nat ->
  classify (f0 :: f1 :: f2 :: f3 :: rest) =
    if f2 =? UDS_OP_GET then ReqGet (take (Z.to_nat f3) rest) else ReqBad.
Proof.
  intros Hf -> -> Hz Hl. simpl. apply Z.eqb_neq in Hz. rewrite Hz. simpl.
  apply Nat.ltb_ge in Hl. by rewrite Hl.
Qed.

(** After the header was accepted. *)
Lemma handle_rest_spec (c c1 : Conn) (p : Pool) (w : World) (f0 f1 f2 f3 : Z) (rest : list Z) :
  SourceOkOr bad (p_src p) -> pool_inv p w -> bytes_ok (f0 :: f1 :: f2 :: f3 :: rest) = true ->
  delivered (c_in c) = f0 :: f1 :: f2 :: f3 :: rest -> delivered (c_in c1) = rest ->
  c_out c1 = c_out c -> c_open c1 = c_open c -> c_wr c1 = c_wr c ->
  f0 = UDS_MAGIC -> f1 = UDS_VERSION -> f3 <> 0 ->
  returns_or bad (
      '(rc, rest, c) ← read_exact (Z.to_nat f3) c1;
      if negb (rc =? 1) then mret (c, p)
      else
        '(rc, _, dest) ← uds_parse_request ([f0; f1; f2; f3] ++ rest)
                           (Z.of_nat UDS_REQ_HDR + f3) (UDS_DEST_MAX + 1);
        match rc =? 0, dest with
        | true, Some buf =>
            let dest := cstr buf in
            '(r, pool) ← pool_get p dest (Some 64%nat);
            match r with
            | None =>
                '(_, c) ← send_status c UDS_STATUS_MISS;
                '(_, pool) ← pool_maintain pool dest;
                mret (c, pool)
            | Some g => send_session c pool dest g
            end
        | _, _ =>
            '(_, c) ← send_status c UDS_STATUS_ERROR;
            mret (c, p)
        end) w (handle_post c p w).
Proof.
  intros Hsrc Hinv Hb Hd Hd1 Ho Hop Hwr H0 H1 H3.
  assert (0 <= f3 < 256) as Hf3.
  { apply bytes_ok_Forall in Hb. do 3 apply Forall_inv_tail in Hb. by apply Forall_inv in Hb. }
  pose proof Hinv as (Hwf & _).
  apply returns_bind. eapply returns_mono; [apply read_exact_spec|].
  intros [[rc bs] c2] w2 (-> & Ho2 & Hwr2 & Hop2 & Hr). rewrite Hd1 in Hr.
  destruct (Z.to_nat f3 <=? length rest)%nat eqn:El; bool_prop.
  2: { replace (negb (rc =? 1)) with true by (destruct Hr as [-> | ->]; done).
       apply returns_ret. split_and!; [by apply pool_step_refl; auto with tc|congruence|].
       exists []. rewrite Hd, app_nil_r. split; [|congruence].
       simpl. subst f0 f1. apply Z.eqb_neq in H3. rewrite H3. simpl.
       by rewrite (proj2 (Nat.ltb_lt _ _)). }
  destruct Hr as (-> & -> & Hd2). cbn [negb Z.eqb Pos.eqb].
  set (name := take (Z.to_nat f3) rest).
  assert (strlen name = f3) as Hname by (unfold strlen, name; rewrite length_take; lia).
  pose proof (classify_frame f0 f1 f2 f3 rest Hf3 H0 H1 H3 El) as Hcl. fold name in Hcl.
  assert (bytes_ok ([f0; f1; f2; f3] ++ name) = true) as Hbn
    by by apply (bytes_ok_take (4 + Z.to_nat f3)) in Hb.
  clearbody name.
  replace (Z.of_nat UDS_REQ_HDR + f3) with (Z.of_nat (length ([f0; f1; f2; f3] ++ name)))
    by (rewrite length_app; unfold strlen, UDS_REQ_HDR in *; simpl; lia).
  apply returns_bind. eapply returns_mono; [by apply parse_request_spec|].
  intros [[rc op] d] w3 (-> & _ & _ & Hok & Hcomp).
  assert (c_out c2 = c_out c /\ c_open c2 = c_open c /\ c_wr c2 = c_wr c) as (Ho' & Hop' & Hwr')
    by (split_and!; congruence).
  destruct (rc =? 0) eqn:Erc; bool_prop.
  - destruct (Hok Erc) as (dest & Hfr & Hl & _ & _ & ->).
    rewrite request_frame_eq in Hfr by lia. injection Hfr as _ _ Hf2 _ <-.
    cbn beta iota zeta.
    rewrite cstr_snoc_nul. apply answer_get_spec; try done. rewrite Hd, Hcl, Hf2. done.
  - assert (f2 <> UDS_OP_GET) as Hf2.
    { intros ->. apply Erc, (Hcomp name); [|lia|unfold UDS_DEST_MAX; lia].
      rewrite request_frame_eq, Hname by lia. by subst. }
    apply Z.eqb_neq in Hf2.
    apply returns_bind. eapply returns_mono; [apply write_all_spec|].
    intros [rc' c3] w4 Hwp. pose proof Hwp as (-> & _). apply returns_ret.
    eapply handle_post_status; try done; [by apply pool_step_refl; auto with tc|].
    by rewrite Hd, Hcl, Hf2.
Qed.

Lemma handle_conn_spec (c : Conn) (p : Pool) (w : World) :
  SourceOkOr bad (p_src p) -> pool_inv p w -> conn_bytes_ok c = true ->
  returns_or bad (handle_conn c p) w (handle_post c p w).
Proof.
  intros Hsrc Hinv Hb. pose proof Hinv as (Hwf & _). unfold handle_conn, conn_bytes_ok in *.
  apply returns_bind. eapply returns_mono; [apply read_exact_spec|].
  intros [[rc hdr] c1] w1 (-> & Ho & Hwr & Hop & Hr).
  assert (pool_step [] p p w w) as Hrefl by (by apply pool_step_refl; auto with tc).
  unfold UDS_REQ_HDR at 1 in Hr. unfold UDS_REQ_HDR in Hr.
  destruct (delivered (c_in c)) as [|f0 [|f1 [|f2 [|f3 rest]]]] eqn:Hd; simpl in Hr;
    try (replace (negb (rc =? 1)) with true by (destruct Hr as [-> | ->]; done);
         apply returns_ret; split_and!; [done|done|]; exists []; rewrite Hd, app_nil_r; done).
  destruct Hr as (-> & -> & Hd1). rewrite take_0, drop_0 in *. cbn [negb Z.eqb Pos.eqb].
  do 3 (apply returns_bind; eapply returns_arr_get; [done|]).
  case_if.
  - apply returns_bind. eapply returns_mono; [apply write_all_spec|].
    intros [rc' c2] w4 Hwp. pose proof Hwp as (-> & _). apply returns_ret.
    eapply handle_post_status; try done. rewrite Hd. simpl. by rewrite E.
  - by eapply handle_rest_spec.
Qed.

(** ** The agent: any sequence of clients *)

(** The connections [cs] were served one after the other, with the results [cs']:
    each was sent the answer it is owed by the pool as it was then, over a working
    socket, and closed. *)
Inductive served : Pool -> World -> list Conn -> list Conn -> Pool -> World -> Prop :=
  | served_nil p w : served p w [] [] p w
  | served_cons p w c c' cs cs' p1 w1 p' w' ans :
      pool_step [] p p1 w w1 ->
      answer_ok p w (classify (delivered (c_in c))) ans ->
      (writes_ok c = true -> c_out c' = c_out c ++ ans) -> c_open c' = false ->
      served p1 w1 cs cs' p' w' ->
      served p w (c :: cs) (c' :: cs') p' w'.

Lemma served_step (p p' : Pool) (w w' : World) (cs cs' : list Conn) :
  pool_inv p w -> served p w cs cs' p' w' -> pool_step [] p p' w w'.
Proof.
  intros Hinv Hs. induction Hs as [p w|p w c c' cs cs' p1 w1 p' w' ans Hst _ _ _ _ IH].
  - pose proof Hinv as (Hwf & _). by apply pool_step_refl; auto with tc.
  - pose proof Hst as (Hinv1 & _). eapply pool_step_trans; [exact Hst|auto].
Qed.

Lemma served_closed (p p' : Pool) (w w' : World) (cs cs' : list Conn) :
  served p w cs cs' p' w' -> Forall (fun c => c_open c = false) cs'.
Proof. induction 1; by constructor. Qed.

Lemma served_length (p p' : Pool) (w w' : World) (cs cs' : list Conn) :
  served p w cs cs' p' w' -> length cs' = length cs.
Proof. induction 1; simpl; congruence. Qed.

Lemma serve_loop_spec (evs : list accept_event) (p : Pool) (w : World) :
  SourceOkOr bad (p_src p) -> pool_inv p w ->
  Forall (fun e => match e with AConn c => conn_bytes_ok c = true | _ => True end) evs ->
  returns_or bad (serve_loop evs p) w (fun '(cs, p', ended) w' =>
    served p w (accepted evs) cs p' w' /\ ended = accept_fails evs).
Proof.
  revert p w. induction evs as [|[c| |] evs IH]; intros p w Hsrc Hinv Hb; simpl.
  - apply returns_ret. split; [constructor|done].
  - apply Forall_cons in Hb as [Hc Hb].
    apply returns_bind. eapply returns_mono; [by apply handle_conn_spec|].
    intros [c1 p1] w1 (Hst & _ & ans & Hans & Hout). pose proof Hst as (Hinv1 & _ & Hsrc1 & _).
    apply returns_bind. eapply returns_mono; [apply IH; [by rewrite Hsrc1|done|done]|].
    intros [[cs p2] ended] w2 [Hcs Hend]. apply returns_ret.
    split; [by econstructor|done].
  - apply Forall_cons in Hb as [_ Hb]. by apply IH.
  - apply returns_ret. split; [constructor|done].
Qed.

(** What [uds_serve] leaves: nothing was served when the set-up fails; otherwise
    every accepted connection was, and the socket is closed and its file removed
    exactly when [accept] has failed for good. *)
Definition serve_post (path : list Z) (le : listen_env) (evs : list accept_event) (p : Pool)
    (w : World) : option Z * list Conn * Pool * listener -> World -> Prop :=
  fun '(rc, cs, p', l) w' =>
    if l_socket le && (strlen path <? SUN_PATH_SIZE) && l_bind le && l_listen le
    then served p w (accepted evs) cs p' w' /\
         if accept_fails evs
         then rc = Some 0 /\ ls_open l = false /\ ls_path l = negb (l_unlink_end le)
         else rc = None /\ l = mkListener true true
    else rc = Some 1 /\ cs = [] /\ p' = p /\ w' = w /\ ls_open l = false.

Lemma uds_serve_spec (path : list Z) (le : listen_env) (evs : list accept_event)
    (p : Pool) (w : World) :
  SourceOkOr bad (p_src p) -> pool_inv p w ->
  Forall (fun e => match e with AConn c => conn_bytes_ok c = true | _ => True end) evs ->
  returns_or bad (uds_serve path le evs p) w (serve_post path le evs p w).
Proof.
  intros Hsrc Hinv Hb. unfold uds_serve, serve_post.
  destruct (l_socket le); simpl; [|by apply returns_ret].
  rewrite Z.leb_antisym. destruct (strlen path <? SUN_PATH_SIZE); simpl; [|by apply returns_ret].
  destruct (l_bind le); simpl; [|by apply returns_ret].
  destruct (l_listen le); simpl; [|by apply returns_ret].
  apply returns_bind. eapply returns_mono; [by apply serve_loop_spec|].
  intros [[cs p'] ended] w' [Hcs ->]. destruct (accept_fails evs); by apply returns_ret.
Qed.

(** The pool after it, whatever happened. *)
Lemma serve_post_step path le evs p w rc cs p' l w' :
  pool_inv p w -> serve_post path le evs p w (rc, cs, p', l) w' ->
  pool_step [] p p' w w' /\ Forall (fun c => c_open c = false) cs /\
  (rc <> None -> ls_open l = false) /\ (forall r, rc = Some r -> r = 0 \/ r = 1).
Proof.
  intros Hinv. pose proof Hinv as (Hwf & _). unfold serve_post. case_match.
  - intros [Hs Hend]. split; [by eapply served_step|]. split; [by eapply served_closed|].
    case_match; naive_solver.
  - intros (-> & -> & -> & -> & Hl). split; [by apply pool_step_refl; auto with tc|].
    split; [constructor|naive_solver].
Qed.

End Server.

(** ** The injector: one request *)

Section Client.
Context {env : Env} {bad : Prop}.

(** What a request leaves behind whatever the other side sends: the descriptor
    is closed, and the heap is unchanged unless the status is OK, in which case
    the caller owns exactly one new block. *)
Definition get_post (w : World) (st : Z) (g : option Got) (w' : World) : Prop :=
  heap_wf w' /\ world_le w w' /\
  match g with
  | None => st <> UDS_STATUS_OK /\ w_heap w' = w_heap w
  | Some g => st = UDS_STATUS_OK /\ exists l bs,
      g_der g = Some l /\ w_heap w !! l = None /\ w_heap w' = <[l := bs]> (w_heap w) /\
      - 2 ^ 31 <= g_der_len g < 2 ^ 31 /\
      (0 <= g_der_len g -> Z.max 1 (g_der_len g) = Z.of_nat (length bs))
  end.

Lemma get_post_none (w : World) (st : Z) : heap_wf w -> st <> 0 -> get_post w st None w.
Proof. intros. split_and!; auto with tc. Qed.

(** Reading the group name, which an empty field skips. *)
Lemma read_group_rule (gl : Z) (c : Conn) (w : World) (Q : Z * list Z * Conn -> World -> Prop) :
  (forall rc gb c1, c_out c1 = c_out c -> Q (rc, gb, c1) w) ->
  returns_or bad (if 0 <? gl then read_exact (Z.to_nat gl) c else mret (1, [], c)) w Q.
Proof.
  intros HQ. case_if; [|by apply returns_ret, HQ].
  eapply returns_mono; [apply read_exact_spec|]. intros [[rc gb] c1] w1 (-> & Ho & _). by apply HQ.
Qed.

Lemma get_body_safe (hdr : list Z) (c : Conn) (group : option nat) (w : World) :
  heap_wf w -> bytes_ok hdr = true -> length hdr = 9%nat ->
  returns_or bad (get_body hdr c group) w (fun '(st, g, c') w' =>
    c_out c' = c_out c /\ c_open c' = false /\ get_post w st g w').
Proof.
  intros Hwf Hb Hl. unfold get_body.
  destruct (lookup_lt_is_Some_2 hdr 3) as [pqc H3]; [lia|].
  destruct (lookup_lt_is_Some_2 hdr 4) as [gl H4]; [lia|].
  do 2 (apply returns_bind; eapply returns_arr_get; [done|]).
  apply returns_bind, get_u32_range; [done|lia|]. intros n Hn.
  apply returns_bind.
  apply read_group_rule. intros rc gb c1 Ho. case_if.
  { apply returns_ret. split_and!; [done|done|by apply get_post_none]. }
  apply returns_bind, returns_malloc; intros Ha.
  2: { apply returns_ret. split_and!; [done|done|]. split_and!; auto with tc; done. }
  assert (w_heap w !! w_next w = None) as Hfr by by apply heap_wf_fresh.
  apply returns_bind. eapply returns_mono; [apply read_exact_spec|].
  intros [[rc2 bs] c2] w2 (-> & Ho2 & _ & _ & Hr). case_if.
  - apply returns_bind, returns_free; [simpl; by rewrite lookup_insert_eq|].
    apply returns_ret. split_and!; [simpl; congruence|done|]. split_and!; simpl.
    + intros l. simpl. rewrite delete_insert_id by done. intros Hk%Hwf. simpl; lia.
    + split; simpl; lia.
    + done.
    + by rewrite delete_insert_id.
  - assert (length bs = Z.to_nat n) as Hbs.
    { destruct (Z.to_nat n <=? _)%nat eqn:El; bool_prop; [|destruct Hr; lia].
      destruct Hr as (_ & -> & _). rewrite length_take. lia. }
    apply returns_bind. eapply returns_load; [simpl; apply lookup_insert_eq|].
    apply returns_bind. eapply returns_store; [simpl; apply lookup_insert_eq| |].
    { rewrite length_app, length_drop, length_replicate, Hbs. case_if; lia. }
    apply returns_ret. simpl. rewrite insert_insert_eq. split_and!; [congruence|done|].
    split_and!; simpl; [by apply heap_wf_alloc|split; simpl; lia|done|]. eexists _, _.
    pose proof (wrapS_range 32 n) as Hrange.
    split_and!; try done; try lia.
    rewrite length_app, length_drop, length_replicate, Hbs. intros Hs.
    rewrite (s32_nonneg n) by done. case_if; lia.
Qed.

Lemma uds_get_safe (path dest : list Z) (pr : peer) (group : option nat) (w : World) :
  heap_wf w -> conn_bytes_ok (pr_conn pr) = true ->
  returns_or bad (uds_get path dest pr group) w (fun '(st, g, oc) w' =>
    get_post w st g w' /\ (forall c, oc = Some c -> c_open c = false) /\
    (pr_socket pr = true -> 1 <= strlen dest <= UDS_DEST_MAX -> is_Some oc)).
Proof.
  intros Hwf Hb. unfold uds_get, conn_bytes_ok in *.
  assert (get_post w (-1) None w) as Hnone by (by apply get_post_none).
  destruct ((strlen dest =? 0) || _) eqn:Ed.
  { apply returns_ret. split_and!; [done|done|]. intros _ H.
    apply orb_true_iff in Ed as [Ed|Ed]; bool_prop; lia. }
  destruct (pr_socket pr); simpl; [|apply returns_ret; naive_solver].
  do 2 (case_if; [apply returns_ret; naive_solver|]).
  apply returns_bind. eapply returns_mono; [apply write_all_spec|].
  intros [rc c1] w1 (-> & Hin & _). rewrite <- Hin in Hb.
  case_if; [apply returns_ret; naive_solver|].
  apply returns_bind. eapply returns_mono; [apply read_exact_spec|].
  intros [[rc2 hdr] c2] w1 (-> & _ & _ & _ & Hr).
  case_if; [apply returns_ret; naive_solver|].
  destruct (UDS_RESP_HDR <=? _)%nat eqn:El; bool_prop; [|destruct Hr; lia].
  destruct Hr as (_ & -> & _). unfold UDS_RESP_HDR in *.
  set (hdr := take 9 _).
  assert (length hdr = 9%nat) as Hl by (unfold hdr; rewrite length_take; lia).
  assert (bytes_ok hdr = true) as Hbh.
  { apply bytes_ok_Forall, Forall_take. by apply bytes_ok_Forall. }
  clearbody hdr.
  destruct (lookup_lt_is_Some_2 hdr 0) as [h0 Hh0]; [lia|].
  destruct (lookup_lt_is_Some_2 hdr 1) as [h1 Hh1]; [lia|].
  destruct (lookup_lt_is_Some_2 hdr 2) as [h2 Hh2]; [lia|].
  do 2 (apply returns_bind; eapply returns_arr_get; [done|]).
  case_if; [apply returns_ret; naive_solver|].
  apply returns_bind; eapply returns_arr_get; [done|].
  case_if.
  { apply returns_ret. split; [by apply get_post_none|]. naive_solver. }
  apply returns_bind. eapply returns_mono; [by apply get_body_safe|].
  intros [[st g] c3] w3 (_ & Hop & Hp). apply returns_ret. naive_solver.
Qed.

(** The conditions under which a request reaches the agent. *)
Definition can_ask (path dest : list Z) (pr : peer) : bool :=
  pr_socket pr && pr_connect pr && (strlen path <? SUN_PATH_SIZE) &&
  (1 <=? strlen dest) && (strlen dest <=? UDS_DEST_MAX) && writes_ok (pr_conn pr).

(** The header phase of [uds_get] when the agent's answer starts with an
    acceptable header. *)
Lemma uds_get_header (path dest : list Z) (pr : peer) (group : option nat) (w : World)
    (st : Z) (hdr rest : list Z) (Q : Z * option Got * option Conn -> World -> Prop) :
  can_ask path dest pr = true -> length hdr = 6%nat ->
  delivered (c_in (pr_conn pr)) = ([UDS_MAGIC; UDS_VERSION; st] ++ hdr) ++ rest ->
  (forall c1, c_out c1 = c_out (pr_conn pr) ++ request_frame dest -> delivered (c_in c1) = rest ->
     if st =? UDS_STATUS_OK
     then returns_or bad (get_body ([UDS_MAGIC; UDS_VERSION; st] ++ hdr) c1 group) w
            (fun '(st', g, c2) w' => Q (st', g, Some c2) w')
     else Q (st, None, Some (sys_close c1)) w) ->
  returns_or bad (uds_get path dest pr group) w Q.
Proof.
  intros Hask Hlen Hd HQ. unfold can_ask in Hask. bool_prop. unfold uds_get.
  replace ((strlen dest =? 0) || (UDS_DEST_MAX <? strlen dest)) with false
    by (symmetry; apply orb_false_iff; split; [apply Z.eqb_neq|apply Z.ltb_ge]; lia).
  replace (negb (pr_socket pr)) with false by (by destruct (pr_socket pr)).
  replace (SUN_PATH_SIZE <=? strlen path) with false by (symmetry; apply Z.leb_gt; lia).
  replace (negb (pr_connect pr)) with false by (by destruct (pr_connect pr)).
  apply returns_bind. eapply returns_mono; [apply write_all_spec|].
  intros [rc c1] w1 (-> & Hin & _ & Hok & Hout).
  destruct Hok as [-> _]; [done|]. destruct Hout as [[_ Hout]|[? _]]; [|done]. simpl negb. cbv iota.
  apply returns_bind. eapply returns_mono; [apply read_exact_spec|].
  intros [[rc2 bs] c2] w1 (-> & Ho2 & _ & _ & Hr). rewrite Hin, Hd in Hr.
  assert (length ([UDS_MAGIC; UDS_VERSION; st] ++ hdr) = UDS_RESP_HDR) as Hl9
    by (rewrite length_app, Hlen; done).
  rewrite (proj2 (Nat.leb_le _ _)) in Hr by (rewrite length_app; lia).
  destruct Hr as (-> & -> & Hd2). rewrite take_app_length' by done.
  rewrite drop_app_length' in Hd2 by done. simpl negb. cbv iota.
  do 2 (apply returns_bind; eapply returns_arr_get; [done|]). rewrite !Z.eqb_refl. simpl negb.
  cbn [orb]. apply returns_bind; eapply returns_arr_get; [done|].
  specialize (HQ c2). rewrite Ho2, Hout in HQ. specialize (HQ eq_refl Hd2).
  destruct (st =? UDS_STATUS_OK); simpl negb; cbv iota.
  - apply returns_bind. eapply returns_mono; [exact HQ|]. intros [[st' g] c3] w3 Hq.
    by apply returns_ret.
  - by apply returns_ret.
Qed.

(** Decoding the session frame. *)
Lemma get_body_decodes (s : session) (c : Conn) (gcap : nat) (w : World) :
  heap_wf w -> env_alloc (w_step w) = true ->
  0 < Z.of_nat (length (s_der s)) < 2 ^ 31 -> (length (s_group s) < GROUP_MAX)%nat ->
  no_nul (s_group s) = true -> (GROUP_MAX <= gcap)%nat ->
  delivered (c_in c) = s_group s ++ s_der s ->
  returns_or bad (get_body
    ([UDS_MAGIC; UDS_VERSION; UDS_STATUS_OK] ++
     ([(if s_is_pqc s =? 0 then 0 else 1); strlen (s_group s)] ++
      put_u32 (Z.of_nat (length (s_der s))))) c (Some gcap)) w
    (fun '(st, g, c') w' => st = UDS_STATUS_OK /\ heap_wf w' /\
       c_out c' = c_out c /\ c_open c' = false /\
       exists l, g = Some (mkGot (Some l) (Z.of_nat (length (s_der s)))
                        (if s_is_pqc s =? 0 then 0 else 1) (Some (s_group s))) /\
         w_heap w !! l = None /\ w_heap w' = <[l := s_der s]> (w_heap w)).
Proof.
  intros Hwf Ha Hlen Hgl Hgn Hcap Hd. unfold get_body.
  do 2 (apply returns_bind; eapply returns_arr_get; [done|]).
  apply returns_bind.
  apply (get_put_u32 [UDS_MAGIC; UDS_VERSION; UDS_STATUS_OK; (if s_is_pqc s =? 0 then 0 else 1);
                      strlen (s_group s)] [] (Z.of_nat (length (s_der s)))); [lia|].
  apply returns_bind.
  assert (forall Q : Z * list Z * Conn -> World -> Prop,
    (forall c1, c_out c1 = c_out c -> delivered (c_in c1) = s_der s -> Q (1, s_group s, c1) w) ->
    returns_or bad (if 0 <? strlen (s_group s) then read_exact (Z.to_nat (strlen (s_group s))) c
             else mret (1, [], c)) w Q) as Hgrp.
  { intros Q HQ. unfold strlen. case_if.
    - eapply returns_mono; [apply read_exact_spec|]. intros [[rc gb] c1] w1 (-> & Ho & _ & _ & Hr).
      rewrite Hd, Nat2Z.id, (proj2 (Nat.leb_le _ _)) in Hr by (rewrite length_app; lia).
      rewrite take_app_length, drop_app_length in Hr. destruct Hr as (-> & -> & Hr). by apply HQ.
    - destruct (s_group s); [|simpl in *; lia]. apply returns_ret. by apply HQ. }
  apply Hgrp. intros c1 Ho1 Hd1. simpl negb. cbv iota.
  apply returns_bind, returns_malloc; [intros _|congruence].
  apply returns_bind. eapply returns_mono; [apply read_exact_spec|].
  intros [[rc2 bs] c2] w2 (-> & Ho2 & _ & _ & Hr).
  rewrite Hd1, Nat2Z.id, (proj2 (Nat.leb_le _ _)) in Hr by lia.
  destruct Hr as (-> & -> & _). rewrite take_ge by lia. simpl negb. cbv iota.
  rewrite (proj2 (Z.ltb_lt _ _)) by lia.
  apply returns_bind. eapply returns_load; [simpl; apply lookup_insert_eq|].
  apply returns_bind. eapply returns_store; [simpl; apply lookup_insert_eq| |].
  { rewrite length_app, length_drop, length_replicate. lia. }
  apply returns_ret. cbn [w_heap]. rewrite insert_insert_eq.
  rewrite drop_ge by (rewrite length_replicate; lia). rewrite app_nil_r.
  split_and!; [done|by apply heap_wf_alloc|simpl; congruence|done|].
  exists (w_next w). split_and!; [|..|done].
  - rewrite wrapS_small by lia. rewrite cstr_id by done. unfold snprintf_opt.
    unfold GROUP_MAX in *. rewrite (proj2 (Nat.ltb_lt _ _)) by lia.
    by rewrite snprintf_s_id by lia.
  - by apply heap_wf_fresh.
Qed.

(** A whole request answered with the frame of a session. *)
Lemma uds_get_decodes (path dest : list Z) (pr : peer) (gcap : nat) (s : session) (w : World) :
  heap_wf w -> env_alloc (w_step w) = true -> can_ask path dest pr = true ->
  0 < Z.of_nat (length (s_der s)) < 2 ^ 31 -> (length (s_group s) < GROUP_MAX)%nat ->
  no_nul (s_group s) = true -> (GROUP_MAX <= gcap)%nat ->
  delivered (c_in (pr_conn pr)) = response_frame s ->
  returns_or bad (uds_get path dest pr (Some gcap)) w (fun '(st, g, oc) w' =>
    st = UDS_STATUS_OK /\ heap_wf w' /\
    (exists c2, oc = Some c2 /\ c_open c2 = false /\
       c_out c2 = c_out (pr_conn pr) ++ request_frame dest) /\
    exists l, g = Some (mkGot (Some l) (Z.of_nat (length (s_der s)))
                     (if s_is_pqc s =? 0 then 0 else 1) (Some (s_group s))) /\
      w_heap w !! l = None /\ w_heap w' = <[l := s_der s]> (w_heap w)).
Proof.
  intros Hwf Ha Hask Hlen Hgl Hgn Hcap Hdel.
  eapply (uds_get_header _ _ _ _ _ UDS_STATUS_OK
    ([(if s_is_pqc s =? 0 then 0 else 1); strlen (s_group s)] ++
      put_u32 (Z.of_nat (length (s_der s)))) (s_group s ++ s_der s)); [done|done| |].
  { rewrite Hdel. unfold response_frame. by rewrite <- !(assoc_L (++)). }
  intros c1 Ho1 Hd1. rewrite Z.eqb_refl.
  eapply returns_mono; [by apply get_body_decodes|].
  intros [[st g] c2] w2 (-> & Hwf2 & Ho2 & Hop & l & -> & Hfr & Hh). split_and!; [done|done| |eauto].
  exists c2. split_and!; [done|done|congruence].
Qed.

End Client.
