(* ===== verification/UdsProps.v ===== *)
(** * UdsProps: the properties of the socket protocol

    The theorems about ticket-agent/uds.c with their witnesses, on the concrete
    pool of [PoolProps] and connections whose bytes arrive in pieces. *)

From stdpp Require Import base numbers list gmap strings.
From S2P Require Import Prelude Runtime Pool PoolOps PoolProps Uds UdsLemmas.

Open Scope Z_scope.

(** ** Concrete connections *)

(** A request for "a:1" that arrives in three pieces with interruptions, on a
    socket that takes short writes. *)
Definition demo_request : Conn :=
  mkConn [RIntr; RData 0x54 [1]; RData 1 [3; 97]; RIntr; RData 58 [49]]
    [WOk 3; WIntr; WOk 0; WOk 5] [] true.

(** The agent's answer, delivered to the client in two pieces. *)
Definition demo_answer : list Z :=
  [0x54; 1; 0; 1; 14; 0; 0; 0; 8] ++ of_string "X25519MLKEM768" ++ of_string "SESSION0".

Definition demo_peer (bs : list Z) : peer :=
  mkPeer true true
    (mkConn (match take 10 bs, drop 10 bs with
             | b :: t, b' :: t' => [RData b t; RIntr; RData b' t']
             | b :: t, [] => [RData b t]
             | [], _ => []
             end) [WOk 2; WIntr] [] true).

Definition demo_path : list Z := of_string "/run/tc.sock".

(** The session the pool of [PoolProps] serves for "a:1". *)
Definition demo_session : session :=
  mkSession (of_string "SESSION0") 1 (of_string "X25519MLKEM768") 2000.

(** ** Lemmas *)

(** Every session held by a well-formed pool fits the frame format. *)
Lemma sessions_ok (p : Pool) (w : World) (dest : list Z) (s : session) :
  pool_inv p w -> s ∈ sessions p w dest ->
  0 < Z.of_nat (length (s_der s)) < 2 ^ 31 /\ (length (s_group s) < GROUP_MAX)%nat /\
  no_nul (s_group s) = true.
Proof.
  intros (_ & _ & Hok & _) Hs. unfold sessions in Hs.
  destruct (dest_find (p_dests p) dest) as [i|]; [|by apply not_elem_of_nil in Hs].
  destruct (p_dests p !! i) as [d|] eqn:Hi; [|by apply not_elem_of_nil in Hs]. simpl in Hs.
  eapply Forall_lookup_1 in Hok as (_ & _ & _ & Hok); [|done].
  apply list_elem_of_omap in Hs as (e & He & Hs). eapply Forall_forall in Hok; [|done].
  destruct Hok as (l & bs & Hl & Hb & Hlen & Hlt & Hg & Hn). unfold abs_entry in Hs.
  rewrite Hl in Hs. simpl in Hs. rewrite Hb in Hs. simpl in Hs. simplify_eq. simpl.
  split_and!; try done; lia.
Qed.

Lemma classify_request (dest : list Z) :
  1 <= strlen dest <= 255 -> classify (request_frame dest) = ReqGet dest.
Proof.
  intros Hl. rewrite request_frame_eq by lia. unfold strlen in *.
  change ([UDS_MAGIC; UDS_VERSION; UDS_OP_GET; Z.of_nat (length dest)] ++ dest)
    with (UDS_MAGIC :: UDS_VERSION :: UDS_OP_GET :: Z.of_nat (length dest) :: dest).
  rewrite classify_frame; try done; try lia. by rewrite Nat2Z.id, take_ge by lia.
Qed.

(** ** Theorems *)

(** C7. The protocol delivers the session: when a client's request reaches the
    agent, in whatever pieces, and the pool holds an unexpired session for that
    destination, then the agent's answer, read back in whatever pieces, makes
    [uds_get] return OK with the newest such session: its DER in a fresh block of
    the client, its length, its provenance flag and its group name. *)
Theorem uds_roundtrip (env env' : Env) (path dest : list Z) (pr : peer) (c : Conn) (p : Pool)
    (w wc : World) (s : session) :
  SourceOk (p_src p) -> pool_inv p w -> heap_wf wc ->
  (forall k, @env_alloc env k = true) -> @env_alloc env' (w_step wc) = true ->
  no_nul dest = true -> bytes_ok dest = true ->
  can_ask path dest pr = true ->
  delivered (c_in c) = request_frame dest -> writes_ok c = true -> c_out c = [] ->
  last (List.filter (fresh_at (@env_time env (w_step w))) (sessions p w dest)) = Some s ->
  returns (handle_conn (env := env) c p) w (fun '(c', p') w' =>
    delivered (c_in (pr_conn pr)) = c_out c' ->
    returns (uds_get (env := env') path dest pr (Some 64%nat)) wc (fun '(st, g, oc) wc' =>
      st = UDS_STATUS_OK /\
      (exists c2, oc = Some c2 /\ c_open c2 = false /\
         c_out c2 = c_out (pr_conn pr) ++ request_frame dest) /\
      exists l, g = Some (mkGot (Some l) (Z.of_nat (length (s_der s)))
                       (if s_is_pqc s =? 0 then 0 else 1) (Some (s_group s))) /\
        w_heap wc !! l = None /\ w_heap wc' = <[l := s_der s]> (w_heap wc))).
Proof.
  intros Hsrc Hinv Hwfc Hal Halc Hnn Hbd Hask Hd Hw Hout Hlast.
  pose proof Hask as Hask'. unfold can_ask in Hask'. bool_prop. unfold UDS_DEST_MAX in *.
  assert (bytes_ok (request_frame dest) = true) as Hbr.
  { unfold request_frame. rewrite bytes_ok_app, Hbd, andb_true_r.
    cbn [bytes_ok forallb]. by rewrite byte_ok_u8. }
  eapply returns_mono.
  { apply handle_conn_spec; [done..|]. unfold conn_bytes_ok. by rewrite Hd. }
  intros [c' p'] w' (_ & _ & ans & Hans & Hco) Hdel. rewrite Hco, Hout in Hdel by done. simpl in Hdel.
  rewrite Hd, classify_request in Hans by lia. simpl in Hans. rewrite cstr_id, Hlast in Hans by done.
  destruct Hans as [->|[_ [k Hk]]]; [|by rewrite Hal in Hk].
  destruct (sessions_ok p w dest s Hinv) as (Hlen & Hgl & Hgn).
  { apply last_Some_elem_of, list_elem_of_In, List.filter_In in Hlast as [Hin _].
    by apply list_elem_of_In. }
  eapply returns_mono; [by apply uds_get_decodes|]. intros [[st g] oc] wc' (-> & _ & Hres). auto.
Qed.


(** C9. [uds_parse_request] never reads outside the frame it is given and accepts
    exactly the frames a client builds: it returns 0 with the operation and the
    destination if and only if the frame is the request for a destination of 1 to
    255 bytes that fits the caller's buffer.  Every other input leaves the
    destination unset and gets the code of the first thing that is wrong with it:
    -1 for less than a header, -2 for another protocol or version, -3 for a length
    field that is zero or does not match, -4 for a destination that does not fit,
    -5 for an unknown operation. *)
Theorem parse_request_exact {S} (buf : list Z) (cap : Z) (s : S) :
  bytes_ok buf = true ->
  returns (uds_parse_request buf (Z.of_nat (length buf)) cap) s (fun '(rc, op, d) s' =>
    s' = s /\
    (rc = 0 <-> exists dest, buf = request_frame dest /\ 1 <= strlen dest <= 255 /\
       strlen dest < cap) /\
    (forall dest, buf = request_frame dest -> strlen dest <= 255 -> rc = 0 ->
       op = Some UDS_OP_GET /\ d = Some (dest ++ [0])) /\
    (rc <> 0 -> d = None) /\
    match buf with
    | magic :: version :: o :: len :: rest =>
        (rc = -2 <-> ~ (magic = UDS_MAGIC /\ version = UDS_VERSION)) /\
        (magic = UDS_MAGIC -> version = UDS_VERSION ->
           (rc = -3 <-> ~ (rest <> [] /\ len = strlen rest)) /\
           (rest <> [] -> len = strlen rest ->
              (rc = -4 <-> cap <= strlen rest) /\
              (strlen rest < cap -> op = Some o /\ (rc = -5 <-> o <> UDS_OP_GET))))
    | _ => rc = -1
    end).
Proof.
  intros Hb. eapply returns_eqn; [by apply parse_request_spec|].
  intros [[rc op] d] s' Hrun (-> & _ & Hn & Hok & Hcomp). split_and!; try done.
  - split; [intros H0; destruct (Hok H0) as (dest & ? & ? & ? & _); eauto|].
    intros (dest & ? & ? & ?). by eapply Hcomp.
  - intros dest Hd Hl H0. destruct (Hok H0) as (dest' & Hd' & Hl' & _ & -> & ->).
    rewrite request_frame_eq in Hd, Hd' by lia. rewrite Hd in Hd'. by simplify_eq.
  - destruct (returns_det _ _ _ _ _ (parse_request_outcome (bad := False) buf cap s Hb) Hrun)
      as [_ Hr]. unfold parse_outcome in Hr.
    destruct buf as [|m [|v [|o [|len rest]]]]; try by injection Hr.
    repeat case_decide; injection Hr as -> -> ->; naive_solver (try lia).
Qed.

(** C10. Whatever the other side sends, and however the kernel answers,
    [uds_get] returns without undefined behaviour and with the descriptor it
    created closed, also when the path is too long or the connection is refused;
    unless the status is OK the heap is untouched (nothing leaks on an
    error path), and with OK the caller owns exactly one new block, whose size
    agrees with the reported length. *)
Theorem uds_get_any_response {env : Env} (path dest : list Z) (pr : peer) (group : option nat)
    (w : World) :
  heap_wf w -> conn_bytes_ok (pr_conn pr) = true ->
  returns (uds_get path dest pr group) w (fun '(st, g, oc) w' =>
    (forall c, oc = Some c -> c_open c = false) /\
    (pr_socket pr = true -> 1 <= strlen dest <= UDS_DEST_MAX -> is_Some oc) /\
    match g with
    | None => st <> UDS_STATUS_OK /\ w_heap w' = w_heap w
    | Some g => st = UDS_STATUS_OK /\ exists l bs,
        g_der g = Some l /\ w_heap w !! l = None /\ w_heap w' = <[l := bs]> (w_heap w) /\
        - 2 ^ 31 <= g_der_len g < 2 ^ 31 /\
        (0 <= g_der_len g -> Z.max 1 (g_der_len g) = Z.of_nat (length bs))
    end).
Proof.
  intros Hwf Hb. eapply returns_mono; [by apply uds_get_safe|].
  intros [[st g] oc] w' ((_ & _ & Hp) & Hc & Hs). done.
Qed.

(** C11. The accept loop serves every client: when the listening socket can be set
    up, [uds_serve] serves the connections accepted before [accept] fails for
    good, all of them and in order, interrupted calls notwithstanding: each is sent
    the answer it is owed by the pool as it is then, and closed.  When [accept]
    fails it closes the listening socket, removes its file and returns 0.  When the
    set-up fails it returns 1 with the socket closed and the pool untouched.  There
    is no undefined behaviour, the pool stays well formed and all its blocks are
    accounted for. *)
Theorem uds_serve_safe {env : Env} (path : list Z) (le : listen_env) (evs : list accept_event)
    (p : Pool) (w : World) :
  SourceOk (p_src p) -> pool_inv p w ->
  Forall (fun e => match e with AConn c => conn_bytes_ok c = true | _ => True end) evs ->
  returns (uds_serve path le evs p) w (fun '(rc, cs, p', l) w' =>
    pool_inv p' w' /\
    owns_step (pool_blocks p) (pool_blocks p') (w_heap w) (w_heap w') /\
    if l_socket le && (strlen path <? SUN_PATH_SIZE) && l_bind le && l_listen le
    then served p w (accepted evs) cs p' w' /\ length cs = length (accepted evs) /\
         Forall (fun c => c_open c = false) cs /\
         if accept_fails evs
         then rc = Some 0 /\ ls_open l = false /\ ls_path l = negb (l_unlink_end le)
         else rc = None /\ l = mkListener true true
    else rc = Some 1 /\ cs = [] /\ p' = p /\ w' = w /\ ls_open l = false).
Proof.
  intros Hsrc Hinv Hb. eapply returns_mono; [by apply uds_serve_spec|].
  intros [[[rc cs] p'] l] w' Hp. destruct (serve_post_step _ _ _ _ _ _ _ _ _ _ Hinv Hp)
    as ((Hi & _ & _ & _ & _ & Ho) & Hc & _). split_and!; [done|done|].
  unfold serve_post in Hp. case_match; [|done]. destruct Hp as [Hs Hend].
  split_and!; [done|by eapply served_length|done|done].
Qed.

(** C12. Exact transfers do not depend on how the stream is split.  [read_exact]
    always returns, and succeeds exactly when the stream delivers enough bytes
    before it ends or fails, with the first [n] of them, leaving the rest unread.
    [write_all] always returns; success means the bytes were sent once and in
    order, failure that a prefix was; without a write error it succeeds, short and
    interrupted writes notwithstanding. *)
Theorem exact_io_chunking {S} (n : nat) (bs : list Z) (c : Conn) (s : S) :
  returns (read_exact n c) s (fun '(rc, got, c') s' =>
    s' = s /\ c_out c' = c_out c /\
    (rc = 1 <-> (n <= length (delivered (c_in c)))%nat) /\
    (rc = 1 -> got = take n (delivered (c_in c)) /\
       delivered (c_in c') = drop n (delivered (c_in c)))) /\
  returns (write_all bs c) s (fun '(rc, c') s' =>
    s' = s /\ c_in c' = c_in c /\
    (writes_ok c = true -> rc = 1) /\
    (rc = 1 -> c_out c' = c_out c ++ bs) /\
    (rc <> 1 -> exists k, c_out c' = c_out c ++ take k bs)).
Proof.
  split.
  - eapply returns_mono; [apply read_exact_spec|].
    intros [[rc got] c'] s' (-> & Ho & _ & _ & Hr).
    destruct (n <=? length (delivered (c_in c)))%nat eqn:E; bool_prop; split_and!; try done; try lia.
    destruct Hr as (-> & ? & ?). done.
  - eapply returns_mono; [apply write_all_spec|].
    intros [rc c'] s' (-> & Hi & _ & Hok & Hout). split_and!; try done.
    + intros Hw. by destruct (Hok Hw).
    + intros ->. by destruct Hout as [[_ ?]|[? _]].
    + intros Hne. by destruct Hout as [[? _]|[_ ?]].
Qed.

(** ** Witnesses *)

Lemma demo_last :
  last (List.filter (fresh_at 1000) (sessions demo_pool demo_world demo_dest)) = Some demo_session.
Proof. vm_compute. reflexivity. Qed.

Lemma uds_roundtrip_witness :
  returns (handle_conn (env := demo_env) demo_request demo_pool) demo_world (fun '(c', p') w' =>
    delivered (c_in (pr_conn (demo_peer demo_answer))) = c_out c' ->
    returns (uds_get (env := demo_env) demo_path demo_dest (demo_peer demo_answer) (Some 64%nat))
      demo_world (fun '(st, g, oc) wc' =>
      st = UDS_STATUS_OK /\
      (exists c2, oc = Some c2 /\ c_open c2 = false /\
         c_out c2 = c_out (pr_conn (demo_peer demo_answer)) ++ request_frame demo_dest) /\
      exists l, g = Some (mkGot (Some l) 8 1 (Some (of_string "X25519MLKEM768"))) /\
        demo_heap !! l = None /\ w_heap wc' = <[l := of_string "SESSION0"]> demo_heap)).
Proof.
  apply (uds_roundtrip demo_env demo_env demo_path demo_dest (demo_peer demo_answer) demo_request
           demo_pool demo_world demo_world demo_session).
  - apply demo_source_ok.
  - apply demo_pool_inv.
  - apply demo_heap_wf.
  - reflexivity.
  - reflexivity.
  - reflexivity.
  - reflexivity.
  - reflexivity.
  - reflexivity.
  - reflexivity.
  - reflexivity.
  - exact demo_last.
Defined.

(** The premise of the round trip is met: the agent does send that answer. *)
Example demo_answer_sent :
  match handle_conn (env := demo_env) demo_request demo_pool demo_world with
  | Some ((c', _), _) => c_out c' = demo_answer
  | None => False
  end.
Proof. vm_compute. reflexivity. Qed.


(** A frame with an unknown operation. *)
Lemma parse_request_exact_witness :
  returns (uds_parse_request [UDS_MAGIC; UDS_VERSION; 9; 1; 65] 5 256) tt (fun '(rc, op, d) _ =>
    rc = -5 /\ op = Some 9 /\ d = None).
Proof.
  eapply returns_mono;
    [apply (parse_request_exact [UDS_MAGIC; UDS_VERSION; 9; 1; 65] 256 tt); reflexivity|].
  intros [[rc op] d] s' (_ & _ & _ & Hd & _ & Hc). destruct Hc as [_ Hc]; [reflexivity..|].
  destruct Hc as [_ Hc]; [discriminate|reflexivity|].
  destruct Hc as [Hop Hc]; [reflexivity|]. assert (rc = -5) as -> by (apply Hc; discriminate).
  split_and!; [reflexivity|exact Hop|]. apply Hd. discriminate.
Defined.

Lemma uds_get_any_response_witness :
  returns (uds_get (env := demo_env) demo_path demo_dest (demo_peer [0x54; 1; 0; 1; 200; 255])
             (Some 64%nat)) demo_world (fun '(st, g, oc) w' =>
    (forall c, oc = Some c -> c_open c = false) /\
    (true = true -> 1 <= strlen demo_dest <= UDS_DEST_MAX -> is_Some oc) /\
    match g with
    | None => st <> UDS_STATUS_OK /\ w_heap w' = demo_heap
    | Some g => st = UDS_STATUS_OK /\ exists l bs,
        g_der g = Some l /\ demo_heap !! l = None /\ w_heap w' = <[l := bs]> demo_heap /\
        - 2 ^ 31 <= g_der_len g < 2 ^ 31 /\
        (0 <= g_der_len g -> Z.max 1 (g_der_len g) = Z.of_nat (length bs))
    end).
Proof.
  apply (uds_get_any_response (env := demo_env) demo_path demo_dest
           (demo_peer [0x54; 1; 0; 1; 200; 255]) (Some 64%nat) demo_world).
  - apply demo_heap_wf.
  - reflexivity.
Defined.

(** Two clients, an interrupted call between them. *)
Definition demo_listen : listen_env := mkListen true false true true true true.
Definition demo_accepts : list accept_event :=
  [AConn demo_request; AIntr; AConn (mkConn [RData 7 [7]] [] [] true); AErr].

Lemma uds_serve_safe_witness :
  returns (uds_serve (env := demo_env) demo_path demo_listen demo_accepts demo_pool)
    demo_world (fun '(rc, cs, p', l) w' =>
    pool_inv p' w' /\
    owns_step (pool_blocks demo_pool) (pool_blocks p') demo_heap (w_heap w') /\
    served (env := demo_env) demo_pool demo_world (accepted demo_accepts) cs p' w' /\
    length cs = 2%nat /\ Forall (fun c => c_open c = false) cs /\
    rc = Some 0 /\ ls_open l = false /\ ls_path l = false).
Proof.
  apply (uds_serve_safe (env := demo_env) demo_path demo_listen demo_accepts demo_pool demo_world).
  - apply demo_source_ok.
  - apply demo_pool_inv.
  - repeat constructor.
Defined.
