(* ===== verification/SessionSource.v ===== *)
(** * SessionSource: fetching a resumption session (ticket-agent/session_source.c)

    OpenSSL, the resolver and the kernel are parameters ([Tls]): what each call
    answers, as a function of the number of environment calls made so far and,
    for the handshake, of the configuration the connection was given.  Library
    objects ([SSL_CTX], [SSL], descriptors, [SSL_SESSION]) are entries of the
    same table of live resources as heap blocks, so that an object that is not
    released is a leak and one released twice is undefined behaviour.  The entry of
    an [SSL_SESSION] is its reference count followed by the session itself, which
    is what the encoder and the next handshake see. *)

From stdpp Require Import base numbers list gmap strings.
From S2P Require Import Prelude Runtime.

Open Scope Z_scope.

(** ** Data *)

(** "X25519MLKEM768:X25519:P-256" *)
Definition k_group_pref : list Z := of_string "X25519MLKEM768:X25519:P-256".

Definition TLS1_3_VERSION : Z := 0x0304.

(** Session cache modes; a new context caches for servers. *)
Definition SSL_SESS_CACHE_OFF : Z := 0x0.
Definition SSL_SESS_CACHE_CLIENT : Z := 0x1.
Definition SSL_SESS_CACHE_SERVER : Z := 0x2.
Definition SSL_SESS_CACHE_NO_INTERNAL_STORE : Z := 0x200.

(** What the code configures on the context and the connection. *)
Record ssl_cfg := mkCfg {
  cfg_min_proto : Z;
  cfg_max_proto : Z;
  cfg_groups : list Z;
  cfg_cache : Z;
  cfg_new_cb : bool;
  cfg_verify_peer : bool;
  cfg_default_paths : bool;
  cfg_sni : option (list Z);
  cfg_host : option (list Z);
  cfg_session : option (list Z)
}.

Record Fetch_result := mkFetch {
  fr_session : option nat;
  fr_group : list Z;
  fr_is_pqc : bool
}.

Definition fetch_zero : Fetch_result := mkFetch None [] false.

(** The outcome of [SSL_read]: application data, would-block, or anything else. *)
Inductive ssl_read_result :=
  | ReadData
  | ReadWant
  | ReadOther.

(** ** The environment *)

Class Tls := {
  (** [SSL_CTX_new], [SSL_CTX_set1_groups_list], [SSL_new], [SSL_set_fd],
      [SSL_set1_host] succeed *)
  tls_ctx_new : nat -> bool;
  tls_set_groups : nat -> list Z -> bool;
  tls_ssl_new : nat -> bool;
  tls_set_fd : nat -> bool;
  tls_set1_host : nat -> list Z -> bool;
  (** [getaddrinfo]: for each address, whether [socket] and [connect] succeed *)
  tls_getaddrinfo : nat -> list Z -> list Z -> option (list (bool * bool));
  (** [SSL_connect(ssl) == 1] *)
  tls_connect : nat -> ssl_cfg -> bool;
  (** [SSL_get0_group_name] *)
  tls_group_name : nat -> ssl_cfg -> option (list Z);
  (** [SSL_read]: the sessions of the tickets it processes and what it returns *)
  tls_read : nat -> ssl_cfg -> list (list Z) * ssl_read_result;
  (** [i2d_SSL_SESSION]: its return value and the encoding *)
  tls_i2d : list Z -> Z * list Z;
  (** [d2i_SSL_SESSION]: the session; [SSL_set_session] succeeds *)
  tls_d2i : nat -> list Z -> option (list Z);
  tls_set_session : nat -> bool;
  (** [SSL_SESSION_get_timeout], [SSL_session_reused] *)
  tls_timeout : list Z -> Z;
  tls_reused : nat -> ssl_cfg -> Z
}.

(** Ask the environment. *)
Definition ask {A} (f : nat -> A) : M World A := fun w => Some (f (w_step w), tick w).

(** A new library object. *)
Definition obj_new (contents : list Z) : M World nat := fun w =>
  Some (w_next w, mkWorld (<[w_next w := contents]> (w_heap w)) (S (w_next w)) (S (w_step w))).

(** ** Sessions and their reference counts *)

Definition SSL_SESSION_up_ref (s : nat) : M World unit :=
  c ← load (Some s);
  match c with
  | n :: d => store (Some s) (n + 1 :: d)
  | [] => ub
  end.

Definition SSL_SESSION_free (s : nat) : M World unit :=
  c ← load (Some s);
  match c with
  | n :: d => if n =? 1 then free (Some s) else store (Some s) (n - 1 :: d)
  | [] => ub
  end.

(** What a session is, whoever refers to it. *)
Definition session_data (s : nat) : M World (list Z) :=
  c ← load (Some s);
  mret (drop 1 c).

Section Source.
Context {env : Env} {tls : Tls}.

(** The state of an [SSL] object: its entry, its descriptor, whether its app data
    is the result record, its configuration and the sessions it refers to. *)
Record Ssl := mkSsl {
  ssl_addr : nat;
  ssl_fd : option nat;
  ssl_app : bool;
  ssl_conf : ssl_cfg;
  ssl_held : list nat
}.

Definition with_conf (cfg : ssl_cfg) (ssl : Ssl) : Ssl :=
  mkSsl (ssl_addr ssl) (ssl_fd ssl) (ssl_app ssl) cfg (ssl_held ssl).
Definition hold (s : nat) (ssl : Ssl) : Ssl :=
  mkSsl (ssl_addr ssl) (ssl_fd ssl) (ssl_app ssl) (ssl_conf ssl) (s :: ssl_held ssl).

(** [on_new_session]: the app data is a null pointer or the result record; the
    return value says whether the callback keeps the reference it was offered. *)
Definition on_new_session (result : option Fetch_result) (sess : nat)
    : M World (Z * option Fetch_result) :=
  match result with
  | None => mret (0, None)
  | Some r =>
      match fr_session r with
      | Some _ => mret (0, Some r)
      | None =>
          _ ← SSL_SESSION_up_ref sess;
          mret (0, Some (mkFetch (Some sess) (fr_group r) (fr_is_pqc r)))
      end
  end.

(** Trying the addresses in order; a descriptor whose [connect] fails is closed. *)
Fixpoint try_addrs (ais : list (bool * bool)) : M World (option nat) :=
  match ais with
  | [] => mret None
  | (socket_ok, connect_ok) :: rest =>
      if (socket_ok : bool) then
        fd ← obj_new [];
        if (connect_ok : bool) then mret (Some fd)
        else _ ← free (Some fd); try_addrs rest
      else try_addrs rest
  end.

Definition connect_tcp (host port : list Z) : M World (option nat) :=
  r ← ask (fun k => tls_getaddrinfo k host port);
  match r with
  | None => mret None
  | Some ais => try_addrs ais
  end.

(** A client's new sessions are offered to the callback when there is one and the
    cache mode asks for it. *)
Definition offers (cfg : ssl_cfg) : bool := cfg_new_cb cfg && Z.testbit (cfg_cache cfg) 0.

(** OpenSSL processing NewSessionTicket messages inside [SSL_read]: the connection
    refers to the new session, and the callback is offered a reference of its own,
    which is dropped when the callback returns 0.  [result] is the record the app
    data may point to. *)
Fixpoint process_tickets (tickets : list (list Z)) (ssl : Ssl) (result : Fetch_result)
    : M World (Ssl * Fetch_result) :=
  match tickets with
  | [] => mret (ssl, result)
  | t :: rest =>
      s ← obj_new (1 :: t);
      result ← (if offers (ssl_conf ssl) then
                  _ ← SSL_SESSION_up_ref s;
                  '(keep, r) ← on_new_session (if ssl_app ssl then Some result else None) s;
                  _ ← (if keep =? 0 then SSL_SESSION_free s else mret tt);
                  mret (from_option id result r)
                else mret result);
      process_tickets rest (hold s ssl) result
  end.

Definition SSL_read (ssl : Ssl) (result : Fetch_result)
    : M World (ssl_read_result * Ssl * Fetch_result) :=
  '(tickets, res) ← ask (fun k => tls_read k (ssl_conf ssl));
  '(ssl, result) ← process_tickets tickets ssl result;
  mret (res, ssl, result).

(** [pump_for_ticket]: [n] attempts left. *)
Fixpoint pump_for_ticket (n : nat) (ssl : Ssl) (result : Fetch_result)
    : M World (Ssl * Fetch_result) :=
  match n with
  | O => mret (ssl, result)
  | S n' =>
      match fr_session result with
      | Some _ => mret (ssl, result)
      | None =>
          '(res, ssl, result) ← SSL_read ssl result;
          match res with
          | ReadData => pump_for_ticket n' ssl result
          | ReadWant => pump_for_ticket n' ssl result
          | ReadOther => mret (ssl, result)
          end
      end
  end.

(** [make_ctx]: the context object and the configuration it gives connections. *)
Definition make_ctx (insecure with_new_cb : bool) : M World (option (nat * ssl_cfg)) :=
  ok ← ask tls_ctx_new;
  if negb ok then mret None
  else
    ctx ← obj_new [];
    groups_ok ← ask (fun k => tls_set_groups k k_group_pref);
    if negb groups_ok then _ ← free (Some ctx); mret None
    else
      mret (Some (ctx, mkCfg TLS1_3_VERSION TLS1_3_VERSION k_group_pref
                         (if with_new_cb
                          then Z.lor SSL_SESS_CACHE_CLIENT SSL_SESS_CACHE_NO_INTERNAL_STORE
                          else SSL_SESS_CACHE_SERVER) with_new_cb
                         (negb insecure) (negb insecure) None None None)).

(** [SSL_new]; the callers use the result without a check, so a null result is
    undefined behaviour. *)
Definition SSL_new (cfg : ssl_cfg) : M World Ssl :=
  ok ← ask tls_ssl_new;
  if negb ok then ub
  else a ← obj_new []; mret (mkSsl a None false cfg []).

(** [SSL_set_fd], whose result the callers ignore, and [SSL_set_app_data]. *)
Definition SSL_set_fd (ssl : Ssl) (fd : nat) : M World Ssl :=
  ok ← ask tls_set_fd;
  mret (if (ok : bool)
        then mkSsl (ssl_addr ssl) (Some fd) (ssl_app ssl) (ssl_conf ssl) (ssl_held ssl) else ssl).

Definition SSL_set_app_data (ssl : Ssl) : Ssl :=
  mkSsl (ssl_addr ssl) (ssl_fd ssl) true (ssl_conf ssl) (ssl_held ssl).

(** [SSL_connect(ssl) == 1]: it fails without a descriptor, and using a descriptor
    that was closed has no defined result. *)
Definition SSL_connect (ssl : Ssl) : M World bool :=
  match ssl_fd ssl with
  | None => mret false
  | Some fd =>
      _ ← load (Some fd);
      ask (fun k => tls_connect k (ssl_conf ssl))
  end.

Definition set_sni (cfg : ssl_cfg) (host : list Z) : ssl_cfg :=
  mkCfg (cfg_min_proto cfg) (cfg_max_proto cfg) (cfg_groups cfg) (cfg_cache cfg) (cfg_new_cb cfg)
    (cfg_verify_peer cfg) (cfg_default_paths cfg) (Some host) (cfg_host cfg) (cfg_session cfg).

(** [SSL_set1_host], whose result the callers ignore. *)
Definition set1_host (ssl : Ssl) (host : list Z) : M World Ssl :=
  ok ← ask (fun k => tls_set1_host k host);
  let cfg := ssl_conf ssl in
  mret (with_conf
    (mkCfg (cfg_min_proto cfg) (cfg_max_proto cfg) (cfg_groups cfg) (cfg_cache cfg) (cfg_new_cb cfg)
       (cfg_verify_peer cfg) (cfg_default_paths cfg) (cfg_sni cfg)
       (if (ok : bool) then Some host else cfg_host cfg) (cfg_session cfg)) ssl).

Fixpoint release_sessions (ss : list nat) : M World unit :=
  match ss with
  | [] => mret tt
  | s :: ss' => _ ← SSL_SESSION_free s; release_sessions ss'
  end.

(** [SSL_free] drops the sessions the connection holds. *)
Definition SSL_free (ssl : Ssl) : M World unit :=
  _ ← release_sessions (ssl_held ssl);
  free (Some (ssl_addr ssl)).

(** The connection set up by [session_fetch], and by [session_probe_resume]
    without app data. *)
Definition setup_ssl (cfg : ssl_cfg) (fd : nat) (app : bool) (host : list Z) (insecure : bool)
    : M World Ssl :=
  ssl ← SSL_new cfg;
  ssl ← SSL_set_fd ssl fd;
  let ssl := if app then SSL_set_app_data ssl else ssl in
  let ssl := with_conf (set_sni (ssl_conf ssl) host) ssl in
  if negb insecure then set1_host ssl host else mret ssl.

Definition question_mark : list Z := of_string "?".
Definition MLKEM : list Z := of_string "MLKEM".

(** What the code makes of the group name the library reports. *)
Definition group_or_q (g : option (list Z)) : list Z :=
  match g with Some s => cstr s | None => question_mark end.
Definition is_mlkem (g : option (list Z)) : bool :=
  match g with Some s => strstr (cstr s) MLKEM | None => false end.

(** The part of [session_fetch] between the set-up and the label [out]: the
    handshake, the group it negotiated, the wait for a ticket. *)
Definition fetch_handshake (ssl : Ssl) : M World (Z * Ssl * Fetch_result) :=
  ok ← SSL_connect ssl;
  if negb ok then mret (1, ssl, fetch_zero)
  else
    group ← ask (fun k => tls_group_name k (ssl_conf ssl));
    let out := mkFetch None (snprintf_s 64 (group_or_q group)) (is_mlkem group) in
    '(ssl, out) ← pump_for_ticket 4 ssl out;
    mret (match fr_session out with Some _ => 0 | None => 1 end, ssl, out).

Definition session_fetch (host port : list Z) (insecure : bool) : M World (Z * Fetch_result) :=
  c ← make_ctx insecure true;
  match c with
  | None => mret (1, fetch_zero)
  | Some (ctx, cfg) =>
      fd ← connect_tcp host port;
      match fd with
      | None => _ ← free (Some ctx); mret (1, fetch_zero)
      | Some fd =>
          ssl ← setup_ssl cfg fd true host insecure;
          '(rc, ssl, out) ← fetch_handshake ssl;
          _ ← SSL_free ssl;
          _ ← free (Some fd);
          _ ← free (Some ctx);
          mret (rc, out)
      end
  end.

Definition set_cfg_session (cfg : ssl_cfg) (d : list Z) : ssl_cfg :=
  mkCfg (cfg_min_proto cfg) (cfg_max_proto cfg) (cfg_groups cfg) (cfg_cache cfg) (cfg_new_cb cfg)
    (cfg_verify_peer cfg) (cfg_default_paths cfg) (cfg_sni cfg) (cfg_host cfg) (Some d).

(** [SSL_set_session], whose result the caller ignores: on success the connection
    takes its own reference. *)
Definition set_session (ssl : Ssl) (s : nat) : M World Ssl :=
  ok ← ask tls_set_session;
  if (ok : bool) then
    _ ← SSL_SESSION_up_ref s;
    d ← session_data s;
    mret (hold s (with_conf (set_cfg_session (ssl_conf ssl) d) ssl))
  else mret ssl.

(** [session_to_der]: the return value and [*der]. *)
Definition session_to_der (sess : nat) : M World (Z * option nat) :=
  d ← session_data sess;
  let '(len, bytes) := tls_i2d d in
  if len <=? 0 then mret (len, None)
  else
    buf ← malloc (replicate (Z.to_nat len) 0);
    match buf with
    | None => mret (-1, None)
    | Some b => _ ← store (Some b) bytes; mret (len, Some b)
    end.

(** The part of [session_probe_resume] between [SSL_connect] and the label
    [out]: the return value, [*reused] and the group written. *)
Definition probe_handshake (ssl : Ssl) (group_out : option nat)
    : M World (Z * Z * option (list Z)) :=
  ok ← SSL_connect ssl;
  if negb ok then mret (1, 0, None)
  else
    reused ← ask (fun k => tls_reused k (ssl_conf ssl));
    match group_out with
    | None => mret (0, reused, None)
    | Some cap =>
        if (0 <? cap)%nat then
          group ← ask (fun k => tls_group_name k (ssl_conf ssl));
          mret (0, reused, Some (snprintf_s cap (group_or_q group)))
        else mret (0, reused, None)
    end.

(** [session_probe_resume]: the return value, [*reused] and the group written. *)
Definition session_probe_resume (host port : list Z) (insecure : bool) (der : list Z)
    (group_out : option nat) : M World (Z * Z * option (list Z)) :=
  c ← make_ctx insecure false;
  match c with
  | None => mret (1, 0, None)
  | Some (ctx, cfg) =>
      fd ← connect_tcp host port;
      match fd with
      | None => _ ← free (Some ctx); mret (1, 0, None)
      | Some fd =>
          ssl ← setup_ssl cfg fd false host insecure;
          d2i ← ask (fun k => tls_d2i k der);
          match d2i with
          | None =>
              _ ← SSL_free ssl;
              _ ← free (Some fd);
              _ ← free (Some ctx);
              mret (1, 0, None)
          | Some d =>
              s ← obj_new (1 :: d);
              ssl ← set_session ssl s;
              _ ← SSL_SESSION_free s;
              '(rc, reused, group) ← probe_handshake ssl group_out;
              _ ← SSL_free ssl;
              _ ← free (Some fd);
              _ ← free (Some ctx);
              mret (rc, reused, group)
          end
      end
  end.

End Source.

(** ** Resource accounting *)

(** Starting from the world [w0], the code now holds exactly the resources
    [own], and nothing else changed. *)
Definition holds (own : list nat) (w0 w : World) : Prop :=
  heap_wf w /\ world_le w0 w /\ NoDup own /\
  Forall (fun l => is_Some (w_heap w !! l)) own /\
  owns_step [] own (w_heap w0) (w_heap w).

(** The reference count of a session of the connection, [cap] being the session
    the result record refers to. *)
Definition refcount (cap : option nat) (s : nat) : Z := if decide (cap = Some s) then 2 else 1.

(** The sessions of a connection and the result record: the connection holds one
    reference to each of its sessions, the result one more to the captured one,
    which is [data]. *)
Definition sess_refs (held : list nat) (cap : option nat) (data : list Z) (w : World) : Prop :=
  Forall (fun s => exists d, w_heap w !! s = Some (refcount cap s :: d)) held /\
  (forall s, cap = Some s -> s ∈ held /\ w_heap w !! s = Some (2 :: data)).

(** What the library documents of the encoder: a positive return value is the
    length of the encoding, an [int]; and of the lifetime of a ticket: a number of
    seconds of 32 bits. *)
Class TlsOk (tls : Tls) : Prop := {
  tls_i2d_len : forall d, 0 < fst (tls_i2d d) ->
    fst (tls_i2d d) = Z.of_nat (length (snd (tls_i2d d))) /\ fst (tls_i2d d) < 2 ^ 31;
  tls_timeout_ok : forall d, 0 <= tls_timeout d < 2 ^ 32
}.

(** The configuration of a verified handshake. *)
Definition verified_cfg (host : list Z) (insecure : bool) (cfg : ssl_cfg) : Prop :=
  cfg_min_proto cfg = TLS1_3_VERSION /\ cfg_max_proto cfg = TLS1_3_VERSION /\
  cfg_groups cfg = k_group_pref /\ cfg_sni cfg = Some host /\ cfg_session cfg = None /\
  (insecure = false -> cfg_verify_peer cfg = true /\ cfg_default_paths cfg = true).

(** ** What a fetch depends on *)

Section Outcome.
Context {tls : Tls}.

(** The library could not create a connection object, which the code does not
    check. *)
Definition ssl_new_fails : Prop := exists k, tls_ssl_new k = false.

(** The first ticket that at most [n] reads, the first at environment step [k],
    bring before the connection ends. *)
Fixpoint first_ticket (n k : nat) (cfg : ssl_cfg) : option (list Z) :=
  match n with
  | O => None
  | S n' =>
      match tls_read k cfg with
      | (t :: _, _) => Some t
      | ([], ReadOther) => None
      | ([], _) => first_ticket n' (S k) cfg
      end
  end.

(** No address can be connected to. *)
Definition unreachable (r : option (list (bool * bool))) : bool :=
  match r with
  | None => true
  | Some ais => forallb (fun '(s, c) => negb (s && c)) ais
  end.

(** The host name check is off only because the caller asked for no
    verification or because [SSL_set1_host] failed. *)
Definition host_checked (host : list Z) (insecure : bool) (cfg : ssl_cfg) : Prop :=
  insecure = true \/ cfg_host cfg = Some host \/ exists k, tls_set1_host k host = false.

(** Why [session_fetch] may fail. *)
Definition fetch_failed (host port : list Z) (insecure : bool) : Prop :=
  (exists k, tls_ctx_new k = false) \/
  (exists k, tls_set_groups k k_group_pref = false) \/
  (exists k, unreachable (tls_getaddrinfo k host port) = true) \/
  (exists k, tls_set_fd k = false) \/
  (exists k cfg, verified_cfg host insecure cfg /\ offers cfg = true /\
     (tls_connect k cfg = false \/ first_ticket 4 (k + 2) cfg = None)).

(** What a fetched result is: the outcome of a verified handshake at step [k] with
    an address of the host and port, and its first ticket [t]. *)
Definition fetched_by (host port : list Z) (insecure : bool) (out : Fetch_result) (t : list Z)
    : Prop :=
  exists j k cfg, unreachable (tls_getaddrinfo j host port) = false /\
    verified_cfg host insecure cfg /\ host_checked host insecure cfg /\
    tls_connect k cfg = true /\ first_ticket 4 (k + 2) cfg = Some t /\
    fr_group out = snprintf_s 64 (group_or_q (tls_group_name (k + 1) cfg)) /\
    fr_is_pqc out = is_mlkem (tls_group_name (k + 1) cfg).

End Outcome.
