(* ===== verification/SessionLemmas.v ===== *)
(** * SessionLemmas: resource accounting for session_source.c

    Rules for the table of library objects ([holds]), and the specification of
    every routine of [SessionSource]: on every path each object the routine
    created is released again, except the one session the caller is given. *)

From stdpp Require Import base numbers list gmap strings.
From S2P Require Import Prelude Runtime SessionSource.

Open Scope Z_scope.

(** ** The rules of [holds] *)

Lemma holds_init (w : World) : heap_wf w -> holds [] w w.
Proof. intros Hwf. split_and!; auto with tc; [constructor..|]. split; set_solver. Qed.

Lemma holds_wf own w0 w : holds own w0 w -> heap_wf w.
Proof. by intros (H & _). Qed.

Lemma holds_le own w0 w : holds own w0 w -> world_le w0 w.
Proof. by intros (_ & H & _). Qed.

Lemma holds_tick own w0 w : holds own w0 w -> holds own w0 (tick w).
Proof.
  intros (? & ? & ?). split_and!; try naive_solver.
  eapply world_le_trans; [done|]. auto with tc.
Qed.

#[export] Instance holds_proper : Proper ((≡ₚ) ==> (=) ==> (=) ==> iff) holds.
Proof. intros own own' E w0 ? <- w ? <-. unfold holds. by rewrite E. Qed.

Lemma holds_alive own w0 w l : holds own w0 w -> l ∈ own -> is_Some (w_heap w !! l).
Proof. intros (_ & _ & _ & Ha & _) Hl. by eapply Forall_forall in Ha. Qed.

Lemma holds_NoDup own w0 w : holds own w0 w -> NoDup own.
Proof. by intros (_ & _ & H & _). Qed.

(** With nothing held, the table is what it was. *)
Lemma holds_nil w0 w : holds [] w0 w -> w_heap w = w_heap w0.
Proof.
  intros (_ & _ & _ & _ & [H _]). apply map_eq. intros l.
  rewrite H by set_solver. by rewrite decide_False by set_solver.
Qed.

Lemma holds_one l bs w0 w :
  holds [l] w0 w -> w_heap w !! l = Some bs ->
  w_heap w = <[l:=bs]> (w_heap w0) /\ w_heap w0 !! l = None.
Proof.
  intros (_ & _ & _ & _ & [H F]) Hl. split; [|apply F; set_solver].
  apply map_eq. intros k. rewrite lookup_insert. case_decide; [by subst|].
  rewrite H by set_solver. by rewrite decide_False by set_solver.
Qed.

Lemma holds_next own w0 w : holds own w0 w -> w_next w ∉ own.
Proof.
  intros Hh Hl. apply (holds_alive _ _ _ _ Hh) in Hl as [? E].
  rewrite heap_wf_fresh in E; [done|by eapply holds_wf|done].
Qed.

Lemma holds_add own w0 w bs :
  holds own w0 w ->
  holds (w_next w :: own) w0 (mkWorld (<[w_next w := bs]> (w_heap w)) (S (w_next w)) (S (w_step w))).
Proof.
  intros Hh. pose proof (holds_next _ _ _ Hh) as Hn.
  pose proof Hh as (Hwf & Hle & Hnd & Hal & [Ho Hf]).
  assert (w_heap w0 !! w_next w = None) as H0.
  { specialize (Ho _ Hn). rewrite decide_False in Ho by set_solver.
    rewrite <- Ho. by apply heap_wf_fresh. }
  split_and!; simpl.
  - intros l. simpl. rewrite lookup_insert. case_decide; [lia|]. intros Hl%Hwf. lia.
  - unfold world_le in *. simpl. lia.
  - by constructor.
  - constructor; [by rewrite lookup_insert_eq|]. apply Forall_forall. intros l Hl.
    rewrite lookup_insert_ne by set_solver. by eapply holds_alive.
  - split; intros l; rewrite ?not_elem_of_cons, ?elem_of_cons.
    + intros [Hne Hl]. rewrite lookup_insert_ne by done. by apply Ho.
    + intros [->|Hl] _; [done|]. apply Hf; [done|set_solver].
Qed.

Lemma holds_set own w0 w l bs :
  holds own w0 w -> l ∈ own ->
  holds own w0 (mkWorld (<[l := bs]> (w_heap w)) (w_next w) (w_step w)).
Proof.
  intros Hh Hl. pose proof Hh as (Hwf & Hle & Hnd & Hal & [Ho Hf]).
  split_and!; [|done|done| |split; [|done]].
  - intros k. simpl. rewrite lookup_insert. case_decide; [|apply Hwf].
    intros _. subst. apply Hwf. by eapply holds_alive.
  - apply Forall_forall. intros k Hk. simpl. rewrite lookup_insert.
    case_decide; [by eauto|]. by eapply holds_alive.
  - intros k Hk. simpl. rewrite lookup_insert_ne by set_solver. by apply Ho.
Qed.

Lemma holds_drop own own' w0 w l :
  holds own w0 w -> own ≡ₚ l :: own' ->
  holds own' w0 (mkWorld (delete l (w_heap w)) (w_next w) (w_step w)).
Proof.
  intros Hh E. rewrite E in Hh. clear E own.
  pose proof Hh as (Hwf & Hle & Hnd & Hal & [Ho Hf]).
  apply NoDup_cons in Hnd as [Hn Hnd].
  assert (forall k, k ∈ own' -> k <> l) as Hne by set_solver.
  split_and!; [|done|done| |split; [|intros k Hk Hk'; apply Hf; [set_solver|done]]].
  - intros k. simpl. rewrite lookup_delete. case_decide; [by intros []|]. apply Hwf.
  - apply Forall_forall. intros k Hk. simpl. rewrite lookup_delete_ne by naive_solver.
    eapply holds_alive; [done|set_solver].
  - intros k Hk. rewrite decide_False by set_solver. simpl. destruct (decide (k = l)) as [->|].
    + rewrite lookup_delete_eq. symmetry. apply Hf; set_solver.
    + rewrite lookup_delete_ne, Ho by set_solver. by rewrite decide_False by set_solver.
Qed.

(** Only the table counts. *)
Lemma holds_same own w0 w w' :
  holds own w0 w -> heap_wf w' -> world_le w w' -> w_heap w' = w_heap w -> holds own w0 w'.
Proof.
  intros (_ & Hle & Hnd & Hal & Ho) Hwf' Hle' E. split_and!; rewrite ?E; try done.
  by eapply world_le_trans.
Qed.

#[export] Hint Resolve holds_tick holds_wf holds_le : tc.

(** ** Rules for the primitives *)

Section Primitives.
Context {bad : Prop}.

Lemma returns_ask {A} (f : nat -> A) (w : World) (Q : A -> World -> Prop) :
  Q (f (w_step w)) (tick w) -> returns_or bad (ask f) w Q.
Proof. done. Qed.

Lemma returns_obj_new own w0 (bs : list Z) (w : World) (Q : nat -> World -> Prop) :
  holds own w0 w ->
  (forall l w', l ∉ own -> holds (l :: own) w0 w' -> w_heap w' !! l = Some bs ->
     (forall k, k ∈ own -> w_heap w' !! k = w_heap w !! k) -> Q l w') ->
  returns_or bad (obj_new bs) w Q.
Proof.
  intros Hh HQ. eapply returns_intro; [done|].
  pose proof (holds_next _ _ _ Hh). apply HQ; [done|by apply holds_add| |].
  - simpl. by rewrite lookup_insert_eq.
  - intros k Hk. simpl. rewrite lookup_insert_ne; [done|]. by intros <-.
Qed.

Lemma returns_release own own' w0 (l : nat) (w : World) (Q : unit -> World -> Prop) :
  holds own w0 w -> own ≡ₚ l :: own' ->
  (forall w', holds own' w0 w' ->
     (forall k, k ∈ own' -> w_heap w' !! k = w_heap w !! k) -> Q tt w') ->
  returns_or bad (free (Some l)) w Q.
Proof.
  intros Hh E HQ. apply returns_free.
  { eapply holds_alive; [done|]. rewrite E. set_solver. }
  apply HQ; [by eapply holds_drop|]. intros k Hk. simpl. rewrite lookup_delete_ne; [done|].
  apply holds_NoDup in Hh. rewrite E in Hh. apply NoDup_cons in Hh as [Hn _]. by intros <-.
Qed.

(** Raising and dropping a reference count. *)
Lemma returns_up_ref own w0 (s : nat) (n : Z) (d : list Z) (w : World) (Q : unit -> World -> Prop) :
  holds own w0 w -> s ∈ own -> w_heap w !! s = Some (n :: d) ->
  (forall w', holds own w0 w' -> w_heap w' !! s = Some (n + 1 :: d) ->
     (forall k, k <> s -> w_heap w' !! k = w_heap w !! k) -> Q tt w') ->
  returns_or bad (SSL_SESSION_up_ref s) w Q.
Proof.
  intros Hh Hs Hn HQ. unfold SSL_SESSION_up_ref.
  apply returns_bind. eapply returns_load; [done|].
  eapply returns_store; [done..|]. apply HQ; [by apply holds_set| |].
  - simpl. by rewrite lookup_insert_eq.
  - intros k Hk. simpl. by rewrite lookup_insert_ne.
Qed.

Lemma returns_unref own w0 (s : nat) (n : Z) (d : list Z) (w : World) (Q : unit -> World -> Prop) :
  holds own w0 w -> s ∈ own -> w_heap w !! s = Some (n :: d) -> n <> 1 ->
  (forall w', holds own w0 w' -> w_heap w' !! s = Some (n - 1 :: d) ->
     (forall k, k <> s -> w_heap w' !! k = w_heap w !! k) -> Q tt w') ->
  returns_or bad (SSL_SESSION_free s) w Q.
Proof.
  intros Hh Hs Hn Hne HQ. unfold SSL_SESSION_free.
  apply returns_bind. eapply returns_load; [done|]. cbn beta iota.
  rewrite (proj2 (Z.eqb_neq _ _)) by done.
  eapply returns_store; [done..|]. apply HQ; [by apply holds_set| |].
  - simpl. by rewrite lookup_insert_eq.
  - intros k Hk. simpl. by rewrite lookup_insert_ne.
Qed.

Lemma returns_last_unref own own' w0 (s : nat) (d : list Z) (w : World) (Q : unit -> World -> Prop) :
  holds own w0 w -> own ≡ₚ s :: own' -> w_heap w !! s = Some (1 :: d) ->
  (forall w', holds own' w0 w' ->
     (forall k, k ∈ own' -> w_heap w' !! k = w_heap w !! k) -> Q tt w') ->
  returns_or bad (SSL_SESSION_free s) w Q.
Proof.
  intros Hh E Hn HQ. unfold SSL_SESSION_free.
  apply returns_bind. eapply returns_load; [done|]. simpl.
  by eapply returns_release.
Qed.

Lemma returns_session_data (s : nat) (n : Z) (d : list Z) (w : World) (Q : list Z -> World -> Prop) :
  w_heap w !! s = Some (n :: d) -> Q d w -> returns_or bad (session_data s) w Q.
Proof.
  intros Hs HQ. unfold session_data. apply returns_bind. eapply returns_load; [done|].
  by apply returns_ret.
Qed.

End Primitives.

(** ** The routines *)

(** The reason a routine may have no result, [bad], covers a library that cannot
    create a connection object. *)
Section Routines.
Context {env : Env} {tls : Tls} {bad : Prop}.

(** Dropping the connection's references leaves the captured session alone, with
    one reference. *)
Lemma release_sessions_spec (held rest : list nat) (cap : option nat) (data : list Z)
    (w0 w : World) :
  holds (held ++ rest) w0 w ->
  Forall (fun s => exists d, w_heap w !! s = Some (refcount cap s :: d) /\
                     (cap = Some s -> d = data)) held ->
  returns_or bad (release_sessions held) w (fun _ w' =>
    holds (filter (fun s => cap = Some s) held ++ rest) w0 w' /\
    Forall (fun s => w_heap w' !! s = Some (1 :: data)) (filter (fun s => cap = Some s) held) /\
    (forall k, k ∈ rest -> w_heap w' !! k = w_heap w !! k)).
Proof.
  revert rest w. induction held as [|s held IH]; intros rest w Hh Hr; simpl.
  { apply returns_ret. by split_and!. }
  apply Forall_cons in Hr as [(d & Hs & Hd) Hr]. apply returns_bind.
  pose proof (holds_NoDup _ _ _ Hh) as Hnd. simpl in Hnd. apply NoDup_cons in Hnd as [Hns Hnd].
  rewrite not_elem_of_app in Hns. destruct Hns as [Hns Hnr].
  rewrite filter_cons. unfold refcount in Hs. destruct (decide (cap = Some s)) as [Hc|Hc].
  - eapply returns_unref; [done|set_solver|done|done|]. intros w1 Hh1 Hs1 Hsame.
    eapply returns_mono; [apply (IH (s :: rest) w1)|].
    + by rewrite <- Permutation_middle.
    + apply Forall_forall. intros k Hk. rewrite Hsame by set_solver.
      by eapply Forall_forall in Hr.
    + intros _ w2 (Hh2 & Hr2 & Hsame2). split_and!.
      * by rewrite <- Permutation_middle in Hh2.
      * constructor; [|done]. rewrite Hsame2, Hs1, Hd by set_solver. done.
      * intros k Hk. rewrite Hsame2, Hsame by set_solver. done.
  - eapply (returns_last_unref _ (held ++ rest)); [done|done|done|]. intros w1 Hh1 Hsame.
    eapply returns_mono; [apply IH; [done|]|].
    + apply Forall_forall. intros k Hk.
      rewrite Hsame by set_solver. by eapply Forall_forall in Hr.
    + intros _ w2 (Hh2 & Hr2 & Hsame2). split_and!; [done..|].
      intros k Hk. rewrite Hsame2, Hsame by set_solver. done.
Qed.

Lemma filter_captured (held : list nat) (cap : option nat) :
  NoDup held -> (forall s, cap = Some s -> s ∈ held) ->
  filter (fun s => cap = Some s) held ≡ₚ option_list cap.
Proof.
  intros Hnd Hin. apply NoDup_Permutation; [by apply NoDup_filter| |].
  - destruct cap; simpl; [apply NoDup_singleton|constructor].
  - intros s. rewrite list_elem_of_filter. destruct cap as [c|]; simpl.
    + rewrite list_elem_of_singleton. naive_solver.
    + set_solver.
Qed.

Lemma SSL_free_spec (ssl : Ssl) (rest : list nat) (cap : option nat) (data : list Z)
    (w0 w : World) :
  holds (ssl_held ssl ++ ssl_addr ssl :: rest) w0 w ->
  sess_refs (ssl_held ssl) cap data w ->
  returns_or bad (SSL_free ssl) w (fun _ w' =>
    holds (option_list cap ++ rest) w0 w' /\
    (forall s, cap = Some s -> w_heap w' !! s = Some (1 :: data))).
Proof.
  intros Hh [Hr Hin]. unfold SSL_free. apply returns_bind.
  pose proof (holds_NoDup _ _ _ Hh) as Hnd. apply NoDup_app in Hnd as (Hnd & _ & _).
  eapply returns_mono; [eapply (release_sessions_spec _ _ cap data); [done|]|].
  { eapply Forall_impl; [exact Hr|]. intros s (d & Hs). exists d. split; [done|].
    intros Hc. destruct (Hin s Hc) as [_ Hs2]. congruence. }
  intros _ w1 (Hh1 & Hr1 & _). rewrite filter_captured in Hh1, Hr1 by naive_solver.
  eapply returns_release; [done|by rewrite <- Permutation_middle|].
  intros w2 Hh2 Hsame. split; [done|]. intros s ->. simpl in *.
  apply Forall_cons in Hr1 as [Hs _]. rewrite <- Hs. apply Hsame. set_solver.
Qed.

Lemma try_addrs_spec (ais : list (bool * bool)) (own : list nat) (w0 w : World) :
  holds own w0 w ->
  returns_or bad (try_addrs ais) w (fun r w' =>
    match r with
    | None => holds own w0 w' /\ unreachable (Some ais) = true
    | Some fd => holds (fd :: own) w0 w' /\ unreachable (Some ais) = false
    end).
Proof.
  revert w. induction ais as [|[sok cok] ais IH]; intros w Hh; simpl.
  { by apply returns_ret. }
  destruct sok; simpl; [|by apply IH].
  apply returns_bind. eapply returns_obj_new; [done|]. intros fd w1 _ Hh1 _ _.
  destruct cok; simpl; [by apply returns_ret|].
  apply returns_bind. eapply returns_release; [done..|]. intros w2 Hh2 _. by apply IH.
Qed.

Lemma connect_tcp_spec (host port : list Z) (own : list nat) (w0 w : World) :
  holds own w0 w ->
  returns_or bad (connect_tcp host port) w (fun r w' =>
    match r with
    | None => holds own w0 w' /\ exists k, unreachable (tls_getaddrinfo k host port) = true
    | Some fd => holds (fd :: own) w0 w' /\
        exists k, unreachable (tls_getaddrinfo k host port) = false
    end).
Proof.
  intros Hh. unfold connect_tcp. apply returns_bind, returns_ask.
  destruct (tls_getaddrinfo (w_step w) host port) as [ais|] eqn:E.
  - eapply returns_mono; [apply try_addrs_spec; by apply holds_tick|].
    intros [fd|] w'; rewrite <- E; intros [? ?]; eauto.
  - apply returns_ret. split; [by apply holds_tick|]. exists (w_step w). by rewrite E.
Qed.

(** The configuration of a context. *)
Definition ctx_cfg (insecure cb : bool) : ssl_cfg :=
  mkCfg TLS1_3_VERSION TLS1_3_VERSION k_group_pref
    (if cb then Z.lor SSL_SESS_CACHE_CLIENT SSL_SESS_CACHE_NO_INTERNAL_STORE
     else SSL_SESS_CACHE_SERVER) cb (negb insecure) (negb insecure) None None None.

Lemma make_ctx_spec (insecure cb : bool) (own : list nat) (w0 w : World) :
  holds own w0 w ->
  returns_or bad (make_ctx insecure cb) w (fun r w' =>
    match r with
    | None => holds own w0 w' /\
        ((exists k, tls_ctx_new k = false) \/ (exists k, tls_set_groups k k_group_pref = false))
    | Some (ctx, cfg) => holds (ctx :: own) w0 w' /\
        cfg = ctx_cfg insecure cb
    end).
Proof.
  intros Hh. unfold make_ctx. apply returns_bind, returns_ask. case_if.
  { apply returns_ret. split; [by apply holds_tick|]. eauto. }
  apply returns_bind. eapply returns_obj_new; [by apply holds_tick|]. intros ctx w1 _ Hh1 _ _.
  apply returns_bind, returns_ask. case_if.
  - apply returns_bind. eapply returns_release; [by apply holds_tick|done|].
    intros w2 Hh2 _. apply returns_ret. eauto.
  - apply returns_ret. split; [by apply holds_tick|done].
Qed.

(** What [setup_ssl] makes: its descriptor is set unless that failed. *)
Definition ssl_ready (fd : nat) (app : bool) (host : list Z) (insecure cb : bool) (ssl : Ssl)
    : Prop :=
  ssl_held ssl = [] /\ ssl_app ssl = app /\
  (ssl_fd ssl = Some fd \/ (ssl_fd ssl = None /\ exists k, tls_set_fd k = false)) /\
  verified_cfg host insecure (ssl_conf ssl) /\ offers (ssl_conf ssl) = cb /\
  host_checked host insecure (ssl_conf ssl).

Lemma setup_ssl_spec (fd : nat) (app : bool) (host : list Z) (insecure cb : bool)
    (own : list nat) (w0 w : World) :
  (ssl_new_fails -> bad) -> holds own w0 w ->
  returns_or bad (setup_ssl (ctx_cfg insecure cb) fd app host insecure) w (fun ssl w' =>
    holds (ssl_addr ssl :: own) w0 w' /\ ssl_ready fd app host insecure cb ssl).
Proof.
  intros Hbad Hh. unfold setup_ssl, SSL_new. apply returns_bind, returns_bind, returns_ask.
  case_if; [apply returns_ub, Hbad; by eexists|].
  apply returns_bind. eapply returns_obj_new; [by apply holds_tick|]. intros a w1 _ Hh1 _ _.
  apply returns_ret, returns_bind. unfold SSL_set_fd. apply returns_bind, returns_ask, returns_ret.
  set (ssl := if tls_set_fd (w_step w1) then _ else _).
  assert (ssl_addr ssl = a /\ ssl_held ssl = [] /\ ssl_app ssl = false /\
          ssl_conf ssl = ctx_cfg insecure cb /\
          (ssl_fd ssl = Some fd \/ (ssl_fd ssl = None /\ exists k, tls_set_fd k = false)))
    as (Ha & Hheld & Happ & Hc & Hfd).
  { unfold ssl. destruct (tls_set_fd (w_step w1)) eqn:E1; split_and!; try done; [by left|].
    right. split; [done|]. by eexists. }
  clearbody ssl. destruct ssl as [a' fd' app' conf held]. simpl in *. subst.
  assert (offers (ctx_cfg insecure cb) = cb) as Hoff by by destruct cb.
  destruct insecure; simpl.
  { apply returns_ret. split; [by destruct app; apply holds_tick|].
    destruct app; split_and!; try done; by left. }
  unfold set1_host. apply returns_bind, returns_ask, returns_ret.
  split; [by destruct app; do 2 apply holds_tick|].
  destruct app; (split_and!; try done; right; simpl);
    destruct (tls_set1_host _ host) eqn:E1; eauto.
Qed.

(** One ticket: the connection keeps a reference, the result record another if it
    has none yet, and the reference offered to the callback is dropped again. *)
Lemma offer_spec (t : list Z) (ssl : Ssl) (r : Fetch_result) (s : nat) (own : list nat)
    (w0 w : World) (Q : Fetch_result -> World -> Prop) :
  ssl_app ssl = true -> holds own w0 w -> s ∈ own -> w_heap w !! s = Some (1 :: t) ->
  (forall w', holds own w0 w' -> (forall k, k <> s -> w_heap w' !! k = w_heap w !! k) ->
     match fr_session r with
     | Some _ => w_heap w' !! s = Some (1 :: t) -> Q r w'
     | None => w_heap w' !! s = Some (2 :: t) ->
         Q (mkFetch (Some s) (fr_group r) (fr_is_pqc r)) w'
     end) ->
  returns_or bad (_ ← SSL_SESSION_up_ref s;
                  '(keep, o) ← on_new_session (if ssl_app ssl then Some r else None) s;
                  _ ← (if keep =? 0 then SSL_SESSION_free s else mret tt);
                  mret (from_option id r o)) w Q.
Proof.
  intros Happ Hh Hin Hs HQ. rewrite Happ. apply returns_bind.
  eapply returns_up_ref; [done..|]. intros w1 Hh1 Hs1 Hsame1.
  unfold on_new_session. destruct (fr_session r) as [c|].
  - apply returns_bind, returns_ret, returns_bind. simpl.
    eapply returns_unref; [done..|]. intros w2 Hh2 Hs2 Hsame2. apply returns_ret, HQ; [done| |done].
    intros k Hk. by rewrite Hsame2, Hsame1.
  - apply returns_bind, returns_bind. eapply returns_up_ref; [done..|].
    intros w2 Hh2 Hs2 Hsame2. apply returns_ret, returns_bind. simpl.
    eapply returns_unref; [done..|]. intros w3 Hh3 Hs3 Hsame3. apply returns_ret, HQ; [done| |done].
    intros k Hk. by rewrite Hsame3, Hsame2, Hsame1.
Qed.

(** Every session the connection processes is accounted for, and the first one is
    captured. *)
Lemma process_tickets_spec (ts : list (list Z)) (ssl : Ssl) (r : Fetch_result) (data : list Z)
    (rest : list nat) (w0 w : World) :
  offers (ssl_conf ssl) = true -> ssl_app ssl = true ->
  holds (ssl_held ssl ++ rest) w0 w -> sess_refs (ssl_held ssl) (fr_session r) data w ->
  returns_or bad (process_tickets ts ssl r) w (fun '(ssl', r') w' =>
    ssl_addr ssl' = ssl_addr ssl /\ ssl_app ssl' = true /\ ssl_conf ssl' = ssl_conf ssl /\
    fr_group r' = fr_group r /\ fr_is_pqc r' = fr_is_pqc r /\
    holds (ssl_held ssl' ++ rest) w0 w' /\
    match fr_session r, ts with
    | None, t :: _ => fr_session r' <> None /\ sess_refs (ssl_held ssl') (fr_session r') t w'
    | c, _ => fr_session r' = c /\ sess_refs (ssl_held ssl') c data w'
    end /\ (ts = [] -> w' = w)).
Proof.
  revert ssl r data w. induction ts as [|t ts IH]; intros ssl r data w Hcb Happ Hh Hrefs; simpl.
  { apply returns_ret. split_and!; try done. by destruct (fr_session r). }
  apply returns_bind. eapply returns_obj_new; [done|]. intros s w1 Hns Hh1 Hs1 Hsame.
  rewrite not_elem_of_app in Hns. destruct Hns as [Hns _]. destruct Hrefs as [Hr Hin].
  rewrite Hcb. apply returns_bind. eapply offer_spec; [done|done|set_solver|done|].
  intros w2 Hh2 Hsame2. destruct (fr_session r) as [c|] eqn:Ec; intros Hs2.
  - assert (c <> s) as Hcs by (intros ->; by destruct (Hin s eq_refl)).
    eapply returns_mono; [apply (IH (hold s ssl) r data w2); simpl; try done|].
    + rewrite Ec. split.
      * constructor; [exists t; rewrite Hs2; unfold refcount; by rewrite decide_False by congruence|].
        apply Forall_forall. intros k Hk. rewrite Hsame2, Hsame by set_solver.
        by eapply Forall_forall in Hr.
      * intros k [= <-]. destruct (Hin c eq_refl) as [Hi Hd]. split; [by right|].
        by rewrite Hsame2, Hsame by set_solver.
    + rewrite Ec. intros [ssl' r'] w' (? & ? & ? & ? & ? & ? & [? ?] & _). by split_and!.
  - eapply returns_mono; [apply (IH (hold s ssl) (mkFetch (Some s) _ _) t w2); simpl; try done|].
    + split.
      * constructor; [exists t; rewrite Hs2; unfold refcount; by rewrite decide_True|].
        apply Forall_forall. intros k Hk. assert (k <> s) by set_solver.
        rewrite Hsame2, Hsame by set_solver. eapply Forall_forall in Hr; [|done].
        destruct Hr as [d Hd]. exists d. rewrite Hd. unfold refcount.
        by rewrite !decide_False by congruence.
      * intros k [= <-]. split; [by left|done].
    + simpl. intros [ssl' r'] w' (? & ? & ? & ? & ? & ? & [Hc Hrefs'] & _).
      split_and!; try done; [by rewrite Hc|by rewrite Hc].
Qed.

Lemma pump_for_ticket_spec (n : nat) (ssl : Ssl) (r : Fetch_result) (rest : list nat)
    (w0 w : World) :
  offers (ssl_conf ssl) = true -> ssl_app ssl = true -> fr_session r = None ->
  holds (ssl_held ssl ++ rest) w0 w -> sess_refs (ssl_held ssl) None [] w ->
  returns_or bad (pump_for_ticket n ssl r) w (fun '(ssl', r') w' =>
    ssl_addr ssl' = ssl_addr ssl /\
    fr_group r' = fr_group r /\ fr_is_pqc r' = fr_is_pqc r /\
    holds (ssl_held ssl' ++ rest) w0 w' /\
    match first_ticket n (w_step w) (ssl_conf ssl) with
    | Some t => fr_session r' <> None /\ sess_refs (ssl_held ssl') (fr_session r') t w'
    | None => fr_session r' = None /\ sess_refs (ssl_held ssl') None [] w'
    end).
Proof.
  revert ssl r w. induction n as [|n IH]; intros ssl r w Hcb Happ Hr Hh Hrefs; simpl.
  { apply returns_ret. by split_and!. }
  rewrite Hr. unfold SSL_read. apply returns_bind, returns_bind, returns_ask.
  destruct (tls_read (w_step w) (ssl_conf ssl)) as [ts res] eqn:E.
  apply returns_bind. eapply returns_mono.
  { apply (process_tickets_spec ts ssl r [] rest w0); [done|done|by apply holds_tick|].
    by rewrite Hr. }
  intros [ssl1 r1] w1 (Ha & Happ1 & Hc & Hg & Hp & Hh1 & Hts & Hw). rewrite Hr in Hts.
  apply returns_ret. destruct ts as [|t ts].
  - destruct Hts as [Hr1 Hrefs1]. rewrite (Hw eq_refl) in *. destruct res.
    1, 2: eapply returns_mono; [apply IH; rewrite ?Hc; done|];
      intros [ssl' r'] w'; rewrite Ha, Hg, Hp, Hc; done.
    apply returns_ret. rewrite Hr1. by split_and!.
  - destruct Hts as [Hr1 Hrefs1].
    assert (returns_or bad (pump_for_ticket n ssl1 r1) w1 (fun x w' => x = (ssl1, r1) /\ w' = w1))
      as Hdone by (destruct n; simpl; [done|]; by destruct (fr_session r1)).
    destruct res; [| |by apply returns_ret].
    1, 2: eapply returns_mono; [exact Hdone|]; intros ? ? [-> ->]; by split_and!.
Qed.

(** The common clean-up [SSL_free(ssl); close(fd); SSL_CTX_free(ctx)]. *)
Lemma teardown_spec {A} (ssl : Ssl) (fd ctx : nat) (cap : option nat) (data : list Z) (a : A)
    (w0 w : World) (Q : A -> World -> Prop) :
  holds (ssl_held ssl ++ [ssl_addr ssl; fd; ctx]) w0 w -> sess_refs (ssl_held ssl) cap data w ->
  (forall w', holds (option_list cap) w0 w' ->
     (forall s, cap = Some s -> w_heap w' !! s = Some (1 :: data)) -> Q a w') ->
  returns_or bad (SSL_free ssl ≫= fun _ => free (Some fd) ≫= fun _ =>
           free (Some ctx) ≫= fun _ => mret a) w Q.
Proof.
  intros Hh Hr HQ. apply returns_bind. eapply returns_mono; [by eapply SSL_free_spec|].
  intros _ w1 [Hh1 Hs1]. apply returns_bind.
  eapply (returns_release _ (option_list cap ++ [ctx])); [done| |].
  { by rewrite <- Permutation_middle. }
  intros w2 Hh2 Hsame2. apply returns_bind.
  eapply (returns_release _ (option_list cap)); [done|apply Permutation_app_comm|].
  intros w3 Hh3 Hsame3. apply returns_ret, HQ; [done|]. intros s ->.
  rewrite Hsame3, Hsame2, Hs1 by set_solver. done.
Qed.

Lemma sess_refs_nil (data : list Z) (w : World) : sess_refs [] None data w.
Proof. by split. Qed.

(** The handshake over a descriptor that is still open, if there is one. *)
Lemma SSL_connect_spec (ssl : Ssl) (own : list nat) (w0 w : World) (Q : bool -> World -> Prop) :
  holds own w0 w -> (forall fd, ssl_fd ssl = Some fd -> fd ∈ own) ->
  (ssl_fd ssl = None -> Q false w) ->
  (is_Some (ssl_fd ssl) -> Q (tls_connect (w_step w) (ssl_conf ssl)) (tick w)) ->
  returns_or bad (SSL_connect ssl) w Q.
Proof.
  intros Hh Hin HN HS. unfold SSL_connect. destruct (ssl_fd ssl) as [fd|]; [|by apply returns_ret, HN].
  destruct (holds_alive _ _ _ fd Hh) as [bs Hbs]; [auto|].
  apply returns_bind. eapply returns_load; [done|]. apply returns_ask, HS. by eexists.
Qed.

(** The part of [session_fetch] after the connection was set up. *)
Lemma fetch_handshake_spec (host port : list Z) (insecure : bool) (ssl : Ssl) (fd : nat)
    (rest : list nat) (w0 w : World) :
  ssl_ready fd true host insecure true ssl -> fd ∈ rest ->
  (exists j, unreachable (tls_getaddrinfo j host port) = false) ->
  holds (ssl_addr ssl :: rest) w0 w ->
  returns_or bad (fetch_handshake ssl) w (fun '(rc, ssl', out) w' =>
    ssl_addr ssl' = ssl_addr ssl /\
    holds (ssl_held ssl' ++ ssl_addr ssl :: rest) w0 w' /\
    match fr_session out with
    | Some s => rc = 0 /\ exists t, fetched_by host port insecure out t /\
        sess_refs (ssl_held ssl') (Some s) t w'
    | None => rc = 1 /\ fetch_failed host port insecure /\ sess_refs (ssl_held ssl') None [] w'
    end).
Proof.
  intros (Hheld & Happ & Hfd & Hv & Hcb & Hhc) Hin [j Hj] Hh. unfold fetch_handshake, fetch_failed.
  assert (sess_refs (ssl_held ssl) None [] w) as Hrefs by (rewrite Hheld; apply sess_refs_nil).
  apply returns_bind. eapply SSL_connect_spec; [done|set_solver| |].
  { intros HN. apply returns_ret. rewrite Hheld. split_and!; try done. split; [done|].
    split; [|apply sess_refs_nil]. naive_solver. }
  intros _. destruct (tls_connect (w_step w) (ssl_conf ssl)) eqn:Ec; cbn [negb].
  2: { apply returns_ret. rewrite Hheld. split_and!; [done|by apply holds_tick|].
       split; [done|]. split; [naive_solver|apply sess_refs_nil]. }
  apply returns_bind, returns_ask, returns_bind. eapply returns_mono.
  { eapply (pump_for_ticket_spec 4 ssl _ (ssl_addr ssl :: rest) w0); try done; rewrite Hheld.
    by do 2 apply holds_tick. }
  intros [ssl' out] w' (Ha & Hg & Hp & Hh' & Ht). apply returns_ret.
  cbn [tick w_step fr_group fr_is_pqc] in Hg, Hp, Ht.
  replace (S (S (w_step w))) with (w_step w + 2)%nat in Ht by lia.
  rewrite <- (Nat.add_1_r (w_step w)) in Hg, Hp. split_and!; try done.
  destruct (first_ticket 4 (w_step w + 2) (ssl_conf ssl)) as [t|] eqn:Et; destruct Ht as [Hs Hr].
  - destruct (fr_session out) as [s|]; [|done]. split; [done|]. exists t. split; [|done].
    exists j, (w_step w), (ssl_conf ssl). by split_and!.
  - rewrite Hs in *. split; [done|]. split; [|done]. do 4 right.
    exists (w_step w), (ssl_conf ssl). auto.
Qed.

Lemma session_fetch_spec (host port : list Z) (insecure : bool) (w : World) :
  (ssl_new_fails -> bad) -> heap_wf w ->
  returns_or bad (session_fetch host port insecure) w (fun '(rc, out) w' =>
    holds (option_list (fr_session out)) w w' /\
    match fr_session out with
    | Some s => rc = 0 /\ exists t, w_heap w' !! s = Some (1 :: t) /\
        fetched_by host port insecure out t
    | None => rc = 1 /\ fetch_failed host port insecure
    end).
Proof.
  intros Hbad Hwf. unfold session_fetch.
  apply returns_bind. eapply returns_mono; [by apply (make_ctx_spec insecure true []), holds_init|].
  intros [[ctx cfg]|] w1.
  2: { intros [Hh Hf]. apply returns_ret. unfold fetch_failed. split_and!; naive_solver. }
  intros [Hh1 ->]. apply returns_bind. eapply returns_mono; [by apply connect_tcp_spec|].
  intros [fd|] w2.
  2: { intros [Hh2 Hf]. apply returns_bind. eapply returns_release; [done..|]. intros w3 Hh3 _.
       apply returns_ret. unfold fetch_failed. split_and!; naive_solver. }
  intros [Hh2 Hj]. apply returns_bind. eapply returns_mono; [by apply (setup_ssl_spec fd true)|].
  intros ssl w3 [Hh3 Hready].
  apply returns_bind. eapply returns_mono; [eapply fetch_handshake_spec; [done|by left|done|done]|].
  intros [[rc ssl'] out] w4 (Ha & Hh4 & Hres). rewrite <- Ha in Hh4.
  destruct (fr_session out) as [s|] eqn:Es.
  - destruct Hres as [-> (t & Hf & Hr)]. eapply teardown_spec; [done..|]. intros w5 Hh5 Hs.
    rewrite Es. split; [done|]. split; [done|]. exists t. auto.
  - destruct Hres as (-> & Hf & Hr). eapply teardown_spec; [done..|]. intros w5 Hh5 Hs.
    rewrite Es. by split.
Qed.

(** The serialized session is a fresh block of the reported length. *)
Lemma session_to_der_spec (sess : nat) (n0 : Z) (d : list Z) (own : list nat) (w0 w : World) :
  TlsOk tls -> holds own w0 w -> w_heap w !! sess = Some (n0 :: d) ->
  returns_or bad (session_to_der sess) w (fun '(n, der) w' =>
    (forall k, k ∈ own -> w_heap w' !! k = w_heap w !! k) /\
    match der with
    | Some b => holds (b :: own) w0 w' /\ 0 < n < 2 ^ 31 /\
        w_heap w' !! b = Some (snd (tls_i2d d)) /\ n = Z.of_nat (length (snd (tls_i2d d)))
    | None => holds own w0 w' /\ n <= 0 /\
        (fst (tls_i2d d) <= 0 \/ exists k, env_alloc k = false)
    end).
Proof.
  intros Hok Hh Hd. unfold session_to_der. apply returns_bind.
  eapply returns_session_data; [done|]. pose proof (tls_i2d_len d) as Hlen.
  destruct (tls_i2d d) as [n bs]. simpl in *. case_if.
  { apply returns_ret. split; [done|]. split_and!; [done|lia|by left]. }
  destruct Hlen as [Hn Hb]; [lia|].
  pose proof (holds_next _ _ _ Hh) as Hnext.
  apply returns_bind, returns_malloc; intros Hal.
  2: { apply returns_ret. split; [done|]. split_and!; [by apply holds_tick|lia|eauto]. }
  apply returns_bind. eapply returns_store; simpl; [by rewrite lookup_insert_eq| |].
  { rewrite length_replicate. lia. }
  apply returns_ret. simpl. split.
  { intros k Hk. rewrite !lookup_insert_ne; set_solver. }
  split_and!; [|lia|done|by rewrite lookup_insert_eq|done].
  apply (holds_set _ _ (mkWorld _ _ _)); [by apply holds_add|set_solver].
Qed.

(** [SSL_set_session] takes its own reference or leaves the connection alone. *)
Lemma set_session_spec {A} (ssl : Ssl) (s : nat) (d : list Z) (rest : list nat) (w0 w : World)
    (k : Ssl -> M World A) (Q : A -> World -> Prop) :
  ssl_held ssl = [] -> holds (s :: rest) w0 w -> w_heap w !! s = Some (1 :: d) ->
  (forall ssl' w', ssl_addr ssl' = ssl_addr ssl -> ssl_fd ssl' = ssl_fd ssl ->
     holds (ssl_held ssl' ++ rest) w0 w' -> sess_refs (ssl_held ssl') None [] w' ->
     (ssl_conf ssl' = set_cfg_session (ssl_conf ssl) d \/
      (ssl_conf ssl' = ssl_conf ssl /\ exists j, tls_set_session j = false)) ->
     returns_or bad (k ssl') w' Q) ->
  returns_or bad (set_session ssl s ≫= fun ssl' => SSL_SESSION_free s ≫= fun _ => k ssl') w Q.
Proof.
  intros Hheld Hh Hs HQ. apply returns_bind. unfold set_session.
  apply returns_bind, returns_ask. destruct (tls_set_session (w_step w)) eqn:E.
  - apply returns_bind. eapply returns_up_ref; [by apply holds_tick|set_solver|done|].
    intros w1 Hh1 Hs1 _. apply returns_bind. eapply returns_session_data; [done|].
    apply returns_ret, returns_bind.
    eapply returns_unref; [done|set_solver|done|done|]. intros w2 Hh2 Hs2 _.
    apply HQ; simpl; rewrite ?Hheld; try done; [|by left].
    split; [|done]. constructor; [by exists d|done].
  - apply returns_ret, returns_bind.
    eapply (returns_last_unref _ rest); [by apply holds_tick|done|done|]. intros w1 Hh1 _.
    apply HQ; rewrite ?Hheld; try done. right. eauto.
Qed.

Lemma probe_handshake_spec (ssl : Ssl) (group_out : option nat) (own : list nat) (w0 w : World) :
  holds own w0 w -> (forall fd, ssl_fd ssl = Some fd -> fd ∈ own) ->
  returns_or bad (probe_handshake ssl group_out) w (fun '(rc, reused, group) w' =>
    holds own w0 w' /\ w_heap w' = w_heap w /\
    ((rc = 1 /\ reused = 0 /\ group = None) \/
     (rc = 0 /\ exists k, tls_connect k (ssl_conf ssl) = true /\
        reused = tls_reused (k + 1) (ssl_conf ssl) /\
        group = snprintf_opt group_out (group_or_q (tls_group_name (k + 2) (ssl_conf ssl)))))).
Proof.
  intros Hh Hin. unfold probe_handshake. apply returns_bind.
  eapply SSL_connect_spec; [done..| |].
  { intros _. apply returns_ret. split_and!; [done|done|by left]. }
  intros _. destruct (tls_connect (w_step w) (ssl_conf ssl)) eqn:Ec; cbn [negb].
  2: { apply returns_ret. split_and!; [by apply holds_tick|done|by left]. }
  apply returns_bind, returns_ask. cbn [tick w_step].
  assert (S (w_step w) = w_step w + 1)%nat as E1 by lia.
  assert (S (S (w_step w)) = w_step w + 2)%nat as E2 by lia.
  destruct group_out as [cap|]; [destruct (0 <? cap)%nat eqn:E|].
  1: apply returns_bind, returns_ask.
  all: apply returns_ret; split_and!; [by repeat apply holds_tick|done|]; right; split; [done|].
  all: exists (w_step w); rewrite <- E1; split_and!; try done; simpl; rewrite E; try done.
  by rewrite E2.
Qed.

(** What replaying a session reports. *)
Definition probe_post (host : list Z) (insecure : bool) (der : list Z) (group_out : option nat)
    : Z * Z * option (list Z) -> Prop :=
  fun '(rc, reused, group) =>
    (rc = 1 /\ reused = 0 /\ group = None) \/
    (rc = 0 /\ exists j k cfg d, tls_d2i j der = Some d /\ tls_connect k cfg = true /\
       (insecure = false -> cfg_verify_peer cfg = true) /\ host_checked host insecure cfg /\
       (cfg_session cfg = Some d \/ exists i, tls_set_session i = false) /\
       reused = tls_reused (k + 1) cfg /\
       group = snprintf_opt group_out (group_or_q (tls_group_name (k + 2) cfg))).

Lemma session_probe_resume_spec (host port : list Z) (insecure : bool) (der : list Z)
    (group_out : option nat) (w : World) :
  (ssl_new_fails -> bad) -> heap_wf w ->
  returns_or bad (session_probe_resume host port insecure der group_out) w (fun r w' =>
    w_heap w' = w_heap w /\ probe_post host insecure der group_out r).
Proof.
  intros Hbad Hwf. unfold session_probe_resume.
  assert (probe_post host insecure der group_out (1, 0, None)) as Hfail by by left.
  apply returns_bind. eapply returns_mono; [by apply (make_ctx_spec insecure false []), holds_init|].
  intros [[ctx cfg]|] w1.
  2: { intros [Hh _]. apply returns_ret. split; [by apply holds_nil|done]. }
  intros [Hh1 ->]. apply returns_bind. eapply returns_mono; [by apply connect_tcp_spec|].
  intros [fd|] w2.
  2: { intros [Hh2 _]. apply returns_bind. eapply returns_release; [done..|]. intros w3 Hh3 _.
       apply returns_ret. split; [by apply holds_nil|done]. }
  intros [Hh2 _]. apply returns_bind. eapply returns_mono; [by apply (setup_ssl_spec fd false)|].
  intros ssl w3 (Hh3 & Hheld & _ & Hfd & Hv & _ & Hhc).
  apply returns_bind, returns_ask.
  destruct (tls_d2i (w_step w3) der) as [d|] eqn:Ed.
  2: { eapply (teardown_spec ssl fd ctx None []); rewrite ?Hheld; [by apply holds_tick|by split|].
       intros w4 Hh4 _. split; [by apply holds_nil|done]. }
  apply returns_bind. eapply returns_obj_new; [by apply holds_tick|]. intros s w4 _ Hh4 Hs4 _.
  eapply set_session_spec; [done..|]. intros ssl' w5 Ha Hfd' Hh5 Hr Hconf.
  rewrite <- Ha in Hh5. apply returns_bind.
  eapply returns_mono; [eapply probe_handshake_spec; [done|rewrite Hfd'; set_solver]|].
  intros [[rc reused] group] w6 (Hh6 & Hsame & Hres).
  eapply (teardown_spec ssl' fd ctx None []); [done| |].
  { unfold sess_refs in *. by rewrite Hsame. }
  intros w7 Hh7 _. split; [by apply holds_nil|].
  destruct Hres as [?|[-> (k & Hc & -> & ->)]]; [by left|]. right. split; [done|].
  exists (w_step w3), k, (ssl_conf ssl'), d. destruct Hv as (_ & _ & _ & _ & _ & Hv).
  destruct Hconf as [E|[E Hj]]; rewrite E in *; split_and!; try done.
  all: first [by left|by right|intros Hi; by apply Hv].
Qed.

End Routines.
