(* ===== verification/AgentMain.v ===== *)
(** * AgentMain: the agent's command line (ticket-agent/main.c)

    The three subcommands over the components: [fetch] runs the session source
    once, [serve] builds the pool over the live source, pre-warms it and answers
    clients, [get] is the client.  What a command prints is a list of [report]s,
    one constructor per message of the source; whether a file can be created and
    how much can be written to it is a parameter.  [live_source_ok] shows that the
    live source keeps the contract the pool relies on ([SourceOkOr]), unless the
    library cannot create a connection object. *)

From stdpp Require Import base numbers list gmap strings.
From S2P Require Import Prelude Runtime Pool PoolOps Uds UdsLemmas SessionSource SessionLemmas.

Open Scope Z_scope.

(** ** Destinations *)

Definition colon : Z := 58.

(** [split_dest]: the host buffer and the port, or [None] for the return -1. *)
Definition split_dest (dest : list Z) (host_cap : Z) : option (list Z * list Z) :=
  match strrchr dest colon with
  | None => None
  | Some i =>
      let port := drop (S i) dest in
      if (i =? 0)%nat || match port with [] => true | _ => false end then None
      else
        let host_len := Z.of_nat i in
        if host_cap <? host_len + 1 then None
        else Some (take i dest, port)
  end.

(** [atoi] of C: leading white space, a sign, decimal digits.  A value that is
    not an [int] has no defined result. *)
Fixpoint digits (acc : Z) (s : list Z) : Z :=
  match s with
  | b :: t => if is_digit b then digits (10 * acc + (b - 48)) t else acc
  | [] => acc
  end.

Definition atoi (s : list Z) : option Z :=
  let v := match skip_ws s with
           | 45 :: t => - digits 0 t
           | 43 :: t => digits 0 t
           | t => digits 0 t
           end in
  if (- 2 ^ 31 <=? v) && (v <? 2 ^ 31) then Some v else None.

(** ** Messages and options *)

Inductive report :=
  | RUsage (argv0 : list Z)
  | RNoSession
  | RFetched (host port group : list Z) (pqc resumable : bool) (lifetime der_len : Z)
  | RWrote (path bytes : list Z)
  | RCannotWrite (path : list Z)
  | RPoolFailed
  | RPrewarm (dest : list Z) (got depth : Z)
  | RServing (sock : list Z)
  | RTransport (sock : list Z)
  | RMiss (dest : list Z)
  | RAgentError (dest : list Z)
  | RGot (dest group : list Z) (pqc : bool) (der_len : Z).

Definition opt_k : list Z := of_string "-k".
Definition opt_o : list Z := of_string "-o".
Definition opt_depth : list Z := of_string "--depth".
Definition word_fetch : list Z := of_string "fetch".
Definition word_serve : list Z := of_string "serve".
Definition word_get : list Z := of_string "get".

(** The option loop of [cmd_fetch]; [None] is the usage error. *)
Fixpoint fetch_opts (args : list (list Z)) (insecure : bool) (der_out : option (list Z))
    : option (bool * option (list Z)) :=
  match args with
  | [] => Some (insecure, der_out)
  | a :: rest =>
      if strcmp_eq a opt_k then fetch_opts rest true der_out
      else if strcmp_eq a opt_o then
        match rest with
        | path :: rest' => fetch_opts rest' insecure (Some path)
        | [] => None
        end
      else None
  end.

Definition DESTS_MAX : nat := 64.

Record serve_conf := mkServe {
  sv_insecure : bool;
  sv_depth : Z;
  sv_dests : list (list Z)
}.

(** The option loop of [cmd_serve]: [None] for undefined behaviour of [atoi],
    [Some None] for the usage error. *)
Fixpoint serve_opts (args : list (list Z)) (c : serve_conf) : option (option serve_conf) :=
  match args with
  | [] => Some (Some c)
  | a :: rest =>
      if strcmp_eq a opt_k then serve_opts rest (mkServe true (sv_depth c) (sv_dests c))
      else
        let other :=
          match a with
          | 45 :: _ => Some None
          | _ =>
              serve_opts rest
                (if (length (sv_dests c) <? DESTS_MAX)%nat
                 then mkServe (sv_insecure c) (sv_depth c) (sv_dests c ++ [a])
                 else c)
          end in
        if strcmp_eq a opt_depth then
          match rest with
          | v :: rest' =>
              match atoi v with
              | None => None
              | Some d => serve_opts rest' (mkServe (sv_insecure c) d (sv_dests c))
              end
          | [] => other
          end
        else other
  end.

Fixpoint get_opts (args : list (list Z)) (der_out : option (list Z))
    : option (option (list Z)) :=
  match args with
  | [] => Some der_out
  | a :: rest =>
      if strcmp_eq a opt_o then
        match rest with
        | path :: rest' => get_opts rest' (Some path)
        | [] => None
        end
      else None
  end.

(** ** The commands *)

Section Commands.
Context {env : Env} {tls : Tls}.

(** [fopen(path, "wb")]: how many bytes can then be written, or [None] when the
    file cannot be created; [SSL_SESSION_is_resumable]. *)
Variable fopen : list Z -> option nat.
Variable resumable : list Z -> bool.

(** [live_source]: the [Pool_source_fn] of the agent. *)
Definition live_source (insecure : bool) : Pool_source_fn := fun dest group_cap =>
  match split_dest dest 256 with
  | None => mret None
  | Some (host, port) =>
      '(rc, r) ← session_fetch host port insecure;
      if negb (rc =? 0) then mret None
      else
        s ← lift_option (fr_session r);
        '(n, der) ← session_to_der s;
        if n <=? 0 then _ ← SSL_SESSION_free s; mret None
        else
          d ← session_data s;
          let f := mkFetched der n (if fr_is_pqc r then 1 else 0)
                     (snprintf_s group_cap (fr_group r)) (s64 (tls_timeout d)) in
          _ ← SSL_SESSION_free s;
          mret (Some f)
  end.

(** [write_der]: [RWrote] has the bytes that reached the file; the code does not
    look at the result of [fwrite]. *)
Definition write_der (path : list Z) (der : option nat) (der_len : Z)
    : M World (list report) :=
  match fopen path with
  | None => mret [RCannotWrite path]
  | Some room =>
      f ← obj_new [];
      buf ← load der;
      bs ← mem_slice buf 0 (Z.to_nat der_len);
      _ ← free (Some f);
      mret [RWrote path (take room bs)]
  end.

(** The tail shared by [cmd_fetch] and [cmd_get]:
    [if (der_out != NULL && der_len > 0) write_der(...)]. *)
Definition maybe_write (der_out : option (list Z)) (der : option nat) (der_len : Z)
    : M World (list report) :=
  match der_out with
  | Some path => if 0 <? der_len then write_der path der der_len else mret []
  | None => mret []
  end.

Definition cmd_fetch (argv : list (list Z)) : M World (Z * list report) :=
  match argv with
  | argv0 :: _ :: host :: port :: opts =>
      match fetch_opts opts false None with
      | None => mret (2, [RUsage argv0])
      | Some (insecure, der_out) =>
          '(rc, result) ← session_fetch host port insecure;
          if negb (rc =? 0) then mret (1, [RNoSession])
          else
            s ← lift_option (fr_session result);
            d ← session_data s;
            '(der_len, der) ← session_to_der s;
            out ← maybe_write der_out der der_len;
            _ ← free der;
            _ ← SSL_SESSION_free s;
            mret (0, RFetched host port (fr_group result) (fr_is_pqc result) (resumable d)
                       (u64 (tls_timeout d)) der_len :: out)
      end
  | argv0 :: _ => mret (2, [RUsage argv0])
  | [] => ub
  end.

(** The pre-warm loop of [cmd_serve]. *)
Fixpoint prewarm (dests : list (list Z)) (depth : Z) (pool : Pool)
    : M World (list report * Pool) :=
  match dests with
  | [] => mret ([], pool)
  | d :: rest =>
      '(got, pool) ← pool_maintain pool d;
      '(out, pool) ← prewarm rest depth pool;
      mret (RPrewarm d got depth :: out, pool)
  end.

(** [cmd_serve]: the exit code ([None] while the agent still serves), the
    messages, the connections served, the pool if it is still there, and the
    listening socket if it got that far. *)
Definition cmd_serve (argv : list (list Z)) (le : listen_env) (evs : list accept_event)
    : M World (option Z * list report * list Conn * option Pool * option listener) :=
  match argv with
  | argv0 :: _ :: sock :: ((_ :: _) as args) =>
      o ← lift_option (serve_opts args (mkServe false 4 []));
      match o with
      | None => mret (Some 2, [RUsage argv0], [], None, None)
      | Some c =>
          match sv_dests c with
          | [] => mret (Some 2, [RUsage argv0], [], None, None)
          | dests =>
              p ← pool_new (live_source (sv_insecure c)) (sv_depth c);
              match p with
              | None => mret (Some 1, [RPoolFailed], [], None, None)
              | Some pool =>
                  '(out, pool) ← prewarm dests (sv_depth c) pool;
                  '(rc, cs, pool, l) ← uds_serve sock le evs pool;
                  match rc with
                  | None => mret (None, out ++ [RServing sock], cs, Some pool, Some l)
                  | Some rc =>
                      _ ← pool_free (Some pool);
                      mret (Some rc, out ++ [RServing sock], cs, None, Some l)
                  end
              end
          end
      end
  | argv0 :: _ => mret (Some 2, [RUsage argv0], [], None, None)
  | [] => ub
  end.

(** [cmd_get]: the exit code, the messages and the socket it used. *)
Definition cmd_get (argv : list (list Z)) (pr : peer) : M World (Z * list report * option Conn) :=
  match argv with
  | argv0 :: _ :: sock :: dest :: opts =>
      match get_opts opts None with
      | None => mret (2, [RUsage argv0], None)
      | Some der_out =>
          '(status, g, oc) ← uds_get sock dest pr (Some 64%nat);
          if status <? 0 then mret (1, [RTransport sock], oc)
          else if status =? UDS_STATUS_MISS then mret (1, [RMiss dest], oc)
          else if negb (status =? UDS_STATUS_OK) then mret (1, [RAgentError dest], oc)
          else
            (* the out-parameters keep their initial values unless set *)
            let der := g ≫= g_der in
            let der_len := from_option g_der_len 0 g in
            let is_pqc := from_option g_is_pqc 0 g in
            let group := from_option id [] (g ≫= g_group) in
            out ← maybe_write der_out der der_len;
            _ ← free der;
            mret (0, RGot dest group (negb (is_pqc =? 0)) der_len :: out, oc)
      end
  | argv0 :: _ => mret (2, [RUsage argv0], None)
  | [] => ub
  end.

(** What a run of the agent leaves: its exit code and the messages. *)
Definition main (argv : list (list Z)) (le : listen_env) (evs : list accept_event) (pr : peer)
    : M World (option Z * list report * list Conn * option Pool * option listener) :=
  match argv with
  | [] => ub
  | [argv0] => mret (Some 2, [RUsage argv0], [], None, None)
  | argv0 :: a :: _ =>
      if strcmp_eq a word_fetch then
        '(rc, out) ← cmd_fetch argv; mret (Some rc, out, [], None, None)
      else if strcmp_eq a word_serve then cmd_serve argv le evs
      else if strcmp_eq a word_get then
        '(rc, out, oc) ← cmd_get argv pr; mret (Some rc, out, option_list oc, None, None)
      else mret (Some 2, [RUsage argv0], [], None, None)
  end.

End Commands.

(** ** Specification vocabulary *)

(** The connection scripts carry bytes. *)
Definition script_ok (evs : list accept_event) : Prop :=
  Forall (fun e => match e with AConn c => conn_bytes_ok c = true | _ => True end) evs.

(** What the live source leaves: on success one fresh block with the encoding of
    the first ticket of a verified handshake; on failure nothing, and a reason. *)
Definition live_post {env : Env} {tls : Tls} (insecure : bool) (dest : list Z) (cap : nat)
    (w : World) (r : option Fetched) (w' : World) : Prop :=
  heap_wf w' /\ world_le w w' /\
  match r with
  | None => w_heap w' = w_heap w /\
      (split_dest dest 256 = None \/
       exists host port, split_dest dest 256 = Some (host, port) /\
         (fetch_failed host port insecure \/
          (exists out t, fetched_by host port insecure out t /\ fst (tls_i2d t) <= 0) \/
          exists k, env_alloc k = false))
  | Some f => exists host port out t l,
      split_dest dest 256 = Some (host, port) /\ fetched_by host port insecure out t /\
      f_der f = Some l /\ w_heap w !! l = None /\
      w_heap w' = <[l := snd (tls_i2d t)]> (w_heap w) /\
      f_der_len f = Z.of_nat (length (snd (tls_i2d t))) /\ 0 < f_der_len f < 2 ^ 31 /\
      f_group f = snprintf_s cap (fr_group out) /\
      f_is_pqc f = (if fr_is_pqc out then 1 else 0) /\
      f_lifetime f = s64 (tls_timeout t)
  end.

(** What a run of the agent leaves behind: nothing when it has ended, the pool and
    the listening socket when it still serves. *)
Definition agent_post (w : World)
    : option Z * list report * list Conn * option Pool * option listener -> World -> Prop :=
  fun '(rc, out, cs, p, l) w' =>
    Forall (fun c => c_open c = false) cs /\
    match rc, p with
    | Some rc, None => w_heap w' = w_heap w /\ (rc = 0 \/ rc = 1 \/ rc = 2) /\
        (forall ls, l = Some ls -> ls_open ls = false)
    | None, Some p => pool_inv p w' /\ owns_step [] (pool_blocks p) (w_heap w) (w_heap w')
    | _, _ => False
    end.

(** A number on the command line that is not an [int]. *)
Definition bad_number (argv : list (list Z)) : Prop := exists v, v ∈ argv /\ atoi v = None.

(** ** Lemmas *)

(** [split_dest] inverts [host ++ ":" ++ port]. *)
Lemma split_dest_spec (dest host port : list Z) (cap : Z) :
  split_dest dest cap = Some (host, port) <->
  dest = host ++ colon :: port /\ host <> [] /\ port <> [] /\ colon ∉ port /\
  strlen host + 1 <= cap.
Proof.
  unfold split_dest, strlen. split.
  - destruct (strrchr dest colon) as [i|] eqn:E; [|done].
    apply strrchr_split in E as (t & u & -> & <- & Hu).
    rewrite take_app_length, <- (Nat.add_1_r (length t)), drop_app_add. simpl.
    destruct t as [|b t]; [done|]. destruct u as [|b' u]; [done|]. cbn [orb Nat.eqb length drop].
    case_if; [done|]. intros [= <- <-]. by split_and!.
  - intros (-> & Hh & Hp & Hc & Hl). rewrite strrchr_app by done.
    rewrite take_app_length, <- (Nat.add_1_r (length host)), drop_app_add. simpl.
    destruct host as [|b host]; [done|]. destruct port as [|b' port]; [done|].
    cbn [orb Nat.eqb length drop] in *. case_if; [lia|done].
Qed.

Section Commands.
Context {env : Env} {tls : Tls} (Htls : TlsOk tls) {bad : Prop} (Hbad : ssl_new_fails -> bad).
Implicit Types w : World.

(** What the live source returns: a session of a verified handshake with the
    host the destination names, or the reason there is none. *)
Lemma live_source_spec (insecure : bool) (dest : list Z) (cap : nat) w :
  heap_wf w -> (0 < cap)%nat ->
  returns_or bad (live_source insecure dest cap) w (live_post insecure dest cap w).
Proof.
  intros Hwf Hcap. unfold live_source, live_post.
  destruct (split_dest dest 256) as [[host port]|].
  2: { apply returns_ret. auto with tc. }
  apply returns_bind. eapply returns_mono; [by apply session_fetch_spec|].
  intros [rc out] w1 [Hh Hres]. destruct (fr_session out) as [s|] eqn:Es; simpl in Hh.
  2: { destruct Hres as [-> Hf]. apply returns_ret. split_and!; [by eauto with tc..| |].
       - by apply holds_nil.
       - right. exists host, port. auto. }
  destruct Hres as (-> & t & Hs & Hfb). cbn [Z.eqb negb].
  apply returns_bind. eapply returns_lift; [done|].
  apply returns_bind. eapply returns_mono; [by eapply session_to_der_spec|].
  intros [n [b|]] w2 [Hsame H].
  - destruct H as (Hh2 & [Hn0 Hn] & Hb & Hl). destruct (n <=? 0) eqn:E; bool_prop; [lia|].
    assert (w_heap w2 !! s = Some (1 :: t)) as Hs2 by (rewrite Hsame; [done|set_solver]).
    apply returns_bind. eapply returns_session_data; [done|]. apply returns_bind.
    eapply (returns_last_unref _ [b]); [done|by rewrite Permutation_swap|done|].
    intros w3 Hh3 Hsame3. apply returns_ret.
    assert (w_heap w3 !! b = Some (snd (tls_i2d t))) as Hb3 by (rewrite Hsame3; [done|set_solver]).
    destruct (holds_one _ _ _ _ Hh3 Hb3) as [Hheap Hfree].
    split_and!; [by eauto with tc..|]. exists host, port, out, t, b. simpl. by split_and!.
  - destruct H as (Hh2 & Hn & Hc). destruct (n <=? 0) eqn:E; bool_prop; [|lia].
    apply returns_bind. eapply (returns_last_unref _ []); [done|done| |].
    { rewrite Hsame; [done|set_solver]. }
    intros w3 Hh3 _. apply returns_ret. split_and!; [by eauto with tc..|by apply holds_nil|].
    right. exists host, port. split; [done|]. right. destruct Hc; eauto.
Qed.

(** The group name a handshake reports is a string that fits. *)
Lemma fetched_group_no_nul (host port : list Z) (insecure : bool) (out : Fetch_result) (t : list Z) :
  fetched_by host port insecure out t -> no_nul (fr_group out) = true.
Proof.
  intros (j & k & cfg & _ & _ & _ & _ & _ & -> & _). apply snprintf_s_no_nul.
  unfold group_or_q. destruct (tls_group_name _ _); [apply cstr_no_nul|done].
Qed.

(** So the live source keeps the contract of the pool. *)
#[export] Instance live_source_ok (insecure : bool) : SourceOkOr bad (live_source insecure).
Proof.
  intros dest cap w Hwf Hcap.
  eapply returns_mono; [by apply live_source_spec|]. intros [f|] w' (Hwf' & Hle & H).
  - destruct H as (host & port & out & t & l & _ & Hf & Hd & Hfr & Hh & Hl & [H0 Hb] & Hg & _ & Hlt).
    split_and!; [done..|]. exists l, (snd (tls_i2d t)).
    split_and!; try done; rewrite ?Hg; [by apply snprintf_s_length|..].
    + by eapply snprintf_s_no_nul, fetched_group_no_nul.
    + pose proof (tls_timeout_ok t). rewrite Hlt, wrapS_small by lia. lia.
  - by destruct H.
Qed.

(** [der_out] is written from the buffer, if there is anything to write, and the
    file is closed again. *)
Lemma maybe_write_spec (fopen : list Z -> option nat) (der_out : option (list Z))
    (der : option nat) (n : Z) w :
  heap_wf w ->
  (0 < n -> exists b bs, der = Some b /\ w_heap w !! b = Some bs /\ n <= Z.of_nat (length bs)) ->
  returns_or bad (maybe_write fopen der_out der n) w (fun out w' =>
    heap_wf w' /\ world_le w w' /\ w_heap w' = w_heap w /\
    (forall b bs path room, der = Some b -> w_heap w !! b = Some bs -> der_out = Some path ->
       0 < n -> fopen path = Some room -> out = [RWrote path (take room (take (Z.to_nat n) bs))])).
Proof.
  intros Hwf Hn. unfold maybe_write. destruct der_out as [path|].
  2: { apply returns_ret. split_and!; auto with tc. done. }
  case_if; bool_prop; [|by apply returns_ret; split_and!; auto with tc; intros; lia].
  destruct Hn as (b & bs & -> & Hb & Hlen); [done|]. unfold write_der.
  destruct (fopen path) as [room|] eqn:Ef.
  2: { apply returns_ret. split_and!; auto with tc. intros b' bs' path' room' _ _ [= <-]. congruence. }
  apply returns_bind. eapply returns_obj_new; [by apply holds_init|]. intros f w1 _ Hh1 Hf1 _.
  destruct (holds_one _ _ _ _ Hh1 Hf1) as [Hw1 Hfr].
  apply returns_bind. eapply returns_load.
  { rewrite Hw1, lookup_insert_ne; [exact Hb|]. intros <-. congruence. }
  unfold mem_slice. rewrite Nat.add_0_l, drop_0.
  rewrite (proj2 (Nat.leb_le _ _)) by lia. apply returns_bind, returns_ret, returns_bind.
  eapply returns_release; [done..|]. intros w2 Hh2 _. apply returns_ret.
  split_and!; [by eauto with tc..|by apply holds_nil|].
  intros b' bs' path' room' [= <-] Hb' [= <-] _. congruence.
Qed.

Lemma cmd_fetch_spec (fopen : list Z -> option nat) (resumable : list Z -> bool)
    (argv : list (list Z)) w :
  heap_wf w -> argv <> [] ->
  returns_or bad (cmd_fetch fopen resumable argv) w (fun '(rc, out) w' =>
    w_heap w' = w_heap w /\ (rc = 0 \/ rc = 1 \/ rc = 2)).
Proof.
  intros Hwf Hne. unfold cmd_fetch.
  destruct argv as [|a0 [|a1 [|host [|port opts]]]]; [done|by apply returns_ret; auto..|].
  destruct (fetch_opts opts false None) as [[insecure der_out]|]; [|by apply returns_ret; auto].
  apply returns_bind. eapply returns_mono; [by apply session_fetch_spec|].
  intros [rc out] w1 [Hh Hres]. destruct (fr_session out) as [s|] eqn:Es; simpl in Hh.
  2: { destruct Hres as [-> _]. apply returns_ret. split; [by apply holds_nil|auto]. }
  destruct Hres as (-> & t & Hs & _). cbn [Z.eqb negb].
  apply returns_bind. eapply returns_lift; [done|].
  apply returns_bind. eapply returns_session_data; [done|].
  apply returns_bind. eapply returns_mono; [by eapply session_to_der_spec|].
  intros [n der] w2 [Hsame Hd].
  assert (w_heap w2 !! s = Some (1 :: t)) as Hs2 by (rewrite Hsame by set_solver; done).
  assert (heap_wf w2) as Hwf2 by (destruct der; destruct Hd as (H & _); eauto with tc).
  apply returns_bind. eapply returns_mono.
  { apply maybe_write_spec; [done|]. intros Hn. destruct der as [b|]; [|lia].
    destruct Hd as (_ & _ & Hb & Hl). do 2 eexists. split_and!; [done..|lia]. }
  intros rep w3 (Hwf3 & Hle3 & Hw3 & _). rewrite <- Hw3 in Hs2. apply returns_bind.
  destruct der as [b|].
  - destruct Hd as (Hh2 & _). eapply holds_same in Hh2; [|done..].
    eapply (returns_release _ [s]); [done..|]. intros w4 Hh4 Hsame4.
    apply returns_bind. eapply (returns_last_unref _ []); [done..| |].
    { by rewrite Hsame4 by set_solver. }
    intros w5 Hh5 _. apply returns_ret. split; [by apply holds_nil|auto].
  - destruct Hd as (Hh2 & _). eapply holds_same in Hh2; [|done..].
    apply returns_free_null, returns_bind. eapply (returns_last_unref _ []); [done..|].
    intros w5 Hh5 _. apply returns_ret. split; [by apply holds_nil|auto].
Qed.

Lemma prewarm_spec (dests : list (list Z)) (depth : Z) (p : Pool) w :
  SourceOkOr bad (p_src p) -> pool_inv p w ->
  returns_or bad (prewarm dests depth p) w (fun '(out, p') w' =>
    pool_step [] p p' w w' /\ length out = length dests).
Proof.
  revert p w. induction dests as [|d dests IH]; intros p w Hsrc Hinv; simpl.
  { apply returns_ret. split; [|done]. apply pool_step_refl; auto with tc. by destruct Hinv. }
  apply returns_bind. eapply returns_mono; [by apply pool_maintain_spec|].
  intros [got p1] w1 (Hst & _). pose proof Hst as (Hinv1 & _ & Hsrc1 & _).
  apply returns_bind. eapply returns_mono; [apply IH; [by rewrite Hsrc1|done]|].
  intros [out p2] w2 [Hst2 Hlen]. apply returns_ret. split; [by eapply pool_step_trans|].
  simpl. by rewrite Hlen.
Qed.

Lemma owns_step_nil (h h' : gmap nat (list Z)) : owns_step [] [] h h' -> h' = h.
Proof.
  intros [H _]. apply map_eq. intros l. rewrite H by set_solver.
  by rewrite decide_False by set_solver.
Qed.

(** The only number is the depth. *)
Lemma serve_opts_bad (args : list (list Z)) (c : serve_conf) :
  serve_opts args c = None -> bad_number args.
Proof.
  assert (forall n args c, (length args <= n)%nat -> serve_opts args c = None -> bad_number args)
    as H; [|by apply (H (length args))].
  intros n. induction n as [|n IH]; intros [|a rest] c' Hl; simpl in *; try done; [lia|].
  assert (forall c, serve_opts rest c = None -> bad_number (a :: rest)) as Hrest.
  { intros c1 H1. destruct (IH rest c1) as (v & Hv & Hn); [lia|done|]. exists v. set_solver. }
  case_match; [apply Hrest|]. set (other := match a with [] => _ | _ => _ end).
  assert (other = None -> bad_number (a :: rest)) as Hother.
  { unfold other. repeat case_match; try apply Hrest; done. }
  clearbody other. case_match; [|done]. destruct rest as [|v rest]; [done|].
  destruct (atoi v) as [d|] eqn:Ev.
  - intros H1. destruct (IH rest (mkServe (sv_insecure c') d (sv_dests c'))) as (x & Hx & Hn).
    + simpl in Hl. lia.
    + done.
    + exists x. set_solver.
  - intros _. exists v. set_solver.
Qed.

Lemma cmd_serve_spec (argv : list (list Z)) (le : listen_env) (evs : list accept_event) w :
  (bad_number argv -> bad) -> heap_wf w -> argv <> [] -> script_ok evs ->
  returns_or bad (cmd_serve argv le evs) w (agent_post w).
Proof.
  intros Hnum Hwf Hne Hev. unfold cmd_serve, agent_post.
  destruct argv as [|a0 [|a1 [|sock [|a3 args]]]]; [done|apply returns_ret; naive_solver..|].
  apply returns_bind, returns_lift_or.
  { intros Ho. apply Hnum. destruct (serve_opts_bad _ _ Ho) as (v & Hv & Hn). exists v. set_solver. }
  intros [[insecure depth dests]|] _; [|apply returns_ret; naive_solver].
  cbn [sv_dests sv_insecure sv_depth].
  destruct dests as [|d dests]; [apply returns_ret; naive_solver|].
  apply returns_bind. eapply returns_mono; [by apply pool_new_spec|].
  intros [p|] w1; [|intros [Hh _]; apply returns_ret; naive_solver].
  intros (Hinv & Hsrc & _ & _ & Ho1).
  assert (SourceOkOr bad (p_src p)) as Hok by (rewrite Hsrc; apply live_source_ok).
  apply returns_bind. eapply returns_mono; [by apply prewarm_spec|].
  intros [out p2] w2 [(Hinv2 & _ & Hsrc2 & _ & _ & Ho2) _]. rewrite app_nil_l in Ho2.
  apply returns_bind. eapply returns_mono; [apply uds_serve_spec; rewrite ?Hsrc2; done|].
  intros [[[rc cs] p3] l] w3 Hserve.
  destruct (serve_post_step _ _ _ _ _ _ _ _ _ _ Hinv2 Hserve)
    as ((Hinv3 & _ & _ & _ & _ & Ho3) & Hcs & Hl & Hrc). rewrite app_nil_l in Ho3.
  assert (owns_step [] (pool_blocks p3) (w_heap w) (w_heap w3)) as Hall
    by eauto using owns_step_trans.
  destruct rc as [rc|]; [|by apply returns_ret].
  apply returns_bind. eapply returns_mono; [by apply pool_free_spec|].
  intros [] w4 Ho4. apply returns_ret. split; [done|]. split; [|naive_solver].
  apply owns_step_nil. eauto using owns_step_trans.
Qed.

Lemma cmd_get_spec (fopen : list Z -> option nat) (argv : list (list Z)) (pr : peer) w :
  heap_wf w -> argv <> [] -> conn_bytes_ok (pr_conn pr) = true ->
  returns_or bad (cmd_get fopen argv pr) w (fun '(rc, out, oc) w' =>
    w_heap w' = w_heap w /\ (rc = 0 \/ rc = 1 \/ rc = 2) /\
    (forall c, oc = Some c -> c_open c = false)).
Proof.
  intros Hwf Hne Hb. unfold cmd_get.
  destruct argv as [|a0 [|a1 [|sock [|dest opts]]]]; [done|apply returns_ret; naive_solver..|].
  destruct (get_opts opts None) as [der_out|]; [|apply returns_ret; naive_solver].
  apply returns_bind. eapply returns_mono; [by apply uds_get_safe|].
  intros [[st g] oc] w1 [(Hwf1 & _ & Hg) [Hoc _]]. destruct g as [g|].
  - destruct Hg as (-> & l & bs & Hd & Hfr & Hh & Hr & Hlen). cbn. rewrite Hd.
    apply returns_bind. eapply returns_mono.
    { apply maybe_write_spec; [done|]. intros Hn. exists l, bs. rewrite Hh, lookup_insert_eq.
      split_and!; [done..|lia]. }
    intros out w2 (_ & _ & Hw2 & _). apply returns_bind, returns_free.
    { rewrite Hw2, Hh, lookup_insert_eq. eauto. }
    apply returns_ret. cbn [w_heap]. rewrite Hw2, Hh, delete_insert_id by done. auto.
  - destruct Hg as [Hst Hh]. do 3 (case_if; [apply returns_ret; auto|]). done.
Qed.

(** Every command line: nothing left behind, and no undefined behaviour for any
    reason but the ones [bad] covers. *)
Lemma main_spec (fopen : list Z -> option nat) (resumable : list Z -> bool)
    (argv : list (list Z)) (le : listen_env) (evs : list accept_event) (pr : peer) w :
  (bad_number argv -> bad) -> heap_wf w -> argv <> [] -> script_ok evs ->
  conn_bytes_ok (pr_conn pr) = true ->
  returns_or bad (main fopen resumable argv le evs pr) w (agent_post w).
Proof.
  intros Hnum Hwf Hne Hev Hb. unfold main.
  destruct argv as [|a0 [|a args]]; [done|apply returns_ret; split; naive_solver|].
  case_if; [|case_if; [by apply cmd_serve_spec|case_if; [|apply returns_ret; split; naive_solver]]].
  - apply returns_bind. eapply returns_mono; [by apply cmd_fetch_spec|].
    intros [rc out] w' H. apply returns_ret. split; naive_solver.
  - apply returns_bind. eapply returns_mono; [by apply cmd_get_spec|].
    intros [[rc out] oc] w' (? & ? & Hoc). apply returns_ret.
    split; [destruct oc; by repeat constructor; auto|naive_solver].
Qed.

End Commands.
