(* ===== verification/AgentProps.v ===== *)
(** * AgentProps: the properties of the session source and the agent

    The theorems about ticket-agent/session_source.c and ticket-agent/main.c
    with their witnesses, on a concrete TLS library that issues two tickets. *)

From stdpp Require Import base numbers list gmap strings.
From S2P Require Import Prelude Runtime Pool PoolOps PoolProps Uds UdsLemmas UdsProps.
From S2P Require Import SessionSource SessionLemmas AgentMain.

Open Scope Z_scope.

(** ** A concrete library *)

(** The first address refuses the connection, the second accepts it; the server
    negotiates the hybrid group and sends two tickets with the first read.  A
    session is encoded as its data. *)
Definition demo_tls : Tls := {|
  tls_ctx_new := fun _ => true;
  tls_set_groups := fun _ _ => true;
  tls_ssl_new := fun _ => true;
  tls_set_fd := fun _ => true;
  tls_set1_host := fun _ _ => true;
  tls_getaddrinfo := fun _ _ _ => Some [(true, false); (true, true)];
  tls_connect := fun _ cfg => cfg_verify_peer cfg;
  tls_group_name := fun _ _ => Some (of_string "X25519MLKEM768");
  tls_read := fun _ _ => ([of_string "TICKET-A"; of_string "TICKET-B"], ReadWant);
  tls_i2d := fun d => if Z.of_nat (length d) <? 65536 then (Z.of_nat (length d), d) else (-1, []);
  tls_d2i := fun _ der => Some der;
  tls_set_session := fun _ => true;
  tls_timeout := fun _ => 7200;
  tls_reused := fun _ cfg => match cfg_session cfg with Some _ => 1 | None => 0 end
|}.

Definition demo_host : list Z := of_string "example.org".
Definition demo_port : list Z := of_string "443".
Definition demo_argv : list (list Z) :=
  [of_string "ticket-agent"; of_string "serve"; demo_path; of_string "example.org:443";
   of_string "--depth"; of_string "2"].

Lemma demo_tls_ok : TlsOk demo_tls.
Proof.
  split; [|intros d; simpl; lia].
  intros d. cbn [demo_tls tls_i2d]. case_if; bool_prop; cbn [fst snd]; lia.
Qed.

(** ** Theorems *)



(** The example fetch does capture a session: the first ticket, with one
    reference. *)
Example session_fetch_demo :
  ('(r, w') ← session_fetch (tls := demo_tls) demo_host demo_port false demo_world;
   s ← fr_session (snd r); Some (fst r, fr_is_pqc (snd r), w_heap w' !! s))
  = Some (0, true, Some (1 :: of_string "TICKET-A")).
Proof. vm_compute. reflexivity. Qed.

(** Nothing else can go wrong than what the theorem names: when [SSL_new] fails,
    the code uses the null pointer. *)
Definition null_tls : Tls := {|
  tls_ctx_new := fun _ => true;
  tls_set_groups := fun _ _ => true;
  tls_ssl_new := fun _ => false;
  tls_set_fd := fun _ => true;
  tls_set1_host := fun _ _ => true;
  tls_getaddrinfo := fun _ _ _ => Some [(true, true)];
  tls_connect := fun _ _ => true;
  tls_group_name := fun _ _ => None;
  tls_read := fun _ _ => ([], ReadOther);
  tls_i2d := fun _ => (0, []);
  tls_d2i := fun _ _ => None;
  tls_set_session := fun _ => true;
  tls_timeout := fun _ => 0;
  tls_reused := fun _ _ => 0
|}.

Example session_fetch_null_connection :
  session_fetch (tls := null_tls) demo_host demo_port false demo_world = None.
Proof. vm_compute. reflexivity. Qed.

(** C14. Replaying a session leaks nothing, success included: the parsed session,
    the connection, the descriptor and the context are all released on every path
    but the null pointer of a failed [SSL_new], which the code does not check.  It
    returns 0 only when the bytes parsed and a handshake with peer verification
    (unless switched off) completed, with the parsed session installed unless
    [SSL_set_session] refused it, and then reports what the library said about
    resumption; any failure returns 1 with [*reused] zero. *)
Theorem session_probe_no_leak {tls : Tls} (host port : list Z) (insecure : bool)
    (der : list Z) (group_out : option nat) (w : World) :
  heap_wf w ->
  returns_or ssl_new_fails (session_probe_resume host port insecure der group_out) w
    (fun '(rc, reused, group) w' =>
       w_heap w' = w_heap w /\
       ((rc = 1 /\ reused = 0 /\ group = None) \/
        (rc = 0 /\ exists j k cfg d, tls_d2i j der = Some d /\ tls_connect k cfg = true /\
           (insecure = false -> cfg_verify_peer cfg = true) /\ host_checked host insecure cfg /\
           (cfg_session cfg = Some d \/ exists i, tls_set_session i = false) /\
           reused = tls_reused (k + 1) cfg /\
           group = snprintf_opt group_out (group_or_q (tls_group_name (k + 2) cfg))))).
Proof.
  intros Hwf. eapply returns_mono; [by apply session_probe_resume_spec|].
  by intros [[rc reused] group] w'.
Qed.

Lemma session_probe_no_leak_witness :
  returns_or (ssl_new_fails (tls := demo_tls))
    (session_probe_resume (tls := demo_tls) demo_host demo_port false [48; 0] (Some 16%nat))
    demo_world
    (fun '(rc, reused, group) w' =>
       w_heap w' = w_heap demo_world /\
       ((rc = 1 /\ reused = 0 /\ group = None) \/
        (rc = 0 /\ exists j k cfg d, @tls_d2i demo_tls j [48; 0] = Some d /\
           @tls_connect demo_tls k cfg = true /\
           (false = false -> cfg_verify_peer cfg = true) /\
           host_checked (tls := demo_tls) demo_host false cfg /\
           (cfg_session cfg = Some d \/ exists i, @tls_set_session demo_tls i = false) /\
           reused = @tls_reused demo_tls (k + 1) cfg /\
           group = snprintf_opt (Some 16%nat)
                     (group_or_q (@tls_group_name demo_tls (k + 2) cfg))))).
Proof.
  apply (@session_probe_no_leak demo_tls demo_host demo_port false [48; 0]
           (Some 16%nat) demo_world).
  exact demo_heap_wf.
Defined.



(** C16. [split_dest] is exactly the inverse of writing [host:port] with the
    last colon as the separator: it succeeds with a non-empty host that fits the
    buffer and a non-empty port without a colon, and in no other case. *)
Theorem split_dest_exact (dest host port : list Z) (cap : Z) :
  split_dest dest cap = Some (host, port) <->
  dest = host ++ colon :: port /\ host <> [] /\ port <> [] /\ colon ∉ port /\
  strlen host + 1 <= cap.
Proof. apply split_dest_spec. Qed.

(** C17. The whole agent, for every command line and whatever the TLS library,
    the clients, the other end of the socket and the allocator do: every client
    connection closed, and an exit code of 0, 1 or 2 with every resource released
    and the listening socket closed, or an agent that is still serving and owns
    exactly the blocks of a well-formed pool.  There is no undefined behaviour for
    any reason but two, which the code does not guard against: a failed [SSL_new],
    and an argument of [atoi] that is not an [int]. *)
Theorem agent_main_safe {env : Env} {tls : Tls} (fopen : list Z -> option nat)
    (resumable : list Z -> bool) (argv : list (list Z)) (le : listen_env)
    (evs : list accept_event) (pr : peer) (w : World) :
  TlsOk tls -> heap_wf w -> argv <> [] -> script_ok evs -> conn_bytes_ok (pr_conn pr) = true ->
  returns_or (ssl_new_fails \/ bad_number argv) (main fopen resumable argv le evs pr) w
    (fun '(rc, out, cs, p, l) w' =>
      Forall (fun c => c_open c = false) cs /\
      match rc, p with
      | Some rc, None => w_heap w' = w_heap w /\ (rc = 0 \/ rc = 1 \/ rc = 2) /\
          (forall ls, l = Some ls -> ls_open ls = false)
      | None, Some p => pool_inv p w' /\ owns_step [] (pool_blocks p) (w_heap w) (w_heap w')
      | _, _ => False
      end).
Proof.
  intros Hok Hwf Hne Hev Hb. eapply returns_mono; [apply main_spec; by auto|].
  by intros [[[[rc out] cs] p] l] w'.
Qed.

Lemma agent_main_safe_witness :
  returns_or (ssl_new_fails (tls := demo_tls) \/ bad_number demo_argv)
    (main (env := demo_env) (tls := demo_tls) (fun _ => Some 4096%nat) (fun _ => true) demo_argv
       demo_listen demo_accepts (demo_peer [])) demo_world
    (fun '(rc, out, cs, p, l) w' =>
      Forall (fun c => c_open c = false) cs /\
      match rc, p with
      | Some rc, None => w_heap w' = w_heap demo_world /\ (rc = 0 \/ rc = 1 \/ rc = 2) /\
          (forall ls, l = Some ls -> ls_open ls = false)
      | None, Some p => pool_inv p w' /\
          owns_step [] (pool_blocks p) (w_heap demo_world) (w_heap w')
      | _, _ => False
      end).
Proof.
  apply (@agent_main_safe demo_env demo_tls (fun _ => Some 4096%nat) (fun _ => true) demo_argv
           demo_listen demo_accepts (demo_peer []) demo_world).
  - exact demo_tls_ok.
  - exact demo_heap_wf.
  - done.
  - repeat constructor.
  - reflexivity.
Defined.

(** C18. The [get] command stores what the agent serves: answered with the frame
    of a session, [get <sock> <dest> -o <path>] exits with 0, reports the group,
    the provenance and the length, writes the session's bytes to the file (as many
    as there is room for: all of them unless the disk is full, which the code does
    not notice), and releases its buffer and the socket. *)
Theorem cmd_get_stores_session {env : Env} (fopen : list Z -> option nat) (room : nat)
    (argv0 argv1 sock dest path : list Z) (pr : peer) (s : session) (w : World) :
  heap_wf w -> env_alloc (w_step w) = true -> can_ask sock dest pr = true ->
  0 < Z.of_nat (length (s_der s)) < 2 ^ 31 -> (length (s_group s) < GROUP_MAX)%nat ->
  no_nul (s_group s) = true -> fopen path = Some room ->
  delivered (c_in (pr_conn pr)) = response_frame s ->
  returns (cmd_get fopen [argv0; argv1; sock; dest; opt_o; path] pr) w (fun '(rc, out, oc) w' =>
    rc = 0 /\ w_heap w' = w_heap w /\ (exists c, oc = Some c /\ c_open c = false) /\
    out = [RGot dest (s_group s) (negb (s_is_pqc s =? 0)) (Z.of_nat (length (s_der s)));
           RWrote path (take room (s_der s))] /\
    ((length (s_der s) <= room)%nat -> take room (s_der s) = s_der s)).
Proof.
  intros Hwf Ha Hask Hlen Hgl Hgn Hfo Hdel. unfold cmd_get.
  cbn [get_opts]. rewrite strcmp_eq_refl.
  apply returns_bind. eapply returns_mono; [by apply uds_get_decodes|].
  intros [[st g] oc] w1 (-> & Hwf1 & (c2 & -> & Hc2 & _) & l & -> & Hfr & Hh). cbn -[maybe_write Z.of_nat].
  assert (w_heap w1 !! l = Some (s_der s)) as Hl by (rewrite Hh; apply lookup_insert_eq).
  apply returns_bind. eapply returns_mono.
  { apply maybe_write_spec; [done|]. intros _. exists l, (s_der s). split_and!; [done..|lia]. }
  intros out w2 (_ & _ & Hw2 & Hout).
  rewrite (Hout l (s_der s) path room), Nat2Z.id, (take_ge (s_der s) (length (s_der s)));
    try done; try lia.
  apply returns_bind, returns_free; [by rewrite Hw2; eauto|]. apply returns_ret. cbn [w_heap].
  rewrite Hw2, Hh, delete_insert_id by done. split_and!; try done.
  - by eauto.
  - by destruct (s_is_pqc s =? 0).
  - intros. by apply take_ge.
Qed.

Lemma cmd_get_stores_session_witness :
  returns (cmd_get (env := demo_env) (fun _ => Some 4096%nat)
             [of_string "ticket-agent"; of_string "get"; demo_path; demo_dest; opt_o;
              of_string "out.der"] (demo_peer demo_answer)) demo_world (fun '(rc, out, oc) w' =>
    rc = 0 /\ w_heap w' = w_heap demo_world /\ (exists c, oc = Some c /\ c_open c = false) /\
    out = [RGot demo_dest (s_group demo_session) (negb (s_is_pqc demo_session =? 0))
             (Z.of_nat (length (s_der demo_session)));
           RWrote (of_string "out.der") (take 4096 (s_der demo_session))] /\
    ((length (s_der demo_session) <= 4096)%nat ->
     take 4096 (s_der demo_session) = s_der demo_session)).
Proof.
  apply (@cmd_get_stores_session demo_env (fun _ => Some 4096%nat) 4096 (of_string "ticket-agent")
           (of_string "get") demo_path demo_dest (of_string "out.der") (demo_peer demo_answer)
           demo_session demo_world).
  - exact demo_heap_wf.
  - reflexivity.
  - reflexivity.
  - vm_compute. split; reflexivity.
  - apply (bool_decide_unpack _). vm_compute. exact I.
  - reflexivity.
  - reflexivity.
  - reflexivity.
Defined.
