(* ===== verification/LoopClient.v ===== *)
(** * LoopClient: the demonstration client (demo/loop_client.c)

    A TLS client that knows nothing of the agent or the injector: it connects in a
    loop and reports whether each handshake was a full one or a resumption.  It
    runs over the same library parameters as the session source ([Tls]).  What
    happens to the process from outside between the entry of [SSL_connect] and its
    handshake, where the injector works, is the parameter [touched]: the session
    that is installed in the connection, if any. *)

From stdpp Require Import base numbers list gmap strings.
From S2P Require Import Prelude Runtime PoolProps SessionSource SessionLemmas AgentMain AgentProps.

Open Scope Z_scope.

(** ** Data *)

Inductive client_report :=
  | LUsage (argv0 : list Z)
  | LStart (host port : list Z) (count : Z)
  | LConnectFailed (i : Z)
  | LHandshakeFailed (i : Z)
  | LConnected (i : Z) (resumed : bool) (group : list Z).

Section Client.
Context {tls : Tls}.

(** The session installed from outside in connection [i]. *)
Variable touched : Z -> option (list Z).

(** The loop of [connect_tcp] over the addresses: [fd] is open or -1 in each
    iteration, and -1 again after a failed [connect]. *)
Fixpoint loop_addrs (ais : list (bool * bool)) : M World (option nat) :=
  match ais with
  | [] => mret None
  | (socket_ok, connect_ok) :: rest =>
      fd ← (if (socket_ok : bool) then fd ← obj_new []; mret (Some fd) else mret None);
      match fd, (connect_ok : bool) with
      | Some fd, true => mret (Some fd)
      | Some fd, false => _ ← free (Some fd); loop_addrs rest
      | None, _ => loop_addrs rest
      end
  end.

Definition client_connect_tcp (host port : list Z) : M World (option nat) :=
  r ← ask (fun k => tls_getaddrinfo k host port);
  match r with
  | None => mret None
  | Some ais => loop_addrs ais
  end.

(** The context: TLS 1.3 only, no verification, the library's default groups (the
    empty list), session caching off, no session callback. *)
Definition client_cfg : ssl_cfg :=
  mkCfg TLS1_3_VERSION TLS1_3_VERSION [] SSL_SESS_CACHE_OFF false false false None None None.

(** [usleep(delay_ms * 1000)]: the product is an [int]. *)
Definition usleep_ms (delay_ms : Z) : M World unit :=
  let us := delay_ms * 1000 in
  if (- 2 ^ 31 <=? us) && (us <? 2 ^ 31) then mret tt else ub.

(** What the injector does to the connection: materialise a session, install it,
    drop the reference. *)
Definition install_outside (ssl : Ssl) (i : Z) : M World Ssl :=
  match touched i with
  | Some d =>
      s ← obj_new (1 :: d);
      ssl ← set_session ssl s;
      _ ← SSL_SESSION_free s;
      mret ssl
  | None => mret ssl
  end.

(** The handshake of connection [i] and what is printed about it. *)
Definition client_handshake (ssl : Ssl) (i : Z) : M World client_report :=
  ok ← SSL_connect ssl;
  if (ok : bool) then
    reused ← ask (fun k => tls_reused k (ssl_conf ssl));
    g ← ask (fun k => tls_group_name k (ssl_conf ssl));
    mret (LConnected i (negb (reused =? 0)) (group_or_q g))
  else mret (LHandshakeFailed i).

(** One iteration of the loop of [main]. *)
Definition client_iteration (host port : list Z) (delay_ms i : Z) : M World client_report :=
  fd ← client_connect_tcp host port;
  match fd with
  | None =>
      _ ← usleep_ms delay_ms;
      mret (LConnectFailed i)
  | Some fd =>
      ssl ← SSL_new client_cfg;
      ssl ← SSL_set_fd ssl fd;
      let ssl := with_conf (set_sni (ssl_conf ssl) host) ssl in
      ssl ← install_outside ssl i;
      out ← client_handshake ssl i;
      _ ← SSL_free ssl;
      _ ← free (Some fd);
      _ ← usleep_ms delay_ms;
      mret out
  end.

(** [n] iterations are left. *)
Fixpoint client_loop (n : nat) (host port : list Z) (delay_ms i : Z)
    : M World (list client_report) :=
  match n with
  | O => mret []
  | S n' =>
      r ← client_iteration host port delay_ms i;
      rs ← client_loop n' host port delay_ms (i + 1);
      mret (r :: rs)
  end.

(** [main]; the context is used without a check, so a failed [SSL_CTX_new] is
    undefined behaviour. *)
Definition client_main (argv : list (list Z)) : M World (Z * list client_report) :=
  match argv with
  | argv0 :: host :: port :: cnt :: opts =>
      count ← lift_option (atoi cnt);
      delay_ms ← (match opts with [] => mret 700 | d :: _ => lift_option (atoi d) end);
      ok ← ask tls_ctx_new;
      if negb ok then ub
      else
        ctx ← obj_new [];
        rs ← client_loop (Z.to_nat count) host port delay_ms 0;
        _ ← free (Some ctx);
        mret (0, LStart host port count :: rs)
  | argv0 :: _ => mret (2, [LUsage argv0])
  | [] => ub
  end.

(** ** Specification vocabulary *)

(** The configuration of connection [i]: it offers a session only when one was
    installed from outside. *)
Definition client_conn (host : list Z) (i : Z) (cfg : ssl_cfg) : Prop :=
  cfg_min_proto cfg = TLS1_3_VERSION /\ cfg_max_proto cfg = TLS1_3_VERSION /\
  cfg_cache cfg = SSL_SESS_CACHE_OFF /\ cfg_sni cfg = Some host /\
  (cfg_session cfg = None \/ (is_Some (touched i) /\ cfg_session cfg = touched i)).

(** What is reported of connection [i] is what the library said of it. *)
Definition report_ok (host port : list Z) (i : Z) (r : client_report) : Prop :=
  match r with
  | LConnectFailed j => j = i /\ exists k, unreachable (tls_getaddrinfo k host port) = true
  | LHandshakeFailed j => j = i /\
      ((exists k, tls_set_fd k = false) \/
       exists k cfg, client_conn host i cfg /\ tls_connect k cfg = false)
  | LConnected j resumed group => j = i /\
      exists k cfg, client_conn host i cfg /\ tls_connect k cfg = true /\
        resumed = negb (tls_reused (k + 1) cfg =? 0) /\
        group = group_or_q (tls_group_name (k + 2) cfg)
  | _ => False
  end.

(** The library resumes a connection only with a session it was given or with one
    of its own cache. *)
Definition resumes_known_only : Prop :=
  forall k cfg, tls_reused k cfg <> 0 ->
    is_Some (cfg_session cfg) \/ cfg_cache cfg <> SSL_SESS_CACHE_OFF.

(** [int]s and their product with 1000. *)
Definition is_int (z : Z) : Prop := - 2 ^ 31 <= z < 2 ^ 31.

(** Why the client may have no defined behaviour: an object the library could not
    create, which the code does not check, or numbers that are not [int]s. *)
Definition client_faults (argv : list (list Z)) : Prop :=
  ssl_new_fails \/ (exists k, tls_ctx_new k = false) \/
  (exists v, argv !! 3%nat = Some v /\ atoi v = None) \/
  (exists v, argv !! 4%nat = Some v /\
     (atoi v = None \/ exists ms, atoi v = Some ms /\ ~ is_int (ms * 1000))).

(** ** Lemmas *)

(** The two programs connect in the same way. *)
Lemma loop_addrs_eq (ais : list (bool * bool)) (w : World) : loop_addrs ais w = try_addrs ais w.
Proof.
  revert w. induction ais as [|[[] []] ais IH]; intros w; simpl; [done|done| |apply IH..].
  unfold mbind, M_bind. simpl. unfold free. case_match; [|done]. by destruct p; apply IH.
Qed.

Lemma client_connect_tcp_eq (host port : list Z) (w : World) :
  client_connect_tcp host port w = connect_tcp host port w.
Proof.
  unfold client_connect_tcp, connect_tcp, mbind, M_bind, ask.
  destruct (tls_getaddrinfo (w_step w) host port); [|done]. apply loop_addrs_eq.
Qed.

Context {bad : Prop}.

Lemma usleep_ms_spec (delay_ms : Z) (w : World) (Q : unit -> World -> Prop) :
  (~ is_int (delay_ms * 1000) -> bad) -> Q tt w -> returns_or bad (usleep_ms delay_ms) w Q.
Proof.
  intros Hd HQ. unfold usleep_ms. case_if; bool_prop; [by apply returns_ret|].
  apply returns_ub, Hd. unfold is_int. intros [? ?]. bool_prop. lia.
Qed.

Lemma install_outside_spec {A} (host : list Z) (ssl : Ssl) (i : Z) (rest : list nat) (w0 w : World)
    (k : Ssl -> M World A) (Q : A -> World -> Prop) :
  ssl_held ssl = [] -> client_conn host i (ssl_conf ssl) -> holds rest w0 w ->
  (forall ssl' w', ssl_addr ssl' = ssl_addr ssl -> ssl_fd ssl' = ssl_fd ssl ->
     holds (ssl_held ssl' ++ rest) w0 w' -> sess_refs (ssl_held ssl') None [] w' ->
     client_conn host i (ssl_conf ssl') -> returns_or bad (k ssl') w' Q) ->
  returns_or bad (install_outside ssl i ≫= k) w Q.
Proof.
  intros Hs Hc Hh HQ. unfold install_outside. destruct (touched i) as [d|] eqn:Et.
  - do 2 apply returns_bind. eapply returns_obj_new; [done|]. intros s w1 _ Hh1 Hb _.
    eapply set_session_spec; [done..|]. intros ssl' w2 Ha Hfd Hh2 Hr Hconf.
    apply returns_ret, HQ; [done..|]. destruct Hconf as [->|[-> _]]; [|done].
    destruct Hc as (? & ? & ? & ? & _). split_and!; [done..|]. right. rewrite Et. eauto.
  - apply returns_bind, returns_ret, HQ; rewrite ?Hs; [done..|apply sess_refs_nil|done].
Qed.

Lemma client_handshake_spec (host port : list Z) (ssl : Ssl) (i : Z) (own : list nat)
    (w0 w : World) :
  client_conn host i (ssl_conf ssl) -> (forall fd, ssl_fd ssl = Some fd -> fd ∈ own) ->
  (ssl_fd ssl = None -> exists k, tls_set_fd k = false) -> holds own w0 w ->
  returns_or bad (client_handshake ssl i) w (fun r w' =>
    holds own w0 w' /\ w_heap w' = w_heap w /\ report_ok host port i r).
Proof.
  intros Hc Hin Hfd Hh. unfold client_handshake. apply returns_bind.
  eapply SSL_connect_spec; [done..| |].
  { intros HN. apply returns_ret. split_and!; [done..|]. split; [done|]. left. by apply Hfd. }
  intros _. destruct (tls_connect (w_step w) (ssl_conf ssl)) eqn:E.
  - apply returns_bind, returns_ask, returns_bind, returns_ask, returns_ret.
    split_and!; [by do 3 apply holds_tick|done|]. split; [done|].
    exists (w_step w), (ssl_conf ssl). rewrite Nat.add_1_r.
    replace (w_step w + 2)%nat with (S (S (w_step w))) by lia. by split_and!.
  - apply returns_ret. split_and!; [by apply holds_tick|done|]. split; [done|]. right. eauto.
Qed.

Section Loop.
Context (delay_ms : Z) (Hnew : ssl_new_fails -> bad) (Hd : ~ is_int (delay_ms * 1000) -> bad).

Lemma client_iteration_spec (host port : list Z) (i : Z) (ctx : nat) (w0 w : World) :
  holds [ctx] w0 w ->
  returns_or bad (client_iteration host port delay_ms i) w (fun r w' =>
    holds [ctx] w0 w' /\ report_ok host port i r).
Proof.
  intros Hh. unfold client_iteration. apply returns_bind.
  unfold returns_or at 1. rewrite client_connect_tcp_eq. fold (returns_or bad (connect_tcp host port) w).
  eapply returns_mono; [by apply connect_tcp_spec|]. intros [fd|] w1 [Hh1 Hr1].
  2: { apply returns_bind, usleep_ms_spec; [done|]. by apply returns_ret. }
  apply returns_bind. unfold SSL_new. apply returns_bind, returns_ask.
  case_if; [apply returns_ub, Hnew; by eexists|].
  apply returns_bind. eapply returns_obj_new; [by apply holds_tick|].
  intros a w2 _ Hh2 _ _. apply returns_ret, returns_bind. unfold SSL_set_fd.
  apply returns_bind, returns_ask, returns_ret. set (ssl := if tls_set_fd (w_step w2) then _ else _).
  assert (ssl_addr ssl = a /\ ssl_held ssl = [] /\ ssl_conf ssl = client_cfg /\
          (forall fd', ssl_fd ssl = Some fd' -> fd' = fd) /\
          (ssl_fd ssl = None -> exists k, tls_set_fd k = false)) as (Ha & Hheld & Hconf & Hfd & HN).
  { unfold ssl. destruct (tls_set_fd (w_step w2)) eqn:E1; split_and!; try done; simpl; naive_solver. }
  clearbody ssl. eapply (install_outside_spec host); [done| |apply holds_tick, Hh2|].
  { simpl. rewrite Hconf. split_and!; try done. by left. }
  cbn [with_conf ssl_addr ssl_fd]. rewrite Ha. intros ssl' w3 Ha' Hfd' Hh3 Hr Hc.
  apply returns_bind. eapply returns_mono.
  { eapply client_handshake_spec; [done| |by rewrite Hfd'|exact Hh3].
    rewrite Hfd'. intros fd' ->%Hfd. set_solver. }
  intros r w4 (Hh4 & Hw4 & Hrep). apply returns_bind. rewrite <- Ha' in Hh4.
  eapply returns_mono; [apply (SSL_free_spec ssl' [fd; ctx] None [] w0 w4 Hh4)|].
  { unfold sess_refs in *. by rewrite Hw4. }
  intros [] w5 [Hh5 _]. simpl in Hh5. apply returns_bind.
  eapply returns_release; [exact Hh5|done|].
  intros w6 Hh6 _. apply returns_bind, usleep_ms_spec; [done|]. by apply returns_ret.
Qed.

Lemma client_loop_spec (n : nat) (host port : list Z) (i : Z) (ctx : nat) (w0 w : World) :
  holds [ctx] w0 w ->
  returns_or bad (client_loop n host port delay_ms i) w (fun rs w' =>
    holds [ctx] w0 w' /\ Forall2 (report_ok host port) (seqZ i (Z.of_nat n)) rs).
Proof.
  revert i w. induction n as [|n IH]; intros i w Hh; simpl.
  { apply returns_ret. split; [done|constructor]. }
  apply returns_bind. eapply returns_mono; [by eapply client_iteration_spec|].
  intros r w1 [Hh1 Hr]. apply returns_bind. eapply returns_mono; [by apply IH|].
  intros rs w2 [Hh2 Hrs]. apply returns_ret. split; [done|].
  rewrite seqZ_cons by lia. constructor; [done|].
  by replace (Z.pred (Z.of_nat (S n))) with (Z.of_nat n) by lia.
Qed.

End Loop.

(** A resumption is reported only of a connection a session was installed in. *)
Lemma resumed_touched (host port : list Z) (js : list Z) (rs : list client_report) (i : Z)
    (g : list Z) :
  resumes_known_only -> Forall2 (report_ok host port) js rs -> LConnected i true g ∈ rs ->
  is_Some (touched i).
Proof.
  intros Hlib HF. induction HF as [|j r js' rs' Hr _ IH]; [by intros ?%not_elem_of_nil|].
  intros [Heq|Hin]%elem_of_cons; [|auto]. subst r.
  destruct Hr as [-> (k & cfg & (_ & _ & Hoff & _ & Hs) & _ & Hre & _)].
  symmetry in Hre. apply negb_true_iff, Z.eqb_neq in Hre.
  destruct (Hlib _ _ Hre) as [[d Hd]|?]; [|done]. destruct Hs as [?|[? _]]; [congruence|done].
Qed.

End Client.

(** ** Theorems *)

(** C19. The demonstration client, for every command line.  It has no undefined
    behaviour but for an object the library could not create, which the code does
    not check, and numbers that are not [int]s; it releases every descriptor and
    library object, reports each of its connections once and in order, and what it
    reports is what the library said of a TLS 1.3 connection to the host, with
    session caching off, that offers a session only if one was installed from
    outside.  So with a library that resumes only with a session it was given or
    one of its own cache, RESUMED is said only of connections in which a session
    was installed from outside. *)
Theorem client_reports_injections {tls : Tls} (touched : Z -> option (list Z))
    (argv : list (list Z)) (w : World) :
  heap_wf w -> argv <> [] ->
  returns_or (client_faults argv) (client_main touched argv) w (fun '(rc, out) w' =>
    w_heap w' = w_heap w /\
    match argv with
    | _ :: host :: port :: cnt :: _ => rc = 0 /\
        exists count rs, atoi cnt = Some count /\ out = LStart host port count :: rs /\
          Forall2 (report_ok touched host port) (seqZ 0 count) rs /\
          (resumes_known_only -> forall i g, LConnected i true g ∈ rs -> is_Some (touched i))
    | argv0 :: _ => rc = 2 /\ out = [LUsage argv0]
    | [] => False
    end).
Proof.
  intros Hwf Hne. unfold client_main.
  destruct argv as [|argv0 [|host [|port [|cnt opts]]]]; [done|by apply returns_ret..|].
  assert (client_faults (argv0 :: host :: port :: cnt :: opts) ->
          client_faults (argv0 :: host :: port :: cnt :: opts)) as Hbad by done.
  unfold client_faults at 1 in Hbad. cbn [lookup list_lookup] in Hbad.
  apply returns_bind, returns_lift_or; [naive_solver|]. intros count Hc. apply returns_bind.
  eapply (returns_mono _ _ (fun ms w' => w' = w /\
    (~ is_int (ms * 1000) -> client_faults (argv0 :: host :: port :: cnt :: opts)))).
  { destruct opts as [|d opts]; [apply returns_ret; split; [done|]; unfold is_int; lia|].
    apply returns_lift_or; naive_solver. }
  intros ms w' [-> Hms]. apply returns_bind, returns_ask.
  case_if; [apply returns_ub, Hbad; right; left; by eexists|].
  apply returns_bind. eapply returns_obj_new; [by apply holds_tick, holds_init|].
  intros ctx w1 _ Hh _ _. apply returns_bind.
  eapply returns_mono; [apply client_loop_spec; [by left| |exact Hh]; naive_solver|].
  intros rs w2 [Hh2 Hrs].
  apply returns_bind. eapply returns_release; [exact Hh2|done|]. intros w3 Hh3 _.
  apply returns_ret. split_and!; [by apply holds_nil|done|]. exists count, rs.
  assert (Forall2 (report_ok touched host port) (seqZ 0 count) rs).
  { destruct (decide (0 <= count)); [by rewrite Z2Nat.id in Hrs by lia|].
    replace (Z.to_nat count) with O in Hrs by lia. by rewrite (seqZ_nil 0 count) by lia. }
  split_and!; [done..|]. intros. by eapply resumed_touched.
Qed.

(** The concrete library, without verification. *)
Definition client_tls : Tls := {|
  tls_ctx_new := fun _ => true;
  tls_set_groups := fun _ _ => true;
  tls_ssl_new := fun _ => true;
  tls_set_fd := fun _ => true;
  tls_set1_host := fun _ _ => true;
  tls_getaddrinfo := fun _ _ _ => Some [(false, false); (true, false); (true, true)];
  tls_connect := fun _ _ => true;
  tls_group_name := fun _ _ => Some (of_string "X25519");
  tls_read := fun _ _ => ([], ReadWant);
  tls_i2d := fun d => (Z.of_nat (length d), d);
  tls_d2i := fun _ der => Some der;
  tls_set_session := fun _ => true;
  tls_timeout := fun _ => 7200;
  tls_reused := fun _ cfg => match cfg_session cfg with Some _ => 1 | None => 0 end
|}.

Definition demo_client_argv : list (list Z) :=
  [of_string "loop_client"; demo_host; demo_port; of_string "3"; of_string "10"].
Definition demo_touched (i : Z) : option (list Z) :=
  if i =? 1 then Some (of_string "TICKET-A") else None.

Lemma client_reports_injections_witness :
  resumes_known_only (tls := client_tls) /\
  returns_or (client_faults (tls := client_tls) demo_client_argv)
    (client_main (tls := client_tls) demo_touched demo_client_argv)
    demo_world (fun '(rc, out) w' =>
    w_heap w' = w_heap demo_world /\ rc = 0 /\
    exists count rs, atoi (of_string "3") = Some count /\
      out = LStart demo_host demo_port count :: rs /\
      Forall2 (report_ok (tls := client_tls) demo_touched demo_host demo_port) (seqZ 0 count) rs /\
      (resumes_known_only (tls := client_tls) ->
       forall i g, LConnected i true g ∈ rs -> is_Some (demo_touched i))).
Proof.
  split.
  - intros k cfg H. left. simpl in H. destruct (cfg_session cfg) as [s|]; [by exists s|by destruct H].
  - apply (@client_reports_injections client_tls demo_touched demo_client_argv demo_world).
    + exact demo_heap_wf.
    + discriminate.
Defined.

(** The second of three connections was touched by the injector. *)
Example client_demo :
  (fst <$> client_main (tls := client_tls) demo_touched
     [of_string "loop_client"; demo_host; demo_port; of_string "3"] demo_world)
  = Some (0, [LStart demo_host demo_port 3; LConnected 0 false (of_string "X25519");
              LConnected 1 true (of_string "X25519"); LConnected 2 false (of_string "X25519")]).
Proof. vm_compute. reflexivity. Qed.

(** A delay of 2147484 ms or more overflows the [int] passed to [usleep]. *)
Example client_delay_overflows :
  client_main (tls := client_tls) demo_touched
    [of_string "loop_client"; demo_host; demo_port; of_string "1"; of_string "2147484"] demo_world
  = None.
Proof. vm_compute. reflexivity. Qed.
