(* ===== verification/Remote.v ===== *)
(** * Remote: calling a function in a traced process (injector/remote.c)

    The target is a state: its registers, its byte memory, whether it is alive,
    traced and in a ptrace-stop, and the history of what was done to it.  The
    kernel and the code the target runs are parameters ([Kernel]): which request
    is refused, and what the target does between being resumed and its next stop,
    which may be anything at all, its death included.  The requests themselves
    ([PTRACE_*], [waitpid], [process_vm_writev]) have the documented effects; a
    request on a target that is not in the state it requires fails. *)

From stdpp Require Import base numbers list gmap.
From S2P Require Import Prelude Runtime.

Open Scope Z_scope.

Definition SIGTRAP : Z := 5.

(** ** Registers and memory *)

(** [struct user_regs_struct]: the registers the code names, and the others. *)
Record Regs := mkRegs {
  rip : Z;
  rsp : Z;
  rax : Z;
  rdi : Z;
  rsi : Z;
  rdx : Z;
  rcx : Z;
  r8 : Z;
  r9 : Z;
  r_others : list Z
}.

(** Memory: the mapped bytes. *)
Abbreviation mem := (gmap Z Z).

(** The [n] bytes at [a]; [None] when one of them is not mapped. *)
Fixpoint peek_bytes (n : nat) (m : mem) (a : Z) : option (list Z) :=
  match n with
  | O => Some []
  | S n' =>
      b ← m !! u64 a;
      bs ← peek_bytes n' m (a + 1);
      Some (b :: bs)
  end.

Fixpoint poke_bytes (bs : list Z) (m : mem) (a : Z) : mem :=
  match bs with
  | [] => m
  | b :: bs' => <[u64 a := b]> (poke_bytes bs' m (a + 1))
  end.

(** A word is the little-endian number of its eight bytes. *)
Fixpoint of_bytes (bs : list Z) : Z :=
  match bs with
  | [] => 0
  | b :: bs' => u8 b + 256 * of_bytes bs'
  end.

Fixpoint to_bytes (n : nat) (w : Z) : list Z :=
  match n with
  | O => []
  | S n' => w mod 256 :: to_bytes n' (w / 256)
  end.

Definition peek (m : mem) (a : Z) : option Z := of_bytes <$> peek_bytes 8 m a.

Definition poke (m : mem) (a w : Z) : option mem :=
  match peek_bytes 8 m a with
  | None => None
  | Some _ => Some (poke_bytes (to_bytes 8 w) m a)
  end.

(** ** The target *)

(** What [waitpid] reports. *)
Inductive wstatus :=
  | WExited
  | WSignaled
  | WStopped (sig : Z).

(** What was done to the target, and how its runs ended: what [waitpid] reported
    and the registers at that moment. *)
Inductive event :=
  | EvSeize
  | EvPoke (a w : Z)
  | EvSetregs (r : Regs)
  | EvCont
  | EvStop (st : wstatus) (r : Regs)
  | EvWrite (a : Z) (bs : list Z)
  | EvDetach.

Record Target := mkTarget {
  t_regs : Regs;
  t_mem : mem;
  t_alive : bool;
  t_traced : bool;
  t_stopped : bool;
  t_step : nat;
  t_log : list event
}.

Class Kernel := {
  (** the request with this number is refused *)
  k_fail : nat -> bool;
  (** how many bytes of a [process_vm_writev] are transferred at most *)
  k_part : nat -> nat;
  (** what a resumed target does until its next stop *)
  k_run : nat -> Target -> wstatus * Regs * mem
}.

Definition step (t : Target) : Target :=
  mkTarget (t_regs t) (t_mem t) (t_alive t) (t_traced t) (t_stopped t) (S (t_step t)) (t_log t).
Definition log (e : event) (t : Target) : Target :=
  mkTarget (t_regs t) (t_mem t) (t_alive t) (t_traced t) (t_stopped t) (t_step t)
    (t_log t ++ [e]).
Definition with_regs (r : Regs) (t : Target) : Target :=
  mkTarget r (t_mem t) (t_alive t) (t_traced t) (t_stopped t) (t_step t) (t_log t).
Definition with_mem (m : mem) (t : Target) : Target :=
  mkTarget (t_regs t) m (t_alive t) (t_traced t) (t_stopped t) (t_step t) (t_log t).
Definition with_trace (traced stopped : bool) (t : Target) : Target :=
  mkTarget (t_regs t) (t_mem t) (t_alive t) traced stopped (t_step t) (t_log t).

(** A traced target in a ptrace-stop. *)
Definition in_stop (t : Target) : bool := t_alive t && t_traced t && t_stopped t.

Section Calls.
Context {K : Kernel}.

(** A request with precondition [pre]; [None] is the failure return. *)
Definition ptrace_request {A} (pre : Target -> bool) (f : Target -> option (A * Target))
    : M Target (option A) := fun t =>
  if k_fail (t_step t) || negb (pre t) then Some (None, step t)
  else match f (step t) with
       | None => Some (None, step t)
       | Some (a, t') => Some (Some a, t')
       end.

Definition ptrace_getregs : M Target (option Regs) :=
  ptrace_request in_stop (fun t => Some (t_regs t, t)).
Definition ptrace_setregs (r : Regs) : M Target (option unit) :=
  ptrace_request in_stop (fun t => Some (tt, log (EvSetregs r) (with_regs r t))).
Definition ptrace_peek (a : Z) : M Target (option Z) :=
  ptrace_request in_stop (fun t => w ← peek (t_mem t) a; Some (w, t)).
Definition ptrace_poke (a w : Z) : M Target (option unit) :=
  ptrace_request in_stop (fun t => m ← poke (t_mem t) a w; Some (tt, log (EvPoke a w) (with_mem m t))).
Definition ptrace_cont : M Target (option unit) :=
  ptrace_request in_stop (fun t => Some (tt, log EvCont (with_trace true false t))).
Definition ptrace_seize : M Target (option unit) :=
  ptrace_request (fun t => t_alive t && negb (t_traced t))
    (fun t => Some (tt, log EvSeize (with_trace true false t))).
Definition ptrace_interrupt : M Target (option unit) :=
  ptrace_request (fun t => t_alive t && t_traced t) (fun t => Some (tt, t)).
Definition ptrace_detach : M Target (option unit) :=
  ptrace_request in_stop (fun t => Some (tt, log EvDetach (with_trace false false t))).

(** [waitpid(pid, &status, 0)]: the target runs until its next stop.  Waiting for
    a target that is already stopped would block for ever. *)
Definition waitpid : M Target (option wstatus) := fun t =>
  if k_fail (t_step t) || negb (t_alive t && t_traced t) then Some (None, step t)
  else if t_stopped t then None
  else
    let '(st, r, m) := k_run (t_step t) t in
    Some (Some st,
      mkTarget r m (match st with WStopped _ => true | _ => false end) true
        (match st with WStopped _ => true | _ => false end) (S (t_step t))
        (t_log t ++ [EvStop st r])).

(** The length of the prefix of [n] bytes at [a] that is mapped. *)
Fixpoint mapped_prefix (n : nat) (m : mem) (a : Z) : nat :=
  match n with
  | O => O
  | S n' => match m !! u64 a with
            | None => O
            | Some _ => S (mapped_prefix n' m (a + 1))
            end
  end.

(** [process_vm_writev] with one local and one remote range: the number of bytes
    transferred, or -1. *)
Definition process_vm_writev (a : Z) (bs : list Z) : M Target Z := fun t =>
  if k_fail (t_step t) || negb (t_alive t) then Some (-1, step t)
  else
    let n := Nat.min (k_part (t_step t)) (mapped_prefix (length bs) (t_mem t) a) in
    Some (Z.of_nat n,
      log (EvWrite a (take n bs)) (with_mem (poke_bytes (take n bs) (t_mem t) a) (step t))).

(** ** The injector's primitives *)

Definition injector_seize : M Target Z :=
  s ← ptrace_seize;
  match s with
  | None => mret (-1)
  | Some _ =>
      i ← ptrace_interrupt;
      match i with
      | None => mret (-1)
      | Some _ =>
          status ← waitpid;
          match status with
          | None => mret (-1)
          | Some (WStopped _) => mret 0
          | Some _ => mret (-1)
          end
      end
  end.

Definition injector_detach : M Target Z :=
  r ← ptrace_detach;
  mret (match r with None => -1 | Some _ => 0 end).

(** [poke_byte]: the word that was there, or [None] for the return -1. *)
Definition poke_byte (addr value : Z) : M Target (option Z) :=
  w ← ptrace_peek addr;
  match w with
  | None => mret None
  | Some word =>
      let patched := Z.lor (Z.land word (u64 (Z.lnot 0xFF))) value in
      r ← ptrace_poke addr patched;
      mret (match r with None => None | Some _ => Some word end)
  end.

(** The label [restore]. *)
Definition restore (saved : Regs) (trap orig_word : Z) : M Target unit :=
  _ ← ptrace_poke trap orig_word;
  _ ← ptrace_setregs saved;
  mret tt.

(** How the wait loop ends: at the return trap, with the target dead, or at the
    label [restore]. *)
Inductive loop_end :=
  | LTrap
  | LDied
  | LRestore.

(** The wait loop; it runs at most 17 times, which is the fuel it is given. *)
Fixpoint call_loop (fuel : nat) (spurious : Z) : M Target loop_end :=
  match fuel with
  | O => ub
  | S fuel' =>
      c ← ptrace_cont;
      match c with
      | None => mret LRestore
      | Some _ =>
          status ← waitpid;
          match status with
          | None => mret LRestore
          | Some (WStopped sig) =>
              if sig =? SIGTRAP then mret LTrap
              else
                let spurious := spurious + 1 in
                if 16 <? spurious then mret LRestore else call_loop fuel' spurious
          | Some _ => mret LDied
          end
      end
  end.

(** The stack pointer of the call: below the red zone, aligned, one slot pushed. *)
Definition call_sp (sp : Z) : Z :=
  let sp := u64 (sp - 256) in
  let sp := Z.land sp (u64 (Z.lnot 0xF)) in
  u64 (sp - 8).

Definition call_regs (saved : Regs) (func a0 a1 a2 a3 a4 a5 : Z) : Regs :=
  mkRegs func (call_sp (rsp saved)) (rax saved) a0 a1 a2 a3 a4 a5 (r_others saved).

(** [remote_call]: the return value and [*ok]. *)
Definition remote_call (func a0 a1 a2 a3 a4 a5 : Z) : M Target (Z * Z) :=
  g ← ptrace_getregs;
  match g with
  | None => mret (0, 0)
  | Some saved =>
      let trap := rip saved in
      w ← poke_byte trap 0xCC;
      match w with
      | None => mret (0, 0)
      | Some orig_word =>
          let fail_call := _ ← restore saved trap orig_word; mret (0, 0) in
          p ← ptrace_poke (call_sp (rsp saved)) trap;
          match p with
          | None => fail_call
          | Some _ =>
              s ← ptrace_setregs (call_regs saved func a0 a1 a2 a3 a4 a5);
              match s with
              | None => fail_call
              | Some _ =>
                  l ← call_loop 17 0;
                  match l with
                  | LDied => mret (0, 0)
                  | LRestore => fail_call
                  | LTrap =>
                      a ← ptrace_getregs;
                      match a with
                      | None => fail_call
                      | Some after => _ ← restore saved trap orig_word; mret (rax after, 1)
                      end
                  end
              end
          end
      end
  end.

(** ** Specification vocabulary *)

(** The kernel refused a request between two states. *)
Definition refused (t t' : Target) : Prop :=
  exists k, (t_step t <= k < t_step t')%nat /\ k_fail k = true.

(** The target is as it was to itself: stopped in the same place, with the word
    at its instruction pointer, where that is still mapped, as before. *)
Definition same_context (t t' : Target) : Prop :=
  in_stop t' = true /\ t_regs t' = t_regs t /\
  (forall w w', peek (t_mem t) (rip (t_regs t)) = Some w ->
     peek (t_mem t') (rip (t_regs t)) = Some w' -> w' = w).

(** Time passed, the target stayed traced, and the history grew by events that
    satisfy [P]. *)
Definition extends (P : event -> Prop) (t t' : Target) : Prop :=
  (t_step t <= t_step t')%nat /\ t_traced t' = true /\
  exists es, t_log t' = t_log t ++ es /\ Forall P es.

(** What a call may do: no memory transfer, and the registers are set to those of
    the call or back to the saved ones. *)
Definition call_event (saved call : Regs) (e : event) : Prop :=
  match e with
  | EvWrite _ _ | EvSeize | EvDetach => False
  | EvSetregs r => r = call \/ r = saved
  | _ => True
  end.

(** While a function runs: it is resumed, and stops for other reasons than its
    return trap. *)
Definition run_event (e : event) : Prop :=
  e = EvCont \/ exists sig r, sig <> SIGTRAP /\ e = EvStop (WStopped sig) r.

(** A function was entered with the registers [call], ran to the next trap and
    had [ret] in [rax] there. *)
Definition ran (call : Regs) (ret : Z) (es : list event) : Prop :=
  exists e0 e1 e2 r, es = e0 ++ [EvSetregs call] ++ e1 ++ [EvStop (WStopped SIGTRAP) r] ++ e2 /\
    Forall run_event e1 /\ rax r = ret.

(** The outcome of [remote_call] for the target. *)
Definition call_post (call : Regs) (t : Target) (ret ok : Z) (t' : Target) : Prop :=
  extends (call_event (t_regs t) call) t t' /\
  (refused t t' \/ t_alive t' = false \/ same_context t t') /\
  (ok = 0 \/ (ok = 1 /\ t_alive t' = true /\
               ran call ret (drop (length (t_log t)) (t_log t')))).

End Calls.
