(* ===== verification/RemoteLemmas.v ===== *)
(** * RemoteLemmas: what a remote call does to the target

    Words and bytes of memory, the rules of the ptrace requests, and the
    specification of [remote_call] for every behaviour of the kernel and of the
    target. *)

From stdpp Require Import base numbers list gmap.
From S2P Require Import Prelude Runtime Remote.

Open Scope Z_scope.

(** ** Words and bytes *)

Lemma length_to_bytes (n : nat) (w : Z) : length (to_bytes n w) = n.
Proof. revert w. induction n as [|n IH]; intros w; simpl; [done|]. by rewrite IH. Qed.

Lemma of_to_bytes (n : nat) (w : Z) :
  0 <= w < 256 ^ Z.of_nat n -> of_bytes (to_bytes n w) = w.
Proof.
  revert w. induction n as [|n IH]; intros w Hw; simpl; [simpl in Hw; lia|].
  rewrite Nat2Z.inj_succ, Z.pow_succ_r in Hw by lia.
  rewrite IH by (split; [apply Z.div_pos; lia|apply Z.div_lt_upper_bound; lia]).
  rewrite wrapU_small by (apply Z.mod_pos_bound; lia).
  pose proof (Z.div_mod w 256). lia.
Qed.

Lemma of_bytes_range (bs : list Z) : 0 <= of_bytes bs < 256 ^ Z.of_nat (length bs).
Proof.
  induction bs as [|b bs IH]; simpl; [lia|].
  pose proof (wrapU_range 8 b ltac:(lia)).
  rewrite Nat2Z.inj_succ, Z.pow_succ_r by lia. lia.
Qed.

Lemma length_peek_bytes (n : nat) (m : mem) (a : Z) (bs : list Z) :
  peek_bytes n m a = Some bs -> length bs = n.
Proof.
  revert a bs. induction n as [|n IH]; intros a bs; simpl; [by intros [= <-]|].
  destruct (m !! u64 a); simpl; [|done].
  destruct (peek_bytes n m (a + 1)) eqn:E; simpl; [|done]. intros [= <-]. simpl.
  by rewrite (IH _ _ E).
Qed.

(** Addresses closer than the address space are distinct. *)
Lemma u64_ne (a b : Z) : 0 < b - a < 2 ^ 64 -> u64 a <> u64 b.
Proof.
  intros Hd E. unfold wrapU in E.
  assert ((b - a) mod 2 ^ 64 = 0) as Hz by (rewrite Zminus_mod, E, Z.sub_diag; done).
  rewrite Z.mod_small in Hz by lia. lia.
Qed.

Lemma peek_bytes_insert_ne (n : nat) (m : mem) (a k b : Z) :
  (forall i, 0 <= i < Z.of_nat n -> k <> u64 (a + i)) ->
  peek_bytes n (<[k := b]> m) a = peek_bytes n m a.
Proof.
  revert a. induction n as [|n IH]; intros a Hk; simpl; [done|].
  rewrite lookup_insert_ne by (rewrite <- (Z.add_0_r a); apply Hk; lia).
  rewrite IH; [done|]. intros i Hi. rewrite <- Z.add_assoc. apply Hk. lia.
Qed.

(** Reading back what was written. *)
Lemma peek_poke_bytes (bs : list Z) (m : mem) (a : Z) :
  Z.of_nat (length bs) <= 2 ^ 64 -> peek_bytes (length bs) (poke_bytes bs m a) a = Some bs.
Proof.
  revert a. induction bs as [|b bs IH]; intros a Hl; cbn [length poke_bytes peek_bytes]; [done|].
  rewrite lookup_insert_eq. simpl. rewrite peek_bytes_insert_ne.
  - rewrite IH; [done|]. simpl length in Hl. lia.
  - intros i Hi. apply u64_ne. simpl length in Hl. lia.
Qed.

Lemma poke_bytes_lookup_ne (bs : list Z) (m : mem) (a x : Z) :
  (forall i, 0 <= i < Z.of_nat (length bs) -> x <> u64 (a + i)) ->
  poke_bytes bs m a !! x = m !! x.
Proof.
  revert a. induction bs as [|b bs IH]; intros a Hx; simpl; [done|].
  rewrite lookup_insert_ne.
  - apply IH. intros i Hi. rewrite <- Z.add_assoc. apply Hx. simpl. lia.
  - intros <-. apply (Hx 0); [simpl; lia|]. by rewrite Z.add_0_r.
Qed.

Lemma peek_range (m : mem) (a w : Z) : peek m a = Some w -> 0 <= w < 2 ^ 64.
Proof.
  unfold peek. intros H. apply fmap_Some in H as (bs & Hbs & ->).
  pose proof (of_bytes_range bs) as Hr. by rewrite (length_peek_bytes _ _ _ _ Hbs) in Hr.
Qed.

Lemma poke_mapped (m m' : mem) (a w : Z) : poke m a w = Some m' -> is_Some (peek m a).
Proof. unfold poke, peek. destruct (peek_bytes 8 m a); [by eauto|done]. Qed.

(** A word that was read can be put back. *)
Lemma peek_poke (m m' : mem) (a w : Z) :
  0 <= w < 2 ^ 64 -> poke m a w = Some m' -> peek m' a = Some w.
Proof.
  intros Hw. unfold poke, peek. destruct (peek_bytes 8 m a); [|done]. intros Hm.
  assert (m' = poke_bytes (to_bytes 8 w) m a) as -> by congruence.
  pose proof (peek_poke_bytes (to_bytes 8 w) m a) as H. rewrite length_to_bytes in H.
  rewrite H by lia. change (Some (of_bytes (to_bytes 8 w)) = Some w).
  rewrite of_to_bytes; [done|]. exact Hw.
Qed.

(** Writing does not unmap anything. *)
Lemma poke_bytes_is_Some (bs : list Z) (m : mem) (a x : Z) :
  is_Some (m !! x) -> is_Some (poke_bytes bs m a !! x).
Proof.
  intros Hx. revert a. induction bs as [|c bs IH]; intros a; simpl; [done|].
  rewrite lookup_insert. case_decide; eauto.
Qed.

Lemma peek_bytes_mapped (n : nat) (m m' : mem) (b : Z) :
  (forall x, is_Some (m !! x) -> is_Some (m' !! x)) ->
  is_Some (peek_bytes n m b) -> is_Some (peek_bytes n m' b).
Proof.
  intros Hm. revert b. induction n as [|n IH]; intros b; simpl; [done|].
  intros H. destruct (m !! u64 b) as [x|] eqn:Ex; simpl in H; [|by destruct H].
  destruct (Hm (u64 b)) as [y ->]; [eauto|]. simpl.
  destruct (peek_bytes n m (b + 1)) eqn:E; simpl in H; [|by destruct H].
  destruct (IH (b + 1)) as [l' ->]; [by rewrite E|]. by eexists.
Qed.

Lemma peek_poke_is_Some (m m' : mem) (a b w : Z) :
  poke m a w = Some m' -> is_Some (peek m b) -> is_Some (peek m' b).
Proof.
  unfold poke, peek. destruct (peek_bytes 8 m a); [|done]. intros Hm.
  assert (m' = poke_bytes (to_bytes 8 w) m a) as -> by congruence.
  rewrite !fmap_is_Some. apply peek_bytes_mapped. intros x. apply poke_bytes_is_Some.
Qed.

(** ** The requests *)

Section Requests.
Context {K : Kernel}.
Implicit Types t : Target.

Lemma returns_request {A} (pre : Target -> bool) (f : Target -> option (A * Target)) t
    (Q : option A -> Target -> Prop) :
  (k_fail (t_step t) = true \/ pre t = false \/ f (step t) = None -> Q None (step t)) ->
  (forall a t', k_fail (t_step t) = false -> pre t = true -> f (step t) = Some (a, t') ->
     Q (Some a) t') ->
  returns (ptrace_request pre f) t Q.
Proof.
  intros HN HS. unfold returns_or, ptrace_request.
  destruct (k_fail (t_step t)) eqn:Ek; simpl; [auto|].
  destruct (pre t) eqn:Ep; simpl; [|auto].
  destruct (f (step t)) as [[a t']|] eqn:Ef; auto.
Qed.

Lemma refused_step t t' :
  k_fail (t_step t) = true -> (t_step t < t_step t')%nat -> refused t t'.
Proof. intros Hk Hs. exists (t_step t). split; [lia|done]. Qed.

Lemma refused_mono t0 t1 t2 t3 :
  (t_step t0 <= t_step t1)%nat -> (t_step t2 <= t_step t3)%nat -> refused t1 t2 -> refused t0 t3.
Proof. intros H1 H2 (k & Hk & Hf). exists k. split; [lia|done]. Qed.

Lemma in_stop_true t :
  in_stop t = true <-> t_alive t = true /\ t_traced t = true /\ t_stopped t = true.
Proof. unfold in_stop. rewrite !andb_true_iff. tauto. Qed.

Lemma in_stop_traced t : in_stop t = true -> t_traced t = true.
Proof. intros H. by apply in_stop_true in H as (_ & ? & _). Qed.

Lemma in_stop_alive t : in_stop t = true -> t_alive t = true.
Proof. intros H. by apply in_stop_true in H as (? & _ & _). Qed.

(** A target resumed and waited for. *)
Lemma returns_waitpid t (Q : option wstatus -> Target -> Prop) :
  t_alive t = true -> t_traced t = true -> t_stopped t = false ->
  (k_fail (t_step t) = true -> Q None (step t)) ->
  (forall st r m, k_run (t_step t) t = (st, r, m) -> k_fail (t_step t) = false ->
     Q (Some st)
       (mkTarget r m (match st with WStopped _ => true | _ => false end) true
          (match st with WStopped _ => true | _ => false end) (S (t_step t))
          (t_log t ++ [EvStop st r]))) ->
  returns waitpid t Q.
Proof.
  intros Ha Ht Hs HN HS. unfold returns_or, waitpid. rewrite Ha, Ht, Hs. simpl.
  destruct (k_fail (t_step t)) eqn:Ek; simpl; [by apply HN|].
  destruct (k_run (t_step t) t) as [[st r] m] eqn:Er. by apply HS.
Qed.

(** ** Histories *)

Lemma extends_refl P t : t_traced t = true -> extends P t t.
Proof. intros Ht. split_and!; [lia|done|]. exists []. by rewrite app_nil_r. Qed.

Lemma extends_trans P t1 t2 t3 : extends P t1 t2 -> extends P t2 t3 -> extends P t1 t3.
Proof.
  intros (H1 & _ & es & He & Hp) (H2 & Ht & es' & He' & Hp'). split_and!; [lia|done|].
  exists (es ++ es'). rewrite He', He, (assoc_L (++)). split; [done|]. by apply Forall_app.
Qed.

Lemma extends_weaken (P Q : event -> Prop) t1 t2 :
  (forall e, P e -> Q e) -> extends P t1 t2 -> extends Q t1 t2.
Proof.
  intros HPQ (H1 & Ht & es & He & Hp). split_and!; [done|done|]. exists es. split; [done|].
  by eapply Forall_impl.
Qed.

Lemma extends_step P t : t_traced t = true -> extends P t (step t).
Proof. intros Ht. split_and!; simpl; [lia|done|]. exists []. by rewrite app_nil_r. Qed.

Lemma extends_log (P : event -> Prop) t t' e :
  P e -> t_traced t' = true -> t_log t' = t_log t ++ [e] -> (t_step t <= t_step t')%nat ->
  extends P t t'.
Proof. intros Hp Ht Hl Hs. split_and!; [done|done|]. exists [e]. split; [done|]. by constructor. Qed.

Lemma extends_steps P t t' : extends P t t' -> (t_step t <= t_step t')%nat.
Proof. by intros (H & _). Qed.

Lemma extends_traced P t t' : extends P t t' -> t_traced t' = true.
Proof. by intros (_ & H & _). Qed.

(** ** The pieces of a call *)

(** A request that fails on a stopped target was refused, or memory is not
    mapped; a request keeps the target alive and stopped. *)
Definition req_post (P : event -> Prop) t t' : Prop :=
  extends P t t' /\ t_alive t' = t_alive t /\ t_stopped t' = t_stopped t.

Lemma req_post_in_stop P t t' : req_post P t t' -> in_stop t = true -> in_stop t' = true.
Proof.
  intros (He & Ha & Hs) H. apply in_stop_true in H as (? & ? & ?).
  apply in_stop_true. split_and!; try congruence. by eapply extends_traced.
Qed.

Lemma req_post_step P t : t_traced t = true -> req_post P t (step t).
Proof. intros Ht. split_and!; [by apply extends_step|done|done]. Qed.

Lemma req_post_trans P t1 t2 t3 : req_post P t1 t2 -> req_post P t2 t3 -> req_post P t1 t3.
Proof.
  intros (He & Ha & Hs) (He' & Ha' & Hs'). split_and!; [by eapply extends_trans|congruence..].
Qed.

Lemma req_post_weaken (P Q : event -> Prop) t1 t2 :
  (forall e, P e -> Q e) -> req_post P t1 t2 -> req_post Q t1 t2.
Proof. intros HPQ (He & Ha & Hs). split_and!; [by eapply extends_weaken|done|done]. Qed.

Lemma poke_rule (a w : Z) t :
  t_traced t = true ->
  returns (ptrace_poke a w) t (fun r t' =>
    req_post (fun e => e = EvPoke a w) t t' /\ t_regs t' = t_regs t /\
    match r with
    | Some _ => in_stop t = true /\ poke (t_mem t) a w = Some (t_mem t')
    | None => t_mem t' = t_mem t /\
        (in_stop t = true -> refused t t' \/ poke (t_mem t) a w = None)
    end).
Proof.
  intros Ht. unfold ptrace_poke. apply returns_request.
  - intros Hf. split_and!; [by apply req_post_step|done|done|]. intros Hs.
    destruct Hf as [Hf|[Hf|Hf]]; [|congruence|].
    + left. apply refused_step; simpl; auto.
    + right. change (t_mem (step t)) with (t_mem t) in Hf. by destruct (poke (t_mem t) a w).
  - intros [] t' Hk Hs Hp. change (t_mem (step t)) with (t_mem t) in Hp.
    destruct (poke (t_mem t) a w) as [m'|]; simpl in Hp; [|done]. injection Hp as <-.
    split_and!; try done. split_and!; [|done|done].
    eapply (extends_log _ _ _ (EvPoke a w)); simpl; auto.
Qed.

Lemma setregs_rule (r : Regs) t :
  t_traced t = true ->
  returns (ptrace_setregs r) t (fun o t' =>
    req_post (fun e => e = EvSetregs r) t t' /\ t_mem t' = t_mem t /\
    match o with
    | Some _ => in_stop t = true /\ t_regs t' = r /\ t_log t' = t_log t ++ [EvSetregs r]
    | None => t_regs t' = t_regs t /\ (in_stop t = true -> refused t t')
    end).
Proof.
  intros Ht. unfold ptrace_setregs. apply returns_request.
  - intros Hf. split_and!; [by apply req_post_step|done|done|]. intros Hs.
    destruct Hf as [Hf|[Hf|Hf]]; [|congruence|done]. apply refused_step; simpl; auto.
  - intros [] t' Hk Hs [= <-]. split_and!; try done. split_and!; [|done|done].
    eapply (extends_log _ _ _ (EvSetregs r)); simpl; auto.
Qed.

Lemma getregs_rule t :
  t_traced t = true ->
  returns ptrace_getregs t (fun o t' =>
    t' = step t /\
    match o with
    | Some r => in_stop t = true /\ r = t_regs t
    | None => in_stop t = true -> refused t t'
    end).
Proof.
  intros Ht. unfold ptrace_getregs. apply returns_request.
  - intros Hf. split; [done|]. intros Hs.
    destruct Hf as [Hf|[Hf|Hf]]; [|congruence|done]. apply refused_step; simpl; auto.
  - intros r t' Hk Hs [= <- <-]. done.
Qed.

Definition restore_event (saved : Regs) (trap orig : Z) (e : event) : Prop :=
  e = EvPoke trap orig \/ e = EvSetregs saved.

(** Restoring works unless the kernel refuses. *)
Lemma restore_spec (saved : Regs) (trap orig : Z) t :
  t_traced t = true -> 0 <= orig < 2 ^ 64 ->
  returns (restore saved trap orig) t (fun _ t' =>
    req_post (restore_event saved trap orig) t t' /\
    (in_stop t = true -> refused t t' \/
       (t_regs t' = saved /\ forall w', peek (t_mem t') trap = Some w' -> w' = orig))).
Proof.
  intros Ht Ho. unfold restore. apply returns_bind.
  eapply returns_mono; [by apply poke_rule|]. intros r t1 (Hp1 & _ & H1).
  apply returns_bind. eapply returns_mono; [apply setregs_rule; by eapply extends_traced, Hp1|].
  intros o t2 (Hp2 & Hm2 & H2). apply returns_ret.
  split.
  { eapply req_post_trans; (eapply req_post_weaken; [|eassumption]); unfold restore_event; auto. }
  intros Hs. pose proof (req_post_in_stop _ _ _ Hp1 Hs) as Hs1.
  pose proof (extends_steps _ _ _ (proj1 Hp1)). pose proof (extends_steps _ _ _ (proj1 Hp2)).
  destruct o as [[]|].
  2: { left. destruct H2 as [_ H2]. by eapply refused_mono; [| |apply H2]. }
  destruct H2 as (_ & Hr & _). destruct r as [[]|].
  - right. split; [done|]. destruct H1 as [_ Hk]. rewrite Hm2, (peek_poke _ _ _ _ Ho Hk). congruence.
  - destruct H1 as [Hm1 Hf]. destruct (Hf Hs) as [Hf'|Hf'].
    + left. by eapply refused_mono; [| |exact Hf'].
    + right. split; [done|]. rewrite Hm2, Hm1. unfold poke in Hf'. unfold peek.
      by destruct (peek_bytes 8 (t_mem t) trap).
Qed.

(** The wait loop resumes and waits. *)
Definition wait_event (e : event) : Prop := e = EvCont \/ exists st r, e = EvStop st r.

(** The wait loop ends within its bound: at a trap, the only one it saw, with a
    dead target, or giving up on a stopped target, unless the kernel refuses. *)
Lemma call_loop_spec (fuel : nat) (spurious : Z) t :
  in_stop t = true -> Z.of_nat fuel + spurious = 17 -> 0 <= spurious < 17 ->
  returns (call_loop fuel spurious) t (fun l t' =>
    extends wait_event t t' /\
    match l with
    | LTrap => in_stop t' = true /\
        exists es, t_log t' = t_log t ++ es ++ [EvStop (WStopped SIGTRAP) (t_regs t')] /\
          Forall run_event es
    | LDied => t_alive t' = false
    | LRestore => refused t t' \/ in_stop t' = true
    end).
Proof.
  revert spurious t. induction fuel as [|fuel IH]; intros spurious t Hs Hf Hb; [lia|].
  cbn [call_loop]. pose proof Hs as (Ha & Ht & Hst)%in_stop_true.
  apply returns_bind. unfold ptrace_cont. apply returns_request.
  { intros [Hk|[Hk|Hk]]; [|congruence|done]. apply returns_ret.
    split; [by apply extends_step|]. left. apply refused_step; simpl; auto. }
  intros [] t1 Hk _ [= <-]. set (t1 := log EvCont (with_trace true false (step t))).
  assert (extends wait_event t t1) as He1.
  { eapply (extends_log _ _ _ EvCont); simpl; auto. by left. }
  apply returns_bind. apply returns_waitpid; [done..| |].
  { intros Hk1. apply returns_ret. split.
    - eapply extends_trans; [done|by apply extends_step].
    - left. apply (refused_mono _ t1 (step t1)); [simpl; lia|lia|].
      apply refused_step; [done|simpl; lia]. }
  intros st r m _ _. set (t2 := mkTarget _ _ _ _ _ _ _).
  assert (t_log t2 = t_log t ++ [EvCont; EvStop st r]) as Hl2.
  { simpl. by rewrite <- (assoc_L (++)). }
  assert (extends wait_event t t2) as He2.
  { eapply extends_trans; [done|]. eapply (extends_log _ _ _ (EvStop st r)); simpl; auto.
    right. eauto. }
  destruct st as [| |sig]; [by apply returns_ret..|].
  case_if; bool_prop.
  { apply returns_ret. subst sig. split_and!; [done..|]. exists [EvCont].
    rewrite Hl2. split; [done|]. constructor; [by left|done]. }
  case_if; [apply returns_ret; auto|].
  eapply returns_mono; [apply IH; [done|lia|lia]|].
  intros l t' [He Hend]. split; [by eapply extends_trans|]. pose proof (extends_steps _ _ _ He2).
  destruct l; [|done|].
  - destruct Hend as (Hs' & es & Hl & Hr). split; [done|].
    exists ([EvCont; EvStop (WStopped sig) r] ++ es). split.
    { by rewrite Hl, Hl2, <- !(assoc_L (++)). }
    constructor; [by left|]. constructor; [|done]. right. eauto.
  - destruct Hend as [Hr|Hr]; [left|by right]. by eapply refused_mono; [| |exact Hr].
Qed.

(** Planting the trap: the word that was there, or nothing changed. *)
Lemma poke_byte_rule (a v : Z) t :
  in_stop t = true ->
  returns (poke_byte a v) t (fun r t' =>
    req_post (fun e => exists w, e = EvPoke a w) t t' /\ t_regs t' = t_regs t /\
    match r with
    | Some w => peek (t_mem t) a = Some w
    | None => t_mem t' = t_mem t
    end).
Proof.
  intros Hs. pose proof Hs as (_ & Ht & _)%in_stop_true.
  unfold poke_byte, ptrace_peek. apply returns_bind, returns_request.
  { intros _. apply returns_ret. split_and!; [by apply req_post_step|done|done]. }
  intros w t1 _ _ Hp. change (t_mem (step t)) with (t_mem t) in Hp.
  destruct (peek (t_mem t) a) as [w'|]; simpl in Hp; [|done]. injection Hp as <- <-.
  apply returns_bind. eapply returns_mono; [by apply poke_rule|].
  intros r t2 (Hp2 & Hr2 & H2). apply returns_ret. split_and!; [|done|].
  - eapply req_post_trans; [by apply req_post_step|].
    eapply req_post_weaken; [|exact Hp2]. intros e ->. eauto.
  - destruct r as [[]|]; [done|]. destruct H2 as [Hm _]. by rewrite Hm.
Qed.

Lemma ran_app (call : Regs) (ret : Z) (es es' : list event) :
  ran call ret es -> ran call ret (es ++ es').
Proof.
  intros (e0 & e1 & e2 & r & -> & Hr & Hret). exists e0, e1, (e2 ++ es'), r.
  split_and!; [|done|done]. by rewrite <- !(assoc_L (++)).
Qed.

(** A call never does more than it may, always ends, and leaves the target's own
    context alone unless the target died or the kernel refused a request. *)
Lemma restore_post (call : Regs) (w ok ret : Z) t t1 (Q : Z * Z -> Target -> Prop) :
  peek (t_mem t) (rip (t_regs t)) = Some w ->
  extends (call_event (t_regs t) call) t t1 ->
  refused t t1 \/ in_stop t1 = true ->
  ok = 0 \/ (ok = 1 /\ t_alive t1 = true /\
             ran call ret (drop (length (t_log t)) (t_log t1))) ->
  (forall t', call_post call t ret ok t' -> Q (ret, ok) t') ->
  returns (_ ← restore (t_regs t) (rip (t_regs t)) w; mret (ret, ok)) t1 Q.
Proof.
  intros Hw He1 Hs1 Hok HQ. apply returns_bind. eapply returns_mono.
  { apply restore_spec; [by eapply extends_traced|by eapply peek_range]. }
  intros [] t2 [Hp2 Hres]. apply returns_ret, HQ. pose proof Hp2 as (He2 & Ha2 & _).
  pose proof (extends_steps _ _ _ He1). pose proof (extends_steps _ _ _ He2).
  assert (extends (call_event (t_regs t) call) t t2) as He.
  { eapply extends_trans; [done|]. eapply extends_weaken; [|done].
    intros e [-> | ->]; simpl; auto. }
  split_and!; [done| |].
  - destruct Hs1 as [Hr|Hs1]; [left; by eapply refused_mono; [| |exact Hr]|].
    destruct (Hres Hs1) as [Hr|[Hr Hp]]; [left; by eapply refused_mono; [| |exact Hr]|].
    right; right. split_and!; [by eapply req_post_in_stop|done|]. intros w1 w2 H1 H2.
    rewrite Hw in H1. injection H1 as <-. by apply Hp.
  - destruct Hok as [?|(? & Ha & Hin)]; [by left|right]. split_and!; [done|congruence|].
    destruct He1 as (_ & _ & es & Hes & _), He2 as (_ & _ & es' & Hes' & _).
    rewrite Hes', Hes, <- (assoc_L (++)), drop_app_length.
    rewrite Hes, drop_app_length in Hin. by apply ran_app.
Qed.

(** From the point where the registers of the call are set: run, wait, restore. *)
Lemma run_call_spec (call : Regs) (w : Z) t t3 es3 (Q : Z * Z -> Target -> Prop) :
  peek (t_mem t) (rip (t_regs t)) = Some w -> in_stop t3 = true ->
  extends (call_event (t_regs t) call) t t3 ->
  t_log t3 = t_log t ++ es3 ++ [EvSetregs call] ->
  (forall ret ok t', call_post call t ret ok t' -> (ok = 0 -> ret = 0) -> Q (ret, ok) t') ->
  returns (
    l ← call_loop 17 0;
    match l with
    | LDied => mret (0, 0)
    | LRestore => _ ← restore (t_regs t) (rip (t_regs t)) w; mret (0, 0)
    | LTrap =>
        a ← ptrace_getregs;
        match a with
        | None => _ ← restore (t_regs t) (rip (t_regs t)) w; mret (0, 0)
        | Some after => _ ← restore (t_regs t) (rip (t_regs t)) w; mret (rax after, 1)
        end
    end) t3 Q.
Proof.
  intros Hw Hs3 He3 Hl3 HQ.
  apply returns_bind. eapply returns_mono; [by apply call_loop_spec|].
  intros l t4 [He4 H4]. pose proof (extends_steps _ _ _ He3).
  assert (extends (call_event (t_regs t) call) t t4) as He.
  { eapply extends_trans; [done|]. eapply extends_weaken; [|done].
    by intros e [->|(st & r & ->)]. }
  destruct l.
  - destruct H4 as (Hs4 & es & Hl4 & Hrun).
    apply returns_bind. eapply returns_mono; [apply getregs_rule; by eapply extends_traced|].
    intros a t5 [-> Ha]. assert (extends (call_event (t_regs t) call) t (step t4)) as He5.
    { eapply extends_trans; [done|]. apply extends_step. by eapply extends_traced. }
    destruct a as [after|]; (eapply restore_post; [done|done|by right| |]).
    + destruct Ha as [_ ->]. right. split_and!; [done|by apply in_stop_alive|].
      exists es3, es, [], (t_regs t4). split_and!; [|done|done].
      change (t_log (step t4)) with (t_log t4).
      by rewrite Hl4, Hl3, <- !(assoc_L (++)), drop_app_length.
    + intros t' H'. by apply HQ.
    + by left.
    + intros t' H'. by apply HQ.
  - apply returns_ret, HQ; [|done]. split_and!; [done|by right; left|by left].
  - eapply restore_post; eauto. destruct H4 as [H4|H4]; [left|by right].
    by eapply refused_mono; [| |exact H4].
Qed.

Lemma remote_call_spec (func a0 a1 a2 a3 a4 a5 : Z) t :
  in_stop t = true ->
  returns (remote_call func a0 a1 a2 a3 a4 a5) t (fun '(ret, ok) t' =>
    call_post (call_regs (t_regs t) func a0 a1 a2 a3 a4 a5) t ret ok t' /\ (ok = 0 -> ret = 0)).
Proof.
  intros Hs. pose proof Hs as (_ & Ht & _)%in_stop_true. unfold remote_call.
  set (call := call_regs (t_regs t) func a0 a1 a2 a3 a4 a5).
  apply returns_bind. eapply returns_mono; [by apply getregs_rule|].
  intros [saved|] t1 [-> Hg].
  2: { apply returns_ret. split; [|done]. split_and!; [by apply extends_step|left; auto|by left]. }
  destruct Hg as [_ ->].
  apply returns_bind. eapply returns_mono; [by apply poke_byte_rule|].
  intros [w|] t1 (Hp1 & Hr1 & Hm1).
  2: { apply returns_ret. split; [|done]. pose proof Hp1 as (He1 & _).
       split_and!; [|right; right|by left].
       - eapply extends_trans; [by apply extends_step|]. eapply extends_weaken; [|done].
         by intros e [? ->].
       - split_and!; [by eapply req_post_in_stop|done|]. rewrite Hm1. simpl. congruence. }
  change (t_mem (step t)) with (t_mem t) in Hm1.
  assert (extends (call_event (t_regs t) call) t t1) as He1.
  { eapply extends_trans; [by apply extends_step|]. eapply extends_weaken; [|apply Hp1].
    by intros e [? ->]. }
  assert (in_stop t1 = true) as Hs1 by by eapply req_post_in_stop.
  apply returns_bind. eapply returns_mono; [apply poke_rule; by eapply extends_traced|].
  intros p t2 (Hp2 & Hr2 & _).
  assert (in_stop t2 = true) as Hs2 by by eapply req_post_in_stop.
  assert (extends (call_event (t_regs t) call) t t2) as He2.
  { eapply extends_trans; [done|]. eapply extends_weaken; [|apply Hp2]. by intros e ->. }
  destruct p as [[]|]; [|eapply restore_post; eauto].
  apply returns_bind. eapply returns_mono; [apply setregs_rule; by eapply extends_traced|].
  intros o t3 (Hp3 & Hm3 & H3).
  assert (in_stop t3 = true) as Hs3 by by eapply req_post_in_stop.
  assert (extends (call_event (t_regs t) call) t t3) as He3.
  { eapply extends_trans; [done|]. eapply extends_weaken; [|apply Hp3]. intros e ->. by left. }
  destruct o as [[]|]; [|eapply restore_post; eauto].
  destruct H3 as (_ & _ & Hl3), He2 as (_ & _ & es & Hes & _).
  apply (run_call_spec call w t t3 es _ Hm1 Hs3 He3); [|done].
  by rewrite Hl3, Hes, <- (assoc_L (++)).
Qed.

(** ** A call that returns *)

(** On a kernel that refuses nothing, requests on a stopped target succeed. *)
Section Obliging.
Context (Hno : forall k, k_fail k = false).

Lemma not_refused t t' : ~ refused t t'.
Proof. intros (k & _ & Hk). by rewrite Hno in Hk. Qed.

Lemma poke_succeeds (a w : Z) t (Q : option unit -> Target -> Prop) :
  in_stop t = true -> is_Some (peek (t_mem t) a) ->
  (forall t' m', poke (t_mem t) a w = Some m' -> t_mem t' = m' -> in_stop t' = true ->
     t_regs t' = t_regs t -> Q (Some tt) t') ->
  returns (ptrace_poke a w) t Q.
Proof.
  intros Hs [v Hv] HQ. eapply returns_mono; [apply poke_rule; by apply in_stop_traced|].
  intros [[]|] t' (Hp & Hr & H).
  - destruct H as [_ H]. eapply HQ; [done|done|by eapply req_post_in_stop|done].
  - destruct H as [_ H]. destruct (H Hs) as [Hf|Hf]; [by apply not_refused in Hf|].
    unfold peek in Hv. unfold poke in Hf. by destruct (peek_bytes 8 (t_mem t) a).
Qed.

Lemma setregs_succeeds (r : Regs) t (Q : option unit -> Target -> Prop) :
  in_stop t = true ->
  (forall t', t_mem t' = t_mem t -> in_stop t' = true -> t_regs t' = r -> Q (Some tt) t') ->
  returns (ptrace_setregs r) t Q.
Proof.
  intros Hs HQ. eapply returns_mono; [apply setregs_rule; by apply in_stop_traced|].
  intros [[]|] t' (Hp & Hm & H).
  - destruct H as (_ & Hr & _). apply HQ; [done|by eapply req_post_in_stop|done].
  - destruct H as [_ H]. by apply H, not_refused in Hs.
Qed.

Lemma getregs_succeeds t (Q : option Regs -> Target -> Prop) :
  in_stop t = true -> Q (Some (t_regs t)) (step t) -> returns ptrace_getregs t Q.
Proof.
  intros Hs HQ. eapply returns_mono; [apply getregs_rule; by apply in_stop_traced|].
  intros [r|] t' [-> H]; [by destruct H as [_ ->]|]. by apply H, not_refused in Hs.
Qed.

(** A function that, entered with its arguments in registers and the trap as its
    return address, runs to the trap is called exactly: the result is its return
    value, memory is what it made of it with the trapped word put back, and the
    registers are the target's own. *)
Lemma remote_call_returns (func a0 a1 a2 a3 a4 a5 ret : Z) (F : mem -> mem) t :
  let saved := t_regs t in
  let call := call_regs saved func a0 a1 a2 a3 a4 a5 in
  in_stop t = true -> 0 <= rip saved < 2 ^ 64 ->
  is_Some (peek (t_mem t) (rip saved)) -> is_Some (peek (t_mem t) (rsp call)) ->
  (forall n t1, t_regs t1 = call -> peek (t_mem t1) (rsp call) = Some (rip saved) ->
     is_Some (peek (t_mem t1) (rip saved)) ->
     is_Some (peek (F (t_mem t1)) (rip saved)) /\
     exists r, k_run n t1 = (WStopped SIGTRAP, r, F (t_mem t1)) /\ rax r = ret) ->
  returns (remote_call func a0 a1 a2 a3 a4 a5) t (fun '(v, ok) t' =>
    v = ret /\ ok = 1 /\ in_stop t' = true /\ t_regs t' = saved /\
    exists w m1 m2,
      peek (t_mem t) (rip saved) = Some w /\
      poke (t_mem t) (rip saved) (Z.lor (Z.land w (u64 (Z.lnot 0xFF))) 0xCC) = Some m1 /\
      poke m1 (rsp call) (rip saved) = Some m2 /\
      poke (F m2) (rip saved) w = Some (t_mem t')).
Proof.
  intros saved call Hs Hrip [w Hw] Hstk Hrun. unfold remote_call.
  apply returns_bind, getregs_succeeds; [done|]. fold saved.
  apply returns_bind. unfold poke_byte, ptrace_peek. apply returns_bind, returns_request.
  { intros [Hf|[Hf|Hf]]; [by rewrite Hno in Hf|change (in_stop t = false) in Hf; congruence|]. simpl in Hf. by rewrite Hw in Hf. }
  intros w' t1 _ _ Hp1. simpl in Hp1. rewrite Hw in Hp1. injection Hp1 as <- <-.
  apply returns_bind, poke_succeeds; [done|by simpl; eauto|].
  intros t1 m1 Hm1 Ht1 Hs1 Hr1. simpl in Hm1. apply returns_ret.
  apply returns_bind, poke_succeeds; [done| |].
  { rewrite Ht1. by eapply peek_poke_is_Some. }
  intros t2 m2 Hm2 Ht2 Hs2 Hr2. rewrite Ht1 in Hm2.
  apply returns_bind, setregs_succeeds; [done|]. intros t3 Hm3 Hs3 Hr3.
  apply returns_bind. apply returns_bind. unfold ptrace_cont. apply returns_request.
  { intros [Hf|[Hf|Hf]]; [by rewrite Hno in Hf|congruence|done]. }
  intros [] t4 _ _ [= <-]. set (t4 := log EvCont _).
  assert (t_mem t4 = m2) as Hm4 by (simpl; congruence).
  destruct (Hrun (t_step t4) t4) as (Hmap & r & Hk & Hret); [done| | |].
  { rewrite Hm4. by eapply peek_poke. }
  { rewrite Hm4. eauto using peek_poke_is_Some. }
  apply returns_bind, returns_waitpid; [|done|done|by rewrite Hno|].
  { exact (in_stop_alive _ Hs3). }
  intros st r' m' Hk' _. rewrite Hk in Hk'. injection Hk' as <- <- <-. cbn [Z.eqb Pos.eqb SIGTRAP].
  apply returns_ret. apply returns_bind, getregs_succeeds; [done|].
  apply returns_bind. unfold restore. apply returns_bind, poke_succeeds; [done| |].
  { done. }
  intros t5 m5 Hm5 Ht5 Hs5 _. apply returns_bind, setregs_succeeds; [done|].
  intros t6 Hm6 Hs6 Hr6. apply returns_ret, returns_ret.
  split_and!; [done..|]. exists w, m1, m2. split_and!; [done..|]. by rewrite Hm6, Ht5, <- Hm4.
Qed.

End Obliging.

End Requests.
