(* ===== verification/Install.v ===== *)
(** * Install: installing a session in a live process (injector/install.c)

    [inject_session] over the primitives of [Remote].  The resolver of exported
    symbols is the component's only other dependency and enters through the class
    [Resolver]; [symbols_resolver] of [InjectorMain] is the instance the injector
    uses, built from [Symbols]. *)

From stdpp Require Import base numbers list gmap strings.
From S2P Require Import Prelude Runtime Remote RemoteLemmas.

Open Scope Z_scope.

(** [resolve_symbol] for the target: the address of an exported symbol of one of
    its libraries, 0 when there is none; [None] stands for a fault of the resolver
    itself. *)
Class Resolver := resolve : list Z -> list Z -> option Z.

Definition libc_so : list Z := of_string "libc.so".
Definition libssl_so : list Z := of_string "libssl.so".
Definition sym_mmap : list Z := of_string "mmap".
Definition sym_munmap : list Z := of_string "munmap".
Definition sym_d2i : list Z := of_string "d2i_SSL_SESSION".
Definition sym_set : list Z := of_string "SSL_set_session".
Definition sym_free : list Z := of_string "SSL_SESSION_free".

(** PROT_READ|PROT_WRITE and MAP_PRIVATE|MAP_ANONYMOUS *)
Definition PROT_RW : Z := 0x3.
Definition MAP_PRIV_ANON : Z := 0x22.
Definition ULONG_MAX : Z := 2 ^ 64 - 1.

Section Install.
Context {K : Kernel} {R : Resolver}.

(** [write_mem]: a length that is not an [ssize_t] is refused by the kernel; a
    length beyond the local buffer has no defined result. *)
Definition write_mem (addr : Z) (buf : list Z) (n : Z) : M Target Z :=
  w ← (if 2 ^ 63 <=? n then mret (-1)
       else if Z.of_nat (length buf) <? n then ub
       else process_vm_writev addr (take (Z.to_nat n) buf));
  mret (if w =? s64 n then 0 else -1).

Definition round_up (v a : Z) : Z := Z.land (u64 (u64 (v + a) - 1)) (u64 (Z.lnot (u64 (a - 1)))).

(** The addresses the code resolves up front. *)
Record Fns := mkFns {
  fn_mmap : Z;
  fn_munmap : Z;
  fn_d2i : Z;
  fn_set : Z;
  fn_free : Z
}.

Definition resolve_all : option Fns :=
  fn_mmap ← resolve libc_so sym_mmap;
  fn_munmap ← resolve libc_so sym_munmap;
  fn_d2i ← resolve libssl_so sym_d2i;
  fn_set ← resolve libssl_so sym_set;
  fn_free ← resolve libssl_so sym_free;
  Some (mkFns fn_mmap fn_munmap fn_d2i fn_set fn_free).

Definition fns_ok (f : Fns) : bool :=
  negb (fn_mmap f =? 0) && negb (fn_munmap f =? 0) && negb (fn_d2i f =? 0) &&
  negb (fn_set f =? 0) && negb (fn_free f =? 0).

(** From the transfer of the DER to the label [unmap]: the value of [rc]. *)
Definition install_body (f : Fns) (ssl_ptr : Z) (der : list Z) (der_len scratch : Z)
    : M Target Z :=
  let ptrloc := u64 (scratch + round_up der_len 8) in
  w1 ← write_mem scratch der der_len;
  if negb (w1 =? 0) then mret (-1)
  else
    w2 ← write_mem ptrloc (to_bytes 8 scratch) 8;
    if negb (w2 =? 0) then mret (-1)
    else
      '(sess, ok) ← remote_call (fn_d2i f) 0 ptrloc der_len 0 0 0;
      if (ok =? 0) || (sess =? 0) then mret (-1)
      else
        '(set_ret, set_ok) ← remote_call (fn_set f) ssl_ptr sess 0 0 0 0;
        '(_, _) ← remote_call (fn_free f) sess 0 0 0 0 0;
        if (set_ok =? 0) || negb (s32 set_ret =? 1) then mret (-1) else mret 0.

(** From the check of the remote [mmap] to the label [detach]. *)
Definition install_mapped (f : Fns) (ssl_ptr : Z) (der : list Z) (der_len page scratch ok : Z)
    : M Target Z :=
  if (ok =? 0) || (scratch =? 0) || (scratch =? ULONG_MAX) then mret (-1)
  else
    rc ← install_body f ssl_ptr der der_len scratch;
    '(_, _) ← remote_call (fn_munmap f) scratch page 0 0 0 0;
    mret rc.

Definition inject_session (ssl_ptr : Z) (der : list Z) (der_len : Z) : M Target Z :=
  f ← lift_option resolve_all;
  if negb (fns_ok f) then mret (-1)
  else
    s ← injector_seize;
    if negb (s =? 0) then mret (-1)
    else
      let page := round_up (u64 (der_len + 16)) 4096 in
      '(scratch, ok) ← remote_call (fn_mmap f) 0 page PROT_RW MAP_PRIV_ANON ULONG_MAX 0;
      rc ← install_mapped f ssl_ptr der der_len page scratch ok;
      _ ← injector_detach;
      mret rc.

(** ** Specification vocabulary *)

(** Since [t0], the target kept its registers, or died, or the kernel refused a
    request. *)
Definition kept (t0 t : Target) : Prop :=
  refused t0 t \/ t_alive t = false \/ (in_stop t = true /\ t_regs t = t_regs t0).

(** Between the seizure and the release: transfers stay inside [lo, hi), when
    that is a range of the address space. *)
Definition inj_event (lo hi : Z) (e : event) : Prop :=
  match e with
  | EvSeize | EvDetach => False
  | EvWrite a bs => 0 <= lo -> hi <= 2 ^ 64 -> lo <= a /\ a + Z.of_nat (length bs) <= hi
  | _ => True
  end.

(** No transfer, no seizure and no release. *)
Definition quiet (e : event) : Prop :=
  match e with
  | EvSeize | EvDetach | EvWrite _ _ => False
  | _ => True
  end.

(** A function was entered with these arguments and returned [ret]. *)
Definition called (func a0 a1 a2 a3 a4 a5 ret : Z) (es : list event) : Prop :=
  exists saved, ran (call_regs saved func a0 a1 a2 a3 a4 a5) ret es.

(** What an injection did while it held the target.  Without a mapping it failed
    and transferred nothing.  Otherwise [scratch] is what the remote [mmap]
    returned, every transfer comes after that and lies inside the mapping, and on
    success the whole DER and the pointer to it were transferred,
    [d2i_SSL_SESSION] of them returned the session [sess], and [SSL_set_session]
    of the given SSL object and that session returned 1 as an [int]. *)
Definition injected (f : Fns) (ssl_ptr : Z) (der : list Z) (rc : Z) (es : list event) : Prop :=
  let n := Z.of_nat (length der) in
  let page := round_up (u64 (n + 16)) 4096 in
  (rc = -1 /\ Forall quiet es) \/
  exists scratch e0 e', es = e0 ++ e' /\ scratch <> 0 /\ scratch <> ULONG_MAX /\
    called (fn_mmap f) 0 page PROT_RW MAP_PRIV_ANON ULONG_MAX 0 scratch e0 /\
    Forall quiet e0 /\ Forall (inj_event scratch (scratch + page)) e' /\
    (rc = 0 -> exists sess set_ret e1 e2 e3, sess <> 0 /\ s32 set_ret = 1 /\
       e' = [EvWrite scratch der;
             EvWrite (u64 (scratch + round_up n 8)) (to_bytes 8 scratch)] ++ e1 ++ e2 ++ e3 /\
       called (fn_d2i f) 0 (u64 (scratch + round_up n 8)) n 0 0 0 sess e1 /\
       called (fn_set f) ssl_ptr sess 0 0 0 0 set_ret e2).

(** What an injection leaves of a target, whatever state it was in: the dead stay
    dead, and one that was not traced is not traced afterwards unless it died or
    the kernel refused a request. *)
Definition target_step (t t' : Target) : Prop :=
  (t_step t <= t_step t')%nat /\ (t_alive t = false -> t_alive t' = false) /\
  (t_traced t = false -> refused t t' \/ t_alive t' = false \/ t_traced t' = false).

(** The state of an injection in progress, relative to the seizure. *)
Definition inj_inv (lo hi : Z) (t0 t : Target) : Prop :=
  extends (inj_event lo hi) t0 t /\ kept t0 t.

End Install.

(** ** Lemmas *)

(** [round_up] on a power of two: the next multiple, unless the sum wraps. *)
Lemma round_up_spec (v k : Z) :
  0 <= v -> 0 <= k -> v + 2 ^ k < 2 ^ 64 ->
  exists q, round_up v (2 ^ k) = q * 2 ^ k /\ v <= round_up v (2 ^ k) < v + 2 ^ k.
Proof.
  intros Hv Hk Hw. assert (0 < 2 ^ k) by lia.
  assert (k < 64).
  { destruct (Z.lt_ge_cases k 64) as [|Hge]; [done|].
    assert (2 ^ 64 <= 2 ^ k) by (apply Z.pow_le_mono_r; lia). lia. }
  unfold round_up. rewrite !(wrapU_small 64) with (z := v + 2 ^ k) by lia.
  rewrite (wrapU_small 64 (v + 2 ^ k - 1)) by lia.
  rewrite (wrapU_small 64 (2 ^ k - 1)) by lia.
  assert (Z.land (v + 2 ^ k - 1) (u64 (Z.lnot (2 ^ k - 1))) =
          Z.shiftl (Z.shiftr (v + 2 ^ k - 1) k) k) as ->.
  { apply Z.bits_inj'. intros n Hn. rewrite Z.land_spec, Z.shiftl_spec by done.
    unfold wrapU. replace (2 ^ k - 1) with (Z.ones k) by (rewrite Z.ones_equiv; lia).
    destruct (decide (n < 64)) as [Hn64|Hn64].
    - rewrite Z.mod_pow2_bits_low, Z.lnot_spec by lia. destruct (decide (n < k)).
      + rewrite Z.ones_spec_low by lia. rewrite (Z.testbit_neg_r _ (n - k)) by lia.
        apply andb_false_r.
      + rewrite Z.ones_spec_high by lia. rewrite Z.shiftr_spec by lia. simpl.
        rewrite andb_true_r. f_equal. lia.
    - rewrite Z.mod_pow2_bits_high by lia. rewrite andb_false_r. symmetry.
      rewrite Z.shiftr_spec by lia. replace (n - k + k) with n by lia.
      rewrite <- (Z.mod_small (v + 2 ^ k - 1) (2 ^ 64)) by lia.
      apply Z.mod_pow2_bits_high. lia. }
  rewrite Z.shiftl_mul_pow2, Z.shiftr_div_pow2 by lia.
  exists ((v + 2 ^ k - 1) / 2 ^ k). split; [done|].
  pose proof (Z.div_mod (v + 2 ^ k - 1) (2 ^ k)).
  pose proof (Z.mod_pos_bound (v + 2 ^ k - 1) (2 ^ k)). lia.
Qed.

Section InstallLemmas.
Context {K : Kernel} {R : Resolver}.
Implicit Types t : Target.

Lemma kept_trans t0 t1 t2 :
  kept t0 t1 -> kept t1 t2 -> (t_step t0 <= t_step t1 <= t_step t2)%nat ->
  (t_alive t1 = false -> t_alive t2 = false) -> kept t0 t2.
Proof.
  intros [H|[H|[Hs Hr]]] H2 Hst Hd.
  - left. eapply refused_mono; [| |exact H]; lia.
  - right. left. auto.
  - destruct H2 as [H2|[H2|[Hs2 Hr2]]].
    + left. eapply refused_mono; [| |exact H2]; lia.
    + by right; left.
    + right. right. split; [done|congruence].
Qed.

(** A call on any traced target: on one that is not stopped nothing happens. *)
Lemma call_any (func a0 a1 a2 a3 a4 a5 : Z) (lo hi : Z) t0 t :
  inj_inv lo hi t0 t ->
  returns (remote_call func a0 a1 a2 a3 a4 a5) t (fun '(ret, ok) t' =>
    inj_inv lo hi t0 t' /\ (t_step t <= t_step t')%nat /\
    exists es, t_log t' = t_log t ++ es /\
      (ok = 0 \/ (ok = 1 /\ in_stop t = true /\ called func a0 a1 a2 a3 a4 a5 ret es))).
Proof.
  intros [He Hk]. pose proof (extends_traced _ _ _ He) as Ht.
  pose proof (extends_steps _ _ _ He).
  destruct (in_stop t) eqn:Hs.
  - eapply returns_mono; [by apply remote_call_spec|].
    intros [ret ok] t' [(He' & Hctx & Hok) _]. pose proof (extends_steps _ _ _ He').
    pose proof He' as (_ & _ & es & Hes & _). split_and!; [|done|].
    + split.
      * eapply extends_trans; [done|]. eapply extends_weaken; [|done]. by intros [].
      * eapply kept_trans; [done| |lia|].
        -- destruct Hctx as [?|[?|(? & ? & _)]]; [by left|by right; left|by right; right].
        -- by rewrite (in_stop_alive _ Hs).
    + exists es. split; [done|]. destruct Hok as [?|(? & _ & Hin)]; [by left|right].
      split_and!; [done|done|]. rewrite Hes, drop_app_length in Hin. by eexists.
  - unfold remote_call. apply returns_bind. eapply returns_mono; [by apply getregs_rule|].
    intros [r|] t' [-> Hg]; [by rewrite Hs in Hg; destruct Hg|]. apply returns_ret.
    split_and!; [|simpl; lia|].
    + split; [eapply extends_trans; [done|by apply extends_step]|].
      destruct Hk as [Hk|[Hk|[Hk _]]]; [left|by right; left|congruence].
      eapply refused_mono; [| |exact Hk]; simpl; lia.
    + exists []. rewrite app_nil_r. split; [done|]. by left.
Qed.

(** A transfer within bounds. *)
Lemma write_mem_spec (addr : Z) (buf : list Z) (n lo hi : Z) t0 t :
  inj_inv lo hi t0 t -> 0 <= n -> n = Z.of_nat (length buf) -> n < 2 ^ 63 ->
  (0 <= lo -> hi <= 2 ^ 64 -> lo <= addr /\ addr + n <= hi) ->
  returns (write_mem addr buf n) t (fun rc t' =>
    inj_inv lo hi t0 t' /\
    exists es, t_log t' = t_log t ++ es /\ (rc = 0 -> es = [EvWrite addr buf])).
Proof.
  intros [He Hk] Hn Hlen Hb Hin. pose proof (extends_traced _ _ _ He) as Ht.
  pose proof (extends_steps _ _ _ He).
  unfold write_mem. rewrite (proj2 (Z.leb_gt _ _)), (proj2 (Z.ltb_ge _ _)) by lia.
  rewrite take_ge by lia. rewrite (wrapS_small 64) by lia.
  apply returns_bind. unfold process_vm_writev, returns_or at 1.
  destruct (k_fail (t_step t) || negb (t_alive t)) eqn:Ef.
  - apply returns_ret. split.
    + split; [eapply extends_trans; [done|by apply extends_step]|].
      destruct Hk as [Hk|[Hk|[Hk Hr]]]; [left|by right; left|by right; right].
      eapply refused_mono; [| |exact Hk]; simpl; lia.
    + exists []. rewrite app_nil_r. split; [done|]. case_if; [lia|done].
  - set (k := Nat.min _ _). apply returns_ret. split.
    + split.
      * eapply extends_trans; [done|].
        eapply (extends_log _ _ _ (EvWrite addr (take k buf))); [|done|done|simpl; lia].
        simpl. intros H1 H2. specialize (Hin H1 H2). rewrite length_take. lia.
      * destruct Hk as [Hk|[Hk|[Hk Hr]]]; [left|by right; left|by right; right].
        eapply refused_mono; [| |exact Hk]; simpl; lia.
    + exists [EvWrite addr (take k buf)]. split; [done|]. case_if; [|done].
      intros _. by rewrite take_ge by lia.
Qed.

(** The layout of the scratch mapping: the DER, then the pointer to it. *)
Lemma layout_ok (n scratch : Z) :
  0 <= n < 2 ^ 31 ->
  let page := round_up (u64 (n + 16)) 4096 in
  n <= round_up n 8 /\ round_up n 8 + 8 <= page /\ page < n + 16 + 4096 /\
  (0 <= scratch -> scratch + page <= 2 ^ 64 ->
     u64 (scratch + round_up n 8) = scratch + round_up n 8).
Proof.
  intros Hn page. unfold page. rewrite (wrapU_small 64) by lia.
  change 8 with (2 ^ 3) at 1 2 4 5. change 4096 with (2 ^ 12).
  destruct (round_up_spec n 3) as (q & _ & Hq); [lia..|].
  destruct (round_up_spec (n + 16) 12) as (q' & _ & Hq'); [lia..|].
  split_and!; try lia. intros H1 H2. apply wrapU_small. lia.
Qed.

Lemma install_body_spec (f : Fns) (ssl_ptr scratch : Z) (der : list Z) t0 t :
  let n := Z.of_nat (length der) in
  let page := round_up (u64 (n + 16)) 4096 in
  let ptrloc := u64 (scratch + round_up n 8) in
  n < 2 ^ 31 -> inj_inv scratch (scratch + page) t0 t ->
  returns (install_body f ssl_ptr der n scratch) t (fun rc t' =>
    inj_inv scratch (scratch + page) t0 t' /\ (rc = 0 \/ rc = -1) /\
    exists es, t_log t' = t_log t ++ es /\
      (rc = 0 -> exists sess set_ret es1 es2 es3, sess <> 0 /\ s32 set_ret = 1 /\
         es = [EvWrite scratch der; EvWrite ptrloc (to_bytes 8 scratch)] ++ es1 ++ es2 ++ es3 /\
         called (fn_d2i f) 0 ptrloc n 0 0 0 sess es1 /\
         called (fn_set f) ssl_ptr sess 0 0 0 0 set_ret es2)).
Proof.
  intros n page ptrloc Hn Hi. unfold install_body. fold n ptrloc.
  destruct (layout_ok n scratch) as (Hl1 & Hl2 & Hl3 & Hl4); [lia|]. fold page in Hl2, Hl3, Hl4.
  apply returns_bind. eapply returns_mono; [apply (write_mem_spec scratch der n); try done; lia|].
  intros w1 t1 (Hi1 & es1 & Hl & Hw1).
  case_if; [apply returns_ret; split_and!; [done|by right|]; by exists es1|].
  rewrite Hw1 in Hl by done. clear Hw1.
  apply returns_bind.
  eapply returns_mono; [apply (write_mem_spec ptrloc (to_bytes 8 scratch) 8); try done|].
  { intros H1 H2. unfold ptrloc. rewrite Hl4 by lia. lia. }
  intros w2 t2 (Hi2 & es2 & Hl' & Hw2).
  case_if.
  { apply returns_ret. split_and!; [done|by right|]. exists ([EvWrite scratch der] ++ es2).
    rewrite Hl', Hl. by rewrite (assoc_L (++)). }
  rewrite Hw2 in Hl' by done. clear Hw2.
  apply returns_bind. eapply returns_mono; [by apply call_any|].
  intros [sess ok] t3 (Hi3 & _ & es3 & Hl3' & Hok).
  case_if.
  { apply returns_ret. split_and!; [done|by right|]. rewrite Hl3', Hl', Hl, <- !(assoc_L (++)).
    eexists. by split. }
  destruct Hok as [?|(_ & _ & Hd2i)]; [done|].
  apply returns_bind. eapply returns_mono; [by apply call_any|].
  intros [ret set_ok] t4 (Hi4 & _ & es4 & Hl4' & Hset).
  apply returns_bind. eapply returns_mono; [by apply call_any|].
  intros [v free_ok] t5 (Hi5 & _ & es5 & Hl5' & _).
  case_if; apply returns_ret; (split_and!; [done|auto|]);
    rewrite Hl5', Hl4', Hl3', Hl', Hl, <- !(assoc_L (++)); eexists; (split; [done|]); [done|].
  intros _. destruct Hset as [?|(_ & _ & Hset)]; [done|]. by exists sess, ret, es3, es4, es5.
Qed.

(** Everything between the two calls that frame it, given what the remote [mmap]
    did. *)
Lemma install_mapped_spec (f : Fns) (ssl_ptr scratch ok : Z) (der : list Z) t0 t1 e0 :
  let n := Z.of_nat (length der) in
  let page := round_up (u64 (n + 16)) 4096 in
  n < 2 ^ 31 -> inj_inv scratch (scratch + page) t0 t1 -> t_log t1 = t_log t0 ++ e0 ->
  Forall quiet e0 ->
  (ok = 0 \/ called (fn_mmap f) 0 page PROT_RW MAP_PRIV_ANON ULONG_MAX 0 scratch e0) ->
  returns (install_mapped f ssl_ptr der n page scratch ok) t1 (fun rc t2 =>
    inj_inv scratch (scratch + page) t0 t2 /\ (rc = 0 \/ rc = -1) /\
    exists es, t_log t2 = t_log t0 ++ es /\ injected f ssl_ptr der rc es).
Proof.
  intros n page Hn Hi1 Hl1 Hq Hok. unfold install_mapped, injected. fold n page.
  destruct ((ok =? 0) || (scratch =? 0) || (scratch =? ULONG_MAX)) eqn:Ec.
  { apply returns_ret. split_and!; [done|by right|]. exists e0. split; [done|]. by left. }
  rewrite !orb_false_iff, !Z.eqb_neq in Ec. destruct Ec as [[Hk Hs0] Hs1].
  destruct Hok as [Hok|Hmm]; [done|].
  apply returns_bind. eapply returns_mono; [by apply install_body_spec|]. fold n page.
  intros rc t2 (Hi2 & Hrc & es & Hl2 & Htr).
  apply returns_bind. eapply returns_mono; [by apply call_any|].
  intros [v mok] t3 (Hi3 & _ & es3 & Hl3 & _). apply returns_ret. split_and!; [done|done|].
  assert (t_log t3 = t_log t0 ++ e0 ++ es ++ es3) as Hl.
  { by rewrite Hl3, Hl2, Hl1, <- !(assoc_L (++)). }
  exists (e0 ++ es ++ es3). split; [done|]. right. exists scratch, e0, (es ++ es3).
  split_and!; [done..| |].
  - destruct Hi3 as [(_ & _ & es' & He & Hf) _]. rewrite Hl in He. apply app_inv_head in He as <-.
    by apply Forall_app in Hf as [_ ?].
  - intros Hr. destruct (Htr Hr) as (sess & sr & e1 & e2 & e3 & Hs & Hsr & -> & Hc1 & Hc2).
    exists sess, sr, e1, e2, (e3 ++ es3). split_and!; [done..| |done|done].
    by rewrite <- !(assoc_L (++)).
Qed.

Lemma injector_seize_spec t :
  t_alive t = true -> t_traced t = false ->
  returns injector_seize t (fun rc t' => (t_step t <= t_step t')%nat /\
    ((rc = 0 /\ in_stop t' = true /\
      exists sig, t_log t' = t_log t ++ [EvSeize; EvStop (WStopped sig) (t_regs t')]) \/
     (rc = -1 /\ (refused t t' \/ t_alive t' = false)))).
Proof.
  intros Ha Ht. unfold injector_seize. apply returns_bind. unfold ptrace_seize.
  apply returns_request.
  { rewrite Ha, Ht. intros [Hk|[Hk|Hk]]; [|done|done]. apply returns_ret.
    split; [simpl; lia|]. right. split; [done|]. left. apply refused_step; simpl; auto. }
  intros [] t1 _ _ [= <-]. set (t1 := log EvSeize _).
  apply returns_bind. unfold ptrace_interrupt. apply returns_request.
  { intros [Hk|[Hk|Hk]]; [|simpl in Hk; rewrite Ha in Hk; done|done]. apply returns_ret.
    split; [simpl; lia|]. right. split; [done|]. left.
    apply (refused_mono _ t1 (step t1)); [simpl; lia|lia|]. apply refused_step; [done|simpl; lia]. }
  intros [] t2 _ _ [= <-].
  apply returns_bind. apply returns_waitpid; [done..| |].
  { intros Hk. apply returns_ret. split; [simpl; lia|]. right. split; [done|]. left.
    apply (refused_mono _ (step t1) (step (step t1))); [simpl; lia|lia|].
    apply refused_step; [done|simpl; lia]. }
  intros st r m _ _. destruct st; apply returns_ret; (split; [simpl; lia|]); [auto..|].
  left. split_and!; [done..|]. eexists. simpl. by rewrite <- (assoc_L (++)).
Qed.

(** Detaching ends the trace unless it is refused or the target is gone. *)
Lemma detach_spec t0 t :
  extends (fun _ => True) t0 t -> kept t0 t ->
  returns injector_detach t (fun _ t' => (t_step t <= t_step t')%nat /\
    (refused t0 t' \/ t_alive t' = false \/
     (t_traced t' = false /\ t_stopped t' = false /\ t_regs t' = t_regs t0)) /\
    (t_log t' = t_log t \/ t_log t' = t_log t ++ [EvDetach])).
Proof.
  intros He Hk. pose proof (extends_steps _ _ _ He). unfold injector_detach, ptrace_detach.
  apply returns_bind, returns_request.
  - intros Hf. apply returns_ret. split_and!; [simpl; lia| |by left].
    destruct Hk as [Hk|[Hk|[Hs Hr]]]; [|by right; left|].
    + left. eapply refused_mono; [| |exact Hk]; simpl; lia.
    + destruct Hf as [Hf|[Hf|Hf]]; [|congruence|done]. left.
      apply (refused_mono _ t (step t)); [lia|lia|]. apply refused_step; [done|simpl; lia].
  - intros [] t' _ Hs [= <-]. apply returns_ret. split_and!; [simpl; lia| |by right].
    destruct Hk as [Hk|[Hk|[_ Hr]]].
    + left. eapply refused_mono; [| |exact Hk]; simpl; lia.
    + by rewrite (in_stop_alive _ Hs) in Hk.
    + by right; right.
Qed.

(** What [inject_session] leaves of a target it may seize: either it could not be
    seized, or it was stopped with the registers [r0] and these are the ones it
    was released with. *)
Definition inject_post (f : Fns) (ssl_ptr : Z) (der : list Z) t (rc : Z) t' : Prop :=
  (rc = -1 /\ (refused t t' \/ t_alive t' = false)) \/
  (exists sig r0 es, (rc = 0 \/ rc = -1) /\
     (refused t t' \/ t_alive t' = false \/
      (t_traced t' = false /\ t_stopped t' = false /\ t_regs t' = r0)) /\
     (t_log t' = t_log t ++ [EvSeize; EvStop (WStopped sig) r0] ++ es \/
      t_log t' = t_log t ++ [EvSeize; EvStop (WStopped sig) r0] ++ es ++ [EvDetach]) /\
     injected f ssl_ptr der rc es).

Lemma inject_session_spec (f : Fns) (ssl_ptr : Z) (der : list Z) t :
  Z.of_nat (length der) < 2 ^ 31 -> t_alive t = true -> t_traced t = false ->
  resolve_all = Some f -> fns_ok f = true ->
  returns (inject_session ssl_ptr der (Z.of_nat (length der))) t (inject_post f ssl_ptr der t).
Proof.
  intros Hn Ha Ht Hr Hf. unfold inject_session, inject_post. apply returns_bind.
  eapply returns_lift; [exact Hr|]. clear Hr. rewrite Hf. cbn [negb].
  apply returns_bind. eapply returns_mono; [by apply injector_seize_spec|].
  intros s t0 [Hst [(-> & Hs & sig & Hl)|[-> Hr]]]; [|apply returns_ret; by left].
  cbn [negb Z.eqb]. set (n := Z.of_nat (length der)) in *.
  set (page := round_up (u64 (n + 16)) 4096).
  apply returns_bind. eapply returns_mono.
  { apply remote_call_spec. exact Hs. }
  intros [scratch ok] t1 [(He1 & Hk1 & Hok) _].
  assert (inj_inv scratch (scratch + page) t0 t1) as Hi1.
  { split; [eapply extends_weaken; [|done]; by intros []|].
    destruct Hk1 as [?|[?|(? & ? & _)]]; [by left|by right; left|by right; right]. }
  pose proof He1 as (_ & _ & e0 & Hl1 & Hq). apply returns_bind.
  eapply returns_mono.
  { apply (install_mapped_spec f ssl_ptr scratch ok der t0 t1 e0); [done..| |].
    - eapply Forall_impl; [exact Hq|]. by intros [].
    - destruct Hok as [Hok|(_ & _ & Hin)]; [by left|right].
      rewrite Hl1, drop_app_length in Hin. by eexists. }
  intros rc t2 ((He2 & Hk2) & Hrc & es & Hl2 & Hinj).
  apply returns_bind. eapply returns_mono.
  { apply (detach_spec t0); [|done]. by eapply extends_weaken. }
  intros v t3 (Hst3 & Hend & Hlog). apply returns_ret. right. exists sig, (t_regs t0), es.
  pose proof (extends_steps _ _ _ He2). split_and!; try done.
  - destruct Hend as [Hr|?]; [left|by right]. eapply refused_mono; [| |exact Hr]; lia.
  - rewrite Hl2, Hl in Hlog. by rewrite <- !(assoc_L (++)) in Hlog.
Qed.

(** ** Any length *)

(** Nothing is known of the addresses: the bounds [-1, 0) exclude no event. *)
Lemma write_mem_any (addr : Z) (buf : list Z) (n : Z) t0 t :
  inj_inv (-1) 0 t0 t -> (0 <= n < 2 ^ 63 -> n <= Z.of_nat (length buf)) -> 0 <= n ->
  returns (write_mem addr buf n) t (fun _ t' => inj_inv (-1) 0 t0 t').
Proof.
  intros Hi Hn H0. destruct (decide (2 ^ 63 <= n)) as [Hbig|Hsmall].
  - unfold write_mem. rewrite (proj2 (Z.leb_le _ _)) by lia.
    apply returns_bind, returns_ret, returns_ret. done.
  - assert (write_mem addr buf n = write_mem addr (take (Z.to_nat n) buf) n) as ->.
    { unfold write_mem. rewrite take_take, Nat.min_id, length_take.
      rewrite (proj2 (Z.leb_gt _ _)) by lia.
      by rewrite !(proj2 (Z.ltb_ge _ _)) by lia. }
    eapply returns_mono; [apply (write_mem_spec _ _ _ (-1) 0 t0); [done|done| |lia|lia]|].
    + rewrite length_take. lia.
    + by intros rc t' [H _].
Qed.

(** The next step is a call, with nothing known of the addresses. *)
Ltac next_call t0 :=
  apply returns_bind; eapply returns_mono; [by apply (call_any _ _ _ _ _ _ _ (-1) 0 t0)|].

Lemma install_mapped_any (f : Fns) (ssl_ptr n page scratch ok : Z) (der : list Z) t0 t1 :
  (0 <= n < 2 ^ 63 -> n <= Z.of_nat (length der)) -> 0 <= n -> inj_inv (-1) 0 t0 t1 ->
  returns (install_mapped f ssl_ptr der n page scratch ok) t1
    (fun rc t2 => inj_inv (-1) 0 t0 t2 /\ (rc = 0 \/ rc = -1)).
Proof.
  intros Hn H0 Hi1. unfold install_mapped, install_body. case_if; [by apply returns_ret; auto|].
  apply returns_bind, returns_bind. eapply returns_mono; [by apply (write_mem_any _ _ _ t0)|].
  intros w1 t2 Hi2.
  assert (forall rc t2, inj_inv (-1) 0 t0 t2 -> rc = 0 \/ rc = -1 ->
    returns ('(_, _) ← remote_call (fn_munmap f) scratch
                         page 0 0 0 0; mret rc) t2
      (fun rc t2 => inj_inv (-1) 0 t0 t2 /\ (rc = 0 \/ rc = -1))) as Hun.
  { intros rc t3 Hi3 Hrc. next_call t0.
    intros [v k] t4 (Hi4 & _). by apply returns_ret. }
  case_if; [apply returns_ret; auto|].
  apply returns_bind. eapply returns_mono; [apply (write_mem_any _ _ _ t0); [done| |lia]|].
  { rewrite length_to_bytes. lia. }
  intros w2 t3 Hi3. case_if; [apply returns_ret; auto|].
  next_call t0. intros [sess k] t4 (Hi4 & _).
  case_if; [apply returns_ret; auto|].
  next_call t0. intros [r k'] t5 (Hi5 & _).
  next_call t0. intros [v k''] t6 (Hi6 & _).
  case_if; apply returns_ret; auto.
Qed.

(** Whatever length it is given, as long as the buffer has that many bytes where
    the length is a size, [inject_session] returns and releases the target. *)
Lemma inject_session_any (ssl_ptr n : Z) (der : list Z) t :
  is_Some resolve_all ->
  (0 <= n < 2 ^ 63 -> n <= Z.of_nat (length der)) -> 0 <= n ->
  t_alive t = true -> t_traced t = false ->
  returns (inject_session ssl_ptr der n) t (fun rc t' =>
    (rc = 0 \/ rc = -1) /\ (t_step t <= t_step t')%nat /\
    (refused t t' \/ t_alive t' = false \/ t_traced t' = false)).
Proof.
  intros [f Hf] Hn H0 Ha Ht. unfold inject_session. apply returns_bind.
  eapply returns_lift; [exact Hf|]. case_if; [apply returns_ret; split_and!; auto|].
  apply returns_bind. eapply returns_mono; [by apply injector_seize_spec|].
  intros s t0 [Hst [(-> & Hs & _)|[-> Hr]]]; [|apply returns_ret; naive_solver].
  cbn [negb Z.eqb]. assert (inj_inv (-1) 0 t0 t0) as Hi0.
  { split; [by apply extends_refl, in_stop_traced|]. by right; right. }
  next_call t0.
  intros [scratch ok] t1 (Hi1 & _). apply returns_bind.
  eapply returns_mono; [by apply (install_mapped_any _ _ _ _ _ _ _ t0)|].
  intros rc t2 ((He2 & Hk2) & Hrc). pose proof (extends_steps _ _ _ He2).
  apply returns_bind. eapply returns_mono.
  { apply (detach_spec t0); [|done]. by eapply extends_weaken. }
  intros v t3 (Hst3 & Hend & _). apply returns_ret. split_and!; [done|lia|].
  destruct Hend as [Hr|[?|(? & _)]]; [left|by right; left|by right; right].
  eapply refused_mono; [| |exact Hr]; lia.
Qed.

(** On a target in any state, one that is dead or traced already is not seized;
    the only thing that can go wrong is a fault of the resolver. *)
Lemma inject_session_total {bad : Prop} (ssl_ptr n : Z) (der : list Z) t :
  (resolve_all = None -> bad) ->
  (0 <= n < 2 ^ 63 -> n <= Z.of_nat (length der)) -> 0 <= n ->
  returns_or bad (inject_session ssl_ptr der n) t (fun _ t' => target_step t t').
Proof.
  intros Hres Hn H0. destruct resolve_all as [f|] eqn:Hf.
  2: { unfold inject_session. apply returns_bind. rewrite Hf. by apply returns_ub, Hres. }
  apply returns_excuse. destruct (t_alive t && negb (t_traced t)) eqn:Epre.
  - apply andb_true_iff in Epre as [Ha Ht]. apply negb_true_iff in Ht.
    eapply returns_mono; [by apply inject_session_any; eauto|].
    intros rc t' (_ & Hs & He). split_and!; [done|congruence|done].
  - unfold inject_session. apply returns_bind.
    eapply returns_lift; [exact Hf|]. case_if; [apply returns_ret; split_and!; auto|].
    apply returns_bind. unfold injector_seize, ptrace_seize. apply returns_bind, returns_request.
    + intros _. do 2 apply returns_ret. split_and!; simpl; auto.
    + intros a t' _ Hp. congruence.
Qed.

(** With a symbol missing the target is not touched. *)
Lemma unresolved_untouched (f : Fns) (ssl_ptr der_len : Z) (der : list Z) t :
  resolve_all = Some f ->
  (fn_mmap f = 0 \/ fn_munmap f = 0 \/ fn_d2i f = 0 \/ fn_set f = 0 \/ fn_free f = 0) ->
  inject_session ssl_ptr der der_len t = Some (-1, t).
Proof.
  intros Hf H. unfold inject_session. rewrite Hf. unfold lift_option, mbind, M_bind.
  replace (fns_ok f) with false; [done|]. unfold fns_ok.
  destruct H as [H|[H|[H|[H|H]]]]; rewrite H; simpl; by rewrite ?andb_false_r.
Qed.

End InstallLemmas.
