(* ===== verification/InjectProps.v ===== *)
(** * InjectProps: the properties of the remote call and the installation

    The theorems about injector/remote.c and injector/install.c, with witnesses
    on a concrete target whose library functions return fixed values. *)

From stdpp Require Import base numbers list gmap strings.
From S2P Require Import Prelude Runtime Remote RemoteLemmas Install.

Open Scope Z_scope.

(** ** A concrete target *)

Definition demo_mem : mem :=
  poke_bytes (replicate 16 0x90) (poke_bytes (replicate 32 0) ∅ 0x7EF0) 0x1000.

Definition demo_regs : Regs := mkRegs 0x1000 0x8000 7 1 2 3 4 5 6 [].

(** A running process, and the same process stopped under trace. *)
Definition demo_running : Target := mkTarget demo_regs demo_mem true false false 0 [].
Definition demo_stopped : Target := mkTarget demo_regs demo_mem true true true 0 [].

(** The functions: [mmap] maps 64 bytes at 0x20000, [d2i_SSL_SESSION] returns
    0x555, [SSL_set_session] returns 1. *)
Definition demo_ret (func : Z) : Z :=
  if func =? 0x5000 then 0x20000
  else if func =? 0x5020 then 0x555
  else if func =? 0x5030 then 1
  else 0.

Definition demo_run (t : Target) : wstatus * Regs * mem :=
  let r := t_regs t in
  let m := t_mem t in
  if rip r =? 0x1000 then (WStopped 5, r, m)
  else
    (WStopped SIGTRAP,
     mkRegs 0x1001 (u64 (rsp r + 8)) (demo_ret (rip r)) (rdi r) (rsi r) (rdx r) (rcx r) (r8 r) (r9 r) [],
     if rip r =? 0x5000 then poke_bytes (replicate 64 0) m 0x20000 else m).

(** A kernel that refuses nothing, and one that refuses the second request. *)
Definition demo_kernel : Kernel :=
  {| k_fail := fun _ => false; k_part := fun _ => 4096%nat; k_run := fun _ => demo_run |}.
Definition refusing_kernel : Kernel :=
  {| k_fail := fun n => (n =? 1)%nat; k_part := fun _ => 4096%nat; k_run := fun _ => demo_run |}.

Definition demo_resolver : Resolver := fun lib sym =>
  Some (if strcmp_eq sym sym_mmap then 0x5000
        else if strcmp_eq sym sym_munmap then 0x5010
        else if strcmp_eq sym sym_d2i then 0x5020
        else if strcmp_eq sym sym_set then 0x5030
        else 0x5040).
Definition demo_fns : Fns := mkFns 0x5000 0x5010 0x5020 0x5030 0x5040.
Definition half_resolver : Resolver := fun _ sym => Some (if strcmp_eq sym sym_set then 0 else 7).

Definition demo_der : list Z := of_string "SESSION0".

(** ** Theorems *)

(** C20. A remote call is transparent to the target.  Whatever the called code
    and the kernel do, [remote_call] returns (the wait loop ends within its bound
    of 17 stops), writes no memory other than the trap and the return address,
    sets the registers only to those of the call or back, and at the end the
    target is stopped with its own registers and the original word at its
    instruction pointer, unless it died or the kernel refused a request.  A
    reported success means the function was entered, and the value returned is
    [rax] at the trap its run ended with. *)
Theorem remote_call_transparent {K : Kernel} (func a0 a1 a2 a3 a4 a5 : Z) (t : Target) :
  in_stop t = true ->
  returns (remote_call func a0 a1 a2 a3 a4 a5) t (fun '(ret, ok) t' =>
    let call := call_regs (t_regs t) func a0 a1 a2 a3 a4 a5 in
    (refused t t' \/ t_alive t' = false \/
     (in_stop t' = true /\ t_regs t' = t_regs t /\
      forall w w', peek (t_mem t) (rip (t_regs t)) = Some w ->
        peek (t_mem t') (rip (t_regs t)) = Some w' -> w' = w)) /\
    (exists es, t_log t' = t_log t ++ es /\
       Forall (fun e => match e with
                        | EvSetregs r => r = call \/ r = t_regs t
                        | EvPoke _ _ | EvCont | EvStop _ _ => True
                        | _ => False
                        end) es /\
       (ok = 1 -> EvSetregs call ∈ es /\ ran call ret es)) /\
    (ok = 0 -> ret = 0) /\ (ok = 0 \/ ok = 1)).
Proof.
  intros Hs. eapply returns_mono; [by apply remote_call_spec|].
  intros [ret ok] t' [(He & Hk & Hok) Hret].
  destruct He as (_ & _ & es & Hl & Hf). split_and!; [exact Hk| |done|naive_solver].
  exists es. split_and!; [done| |].
  - eapply Forall_impl; [exact Hf|]. by intros [].
  - intros ->. destruct Hok as [?|(_ & _ & Hran)]; [done|].
    rewrite Hl, drop_app_length in Hran. split; [|done].
    destruct Hran as (e0 & e1 & e2 & r & -> & _). set_solver.
Qed.

Lemma remote_call_transparent_witness :
  in_stop demo_stopped = true /\
  returns (remote_call (K := demo_kernel) 0x5020 0 1 2 0 0 0) demo_stopped (fun '(ret, ok) t' =>
    let call := call_regs (t_regs demo_stopped) 0x5020 0 1 2 0 0 0 in
    (refused (K := demo_kernel) demo_stopped t' \/ t_alive t' = false \/
     (in_stop t' = true /\ t_regs t' = t_regs demo_stopped /\
      forall w w', peek (t_mem demo_stopped) (rip (t_regs demo_stopped)) = Some w ->
        peek (t_mem t') (rip (t_regs demo_stopped)) = Some w' -> w' = w)) /\
    (exists es, t_log t' = t_log demo_stopped ++ es /\
       Forall (fun e => match e with
                        | EvSetregs r => r = call \/ r = t_regs demo_stopped
                        | EvPoke _ _ | EvCont | EvStop _ _ => True
                        | _ => False
                        end) es /\
       (ok = 1 -> EvSetregs call ∈ es /\ ran call ret es)) /\
    (ok = 0 -> ret = 0) /\ (ok = 0 \/ ok = 1)).
Proof.
  split; [reflexivity|].
  apply (@remote_call_transparent demo_kernel 0x5020 0 1 2 0 0 0 demo_stopped). reflexivity.
Defined.



(** C22. The stack of the called function is safe: for every stack pointer away
    from the bottom of the address space, the pushed return address lies below
    the 128-byte red zone of the interrupted code (and at most 279 bytes below
    its stack pointer), and the callee sees the alignment the ABI requires right
    after a call. *)
Theorem call_stack_safe (sp : Z) :
  512 <= sp < 2 ^ 64 ->
  call_sp sp mod 16 = 8 /\ call_sp sp + 8 <= sp - 256 /\ sp - 279 <= call_sp sp.
Proof.
  intros Hsp. unfold call_sp.
  rewrite (wrapU_small 64 (sp - 256)) by lia.
  assert (Z.land (sp - 256) (u64 (Z.lnot 0xF)) = 16 * ((sp - 256) / 16)) as ->.
  { change (u64 (Z.lnot 15)) with (Z.land (Z.lnot (Z.ones 4)) (Z.ones 64)).
    rewrite Z.land_assoc, Z.land_ones, <- Z.ldiff_land, Z.ldiff_ones_r by lia.
    rewrite Z.shiftl_mul_pow2, Z.shiftr_div_pow2 by lia. change (2 ^ 4) with 16.
    rewrite Z.mod_small; [lia|]. pose proof (Z.div_mod (sp - 256) 16).
    pose proof (Z.mod_pos_bound (sp - 256) 16). lia. }
  pose proof (Z.div_mod (sp - 256) 16). pose proof (Z.mod_pos_bound (sp - 256) 16).
  rewrite wrapU_small by lia. split_and!; try lia.
  replace (16 * ((sp - 256) / 16) - 8) with (8 + ((sp - 256) / 16 - 1) * 16) by lia.
  by rewrite Z.mod_add by lia.
Qed.

Lemma call_stack_safe_witness :
  512 <= 0x7ffd1234 < 2 ^ 64 /\ call_sp 0x7ffd1234 mod 16 = 8 /\
  call_sp 0x7ffd1234 + 8 <= 0x7ffd1234 - 256 /\ 0x7ffd1234 - 279 <= call_sp 0x7ffd1234.
Proof. split; [lia|]. apply (call_stack_safe 0x7ffd1234). lia. Defined.

(** C23. Installing a session leaves the target running and uncorrupted: for
    every behaviour of the kernel and of an untraced, live target,
    [inject_session] returns 0 or -1; all its transfers come after the remote
    [mmap] returned an address that is neither 0 nor -1 and lie inside that
    mapping; and the target is released with the registers it had when the seizure
    stopped it, unless it died or the kernel refused a request.  Return 0 means
    that, in this order, the mapping was made, the whole DER and the pointer to it
    were transferred, [d2i_SSL_SESSION] of that pointer and length returned a
    non-null session, and [SSL_set_session] of the given SSL object and that
    session returned 1. *)
Theorem inject_session_safe {K : Kernel} {R : Resolver} (f : Fns) (ssl_ptr : Z) (der : list Z)
    (t : Target) :
  Z.of_nat (length der) < 2 ^ 31 -> t_alive t = true -> t_traced t = false ->
  resolve_all = Some f -> fns_ok f = true ->
  returns (inject_session ssl_ptr der (Z.of_nat (length der))) t (fun rc t' =>
    (rc = -1 /\ (refused t t' \/ t_alive t' = false)) \/
    (exists sig r0 es, (rc = 0 \/ rc = -1) /\
       (refused t t' \/ t_alive t' = false \/
        (t_traced t' = false /\ t_stopped t' = false /\ t_regs t' = r0)) /\
       (t_log t' = t_log t ++ [EvSeize; EvStop (WStopped sig) r0] ++ es \/
        t_log t' = t_log t ++ [EvSeize; EvStop (WStopped sig) r0] ++ es ++ [EvDetach]) /\
       injected f ssl_ptr der rc es)).
Proof. apply inject_session_spec. Qed.

Lemma inject_session_safe_witness :
  returns (inject_session (K := demo_kernel) (R := demo_resolver) 0xABC demo_der
             (Z.of_nat (length demo_der))) demo_running (fun rc t' =>
    (rc = -1 /\ (refused (K := demo_kernel) demo_running t' \/ t_alive t' = false)) \/
    (exists sig r0 es, (rc = 0 \/ rc = -1) /\
       (refused (K := demo_kernel) demo_running t' \/ t_alive t' = false \/
        (t_traced t' = false /\ t_stopped t' = false /\ t_regs t' = r0)) /\
       (t_log t' = t_log demo_running ++ [EvSeize; EvStop (WStopped sig) r0] ++ es \/
        t_log t' = t_log demo_running ++ [EvSeize; EvStop (WStopped sig) r0] ++ es ++ [EvDetach]) /\
       injected demo_fns 0xABC demo_der rc es)).
Proof.
  apply (@inject_session_safe demo_kernel demo_resolver demo_fns 0xABC demo_der demo_running).
  - reflexivity.
  - reflexivity.
  - reflexivity.
  - reflexivity.
  - vm_compute. reflexivity.
Defined.

(** The concrete injection does install the session. *)
Example inject_session_demo :
  (fst <$> inject_session (K := demo_kernel) (R := demo_resolver) 0xABC demo_der 8 demo_running)
  = Some 0.
Proof. vm_compute. reflexivity. Qed.

(** C24. The injector fails closed: when any of the five public functions cannot
    be resolved, [inject_session] returns -1 without touching the target at all,
    not even attaching to it. *)
Theorem inject_fail_closed {K : Kernel} {R : Resolver} (f : Fns) (ssl_ptr der_len : Z)
    (der : list Z) (t : Target) :
  resolve_all = Some f ->
  (fn_mmap f = 0 \/ fn_munmap f = 0 \/ fn_d2i f = 0 \/ fn_set f = 0 \/ fn_free f = 0) ->
  inject_session ssl_ptr der der_len t = Some (-1, t).
Proof.
  apply unresolved_untouched.
Qed.

Lemma inject_fail_closed_witness :
  inject_session (K := demo_kernel) (R := half_resolver)
    0xABC demo_der 8 demo_running = Some (-1, demo_running).
Proof.
  apply (@inject_fail_closed demo_kernel half_resolver (mkFns 7 7 7 0 7) 0xABC 8 demo_der
           demo_running).
  - vm_compute. reflexivity.
  - do 3 right. left. reflexivity.
Defined.

(** What goes wrong after a seizure of [t]: [PTRACE_INTERRUPT] or [waitpid] is
    refused, or the status is not that of a stop. *)
Definition seize_breaks {K : Kernel} (t : Target) : Prop :=
  let t1 := step (log EvSeize (with_trace true false (step t))) in
  k_fail (S (t_step t)) = true \/ k_fail (S (S (t_step t))) = true \/
  exists st r m, k_run (t_step t1) t1 = (st, r, m) /\ forall sig, st <> WStopped sig.

(** C25. A seizure that fails half-way is not undone: when [PTRACE_SEIZE]
    succeeds and then [PTRACE_INTERRUPT] is refused, [waitpid] fails, or the status
    it reports is not a stop, [inject_session] returns -1 without ever detaching:
    the target is still traced, so that it cannot be seized again and, with the
    exit-kill option set, dies with the injector, unless the status said that it
    is gone already. *)
Theorem seize_failure_stays_traced {K : Kernel} {R : Resolver} (f : Fns) (ssl_ptr der_len : Z)
    (der : list Z) (t : Target) :
  resolve_all = Some f -> fns_ok f = true -> t_alive t = true -> t_traced t = false ->
  k_fail (t_step t) = false -> seize_breaks t ->
  returns (inject_session ssl_ptr der der_len) t (fun rc t' =>
    rc = -1 /\ t_traced t' = true /\
    ((t_alive t' = true /\ t_log t' = t_log t ++ [EvSeize]) \/
     (t_alive t' = false /\ exists st r, t_log t' = t_log t ++ [EvSeize; EvStop st r] /\
        forall sig, st <> WStopped sig))).
Proof.
  intros Hr Hf Ha Ht Hk0 Hbr. unfold inject_session. apply returns_bind.
  eapply returns_lift; [exact Hr|]. rewrite Hf. cbn [negb].
  apply returns_bind. unfold injector_seize, ptrace_seize, ptrace_interrupt.
  apply returns_bind, returns_request.
  { rewrite Ha, Ht, Hk0. by intros [?|[?|?]]. }
  intros [] t1 _ _ [= <-]. apply returns_bind, returns_request.
  { intros _. do 2 apply returns_ret. split_and!; [done..|]. by left. }
  intros [] t2 Hk1 _ [= <-]. apply returns_bind, returns_waitpid; [done..| |].
  { intros _. do 2 apply returns_ret. split_and!; [done..|]. by left. }
  intros st r m Hrun Hk2. destruct Hbr as [Hb|[Hb|(st' & r' & m' & Hrun' & Hst)]].
  { simpl in Hk1. congruence. }
  { simpl in Hk2. congruence. }
  rewrite Hrun in Hrun'. injection Hrun' as <- <- <-.
  destruct st as [| |sig]; [..|by destruct (Hst sig)].
  all: do 2 apply returns_ret; (split_and!; [done..|]); right; (split; [done|]).
  all: do 2 eexists; (split; [|done]); simpl; by rewrite <- (assoc_L (++)).
Qed.

Lemma seize_failure_stays_traced_witness :
  returns (inject_session (K := refusing_kernel) (R := demo_resolver) 0xABC demo_der 8)
    demo_running (fun rc t' =>
      rc = -1 /\ t_traced t' = true /\
      ((t_alive t' = true /\ t_log t' = t_log demo_running ++ [EvSeize]) \/
       (t_alive t' = false /\ exists st r,
          t_log t' = t_log demo_running ++ [EvSeize; EvStop st r] /\
          forall sig, st <> WStopped sig))).
Proof.
  apply (@seize_failure_stays_traced refusing_kernel demo_resolver demo_fns 0xABC 8 demo_der
           demo_running).
  - vm_compute. reflexivity.
  - vm_compute. reflexivity.
  - reflexivity.
  - reflexivity.
  - reflexivity.
  - left. reflexivity.
Defined.

(** [write_mem] reports success for the length [(size_t)-1], which the
    kernel always refuses: the failure value -1 compares equal to the length
    converted to [ssize_t], and nothing was transferred. *)
Lemma write_mem_size_max {K : Kernel} (addr : Z) (buf : list Z) (t : Target) :
  write_mem addr buf ULONG_MAX t = Some (0, t).
Proof. reflexivity. Qed.
