(* ===== verification/Symbols.v ===== *)
(** * Symbols: resolving exported symbols of a process (injector/symbols.c)

    The files the code reads ([/proc/<pid>/maps] and the library itself) are a
    parameter ([Files]).  The text of [maps] goes through a model of [fgets] and
    of the conversions of [sscanf] the code uses; the library is a list of bytes
    read at offsets, where a read outside the mapping is a fault ([None]). *)

From stdpp Require Import base numbers list gmap strings.
From S2P Require Import Prelude Runtime.

Open Scope Z_scope.

(** ** Text input *)

Definition nl : Z := 10.
Definition slash : Z := 47.

(** [fgets(line, cap, f)]: the next line with its newline, at most [cap - 1]
    characters, and what is left; [None] at the end of the file. *)
Fixpoint take_line (n : nat) (s : list Z) : list Z * list Z :=
  match n, s with
  | O, _ => ([], s)
  | _, [] => ([], [])
  | S n', b :: t =>
      if b =? nl then ([b], t) else let '(l, r) := take_line n' t in (b :: l, r)
  end.

Definition fgets (cap : nat) (s : list Z) : option (list Z * list Z) :=
  match s with
  | [] => None
  | _ => let '(l, r) := take_line (cap - 1) s in Some (cstr l, r)
  end.

(** The conversions of [sscanf]: [%lx], a literal character, white space,
    [%<n>s], [%*s] and [%<n>[^\n]]. *)
Inductive conv :=
  | CHex
  | CLit (c : Z)
  | CSpace
  | CStr (max : nat)
  | CSkip
  | CLine (max : nat).

Inductive value :=
  | VNum (z : Z)
  | VStr (s : list Z).

Definition hex_digit (b : Z) : option Z :=
  if (48 <=? b) && (b <=? 57) then Some (b - 48)
  else if (97 <=? b) && (b <=? 102) then Some (b - 87)
  else if (65 <=? b) && (b <=? 70) then Some (b - 55)
  else None.

(** The longest run of hexadecimal digits: its length and value. *)
Fixpoint hex_run (s : list Z) (n : nat) (acc : Z) : nat * Z * list Z :=
  match s with
  | b :: t =>
      match hex_digit b with
      | Some d => hex_run t (S n) (16 * acc + d)
      | None => (n, acc, s)
      end
  | [] => (n, acc, [])
  end.

(** [%lx] after white space: a sign, a [0x] prefix, digits; an overflow is
    [ULONG_MAX], a minus sign negates. *)
Definition scan_sign (s : list Z) : bool * list Z :=
  match s with
  | b :: t => if b =? 45 then (true, t) else if b =? 43 then (false, t) else (false, s)
  | [] => (false, [])
  end.

Definition scan_0x (s : list Z) : list Z :=
  match s with
  | b :: c :: t => if (b =? 48) && ((c =? 120) || (c =? 88)) then t else s
  | _ => s
  end.

Definition scan_hex (s : list Z) : option (Z * list Z) :=
  let '(neg, s) := scan_sign s in
  match hex_run (scan_0x s) 0 0 with
  | (O, _, _) => None
  | (S _, v, r) =>
      Some (if 2 ^ 64 <=? v then 2 ^ 64 - 1 else if (neg : bool) then u64 (- v) else v, r)
  end.

(** The longest prefix of at most [n] characters that satisfy [p]. *)
Fixpoint span (p : Z -> bool) (n : nat) (s : list Z) : list Z * list Z :=
  match n, s with
  | S n', b :: t => if p b then let '(l, r) := span p n' t in (b :: l, r) else ([], s)
  | _, _ => ([], s)
  end.

Definition not_space (b : Z) : bool := negb (is_space b).
Definition not_nl (b : Z) : bool := negb (b =? nl).

(** The values [sscanf] stores before a directive fails. *)
Fixpoint sscanf (fmt : list conv) (s : list Z) : list value :=
  match fmt with
  | [] => []
  | CSpace :: fmt' => sscanf fmt' (skip_ws s)
  | CLit c :: fmt' =>
      match s with
      | b :: t => if b =? c then sscanf fmt' t else []
      | [] => []
      end
  | CHex :: fmt' =>
      match scan_hex (skip_ws s) with
      | Some (v, r) => VNum v :: sscanf fmt' r
      | None => []
      end
  | CStr n :: fmt' =>
      match span not_space n (skip_ws s) with
      | ([], _) => []
      | (w, r) => VStr w :: sscanf fmt' r
      end
  | CSkip :: fmt' =>
      let s := skip_ws s in
      match span not_space (length s) s with
      | ([], _) => []
      | (_, r) => sscanf fmt' r
      end
  | CLine n :: fmt' =>
      match span not_nl n s with
      | ([], _) => []
      | (w, r) => VStr w :: sscanf fmt' r
      end
  end.

(** "%lx-%lx %7s %lx %*s %*s %511[^\n]" *)
Definition maps_format : list conv :=
  [CHex; CLit 45; CHex; CSpace; CStr 7; CSpace; CHex; CSpace; CSkip; CSpace; CSkip; CSpace;
   CLine 511].

(** The digits of a number in base [b], most significant first. *)
Fixpoint digits_of (b : Z) (fuel : nat) (z : Z) (acc : list Z) : list Z :=
  match fuel with
  | O => acc
  | S fuel' => if z <? b then z :: acc else digits_of b fuel' (z / b) (z mod b :: acc)
  end.

(** [%d] *)
Definition dec (z : Z) : list Z :=
  if z <? 0 then 45 :: map (Z.add 48) (digits_of 10 20 (- z) [])
  else map (Z.add 48) (digits_of 10 20 z []).

Definition proc_path (pid : Z) (what : list Z) : list Z :=
  of_string "/proc/" ++ dec pid ++ what.

(** ** Finding the library *)

(** The files of the system, and whether a mapping of one succeeds. *)
Class Files := {
  file : list Z -> option (list Z);
  mmap_ok : list Z -> bool
}.

(** A line of [maps] that names a file: start, offset and path. *)
Record mapping := mkMapping {
  m_start : Z;
  m_off : Z;
  m_path : list Z
}.

(** The checks of the loop body up to [strstr]. *)
Definition match_line (lib_substr line : list Z) : option mapping :=
  match sscanf maps_format line with
  | [VNum start; VNum _; VStr _; VNum off; VStr path] =>
      match path with
      | b :: _ => if (b =? slash) && strstr path lib_substr then Some (mkMapping start off path)
                  else None
      | [] => None
      end
  | _ => None
  end.

Record find_state := mkFind {
  fs_found : bool;
  fs_base : Z;
  fs_off0 : bool;
  fs_path : list Z
}.

Definition find_init : find_state := mkFind false 0 false [].

(** The rest of the loop body. *)
Definition find_step (path_cap : nat) (st : find_state) (m : mapping) : find_state :=
  let st :=
    if negb (fs_found st) || ((m_off m =? 0) && negb (fs_off0 st)) ||
       ((m_start m <? fs_base st) && negb (fs_off0 st))
    then mkFind (fs_found st) (m_start m) (fs_off0 st) (snprintf_s path_cap (m_path m))
    else st in
  if m_off m =? 0 then mkFind true (m_start m) true (fs_path st)
  else mkFind true (fs_base st) (fs_off0 st) (fs_path st).

(** The matching lines of a file in order; every call of [fgets] consumes input,
    so fuel beyond its length is never exhausted. *)
Fixpoint scan_lines (fuel : nat) (lib_substr s : list Z) : list mapping :=
  match fuel with
  | O => []
  | S fuel' =>
      match fgets 1024 s with
      | None => []
      | Some (line, rest) =>
          option_list (match_line lib_substr line) ++ scan_lines fuel' lib_substr rest
      end
  end.

Definition matches (lib_substr s : list Z) : list mapping :=
  scan_lines (S (length s)) lib_substr s.

Section Resolve.
Context {F : Files}.

(** [find_library]: the map base and the path, or [None] for the return -1. *)
Definition find_library (pid : Z) (lib_substr : list Z) (path_cap : nat)
    : option (Z * list Z) :=
  match file (snprintf_s 64 (proc_path pid (of_string "/maps"))) with
  | None => None
  | Some text =>
      let st := foldl (find_step path_cap) find_init (matches lib_substr text) in
      if fs_found st then Some (fs_base st, fs_path st) else None
  end.

Definition EHDR_SIZE : nat := 64.

(** [map_elf]: the bytes of the file, or [None] for a null return. *)
Definition map_elf (pid : Z) (path : list Z) : option (list Z) :=
  let rooted := snprintf_s 600 (proc_path pid (of_string "/root" ++ path)) in
  match (match file rooted with Some bs => Some bs | None => file path end) with
  | None => None
  | Some bs =>
      if (length bs <? EHDR_SIZE)%nat then None
      else if mmap_ok path then Some bs else None
  end.

End Resolve.

(** ** The ELF file *)

(** A byte of the mapping of a file: behind the end of the file the last page
    reads as zero, behind that page there is nothing. *)
Definition elf_byte (elf : list Z) (off : Z) : option Z :=
  let size := Z.of_nat (length elf) in
  if off <? 0 then None
  else if off <? size then elf !! Z.to_nat off
  else if off <? (size + 4095) / 4096 * 4096 then Some 0
  else None.

(** A little-endian field of [n] bytes; offsets are 64-bit sums. *)
Fixpoint le (elf : list Z) (n : nat) (off : Z) : option Z :=
  match n with
  | O => Some 0
  | S n' =>
      b ← elf_byte elf (u64 off);
      v ← le elf n' (off + 1);
      Some (b + 256 * v)
  end.

Definition PT_LOAD : Z := 1.
Definition SHT_DYNSYM : Z := 11.
Definition SHN_UNDEF : Z := 0.
Definition ELFCLASS64 : Z := 2.
Definition ELFMAG : list Z := [0x7f; 69; 76; 70].

(** The fields of the headers, at their offsets in the ELF64 structures. *)
Definition e_phoff (elf : list Z) : option Z := le elf 8 32.
Definition e_shoff (elf : list Z) : option Z := le elf 8 40.
Definition e_phnum (elf : list Z) : option Z := le elf 2 56.
Definition e_shnum (elf : list Z) : option Z := le elf 2 60.
Definition p_type (elf : list Z) (ph : Z) : option Z := le elf 4 ph.
Definition p_offset (elf : list Z) (ph : Z) : option Z := le elf 8 (ph + 8).
Definition p_vaddr (elf : list Z) (ph : Z) : option Z := le elf 8 (ph + 16).
Definition sh_type (elf : list Z) (sh : Z) : option Z := le elf 4 (sh + 4).
Definition sh_offset (elf : list Z) (sh : Z) : option Z := le elf 8 (sh + 24).
Definition sh_size (elf : list Z) (sh : Z) : option Z := le elf 8 (sh + 32).
Definition sh_link (elf : list Z) (sh : Z) : option Z := le elf 4 (sh + 40).
Definition sh_entsize (elf : list Z) (sh : Z) : option Z := le elf 8 (sh + 56).
Definition st_name (elf : list Z) (s : Z) : option Z := le elf 4 s.
Definition st_shndx (elf : list Z) (s : Z) : option Z := le elf 2 (s + 6).
Definition st_value (elf : list Z) (s : Z) : option Z := le elf 8 (s + 8).

Definition PHDR_SIZE : Z := 56.
Definition SHDR_SIZE : Z := 64.
Definition SYM_SIZE : Z := 24.

(** The loop over the program headers: the [p_vaddr] of the first loadable
    segment at file offset 0. *)
Fixpoint phdr_loop (elf : list Z) (n : nat) (ph : Z) : option Z :=
  match n with
  | O => Some 0
  | S n' =>
      t ← p_type elf ph;
      if t =? PT_LOAD then
        o ← p_offset elf ph;
        if o =? 0 then p_vaddr elf ph else phdr_loop elf n' (ph + PHDR_SIZE)
      else phdr_loop elf n' (ph + PHDR_SIZE)
  end.

(** Where the dynamic symbols are: the table, their number, the strings. *)
Record dynsym_loc := mkLoc {
  dl_syms : Z;
  dl_nsyms : Z;
  dl_strtab : Z
}.

(** The loop over the section headers; [Some None] when there is no such section. *)
Fixpoint shdr_loop (elf : list Z) (shoff : Z) (n : nat) (sh : Z) : option (option dynsym_loc) :=
  match n with
  | O => Some None
  | S n' =>
      t ← sh_type elf sh;
      if t =? SHT_DYNSYM then
        syms ← sh_offset elf sh;
        ent ← sh_entsize elf sh;
        size ← sh_size elf sh;
        link ← sh_link elf sh;
        str ← sh_offset elf (shoff + SHDR_SIZE * link);
        Some (Some (mkLoc syms (if ent =? 0 then 0 else size / ent) str))
      else shdr_loop elf shoff n' (sh + SHDR_SIZE)
  end.

(** [strcmp(p + off, s) == 0]: bytes are read up to the first difference. *)
Fixpoint strcmp_at (elf : list Z) (off : Z) (s : list Z) : option bool :=
  b ← elf_byte elf (u64 off);
  match s with
  | [] => Some (b =? 0)
  | c :: s' => if b =? c then strcmp_at elf (off + 1) s' else Some false
  end.

(** The loop over the symbols: the value of the first definition named [sym].
    Every iteration reads the table [SYM_SIZE] bytes further on, so a loop longer
    than the mapping faults; that bounds the fuel. *)
Fixpoint sym_loop (elf : list Z) (fuel : nat) (n strtab sym_off : Z) (sym : list Z)
    : option (option Z) :=
  if n <=? 0 then Some None
  else
    match fuel with
    | O => None
    | S fuel' =>
        ndx ← st_shndx elf sym_off;
        v ← st_value elf sym_off;
        if (ndx =? SHN_UNDEF) || (v =? 0)
        then sym_loop elf fuel' (n - 1) strtab (sym_off + SYM_SIZE) sym
        else
          name ← st_name elf sym_off;
          eq ← strcmp_at elf (strtab + name) sym;
          if (eq : bool) then Some (Some v)
          else sym_loop elf fuel' (n - 1) strtab (sym_off + SYM_SIZE) sym
    end.

(** [dynsym_lookup]: [Some None] for the return -1, [Some (Some (st_value,
    base_vaddr))] for 0. *)
Definition dynsym_lookup (elf sym : list Z) : option (option (Z * Z)) :=
  if (length elf <? EHDR_SIZE)%nat || negb (bool_decide (take 4 elf = ELFMAG)) ||
     negb (bool_decide (elf !! 4%nat = Some ELFCLASS64))
  then Some None
  else
    phoff ← e_phoff elf;
    phnum ← e_phnum elf;
    base ← phdr_loop elf (Z.to_nat phnum) phoff;
    shoff ← e_shoff elf;
    shnum ← e_shnum elf;
    loc ← shdr_loop elf shoff (Z.to_nat shnum) shoff;
    match loc with
    | None => Some None
    | Some l =>
        r ← sym_loop elf (length elf + 4096) (dl_nsyms l) (dl_strtab l) (dl_syms l) sym;
        match r with
        | None => Some None
        | Some v => Some (Some (v, base))
        end
    end.

(** [resolve_symbol]: the address, 0 when there is none, [None] for a fault. *)
Definition resolve_symbol {F : Files} (pid : Z) (lib_substr sym : list Z) : option Z :=
  match find_library pid lib_substr 512 with
  | None => Some 0
  | Some (map_base, path) =>
      match map_elf pid path with
      | None => Some 0
      | Some elf =>
          r ← dynsym_lookup elf sym;
          match r with
          | None => Some 0
          | Some (value, base_vaddr) => Some (u64 (map_base - base_vaddr + value))
          end
      end
  end.

(** ** Specification vocabulary *)

(** Lower-case hexadecimal digits and the number they denote. *)
Definition hex_char (d : Z) : Z := if d <? 10 then 48 + d else 87 + d.
Definition hex_value (acc : Z) (ds : list Z) : Z := foldl (fun a d => 16 * a + d) acc ds.
Definition hex_digits_ok (ds : list Z) : bool :=
  negb (bool_decide (ds = [])) && forallb (fun d => (0 <=? d) && (d <? 16)) ds &&
  (hex_value 0 ds <? 2 ^ 64).

(** A word of the line: not empty, without white space. *)
Definition word_ok (w : list Z) : bool := negb (bool_decide (w = [])) && forallb not_space w.


(** The fields of a line, all as the kernel writes them: numbers in hexadecimal,
    words without white space, spaces, and a path, which is empty for memory that
    belongs to no file and may have spaces inside. *)
Record map_entry := mkEntry {
  me_start : list Z;
  me_stop : list Z;
  me_perms : list Z;
  me_off : list Z;
  me_dev : list Z;
  me_inode : list Z;
  me_pad : list Z;
  me_path : list Z
}.

Definition entry_body (e : map_entry) : list Z :=
  map hex_char (me_start e) ++ 45 :: map hex_char (me_stop e) ++ 32 :: me_perms e ++
  32 :: map hex_char (me_off e) ++ 32 :: me_dev e ++ 32 :: me_inode e ++ 32 :: me_pad e ++ me_path e.

(** A line of [/proc/<pid>/maps] as the kernel writes it. *)
Definition entry_line (e : map_entry) : list Z := entry_body e ++ [nl].

Definition path_ok (path : list Z) : bool :=
  forallb not_nl path && no_nul path &&
  match path with [] => true | b :: _ => not_space b end.

(** A line that fits the buffer of the code: at most 1023 characters with the
    newline. *)
Definition entry_ok (e : map_entry) : bool :=
  hex_digits_ok (me_start e) && hex_digits_ok (me_stop e) && hex_digits_ok (me_off e) &&
  (word_ok (me_perms e) && no_nul (me_perms e) && (length (me_perms e) <=? 7)%nat) &&
  (word_ok (me_dev e) && no_nul (me_dev e)) && (word_ok (me_inode e) && no_nul (me_inode e)) &&
  forallb (Z.eqb 32) (me_pad e) && path_ok (me_path e) && (length (entry_line e) <=? 1023)%nat.

Definition maps_text (es : list map_entry) : list Z := mjoin (entry_line <$> es).

(** What the code is to make of such a line: paths are cut to the 511 characters
    of its buffer. *)
Definition entry_mapping (e : map_entry) : mapping :=
  mkMapping (hex_value 0 (me_start e)) (hex_value 0 (me_off e)) (take 511 (me_path e)).
Definition entry_matches (lib : list Z) (e : map_entry) : bool :=
  bool_decide (head (me_path e) = Some slash) && strstr (take 511 (me_path e)) lib.

(** Of the mappings seen: is it the one of the ELF header; the lowest one. *)
Definition at_zero (m : mapping) : bool := m_off m =? 0.
Definition lower (acc : option mapping) (m : mapping) : option mapping :=
  match acc with
  | None => Some m
  | Some a => if m_start m <? m_start a then Some m else Some a
  end.
Definition lowest (ms : list mapping) : option mapping := foldl lower None ms.

(** What the loop of [find_library] has computed after the matching lines [ms]. *)
Definition find_ref (cap : nat) (ms : list mapping) : find_state :=
  let zs := List.filter at_zero ms in
  mkFind (negb (bool_decide (ms = [])))
    (match last zs with
     | Some m => m_start m
     | None => from_option m_start 0 (lowest ms)
     end)
    (existsb at_zero ms)
    (match head zs with
     | Some m => snprintf_s cap (m_path m)
     | None => from_option (fun m => snprintf_s cap (m_path m)) [] (lowest ms)
     end).

(** The symbol table decoded ahead of any lookup. *)
Record symbol := mkSymbol {
  sy_name : list Z;
  sy_shndx : Z;
  sy_value : Z
}.

Fixpoint read_str (elf : list Z) (fuel : nat) (off : Z) : option (list Z) :=
  match fuel with
  | O => None
  | S fuel' =>
      b ← elf_byte elf (u64 off);
      if b =? 0 then Some [] else cons b <$> read_str elf fuel' (off + 1)
  end.

Fixpoint decode_syms (elf : list Z) (n : nat) (strtab off : Z) : option (list symbol) :=
  match n with
  | O => Some []
  | S n' =>
      ndx ← st_shndx elf off;
      v ← st_value elf off;
      name ← st_name elf off;
      s ← read_str elf (length elf + 4096) (strtab + name);
      rest ← decode_syms elf n' strtab (off + SYM_SIZE);
      Some (mkSymbol s ndx v :: rest)
  end.

(** A definition of that name. *)
Definition defines (sym : list Z) (s : symbol) : bool :=
  negb (sy_shndx s =? SHN_UNDEF) && negb (sy_value s =? 0) && strcmp_eq (sy_name s) sym.

Definition first_def (l : list symbol) (sym : list Z) : option Z :=
  sy_value <$> List.find (defines sym) l.

(** The entry [i] of the program headers, and of the section headers. *)
Definition phdr (phoff i : Z) : Z := phoff + PHDR_SIZE * i.
Definition shdr (shoff i : Z) : Z := shoff + SHDR_SIZE * i.

(** A loadable segment at file offset 0; any other segment. *)
Definition is_segment0 (elf : list Z) (ph : Z) : Prop :=
  p_type elf ph = Some PT_LOAD /\ p_offset elf ph = Some 0.
Definition not_segment0 (elf : list Z) (ph : Z) : Prop :=
  exists t o, p_type elf ph = Some t /\ p_offset elf ph = Some o /\ ~ (t = PT_LOAD /\ o = 0).

(** The address of the first loadable segment at file offset 0, or 0 when there is
    no such segment. *)
Definition segment0_at (elf : list Z) (phoff phnum base : Z) : Prop :=
  (exists i, 0 <= i < phnum /\ is_segment0 elf (phdr phoff i) /\
     p_vaddr elf (phdr phoff i) = Some base /\
     forall j, 0 <= j < i -> not_segment0 elf (phdr phoff j)) \/
  (base = 0 /\ forall j, 0 <= j < phnum -> not_segment0 elf (phdr phoff j)).

(** The dynamic symbols: those of the first section of that type, of which there
    are as many as fit its size, named by the strings of the section it links to. *)
Definition not_dynsym (elf : list Z) (sh : Z) : Prop :=
  exists t, sh_type elf sh = Some t /\ t <> SHT_DYNSYM.

Definition dynsyms_are (elf : list Z) (shoff shnum : Z) (l : list symbol) : Prop :=
  (exists i link syms strtab n, 0 <= i < shnum /\
     sh_type elf (shdr shoff i) = Some SHT_DYNSYM /\
     (forall j, 0 <= j < i -> not_dynsym elf (shdr shoff j)) /\
     sh_offset elf (shdr shoff i) = Some syms /\ sh_entsize elf (shdr shoff i) = Some SYM_SIZE /\
     sh_size elf (shdr shoff i) = Some (SYM_SIZE * Z.of_nat n) /\
     sh_link elf (shdr shoff i) = Some link /\ sh_offset elf (shdr shoff link) = Some strtab /\
     (n <= length elf)%nat /\ decode_syms elf n strtab syms = Some l) \/
  (l = [] /\ forall j, 0 <= j < shnum -> not_dynsym elf (shdr shoff j)).

(** A well-formed ELF64 file with [base] the address of the segment at offset 0
    and the dynamic symbols [l]. *)
Definition elf_decodes (elf : list Z) (base : Z) (l : list symbol) : Prop :=
  (EHDR_SIZE <= length elf)%nat /\ take 4 elf = ELFMAG /\ elf !! 4%nat = Some ELFCLASS64 /\
  exists phoff phnum shoff shnum,
    e_phoff elf = Some phoff /\ e_phnum elf = Some phnum /\
    e_shoff elf = Some shoff /\ e_shnum elf = Some shnum /\
    segment0_at elf phoff phnum base /\ dynsyms_are elf shoff shnum l.

(** A file the lookup does not fault on: not an ELF64 file, or one it can trust. *)
Definition elf_readable (elf : list Z) : Prop :=
  (length elf < EHDR_SIZE)%nat \/ take 4 elf <> ELFMAG \/ elf !! 4%nat <> Some ELFCLASS64 \/
  exists base l, elf_decodes elf base l.

(** The library a process has mapped under that name, if any, can be read. *)
Definition lib_readable {F : Files} (pid : Z) (lib : list Z) : Prop :=
  forall map_base path elf, find_library pid lib 512 = Some (map_base, path) ->
    map_elf pid path = Some elf -> elf_readable elf.

(** A process has loaded a library with dynamic symbols [l] at load bias [bias]:
    its [maps] consist of lines the code can read whole; the lines that match the
    name belong to one file; one of them maps the file from offset 0, and every
    such line starts at the bias plus the address of the file's segment at offset
    0; and the file, seen from the root of the process, is a well-formed ELF file
    that can be mapped. *)
Definition loaded {F : Files} (pid : Z) (lib : list Z) (bias : Z) (l : list symbol) : Prop :=
  exists es path elf base,
    file (proc_path pid (of_string "/maps")) = Some (maps_text es) /\ forallb entry_ok es = true /\
    (exists e, e ∈ es /\ entry_matches lib e = true /\ hex_value 0 (me_off e) = 0) /\
    (forall e, e ∈ es -> entry_matches lib e = true ->
       me_path e = path /\
       (hex_value 0 (me_off e) = 0 -> hex_value 0 (me_start e) = bias + base)) /\
    (length path <= 511)%nat /\
    file (proc_path pid (of_string "/root" ++ path)) = Some elf /\ mmap_ok path = true /\
    elf_decodes elf base l.

(** The address of a symbol of such a library, 0 when it does not define it. *)
Definition sym_addr (bias : Z) (l : list symbol) (sym : list Z) : Z :=
  match first_def l sym with Some v => u64 (bias + v) | None => 0 end.

(** ** Lemmas: text *)

Lemma hex_digit_char (d : Z) : 0 <= d < 16 -> hex_digit (hex_char d) = Some d.
Proof.
  intros Hd. assert (d ∈ seqZ 0 16) as Hin by (apply elem_of_seqZ; lia).
  repeat (apply elem_of_cons in Hin as [->|Hin]; [reflexivity|]). by apply elem_of_nil in Hin.
Qed.

Lemma hex_run_digits (ds : list Z) (n : nat) (acc : Z) (r : list Z) :
  forallb (fun d => (0 <=? d) && (d <? 16)) ds = true ->
  match r with [] => True | b :: _ => hex_digit b = None end ->
  hex_run (map hex_char ds ++ r) n acc = ((n + length ds)%nat, hex_value acc ds, r).
Proof.
  intros Hds Hr. revert n acc. induction ds as [|d ds IH]; intros n acc; simpl.
  - rewrite Nat.add_0_r. destruct r as [|b r]; [done|]. simpl. by rewrite Hr.
  - simpl in Hds. bool_prop. rewrite hex_digit_char by lia. rewrite IH by done.
    by rewrite Nat.add_succ_r.
Qed.

Lemma hex_char_range (d : Z) : 0 <= d < 16 -> 48 <= hex_char d <= 57 \/ 97 <= hex_char d <= 102.
Proof. unfold hex_char. intros Hd. case_if; lia. Qed.

(** [%lx] reads back a number written in hexadecimal. *)
Lemma scan_hex_digits (ds r : list Z) :
  hex_digits_ok ds = true ->
  match r with [] => True | b :: _ => hex_digit b = None /\ b <> 120 /\ b <> 88 end ->
  scan_hex (map hex_char ds ++ r) = Some (hex_value 0 ds, r).
Proof.
  intros Hok Hr. unfold hex_digits_ok in Hok. bool_prop.
  assert (hex_run (map hex_char ds ++ r) 0 0 = (length ds, hex_value 0 ds, r)) as Hrun.
  { apply hex_run_digits; [done|]. destruct r; naive_solver. }
  destruct ds as [|d ds]; [done|]. simpl in *. bool_prop.
  pose proof (hex_char_range d ltac:(lia)) as Hc.
  assert (scan_sign (hex_char d :: map hex_char ds ++ r) =
          (false, hex_char d :: map hex_char ds ++ r)) as Hsign.
  { unfold scan_sign. rewrite !(proj2 (Z.eqb_neq _ _)) by lia. done. }
  assert (scan_0x (hex_char d :: map hex_char ds ++ r) = hex_char d :: map hex_char ds ++ r) as H0x.
  { unfold scan_0x. destruct ds as [|d' ds]; simpl in *.
    - destruct r as [|b r]; [done|]. destruct Hr as (_ & Hb1 & Hb2).
      rewrite !(proj2 (Z.eqb_neq b _)) by done. by rewrite andb_false_r.
    - bool_prop. pose proof (hex_char_range d' ltac:(lia)).
      rewrite !(proj2 (Z.eqb_neq (hex_char d') _)) by lia. by rewrite andb_false_r. }
  unfold scan_hex. rewrite Hsign, H0x. change (hex_char d :: map hex_char ds ++ r) with
    (map hex_char (d :: ds) ++ r). simpl. rewrite Hrun.
  by rewrite (proj2 (Z.leb_gt _ _)) by lia.
Qed.

Lemma span_app (p : Z -> bool) (n : nat) (w r : list Z) :
  forallb p w = true -> (length w <= n)%nat ->
  match r with [] => True | b :: _ => p b = false end ->
  span p n (w ++ r) = (w, r).
Proof.
  intros Hw Hn Hr. revert n Hn. induction w as [|b w IH]; intros n Hn; simpl in *.
  - destruct n as [|n], r as [|b r]; simpl; try done. by rewrite Hr.
  - bool_prop. destruct n as [|n]; [lia|]. simpl. rewrite H, IH by (done || lia). done.
Qed.

Lemma skip_ws_word (w r : list Z) : word_ok w = true -> skip_ws (w ++ r) = w ++ r.
Proof.
  unfold word_ok. intros Hw. bool_prop. destruct w as [|b w]; [done|]. simpl in *. bool_prop.
  unfold not_space in H0. bool_prop. by rewrite H0.
Qed.

Lemma skip_ws_spaces (pad r : list Z) :
  forallb is_space pad = true -> skip_ws (pad ++ r) = skip_ws r.
Proof. induction pad as [|b pad IH]; simpl; [done|]. intros H. bool_prop. by rewrite H, IH. Qed.

Lemma hex_word_ok (ds : list Z) : hex_digits_ok ds = true -> word_ok (map hex_char ds) = true.
Proof.
  unfold hex_digits_ok, word_ok. intros H. bool_prop. apply andb_true_iff. split.
  - by destruct ds.
  - clear -H1. induction ds as [|d ds IH]; simpl in *; [done|]. bool_prop.
    rewrite IH, andb_true_r by done. pose proof (hex_char_range d ltac:(lia)).
    unfold not_space, is_space. apply negb_true_iff, orb_false_iff.
    split; [apply Z.eqb_neq; lia|]. apply andb_false_iff. right. apply Z.leb_gt. lia.
Qed.

(** The steps of [sscanf] on well-formed input. *)
Lemma sscanf_hex (ds r : list Z) (c : Z) (fmt : list conv) :
  hex_digits_ok ds = true -> c = 45 \/ c = 32 ->
  sscanf (CHex :: fmt) (map hex_char ds ++ c :: r) = VNum (hex_value 0 ds) :: sscanf fmt (c :: r).
Proof.
  intros Hd Hc. cbn [sscanf]. rewrite skip_ws_word by by apply hex_word_ok.
  rewrite scan_hex_digits; [done|done|]. destruct Hc as [-> | ->]; by split_and!.
Qed.

Lemma sscanf_lit (c : Z) (r : list Z) (fmt : list conv) :
  sscanf (CLit c :: fmt) (c :: r) = sscanf fmt r.
Proof. cbn [sscanf]. by rewrite Z.eqb_refl. Qed.

Lemma sscanf_space (w r : list Z) (fmt : list conv) :
  word_ok w = true -> sscanf (CSpace :: fmt) (32 :: w ++ r) = sscanf fmt (w ++ r).
Proof. intros Hw. cbn [sscanf skip_ws]. simpl is_space. by rewrite skip_ws_word. Qed.

Lemma sscanf_str (w r : list Z) (n : nat) (fmt : list conv) :
  word_ok w = true -> (length w <= n)%nat ->
  sscanf (CStr n :: fmt) (w ++ 32 :: r) = VStr w :: sscanf fmt (32 :: r).
Proof.
  intros Hw Hn. cbn [sscanf]. rewrite skip_ws_word by done. unfold word_ok in Hw. bool_prop.
  rewrite span_app by done. by destruct w.
Qed.

Lemma sscanf_skip (w r : list Z) (fmt : list conv) :
  word_ok w = true -> sscanf (CSkip :: fmt) (w ++ 32 :: r) = sscanf fmt (32 :: r).
Proof.
  intros Hw. cbn [sscanf]. rewrite skip_ws_word by done. unfold word_ok in Hw. bool_prop.
  rewrite span_app; [by destruct w|done|rewrite length_app; lia|done].
Qed.

Lemma span_take (p : Z -> bool) (n : nat) (w r : list Z) :
  forallb p w = true -> match r with [] => True | b :: _ => p b = false end ->
  fst (span p n (w ++ r)) = take n w.
Proof.
  intros Hw Hr. revert n. induction w as [|b w IH]; intros n; simpl in *.
  - rewrite take_nil. destruct n as [|n], r as [|b r]; simpl; try done. by rewrite Hr.
  - bool_prop. destruct n as [|n]; [done|]. simpl. rewrite H. specialize (IH H0 n).
    destruct (span p n (w ++ r)). simpl in *. by rewrite IH.
Qed.

(** A line of [maps] is parsed into its start, its end, its permissions, its
    offset and its path, unless that is empty. *)
Lemma sscanf_entry (e : map_entry) :
  entry_ok e = true ->
  sscanf maps_format (entry_line e) =
    [VNum (hex_value 0 (me_start e)); VNum (hex_value 0 (me_stop e)); VStr (me_perms e);
     VNum (hex_value 0 (me_off e))] ++
    match me_path e with [] => [] | _ => [VStr (take 511 (me_path e))] end.
Proof.
  destruct e as [start stop perms off dev inode pad path]. unfold entry_ok, path_ok.
  unfold entry_line at 2. unfold entry_body.
  cbn [me_start me_stop me_perms me_off me_dev me_inode me_pad me_path]. intros Hok. bool_prop.
  unfold maps_format. repeat (rewrite <- (assoc_L (++)) || cbn [app]).
  assert (forallb is_space pad = true) as Hpad.
  { eapply forallb_forall. intros x Hx. eapply forallb_forall in Hx; [|done]. bool_prop. by subst x. }
  pose proof (hex_word_ok stop). pose proof (hex_word_ok off).
  rewrite sscanf_hex, sscanf_lit, sscanf_hex, sscanf_space by auto.
  rewrite sscanf_str, sscanf_space, sscanf_hex, sscanf_space by auto.
  rewrite sscanf_skip, sscanf_space, sscanf_skip by auto.
  cbn [sscanf skip_ws]. change (is_space 32) with true. cbv iota.
  rewrite skip_ws_spaces by done. destruct path as [|b path]; [done|].
  assert (skip_ws ((b :: path) ++ [nl]) = (b :: path) ++ [nl]) as ->.
  { simpl. unfold not_space in *. bool_prop. by case_match. }
  pose proof (span_take not_nl 511 (b :: path) [nl]) as Hspan.
  destruct (span not_nl 511 ((b :: path) ++ [nl])) as [w r]. simpl in Hspan.
  rewrite Hspan by done. done.
Qed.

Lemma match_entry (lib : list Z) (e : map_entry) :
  entry_ok e = true ->
  match_line lib (entry_line e) = if entry_matches lib e then Some (entry_mapping e) else None.
Proof.
  intros Hok. unfold match_line, entry_matches, entry_mapping. rewrite sscanf_entry by done.
  destruct (me_path e) as [|b path]; [done|]. cbn [app take head].
  destruct (bool_decide_reflect (Some b = Some slash)) as [[= ->]|Hb].
  - by rewrite Z.eqb_refl.
  - by rewrite (proj2 (Z.eqb_neq _ _)) by congruence.
Qed.

(** [fgets] takes a line that fits. *)
Lemma take_line_app (n : nat) (body r : list Z) :
  forallb not_nl body = true -> (length body < n)%nat ->
  take_line n (body ++ nl :: r) = (body ++ [nl], r).
Proof.
  revert n. induction body as [|b body IH]; intros n Hb Hn; (destruct n as [|n]; [lia|]); simpl in *.
  - done.
  - bool_prop. unfold not_nl in H. bool_prop. rewrite (proj2 (Z.eqb_neq _ _)) by done.
    by rewrite IH by (done || lia).
Qed.

Lemma forallb_hex (p : Z -> bool) (ds : list Z) :
  (forall d, 0 <= d < 16 -> p (hex_char d) = true) -> hex_digits_ok ds = true ->
  forallb p (map hex_char ds) = true.
Proof.
  intros Hp Hd. unfold hex_digits_ok in Hd. bool_prop. clear -Hp H1.
  induction ds as [|d ds IH]; simpl in *; [done|]. bool_prop. rewrite Hp by lia. by apply IH.
Qed.

Lemma word_not_nl (w : list Z) : word_ok w = true -> forallb not_nl w = true.
Proof.
  unfold word_ok. intros Hw. bool_prop. clear -H0. induction w as [|b w IH]; simpl in *; [done|].
  bool_prop. rewrite IH, andb_true_r by done. unfold not_space, is_space, not_nl in *. bool_prop.
  apply negb_true_iff, Z.eqb_neq. intros ->. done.
Qed.

(** A line is one line, without a NUL. *)
Lemma entry_body_forallb (p : Z -> bool) (e : map_entry) :
  p 45 = true -> p 32 = true -> (forall d, 0 <= d < 16 -> p (hex_char d) = true) ->
  entry_ok e = true ->
  forallb p (me_perms e) = true -> forallb p (me_dev e) = true -> forallb p (me_inode e) = true ->
  forallb p (me_path e) = true -> forallb p (entry_body e) = true.
Proof.
  intros H45 H32 Hhex Hok Hp Hd Hi Hpath. unfold entry_ok in Hok. bool_prop. unfold entry_body.
  repeat (rewrite forallb_app || cbn [forallb]).
  rewrite !(forallb_hex p), H45, H32, Hp, Hd, Hi, Hpath by done. simpl. rewrite andb_true_r.
  eapply forallb_forall. intros x Hx. eapply forallb_forall in Hx; [|done]. bool_prop. by subst x.
Qed.

(** So [fgets] reads it, and only it. *)
Lemma fgets_entry (e : map_entry) (rest : list Z) :
  entry_ok e = true -> fgets 1024 (entry_line e ++ rest) = Some (entry_line e, rest).
Proof.
  intros Hok. pose proof Hok as Hok'. unfold entry_ok, path_ok in Hok'. bool_prop.
  assert (forallb not_nl (entry_body e) = true) as Hnl.
  { apply entry_body_forallb; auto using word_not_nl. intros d Hd.
    pose proof (hex_char_range d Hd). unfold not_nl, nl. apply negb_true_iff, Z.eqb_neq. lia. }
  assert (no_nul (entry_line e) = true) as Hnn.
  { unfold entry_line. rewrite no_nul_app, andb_true_r. apply entry_body_forallb; auto.
    intros d Hd. pose proof (hex_char_range d Hd). apply negb_true_iff, Z.eqb_neq. lia. }
  assert (length (entry_body e) < 1023)%nat as Hlen.
  { unfold entry_line in H0. rewrite length_app in H0. simpl in H0. lia. }
  unfold entry_line at 1. rewrite <- (assoc_L (++)). change ([nl] ++ rest) with (nl :: rest).
  assert (fgets 1024 (entry_body e ++ nl :: rest) =
    let '(l, r) := take_line 1023 (entry_body e ++ nl :: rest) in Some (cstr l, r)) as ->.
  { by destruct (entry_body e). }
  rewrite take_line_app by done. fold (entry_line e). by rewrite cstr_id.
Qed.

(** The text is read back line by line. *)
Lemma matches_entries (lib : list Z) (es : list map_entry) :
  forallb entry_ok es = true ->
  matches lib (maps_text es) = entry_mapping <$> List.filter (entry_matches lib) es.
Proof.
  unfold matches. assert (length es <= length (maps_text es))%nat as Hlen.
  { induction es as [|e es IH]; [done|]. change (maps_text (e :: es)) with (entry_line e ++ maps_text es).
    unfold entry_line. rewrite !length_app. simpl in *. lia. }
  assert (forall fuel, (length es < fuel)%nat -> forallb entry_ok es = true ->
    scan_lines fuel lib (maps_text es) = entry_mapping <$> List.filter (entry_matches lib) es) as H;
    [|apply H; lia].
  clear Hlen. induction es as [|e es IH]; intros fuel Hf Hok; (destruct fuel as [|fuel]; [simpl in Hf; lia|]).
  { done. }
  simpl in Hok. bool_prop. cbn [scan_lines].
  change (maps_text (e :: es)) with (entry_line e ++ maps_text es). rewrite fgets_entry, match_entry by done. rewrite IH by (done || simpl in Hf; lia).
  simpl. by destruct (entry_matches lib e).
Qed.

(** ** Lemmas: the choice of a mapping *)

Lemma lowest_snoc (ms : list mapping) (m : mapping) : lowest (ms ++ [m]) = lower (lowest ms) m.
Proof. unfold lowest. by rewrite foldl_app. Qed.

Lemma lowest_None (ms : list mapping) : lowest ms = None <-> ms = [].
Proof.
  split; [|by intros ->]. induction ms as [|m ms _] using rev_ind; [done|].
  rewrite lowest_snoc. unfold lower. destruct (lowest ms); [by destruct (_ <? _)|done].
Qed.

Lemma lowest_spec (ms : list mapping) (m : mapping) :
  lowest ms = Some m -> m ∈ ms /\ forall a, a ∈ ms -> m_start m <= m_start a.
Proof.
  revert m. induction ms as [|a ms IH] using rev_ind; intros m; [done|].
  rewrite lowest_snoc. unfold lower. destruct (lowest ms) as [b|] eqn:Eb.
  - destruct (IH b eq_refl) as [Hin Hle]. destruct (m_start a <? m_start b) eqn:E;
      intros [= <-]; bool_prop; (split; [set_solver|]); intros c;
      rewrite elem_of_app, list_elem_of_singleton; intros [Hc| ->]; try lia;
      apply Hle in Hc; lia.
  - intros [= <-]. apply lowest_None in Eb as ->. split; [set_solver|].
    intros c. rewrite app_nil_l, list_elem_of_singleton. intros ->. lia.
Qed.

Lemma existsb_filter (p : mapping -> bool) (ms : list mapping) :
  existsb p ms = negb (bool_decide (List.filter p ms = [])).
Proof.
  induction ms as [|m ms IH]; simpl; [done|]. by destruct (p m).
Qed.

(** The loop computes the reference. *)
Lemma find_loop_ref (cap : nat) (ms : list mapping) :
  foldl (find_step cap) find_init ms = find_ref cap ms.
Proof.
  induction ms as [|m ms IH] using rev_ind; [done|].
  rewrite foldl_app. simpl foldl. rewrite IH. unfold find_ref, find_step.
  rewrite List.filter_app, lowest_snoc, !existsb_filter, List.filter_app. simpl List.filter.
  rewrite (bool_decide_false (ms ++ [m] = [])) by (by destruct ms).
  change (at_zero m) with (m_off m =? 0).
  destruct (List.filter at_zero ms) as [|z zs] eqn:Ezs.
  - destruct (lowest ms) as [a|] eqn:El.
    + assert (ms <> []) by (intros ->; done). rewrite (bool_decide_false (ms = [])) by done.
      destruct (m_off m =? 0); simpl; [done|]. by destruct (m_start m <? m_start a).
    + apply lowest_None in El as ->. simpl. by destruct (m_off m =? 0).
  - assert (ms <> []) by (intros ->; done). rewrite (bool_decide_false (ms = [])) by done.
    rewrite (bool_decide_false (z :: zs = [])) by done.
    destruct (proj2 (last_is_Some (z :: zs))) as [y Hy]; [done|].
    destruct (m_off m =? 0); rewrite ?last_snoc, ?app_nil_r, ?Hy;
      cbn [fs_found fs_off0 fs_base fs_path negb orb]; by rewrite !andb_false_r.
Qed.

(** When the mappings at offset 0 agree, they are the result. *)
Lemma find_ref_zero (cap : nat) (ms : list mapping) (base : Z) (path : list Z) :
  List.filter at_zero ms <> [] ->
  (forall m, m ∈ List.filter at_zero ms -> m_start m = base /\ m_path m = path) ->
  find_ref cap ms = mkFind true base true (snprintf_s cap path).
Proof.
  intros Hne Hz. unfold find_ref. rewrite existsb_filter, (bool_decide_false (List.filter _ _ = [])) by done.
  rewrite (bool_decide_false (ms = [])) by (by intros ->).
  destruct (List.filter at_zero ms) as [|z zs] eqn:Ez; [done|].
  destruct (proj2 (last_is_Some (z :: zs))) as [y Hy]; [done|]. rewrite Hy.
  destruct (Hz y) as [-> _]; [by apply last_Some_elem_of|].
  destruct (Hz z) as [_ Hp]; [set_solver|]. simpl. by rewrite Hp.
Qed.

Lemma span_length (p : Z -> bool) (n : nat) (s : list Z) : (length (fst (span p n s)) <= n)%nat.
Proof.
  revert s. induction n as [|n IH]; intros s; simpl; [done|]. destruct s as [|b s]; simpl; [lia|].
  destruct (p b); simpl; [|lia]. specialize (IH s). destruct (span p n s). simpl in *. lia.
Qed.

(** No string [sscanf] stores exceeds the width of its directive. *)
Lemma sscanf_widths (M : nat) (fmt : list conv) (s : list Z) :
  Forall (fun c => match c with CStr n | CLine n => (n <= M)%nat | _ => True end) fmt ->
  Forall (fun v => match v with VStr w => (length w <= M)%nat | VNum _ => True end) (sscanf fmt s).
Proof.
  intros Hf. revert s. induction Hf as [|c fmt Hc _ IH]; intros s; simpl; [constructor|].
  destruct c as [|c| |n| |n].
  - destruct (scan_hex (skip_ws s)) as [[v r]|]; [|constructor]. by constructor.
  - destruct s as [|b s]; [constructor|]. destruct (b =? c); [done|constructor].
  - done.
  - pose proof (span_length not_space n (skip_ws s)) as Hl.
    destruct (span not_space n (skip_ws s)) as [[|b w] r]; [constructor|].
    constructor; [simpl in *; lia|done].
  - destruct (span not_space (length (skip_ws s)) (skip_ws s)) as [[|b w] r]; [constructor|done].
  - pose proof (span_length not_nl n s) as Hl.
    destruct (span not_nl n s) as [[|b w] r]; [constructor|].
    constructor; [simpl in *; lia|done].
Qed.

Lemma match_line_ok (lib line : list Z) (m : mapping) :
  match_line lib line = Some m ->
  (length (m_path m) < 512)%nat /\ head (m_path m) = Some slash /\ strstr (m_path m) lib = true.
Proof.
  unfold match_line. pose proof (sscanf_widths 511 maps_format line) as Hw.
  destruct (sscanf maps_format line) as [|[start|] [|[stop|] [|[|perms] [|[off|] [|[|path] [|]]]]]];
    try done.
  destruct path as [|b path]; [done|]. case_if; [|done]. intros [= <-]. cbn [m_path head].
  split; [|split; [by f_equal|done]].
  assert (length (b :: path) <= 511)%nat; [|simpl in *; lia].
  cut (Forall (fun c => match c with CStr n | CLine n => (n <= 511)%nat | _ => True end) maps_format).
  - intros Hf. specialize (Hw Hf). by do 4 (apply Forall_cons in Hw as [_ Hw]);
      apply Forall_cons in Hw as [Hw _].
  - repeat (constructor; [done || lia|]). constructor.
Qed.

Lemma matches_ok (lib text : list Z) (m : mapping) :
  m ∈ matches lib text ->
  (length (m_path m) < 512)%nat /\ head (m_path m) = Some slash /\ strstr (m_path m) lib = true.
Proof.
  unfold matches. generalize (S (length text)) as fuel. intros fuel. revert text.
  induction fuel as [|fuel IH]; intros text; simpl; [by intros ?%elem_of_nil|].
  destruct (fgets 1024 text) as [[line rest]|]; [|by intros ?%elem_of_nil].
  rewrite elem_of_app. intros [Hin|Hin]; [|by eapply IH].
  destruct (match_line lib line) as [m'|] eqn:E; simpl in Hin; [|by apply elem_of_nil in Hin].
  apply list_elem_of_singleton in Hin as ->. by eapply match_line_ok.
Qed.

(** ** Lemmas: symbols *)

Lemma strcmp_at_spec (elf : list Z) (fuel : nat) (off : Z) (name sym : list Z) :
  read_str elf fuel off = Some name -> no_nul sym = true ->
  strcmp_at elf off sym = Some (strcmp_eq name sym).
Proof.
  revert fuel off name. induction sym as [|c sym IH]; intros fuel off name Hr Hn;
    (destruct fuel as [|fuel]; [done|]); simpl in *;
    destruct (elf_byte elf (u64 off)) as [b|]; simpl in *; try done.
  - destruct (b =? 0); [by injection Hr as <-|].
    destruct (read_str elf fuel (off + 1)); simpl in Hr; [|done]. by injection Hr as <-.
  - bool_prop. destruct (b =? 0) eqn:Eb; bool_prop.
    + injection Hr as <-. subst. by rewrite (proj2 (Z.eqb_neq _ _)) by done.
    + destruct (read_str elf fuel (off + 1)) as [s|] eqn:Er; simpl in Hr; [|done].
      injection Hr as <-. destruct (b =? c) eqn:Ec; bool_prop.
      * subst. erewrite IH by done. f_equal. unfold strcmp_eq.
        apply bool_decide_ext. split; [by intros ->|by intros [=]].
      * f_equal. symmetry. apply strcmp_eq_false. by intros [=].
Qed.

(** The lookup is the search of the decoded table. *)
Lemma sym_loop_spec (elf : list Z) (n fuel : nat) (strtab off : Z) (l : list symbol)
    (sym : list Z) :
  decode_syms elf n strtab off = Some l -> (n <= fuel)%nat -> no_nul sym = true ->
  sym_loop elf fuel (Z.of_nat n) strtab off sym = Some (first_def l sym).
Proof.
  revert fuel off l. induction n as [|n IH]; intros fuel off l Hd Hf Hn.
  { simpl in Hd. injection Hd as <-. by destruct fuel. }
  destruct fuel as [|fuel]; [lia|]. cbn [decode_syms] in Hd. cbn [sym_loop].
  rewrite (proj2 (Z.leb_gt _ _)) by lia. replace (Z.of_nat (S n) - 1) with (Z.of_nat n) by lia.
  destruct (st_shndx elf off) as [ndx|]; simpl in Hd |- *; [|done].
  destruct (st_value elf off) as [v|]; simpl in Hd |- *; [|done].
  destruct (st_name elf off) as [nm|]; simpl in Hd |- *; [|done].
  destruct (read_str elf _ (strtab + nm)) as [s|] eqn:Es; simpl in Hd; [|done].
  destruct (decode_syms elf n strtab (off + SYM_SIZE)) as [rest|] eqn:Er; simpl in Hd; [|done].
  injection Hd as <-. assert (n <= fuel)%nat by lia.
  rewrite (strcmp_at_spec elf _ _ s) by done. simpl.
  unfold first_def, defines. simpl. rewrite !(IH _ _ rest) by done.
  destruct (ndx =? SHN_UNDEF), (v =? 0); simpl; try done.
  by destruct (strcmp_eq s sym).
Qed.

(** Skipping entries that are not the one searched for. *)
Lemma phdr_loop_skip (elf : list Z) (phoff : Z) (m n : nat) (k : Z) :
  (forall j, k <= j < k + Z.of_nat m -> not_segment0 elf (phdr phoff j)) ->
  phdr_loop elf (m + n) (phdr phoff k) = phdr_loop elf n (phdr phoff (k + Z.of_nat m)).
Proof.
  revert k. induction m as [|m IH]; intros k Hk; [by rewrite Z.add_0_r|].
  destruct (Hk k) as (t & o & Ht & Ho & Hto); [lia|]. cbn [Nat.add phdr_loop].
  rewrite Ht. simpl. replace (phdr phoff k + PHDR_SIZE) with (phdr phoff (k + 1)) by (unfold phdr; lia).
  rewrite IH by (intros; apply Hk; lia). replace (k + 1 + Z.of_nat m) with (k + Z.of_nat (S m)) by lia.
  case_if; [|done]. rewrite Ho. simpl. case_if; [|done]. bool_prop. subst. by destruct Hto.
Qed.

Lemma phdr_loop_spec (elf : list Z) (phoff phnum base : Z) :
  segment0_at elf phoff phnum base -> phdr_loop elf (Z.to_nat phnum) phoff = Some base.
Proof.
  assert (phoff = phdr phoff 0) as E0 by (unfold phdr; lia). intros [(i & Hi & [Ht Ho] & Hv & Hj)|[-> Hj]].
  - replace (Z.to_nat phnum) with (Z.to_nat i + S (Z.to_nat (phnum - i - 1)))%nat by lia.
    rewrite E0 at 1. rewrite phdr_loop_skip by (intros; apply Hj; lia).
    replace (0 + Z.of_nat (Z.to_nat i)) with i by lia. cbn [phdr_loop]. rewrite Ht. simpl. by rewrite Ho.
  - rewrite <- (Nat.add_0_r (Z.to_nat phnum)). rewrite E0 at 1.
    by rewrite phdr_loop_skip by (intros; apply Hj; lia).
Qed.

Lemma shdr_loop_skip (elf : list Z) (shoff : Z) (m n : nat) (k : Z) :
  (forall j, k <= j < k + Z.of_nat m -> not_dynsym elf (shdr shoff j)) ->
  shdr_loop elf shoff (m + n) (shdr shoff k) = shdr_loop elf shoff n (shdr shoff (k + Z.of_nat m)).
Proof.
  revert k. induction m as [|m IH]; intros k Hk; [by rewrite Z.add_0_r|].
  destruct (Hk k) as (t & Ht & Hne); [lia|]. cbn [Nat.add shdr_loop].
  rewrite Ht. simpl. replace (shdr shoff k + SHDR_SIZE) with (shdr shoff (k + 1)) by (unfold shdr; lia).
  rewrite IH by (intros; apply Hk; lia). replace (k + 1 + Z.of_nat m) with (k + Z.of_nat (S m)) by lia.
  by rewrite (proj2 (Z.eqb_neq _ _)) by done.
Qed.

(** The loop finds the table. *)
Lemma shdr_loop_spec (elf : list Z) (shoff shnum : Z) (l : list symbol) :
  dynsyms_are elf shoff shnum l ->
  (exists syms strtab n,
     shdr_loop elf shoff (Z.to_nat shnum) shoff = Some (Some (mkLoc syms (Z.of_nat n) strtab)) /\
     (n <= length elf)%nat /\ decode_syms elf n strtab syms = Some l) \/
  (shdr_loop elf shoff (Z.to_nat shnum) shoff = Some None /\ l = []).
Proof.
  assert (shoff = shdr shoff 0) as E0 by (unfold shdr; lia).
  intros [(i & link & syms & strtab & n & Hi & Ht & Hj & Ho & He & Hs & Hl & Hstr & Hn & Hd)|[-> Hj]].
  - left. exists syms, strtab, n. split; [|done].
    replace (Z.to_nat shnum) with (Z.to_nat i + S (Z.to_nat (shnum - i - 1)))%nat by lia.
    rewrite E0 at 2. rewrite shdr_loop_skip by (intros; apply Hj; lia).
    replace (0 + Z.of_nat (Z.to_nat i)) with i by lia. cbn [shdr_loop]. rewrite Ht. simpl.
    rewrite Ho. simpl. rewrite He. simpl. rewrite Hs. simpl. rewrite Hl. simpl.
    fold (shdr shoff link). rewrite Hstr. cbn [mbind option_bind]. do 3 f_equal.
    rewrite Z.mul_comm, Z.div_mul by done. done.
  - right. split; [|done]. rewrite <- (Nat.add_0_r (Z.to_nat shnum)). rewrite E0 at 2.
    by rewrite shdr_loop_skip by (intros; apply Hj; lia).
Qed.

Lemma dynsym_lookup_spec (elf sym : list Z) (base : Z) (l : list symbol) :
  elf_decodes elf base l -> no_nul sym = true ->
  dynsym_lookup elf sym = Some ((fun v => (v, base)) <$> first_def l sym).
Proof.
  intros (Hl & Hm & Hc & phoff & phnum & shoff & shnum & H1 & H2 & H3 & H4 & H5 & H6) Hn.
  unfold dynsym_lookup. rewrite (proj2 (Nat.ltb_ge _ _)), !bool_decide_true by done. cbn [orb negb].
  rewrite H1. simpl. rewrite H2. simpl. rewrite (phdr_loop_spec _ _ _ _ H5). simpl. rewrite H3. simpl.
  rewrite H4. simpl. destruct (shdr_loop_spec _ _ _ _ H6) as [(syms & str & n & -> & Hb & Hd)|[-> ->]]; simpl.
  - erewrite sym_loop_spec by (done || lia). simpl. by destruct (first_def l sym).
  - done.
Qed.

Lemma dynsym_lookup_readable (elf sym : list Z) :
  elf_readable elf -> no_nul sym = true -> is_Some (dynsym_lookup elf sym).
Proof.
  intros Hr Hn. destruct Hr as [Hl|[Hm|[Hc|(base & l & Hd)]]].
  - unfold dynsym_lookup. rewrite (proj2 (Nat.ltb_lt _ _)) by done. by eexists.
  - unfold dynsym_lookup. rewrite (bool_decide_false (take 4 elf = ELFMAG)), orb_true_r by done.
    by eexists.
  - unfold dynsym_lookup. rewrite (bool_decide_false (elf !! 4%nat = _)), orb_true_r by done.
    by eexists.
  - erewrite dynsym_lookup_spec by done. by eexists.
Qed.

Lemma resolve_symbol_readable {F : Files} (pid : Z) (lib sym : list Z) :
  lib_readable pid lib -> no_nul sym = true -> is_Some (resolve_symbol pid lib sym).
Proof.
  intros Hr Hn. unfold resolve_symbol. destruct (find_library pid lib 512) as [[b p]|] eqn:Ef; [|by eexists].
  destruct (map_elf pid p) as [elf|] eqn:Em; [|by eexists].
  destruct (dynsym_lookup_readable elf sym) as [r ->]; [by eapply Hr|done|].
  destruct r as [[v base]|]; by eexists.
Qed.

(** Path names under [/proc] fit the buffers of the code. *)
Lemma length_digits_of (b : Z) (fuel : nat) (z : Z) (acc : list Z) :
  (length (digits_of b fuel z acc) <= fuel + length acc)%nat.
Proof.
  revert z acc. induction fuel as [|fuel IH]; intros z acc; simpl; [done|].
  case_if; simpl; [lia|]. etrans; [apply IH|]. simpl. lia.
Qed.

Lemma length_proc_path (pid : Z) (what : list Z) :
  (length (proc_path pid what) <= 27 + length what)%nat.
Proof.
  unfold proc_path, dec. rewrite !length_app.
  assert (length (of_string "/proc/") = 6)%nat as -> by reflexivity.
  pose proof (length_digits_of 10 20 pid []). pose proof (length_digits_of 10 20 (- pid) []).
  case_if; simpl in *; rewrite length_map; lia.
Qed.

(** The lines of a library that is one file lead to that file and its base. *)
Lemma find_library_entries {F : Files} (pid base : Z) (lib path : list Z) (es : list map_entry) :
  file (proc_path pid (of_string "/maps")) = Some (maps_text es) -> forallb entry_ok es = true ->
  (exists e, e ∈ es /\ entry_matches lib e = true /\ hex_value 0 (me_off e) = 0) ->
  (forall e, e ∈ es -> entry_matches lib e = true ->
     me_path e = path /\ (hex_value 0 (me_off e) = 0 -> hex_value 0 (me_start e) = base)) ->
  (length path <= 511)%nat -> find_library pid lib 512 = Some (base, path).
Proof.
  intros Hmaps Hok (e0 & He0 & Hm0 & Hz0) Hall Hpl. unfold find_library.
  rewrite snprintf_s_id by (pose proof (length_proc_path pid (of_string "/maps")); simpl in *; lia).
  rewrite Hmaps, find_loop_ref, matches_entries by done. set (ms := entry_mapping <$> _).
  assert (forall m, m ∈ List.filter at_zero ms -> m_start m = base /\ m_path m = path) as Hz.
  { intros m Hm. apply list_elem_of_In, List.filter_In in Hm as [Hm Hat].
    apply list_elem_of_In, list_elem_of_fmap in Hm as (e & -> & He).
    apply list_elem_of_In, List.filter_In in He as [He Hme]. apply list_elem_of_In in He.
    unfold at_zero, entry_mapping in *. cbn [m_start m_off m_path] in *. bool_prop.
    destruct (Hall e He Hme) as [<- Hst]. split; [by apply Hst|]. by apply take_ge. }
  assert (entry_mapping e0 ∈ List.filter at_zero ms) as Hin.
  { apply list_elem_of_In, List.filter_In. split; [|unfold at_zero; simpl; by apply Z.eqb_eq].
    apply list_elem_of_In, list_elem_of_fmap. exists e0. split; [done|].
    apply list_elem_of_In, List.filter_In. by rewrite <- list_elem_of_In. }
  rewrite find_ref_zero with (base := base) (path := path);
    [|intros E; rewrite E in Hin; set_solver|done].
  cbn [fs_found fs_base fs_path]. by rewrite snprintf_s_id by lia.
Qed.

Lemma map_elf_rooted {F : Files} (pid : Z) (path elf : list Z) :
  (length path <= 511)%nat -> file (proc_path pid (of_string "/root" ++ path)) = Some elf ->
  mmap_ok path = true -> (EHDR_SIZE <= length elf)%nat -> map_elf pid path = Some elf.
Proof.
  intros Hpl Hf Hm Hl. unfold map_elf.
  assert (length (proc_path pid (of_string "/root" ++ path)) < 600)%nat.
  { pose proof (length_proc_path pid (of_string "/root" ++ path)) as Hp. rewrite length_app in Hp.
    assert (length (of_string "/root") = 5)%nat as E5 by reflexivity. lia. }
  rewrite snprintf_s_id by done. by rewrite Hf, Hm, (proj2 (Nat.ltb_ge _ _)) by done.
Qed.

Lemma resolve_symbol_loaded {F : Files} (pid bias : Z) (lib sym : list Z) (l : list symbol) :
  loaded pid lib bias l -> no_nul sym = true ->
  resolve_symbol pid lib sym = Some (sym_addr bias l sym).
Proof.
  intros (es & path & elf & base & Hmaps & Hok & Hz & Hall & Hpl & Hfile & Hmm & Hd) Hn.
  unfold resolve_symbol, sym_addr.
  rewrite (find_library_entries pid (bias + base) lib path es), (map_elf_rooted pid path elf)
    by (done || apply Hd).
  rewrite (dynsym_lookup_spec elf sym base l) by done. simpl.
  destruct (first_def l sym); simpl; [|done]. do 2 f_equal. lia.
Qed.
