(* ===== verification/SymbolsProps.v ===== *)
(** * SymbolsProps: the properties of symbol resolution

    The theorems about injector/symbols.c, with witnesses on a concrete [maps]
    text and a concrete ELF file that defines one symbol. *)

From stdpp Require Import base numbers list gmap strings.
From S2P Require Import Prelude Runtime Remote Symbols.

Open Scope Z_scope.

(** ** Concrete files *)

(** The digits of a number written in hexadecimal. *)
Definition unhex (s : string) : list Z := omap hex_digit (of_string s).

(** A program, its libc in two mappings, memory without a name and the stack. *)
Definition demo_entries : list map_entry :=
  [mkEntry (unhex "55e000000000") (unhex "55e000001000") (of_string "r--p") (unhex "00000000")
     (of_string "08:01") (of_string "77") (of_string "   ") (of_string "/usr/bin/my app");
   mkEntry (unhex "7f0000000000") (unhex "7f0000028000") (of_string "r--p") (unhex "00000000")
     (of_string "08:01") (of_string "123") (of_string "  ") (of_string "/usr/lib/libc.so.6");
   mkEntry (unhex "7f0000028000") (unhex "7f00001b0000") (of_string "r-xp") (unhex "00028000")
     (of_string "08:01") (of_string "123") (of_string "  ") (of_string "/usr/lib/libc.so.6");
   mkEntry (unhex "7f0000200000") (unhex "7f0000204000") (of_string "rw-p") (unhex "00000000")
     (of_string "00:00") (of_string "0") [] [];
   mkEntry (unhex "7ffd00000000") (unhex "7ffd00021000") (of_string "rw-p") (unhex "00000000")
     (of_string "00:00") (of_string "0") (of_string "    ") (of_string "[stack]")].

Definition demo_maps : list Z :=
  of_string "55e000000000-55e000001000 r--p 00000000 08:01 77    /usr/bin/my app" ++ [nl] ++
  of_string "7f0000000000-7f0000028000 r--p 00000000 08:01 123   /usr/lib/libc.so.6" ++ [nl] ++
  of_string "7f0000028000-7f00001b0000 r-xp 00028000 08:01 123   /usr/lib/libc.so.6" ++ [nl] ++
  of_string "7f0000200000-7f0000204000 rw-p 00000000 00:00 0 " ++ [nl] ++
  of_string "7ffd00000000-7ffd00021000 rw-p 00000000 00:00 0     [stack]" ++ [nl].

Example demo_maps_text : maps_text demo_entries = demo_maps.
Proof. vm_compute. reflexivity. Qed.

(** Two libraries match: the first one's path, the second one's address. *)
Definition two_libs_maps : list Z :=
  of_string "7f0000000000-7f0000028000 r--p 00000000 08:01 123  /opt/a/libssl.so.1.1" ++ [nl] ++
  of_string "7f1000000000-7f1000028000 r--p 00000000 08:01 456  /usr/lib/libssl.so.3" ++ [nl].

Definition demo_elf_header (shoff shnum : Z) : list Z :=
  ELFMAG ++ [2; 1; 1; 0; 0; 0; 0; 0; 0; 0; 0; 0] ++
  to_bytes 2 3 ++ to_bytes 2 62 ++ to_bytes 4 1 ++ to_bytes 8 0 ++ to_bytes 8 64 ++
  to_bytes 8 shoff ++ to_bytes 4 0 ++ to_bytes 2 64 ++ to_bytes 2 56 ++ to_bytes 2 1 ++
  to_bytes 2 64 ++ to_bytes 2 shnum ++ to_bytes 2 0.

(** An ELF file with these dynamic symbols behind the null symbol: program header,
    section headers of the symbols and their strings, the symbols, the strings. *)
Fixpoint elf_symbols (name : Z) (syms : list (list Z * Z)) : list Z :=
  match syms with
  | [] => []
  | (s, v) :: rest =>
      to_bytes 4 name ++ [0x12; 0] ++ to_bytes 2 7 ++ to_bytes 8 v ++ to_bytes 8 16 ++
      elf_symbols (name + Z.of_nat (length s) + 1) rest
  end.

Definition elf_of (base : Z) (syms : list (list Z * Z)) : list Z :=
  let size := 24 * (1 + Z.of_nat (length syms)) in
  demo_elf_header 120 2 ++
  to_bytes 4 1 ++ to_bytes 4 4 ++ to_bytes 8 0 ++ to_bytes 8 base ++ to_bytes 8 0 ++
  to_bytes 8 4096 ++ to_bytes 8 4096 ++ to_bytes 8 4096 ++
  to_bytes 4 0 ++ to_bytes 4 SHT_DYNSYM ++ to_bytes 8 0 ++ to_bytes 8 0 ++ to_bytes 8 248 ++
  to_bytes 8 size ++ to_bytes 4 1 ++ to_bytes 4 0 ++ to_bytes 8 8 ++ to_bytes 8 24 ++
  to_bytes 4 0 ++ to_bytes 4 3 ++ to_bytes 8 0 ++ to_bytes 8 0 ++ to_bytes 8 (248 + size) ++
  to_bytes 8 6 ++ to_bytes 4 0 ++ to_bytes 4 0 ++ to_bytes 8 1 ++ to_bytes 8 0 ++
  replicate 24 0 ++ elf_symbols 1 syms ++
  0 :: mjoin ((fun '(s, _) => s ++ [0]) <$> syms).

Definition demo_elf : list Z := elf_of 0x400000 [(of_string "mmap", 0x401000)].

Definition demo_syms : list symbol :=
  [mkSymbol [] 0 0; mkSymbol (of_string "mmap") 7 0x401000].

(** A file whose section headers would lie far behind its end. *)
Definition bad_elf : list Z := demo_elf_header (2 ^ 40) 1.

Definition demo_files (maps : list Z) : Files :=
  {| file := fun p =>
       if strcmp_eq p (of_string "/proc/42/maps") then Some maps
       else if strcmp_eq p (of_string "/proc/42/root/usr/lib/libc.so.6") then Some demo_elf
       else None;
     mmap_ok := fun _ => true |}.

(** A file made by [elf_of], with its strings at [strtab], decodes. *)
Ltac solve_elf strtab n :=
  split_and!; [apply (bool_decide_unpack _); vm_compute; exact I|reflexivity|reflexivity|];
  exists 64, 1, 120, 2; split_and!; [vm_compute; reflexivity..| |];
  [ left; exists 0; split; [lia|]; split; [split; vm_compute; reflexivity|];
    split; [vm_compute; reflexivity|intros; lia]
  | left; exists 0, 1, 248, strtab, n; split; [lia|]; split; [vm_compute; reflexivity|];
    split; [intros; lia|]; split_and!; [vm_compute; reflexivity..| |vm_compute; reflexivity];
    apply (bool_decide_unpack _); vm_compute; exact I ].

Lemma demo_elf_decodes : elf_decodes demo_elf 0x400000 demo_syms.
Proof. solve_elf 296 2%nat. Qed.

(** ** Theorems *)

(** C26. The [maps] of a process are read back: for every text of lines as the
    kernel writes them (addresses in hexadecimal, permissions, offset, device,
    inode, spaces, a path that may be empty and may have spaces inside) of at most
    1023 characters, the line buffer of the code, reading the file line by line
    and parsing each line recovers, in order, exactly the mappings of files whose
    path contains the name asked for, with their start, their offset and their
    path, of which the code keeps the first 511 characters. *)
Theorem maps_text_roundtrip (lib : list Z) (es : list map_entry) :
  forallb entry_ok es = true ->
  matches lib (maps_text es) =
    (fun e => mkMapping (hex_value 0 (me_start e)) (hex_value 0 (me_off e)) (take 511 (me_path e)))
    <$> List.filter (fun e => bool_decide (head (me_path e) = Some slash) &&
                              strstr (take 511 (me_path e)) lib) es.
Proof. apply matches_entries. Qed.

Lemma maps_text_roundtrip_witness :
  matches (of_string "libc.so") (maps_text demo_entries) =
    [mkMapping 0x7f0000000000 0 (of_string "/usr/lib/libc.so.6");
     mkMapping 0x7f0000028000 0x28000 (of_string "/usr/lib/libc.so.6")].
Proof.
  etransitivity; [apply (maps_text_roundtrip (of_string "libc.so") demo_entries)|];
    vm_compute; reflexivity.
Defined.

(** C27. [find_library] for every [maps] text: it fails exactly when the file
    cannot be read or no line names a matching file.  If some matching line is at
    file offset 0, the base is the start of the last such line and the path that
    of the first one; otherwise base and path are those of a matching line with
    the lowest start.  So when the matching lines at offset 0 name one file, that
    file and the start of one of its mappings at offset 0 are the result. *)
Theorem find_library_correct {F : Files} (pid : Z) (lib : list Z) :
  match file (snprintf_s 64 (proc_path pid (of_string "/maps"))), find_library pid lib 512 with
  | None, r => r = None
  | Some text, None => matches lib text = []
  | Some text, Some (base, path) =>
      exists m p, m ∈ matches lib text /\ p ∈ matches lib text /\
        m_start m = base /\ m_path p = path /\ strstr path lib = true /\
        ((last (List.filter at_zero (matches lib text)) = Some m /\
          head (List.filter at_zero (matches lib text)) = Some p) \/
         (List.filter at_zero (matches lib text) = [] /\ m = p /\
          forall a, a ∈ matches lib text -> base <= m_start a))
  end.
Proof.
  unfold find_library. destruct (file _) as [text|]; [|done]. rewrite find_loop_ref. unfold find_ref.
  cbn [fs_found fs_base fs_path].
  assert (forall m, m ∈ matches lib text ->
    snprintf_s 512 (m_path m) = m_path m /\ strstr (m_path m) lib = true) as Hok.
  { intros m Hm. apply matches_ok in Hm as (? & _ & ?). split; [by apply snprintf_s_id|done]. }
  set (ms := matches lib text) in *.
  destruct (bool_decide_reflect (ms = [])) as [?|Hne]; [done|]. cbn [negb].
  assert (forall a, a ∈ List.filter at_zero ms -> a ∈ ms) as Hin.
  { intros a Ha. apply list_elem_of_In, List.filter_In in Ha as [Ha _]. by apply list_elem_of_In. }
  destruct (List.filter at_zero ms) as [|z zs].
  - cbn [last head]. destruct (lowest ms) as [m|] eqn:El; [|by apply lowest_None in El].
    apply lowest_spec in El as [Hm Hle]. exists m, m. cbn [from_option].
    destruct (Hok m Hm) as [-> ?]. split_and!; [done..|]. by right.
  - destruct (proj2 (last_is_Some (z :: zs))) as [y Hy]; [done|]. rewrite Hy. cbn [head].
    destruct (Hok z) as [-> ?]; [apply Hin; set_solver|]. exists y, z.
    split_and!; [by apply Hin, last_Some_elem_of|apply Hin; set_solver|done..|by left].
Qed.

(** When the lines name different files the result can mix them: here the path
    is the first library's and the base address the second one's. *)
Example find_library_mixes :
  find_library (F := demo_files two_libs_maps) 42 (of_string "libssl.so") 512 =
  Some (0x7f1000000000, of_string "/opt/a/libssl.so.1.1").
Proof. vm_compute. reflexivity. Qed.

(** C28. The lookup in the ELF file is a search of its dynamic symbol table: on
    a well-formed ELF64 file, [dynsym_lookup] returns the value of the first
    symbol of the table that is defined, not zero and has exactly the name asked
    for, together with the address of the first loadable segment at file offset 0
    (0 when there is none), and reports failure when there is no such symbol.  The
    table is the first section of type SHT_DYNSYM, its names the strings of the
    section that one links to. *)
Theorem dynsym_lookup_correct (elf sym : list Z) (base : Z) (l : list symbol) :
  elf_decodes elf base l -> no_nul sym = true ->
  dynsym_lookup elf sym = Some ((fun v => (v, base)) <$> first_def l sym).
Proof. apply dynsym_lookup_spec. Qed.

Lemma dynsym_lookup_correct_witness :
  dynsym_lookup demo_elf (of_string "mmap") =
    Some ((fun v => (v, 0x400000)) <$> first_def demo_syms (of_string "mmap")).
Proof.
  apply (dynsym_lookup_correct demo_elf (of_string "mmap") 0x400000 demo_syms).
  - exact demo_elf_decodes.
  - reflexivity.
Defined.

(** The table is trusted: a file whose header points behind its end makes the
    lookup read outside the mapping. *)
Example dynsym_lookup_faults : dynsym_lookup bad_elf (of_string "mmap") = None.
Proof. vm_compute. reflexivity. Qed.

(** C29. The resolved address is the symbol's address in the process.  Let the
    [maps] of the process consist of lines of at most 1023 characters of which the
    matching ones belong to one file, one of them at file offset 0, and every such
    one at the load bias plus the address of the file's segment at offset 0; and
    let that file, seen from the root of the process, be a well-formed ELF file.
    Then [resolve_symbol] returns the load bias plus the value of the symbol's
    first definition, and 0 when the file does not define it: the caller fails
    closed. *)
Theorem resolve_symbol_address {F : Files} (pid bias base : Z) (lib sym path elf : list Z)
    (es : list map_entry) (l : list symbol) :
  file (proc_path pid (of_string "/maps")) = Some (maps_text es) -> forallb entry_ok es = true ->
  (exists e, e ∈ es /\ entry_matches lib e = true /\ hex_value 0 (me_off e) = 0) ->
  (forall e, e ∈ es -> entry_matches lib e = true ->
     me_path e = path /\ (hex_value 0 (me_off e) = 0 -> hex_value 0 (me_start e) = bias + base)) ->
  (length path <= 511)%nat ->
  file (proc_path pid (of_string "/root" ++ path)) = Some elf -> mmap_ok path = true ->
  elf_decodes elf base l -> no_nul sym = true ->
  resolve_symbol pid lib sym =
    Some (match first_def l sym with Some v => u64 (bias + v) | None => 0 end).
Proof.
  intros H1 H2 H3 H4 H5 H6 H7 H8 Hn. apply resolve_symbol_loaded; [|done].
  by exists es, path, elf, base.
Qed.

Lemma resolve_symbol_address_witness :
  resolve_symbol (F := demo_files demo_maps) 42 (of_string "libc.so") (of_string "mmap") =
    Some (match first_def demo_syms (of_string "mmap") with
          | Some v => u64 (0x7effffc00000 + v)
          | None => 0
          end).
Proof.
  apply (@resolve_symbol_address (demo_files demo_maps) 42 0x7effffc00000 0x400000
           (of_string "libc.so") (of_string "mmap") (of_string "/usr/lib/libc.so.6") demo_elf
           demo_entries demo_syms).
  - vm_compute. reflexivity.
  - vm_compute. reflexivity.
  - eexists. split; [apply list_elem_of_In; right; left; reflexivity|].
    split; vm_compute; reflexivity.
  - intros e He Hm. apply list_elem_of_In in He.
    repeat (destruct He as [<-|He]; [first [discriminate Hm|split; [reflexivity|by vm_compute]]|]).
    destruct He.
  - apply (bool_decide_unpack _). vm_compute. exact I.
  - vm_compute. reflexivity.
  - reflexivity.
  - exact demo_elf_decodes.
  - reflexivity.
Defined.
