(* ===== verification/InjectorMain.v ===== *)
(** * InjectorMain: the injector daemon (injector/main.c)

    Discovery of the libraries to probe ([scan] with its table of attached
    files), and the event handler [on_event], which composes the client side of
    the socket protocol ([Uds]) with the installation ([Install]) and releases
    the frozen process.  The files under [/proc] are the parameter [Files]; the
    results of [stat], [name_to_handle_at] and of attaching a probe are the
    parameter [Proc]. *)

From stdpp Require Import base numbers list gmap strings.
From S2P Require Import Prelude Runtime Pool Uds UdsLemmas Remote RemoteLemmas Install Symbols.

Open Scope Z_scope.

(** ** Numbers as text *)

(** [%lx] and [%02x] *)
Definition print_hex (z : Z) : list Z := map hex_char (digits_of 16 16 z []).
Definition print_02x (b : Z) : list Z := [hex_char (b / 16); hex_char (b mod 16)].

(** [strtol(s, &end, 10)]: the value and [end]. *)
Fixpoint dec_run (s : list Z) (n : nat) (acc : Z) : nat * Z * list Z :=
  match s with
  | b :: t => if is_digit b then dec_run t (S n) (10 * acc + (b - 48)) else (n, acc, s)
  | [] => (n, acc, [])
  end.

Definition LONG_MAX : Z := 2 ^ 63 - 1.

Definition strtol (s : list Z) : Z * list Z :=
  let '(neg, t) := scan_sign (skip_ws s) in
  match dec_run t 0 0 with
  | (O, _, _) => (0, s)
  | (S _, v, r) =>
      let v := if (neg : bool) then - v else v in
      (Z.max (- 2 ^ 63) (Z.min LONG_MAX v), r)
  end.

(** ** The table of attached files *)

Definition ATT_MAX : nat := 512.
Definition KEY_MAX : nat := 300.

Record attached := mkAttached {
  at_key : list Z;
  at_link : bool
}.

(** [g_att] and [g_natt] *)
Record Table := mkTable {
  g_att : list attached;
  g_natt : nat
}.

Definition table_init : Table := mkTable (replicate ATT_MAX (mkAttached [] false)) 0.

Definition seen (tb : Table) (key : list Z) : bool :=
  existsb (fun a => strcmp_eq (at_key a) key) (take (g_natt tb) (g_att tb)).

(** [g_att[g_natt] = ...; ++g_natt]: no result outside the array. *)
Definition table_add (tb : Table) (key : list Z) (link : bool) : option Table :=
  if (g_natt tb <? length (g_att tb))%nat
  then Some (mkTable (<[g_natt tb := mkAttached (snprintf_s KEY_MAX key) link]> (g_att tb))
               (S (g_natt tb)))
  else None.

(** What identifies a file: the handle of [name_to_handle_at] (its type and at
    most 128 bytes) when there is one, else the device and inode. *)
Inductive file_id :=
  | IdHandle (handle_type : Z) (bytes : list Z)
  | IdInode (dev ino : Z).

(** The loop of [file_key] over the handle bytes; [n] is the length so far. *)
Fixpoint key_bytes (cap : Z) (bytes : list Z) (n : Z) : list Z :=
  match bytes with
  | [] => []
  | b :: rest => if n <? cap - 3 then print_02x b ++ key_bytes cap rest (n + 2) else []
  end.

Definition file_key (id : file_id) (cap : nat) : list Z :=
  match id with
  | IdHandle ty bytes =>
      let prefix := snprintf_s cap (104 :: dec ty ++ [58]) in
      prefix ++ key_bytes (Z.of_nat cap) (take 128 bytes) (Z.of_nat (length prefix))
  | IdInode dev ino => snprintf_s cap (105 :: print_hex dev ++ 58 :: print_hex ino)
  end.

Class Proc := {
  (** the names [readdir] returns for /proc; [None] when it cannot be opened *)
  proc_names : option (list (list Z));
  (** [stat] and the identity of the file *)
  stat_id : list Z -> option file_id;
  (** attaching a uprobe to a file succeeds *)
  attach_ok : list Z -> bool
}.

Section Scan.
Context {F : Files} {P : Proc}.

(** "%*s %*s %*s %*s %*s %511[^\n]" *)
Definition libssl_format : list conv :=
  [CSkip; CSpace; CSkip; CSpace; CSkip; CSpace; CSkip; CSpace; CSkip; CSpace; CLine 511].

(** The first line that names a libssl. *)
Fixpoint libssl_lines (fuel : nat) (s : list Z) : option (list Z) :=
  match fuel with
  | O => None
  | S fuel' =>
      match fgets 1024 s with
      | None => None
      | Some (line, rest) =>
          match sscanf libssl_format line with
          | [VStr path] => if strstr path libssl_so then Some path else libssl_lines fuel' rest
          | _ => libssl_lines fuel' rest
          end
      end
  end.

Definition find_libssl_for_pid (pid : Z) (cap : nat) : option (list Z) :=
  match file (snprintf_s 64 (proc_path pid (of_string "/maps"))) with
  | None => None
  | Some text => snprintf_s cap <$> libssl_lines (S (length text)) text
  end.

(** [read_comm]: [strcspn] cuts the name at the newline. *)
Fixpoint cut_nl (s : list Z) : list Z :=
  match s with
  | [] => []
  | b :: t => if b =? nl then [] else b :: cut_nl t
  end.

Definition read_comm (pid : Z) (cap : nat) : list Z :=
  match file (snprintf_s 64 (proc_path pid (of_string "/comm"))) with
  | None => []
  | Some text =>
      match fgets cap text with
      | None => []
      | Some (line, _) => cut_nl line
      end
  end.

(** What [scan] prints. *)
Inductive scan_report :=
  | SWouldAttach (path : list Z) (pid : Z) (comm : list Z)
  | SAttached (path : list Z).

(** The path [scan] uses for a process, and the identity behind it. *)
Definition libssl_of (pid : Z) : option (list Z * file_id) :=
  match find_libssl_for_pid (s32 pid) 512 with
  | None => None
  | Some path =>
      let rooted := snprintf_s 600 (proc_path pid (of_string "/root" ++ path)) in
      match stat_id rooted with
      | Some id => Some (rooted, id)
      | None => match stat_id path with Some id => Some (path, id) | None => None end
      end
  end.

(** The loop of [scan]: the number of fresh files, the table, the messages;
    [None] for undefined behaviour. *)
Fixpoint scan_loop (names : list (list Z)) (self : Z) (dry : bool) (tb : Table) (fresh : Z)
    : option (Z * Table * list scan_report) :=
  match names with
  | [] => Some (fresh, tb, [])
  | name :: rest =>
      let '(pid, stop) := strtol name in
      if negb (bool_decide (stop = [])) || (pid =? self) then scan_loop rest self dry tb fresh
      else
        match libssl_of pid with
        | None => scan_loop rest self dry tb fresh
        | Some (use, id) =>
            let key := file_key id KEY_MAX in
            if seen tb key then scan_loop rest self dry tb fresh
            else
              let comm := read_comm (s32 pid) 64 in
              '(tb, out) ←
                (if dry then tb' ← table_add tb key false; Some (tb', [SWouldAttach use pid comm])
                 else if attach_ok use then tb' ← table_add tb key true; Some (tb', [SAttached use])
                 else Some (tb, []));
              if (ATT_MAX <=? g_natt tb)%nat then Some (fresh + 1, tb, out)
              else
                '(n, tb, out') ← scan_loop rest self dry tb (fresh + 1);
                Some (n, tb, out ++ out')
        end
  end.

(** [scan]: -1 when /proc cannot be opened. *)
Definition scan (self : Z) (dry : bool) (tb : Table) : option (Z * Table * list scan_report) :=
  match proc_names with
  | None => Some (-1, tb, [])
  | Some names => scan_loop names self dry tb 0
  end.

End Scan.

(** The resolver [inject_session] uses. *)
Definition symbols_resolver {F : Files} (pid : Z) : Resolver := resolve_symbol pid.

(** ** Events *)

(** [struct ssl_event] *)
Record ssl_event := mkSslEvent {
  ev_pid : Z;
  ev_tid : Z;
  ev_ssl : Z
}.

Definition SSL_EVENT_SIZE : Z := 16.

Inductive event_report :=
  | EResumed (pid ssl : Z) (dest group : list Z)
  | EInstallFailed (pid ssl : Z) (dest group : list Z)
  | EMiss (pid : Z) (dest : list Z).

(** The state the handler works on: its own process, the target, and whether the
    target was sent SIGCONT. *)
Record Daemon := mkDaemon {
  d_world : World;
  d_target : Target;
  d_cont : list Z
}.

Definition in_world {A} (m : M World A) : M Daemon A := fun d =>
  match m (d_world d) with
  | None => None
  | Some (a, w) => Some (a, mkDaemon w (d_target d) (d_cont d))
  end.

Definition in_target {A} (m : M Target A) : M Daemon A := fun d =>
  match m (d_target d) with
  | None => None
  | Some (a, t) => Some (a, mkDaemon (d_world d) t (d_cont d))
  end.

Definition kill_cont (pid : Z) : M Daemon unit := fun d =>
  Some (tt, mkDaemon (d_world d) (d_target d) (d_cont d ++ [pid])).

Section Handler.
Context {env : Env} {K : Kernel} {R : Resolver}.

(** [on_event] for a record of [len] bytes, with the agent's answers in [pr]. *)
Definition on_event (agent_sock dest : list Z) (pr : peer) (e : ssl_event) (len : Z)
    : M Daemon (list event_report) :=
  if len <? SSL_EVENT_SIZE then mret []
  else
    '(status, g, _) ← in_world (uds_get agent_sock dest pr (Some 64%nat));
    out ← (if status =? UDS_STATUS_OK then
             g ← lift_option g;
             der ← in_world (load (g_der g));
             let group := from_option id [] (g_group g) in
             rc ← in_target (inject_session (ev_ssl e) der (u64 (g_der_len g)));
             _ ← in_world (free (g_der g));
             mret [if rc =? 0 then EResumed (ev_pid e) (ev_ssl e) dest group
                   else EInstallFailed (ev_pid e) (ev_ssl e) dest group]
           else mret [EMiss (ev_pid e) dest]);
    _ ← kill_cont (s32 (ev_pid e));
    mret out.

End Handler.

(** ** Command line *)

Record inj_args := mkArgs {
  ia_agent : option (list Z);
  ia_dest : option (list Z);
  ia_libssl : option (list Z);
  ia_exclude : list Z;
  ia_target : Z;
  ia_scan : bool;
  ia_dry : bool
}.

Definition args_init : inj_args :=
  mkArgs None None None (of_string "ticket-agent") 0 false false.

(** The option loop, with [atoi] as [strtol] cut to an [int] ([None] when it does
    not fit); [Some None] is the usage error. *)
Fixpoint parse_args (args : list (list Z)) (a : inj_args) : option (option inj_args) :=
  match args with
  | [] => Some (Some a)
  | o :: rest =>
      let flag :=
        if strcmp_eq o (of_string "--scan") then
          parse_args rest (mkArgs (ia_agent a) (ia_dest a) (ia_libssl a) (ia_exclude a)
                             (ia_target a) true (ia_dry a))
        else if strcmp_eq o (of_string "--dry-run") then
          parse_args rest (mkArgs (ia_agent a) (ia_dest a) (ia_libssl a) (ia_exclude a)
                             (ia_target a) true true)
        else Some None in
      match rest with
      | [] => flag
      | v :: rest' =>
          if strcmp_eq o (of_string "--agent") then
            parse_args rest' (mkArgs (Some v) (ia_dest a) (ia_libssl a) (ia_exclude a)
                                (ia_target a) (ia_scan a) (ia_dry a))
          else if strcmp_eq o (of_string "--dest") then
            parse_args rest' (mkArgs (ia_agent a) (Some v) (ia_libssl a) (ia_exclude a)
                                (ia_target a) (ia_scan a) (ia_dry a))
          else if strcmp_eq o (of_string "--pid") then
            let n := fst (strtol v) in
            if (- 2 ^ 31 <=? n) && (n <? 2 ^ 31) then
              parse_args rest' (mkArgs (ia_agent a) (ia_dest a) (ia_libssl a) (ia_exclude a)
                                  n (ia_scan a) (ia_dry a))
            else None
          else if strcmp_eq o (of_string "--libssl") then
            parse_args rest' (mkArgs (ia_agent a) (ia_dest a) (Some v) (ia_exclude a)
                                (ia_target a) (ia_scan a) (ia_dry a))
          else if strcmp_eq o (of_string "--exclude-comm") then
            parse_args rest' (mkArgs (ia_agent a) (ia_dest a) (ia_libssl a) v
                                (ia_target a) (ia_scan a) (ia_dry a))
          else flag
      end
  end.

(** What the arguments make [main] do, before it opens anything. *)
Inductive mode :=
  | ModeUsage
  | ModeDryRun
  | ModePid (pid : Z) (agent dest : list Z) (libssl : option (list Z)) (exclude : list Z)
  | ModeScan (agent dest : list Z) (exclude : list Z).

Definition choose_mode (a : inj_args) : mode :=
  if (ia_target a <=? 0) && negb (ia_scan a) then ModeUsage
  else if ia_dry a then ModeDryRun
  else match ia_agent a, ia_dest a with
       | Some agent, Some dest =>
           if 0 <? ia_target a
           then ModePid (ia_target a) agent dest (ia_libssl a) (ia_exclude a)
           else ModeScan agent dest (ia_exclude a)
       | _, _ => ModeUsage
       end.

(** ** Specification vocabulary *)

(** The identities the kernel can report. *)
Definition id_ok (id : file_id) : Prop :=
  match id with
  | IdHandle ty bs =>
      - 2 ^ 31 <= ty < 2 ^ 31 /\ (length bs <= 128)%nat /\ Forall (fun b => 0 <= b < 256) bs
  | IdInode dev ino => 0 <= dev < 2 ^ 64 /\ 0 <= ino < 2 ^ 64
  end.

(** What a process has mapped as libc and libssl can be read. *)
Definition libs_readable {F : Files} (pid : Z) : Prop :=
  lib_readable pid libc_so /\ lib_readable pid libssl_so.

(** The functions of a libc and a libssl at these load biases. *)
Definition loaded_fns (libc_bias : Z) (libc : list symbol) (libssl_bias : Z)
    (libssl : list symbol) : Fns :=
  mkFns (sym_addr libc_bias libc sym_mmap) (sym_addr libc_bias libc sym_munmap)
    (sym_addr libssl_bias libssl sym_d2i) (sym_addr libssl_bias libssl sym_set)
    (sym_addr libssl_bias libssl sym_free).

(** The table: 512 cells, the used ones with distinct keys. *)
Definition table_ok (tb : Table) : Prop :=
  length (g_att tb) = ATT_MAX /\ (g_natt tb <= ATT_MAX)%nat /\
  NoDup (at_key <$> take (g_natt tb) (g_att tb)).

(** What a scan does to the table: it only appends. *)
Definition table_grows (tb tb' : Table) : Prop :=
  table_ok tb' /\ (g_natt tb <= g_natt tb')%nat /\
  take (g_natt tb) (g_att tb') = take (g_natt tb) (g_att tb).

(** ** Lemmas: keys *)

(** The digits denote the number. *)
Lemma digits_of_value (b : Z) (fuel : nat) (z : Z) (acc : list Z) :
  1 < b -> 0 <= z < b ^ Z.of_nat fuel ->
  foldl (fun a d => b * a + d) 0 (digits_of b fuel z acc) = foldl (fun a d => b * a + d) z acc.
Proof.
  intros Hb. revert z acc. induction fuel as [|fuel IH]; intros z acc Hz; simpl.
  { simpl in Hz. by replace z with 0 by lia. }
  rewrite Nat2Z.inj_succ, Z.pow_succ_r in Hz by lia. case_if.
  - simpl. f_equal. lia.
  - rewrite IH; [|split; [apply Z.div_pos; lia|apply Z.div_lt_upper_bound; lia]].
    simpl. f_equal. symmetry. apply Z.div_mod. lia.
Qed.

Lemma digits_of_range (b : Z) (fuel : nat) (z : Z) (acc : list Z) :
  1 < b -> 0 <= z -> Forall (fun d => 0 <= d < b) acc ->
  Forall (fun d => 0 <= d < b) (digits_of b fuel z acc).
Proof.
  intros Hb. revert z acc. induction fuel as [|fuel IH]; intros z acc Hz Hacc; simpl; [done|].
  case_if; [constructor; [lia|done]|]. apply IH; [apply Z.div_pos; lia|].
  constructor; [apply Z.mod_pos_bound; lia|done].
Qed.

Lemma digits_of_inj (b : Z) (fuel : nat) (x y : Z) :
  1 < b -> 0 <= x < b ^ Z.of_nat fuel -> 0 <= y < b ^ Z.of_nat fuel ->
  digits_of b fuel x [] = digits_of b fuel y [] -> x = y.
Proof.
  intros Hb Hx Hy E.
  pose proof (digits_of_value b fuel x [] Hb Hx). pose proof (digits_of_value b fuel y [] Hb Hy).
  simpl in *. congruence.
Qed.

Lemma map_inj_on (f : Z -> Z) (p : Z -> Prop) (l k : list Z) :
  (forall x y, p x -> p y -> f x = f y -> x = y) -> Forall p l -> Forall p k ->
  map f l = map f k -> l = k.
Proof.
  intros Hf Hl. revert k. induction Hl as [|x l Hx _ IH]; intros k Hk E; destruct Hk; try done.
  simpl in E. injection E as E1 E2. f_equal; [by apply Hf|by apply IH].
Qed.

Lemma hex_char_inj (x y : Z) : 0 <= x < 16 -> 0 <= y < 16 -> hex_char x = hex_char y -> x = y.
Proof. unfold hex_char. intros Hx Hy. repeat case_if; lia. Qed.

Lemma print_hex_inj (x y : Z) :
  0 <= x < 2 ^ 64 -> 0 <= y < 2 ^ 64 -> print_hex x = print_hex y -> x = y.
Proof.
  intros Hx Hy E. apply (map_inj_on _ (fun d => 0 <= d < 16)) in E.
  - by apply digits_of_inj in E.
  - apply hex_char_inj.
  - apply digits_of_range; [lia|lia|constructor].
  - apply digits_of_range; [lia|lia|constructor].
Qed.

Lemma dec_inj (x y : Z) :
  - 2 ^ 31 <= x < 2 ^ 31 -> - 2 ^ 31 <= y < 2 ^ 31 -> dec x = dec y -> x = y.
Proof.
  assert (forall z, 0 <= z -> Forall (fun d => 0 <= d < 10) (digits_of 10 20 z [])) as Hr.
  { intros z Hz. apply digits_of_range; [lia|done|constructor]. }
  assert (forall u v, 0 <= u < 10 ^ Z.of_nat 20 -> 0 <= v < 10 ^ Z.of_nat 20 ->
    map (Z.add 48) (digits_of 10 20 u []) = map (Z.add 48) (digits_of 10 20 v []) -> u = v) as Hm.
  { intros u v Hu Hv E. apply (map_inj_on _ (fun d => 0 <= d < 10)) in E; [|lia|apply Hr; lia..].
    by apply digits_of_inj in E. }
  assert (forall u l, 0 <= u -> map (Z.add 48) (digits_of 10 20 u []) <> 45 :: l) as Hne.
  { intros u l Hu E. pose proof (Hr u Hu) as Hf. destruct (digits_of 10 20 u []); [done|].
    apply Forall_cons in Hf as [Hd _]. simpl in E. injection E as E _. lia. }
  intros Hx Hy. unfold dec. repeat case_if; intros E'.
  - apply (f_equal (@tl Z)) in E'. cbn [tl] in E'. apply Hm in E'; lia.
  - symmetry in E'. by apply Hne in E'.
  - by apply Hne in E'.
  - by apply Hm in E'; try lia.
Qed.

Lemma split_unique (c : Z) (a b x y : list Z) :
  c ∉ a -> c ∉ b -> a ++ c :: x = b ++ c :: y -> a = b /\ x = y.
Proof.
  revert b. induction a as [|h a IH]; intros [|k b] Ha Hb E; simpl in *; simplify_eq; try done.
  - set_solver.
  - set_solver.
  - destruct (IH b) as [-> ->]; set_solver.
Qed.

Lemma length_dec (z : Z) : (length (dec z) <= 21)%nat.
Proof.
  pose proof (length_digits_of 10 20 (- z) []). pose proof (length_digits_of 10 20 z []).
  unfold dec. case_if; cbn [length] in *; rewrite length_map; lia.
Qed.

Lemma length_print_hex (z : Z) : (length (print_hex z) <= 16)%nat.
Proof.
  unfold print_hex. rewrite length_map. pose proof (length_digits_of 16 16 z []).
  cbn [length] in *. lia.
Qed.

(** Within the buffer the handle bytes are all written. *)
Lemma key_bytes_full (cap : Z) (bs : list Z) (n : Z) :
  n + 2 * Z.of_nat (length bs) <= cap - 2 -> key_bytes cap bs n = mjoin (print_02x <$> bs).
Proof.
  revert n. induction bs as [|b bs IH]; intros n Hn; simpl; [done|].
  simpl length in Hn. rewrite (proj2 (Z.ltb_lt _ _)) by lia. simpl. by rewrite IH by lia.
Qed.

Lemma key_bytes_length (cap : Z) (bs : list Z) (n : Z) :
  n + Z.of_nat (length (key_bytes cap bs n)) <= Z.max n (cap - 2).
Proof.
  revert n. induction bs as [|b bs IH]; intros n; simpl; [lia|].
  case_if; simpl; [|lia]. specialize (IH (n + 2)). lia.
Qed.

(** A key always fits its buffer. *)
Lemma file_key_length (id : file_id) : (length (file_key id KEY_MAX) < KEY_MAX)%nat.
Proof.
  destruct id as [ty bs|dev ino]; unfold file_key.
  - set (prefix := snprintf_s KEY_MAX _).
    assert (length prefix < KEY_MAX)%nat by (apply snprintf_s_length; unfold KEY_MAX; lia).
    pose proof (key_bytes_length (Z.of_nat KEY_MAX) (take 128 bs) (Z.of_nat (length prefix))).
    rewrite length_app. unfold KEY_MAX in *. lia.
  - apply snprintf_s_length. unfold KEY_MAX. lia.
Qed.

Lemma print_02x_inj (xs ys : list Z) :
  Forall (fun b => 0 <= b < 256) xs -> Forall (fun b => 0 <= b < 256) ys ->
  mjoin (print_02x <$> xs) = mjoin (print_02x <$> ys) -> xs = ys.
Proof.
  intros Hx. revert ys. induction Hx as [|x xs Hx _ IH]; intros ys Hy E; destruct Hy as [|y ys Hy Hys];
    try done.
  simpl in E. injection E as E1 E2 E3.
  assert (forall b, 0 <= b < 256 -> 0 <= b / 16 < 16 /\ 0 <= b mod 16 < 16) as Hb.
  { intros b ?. split; [|apply Z.mod_pos_bound; lia].
    split; [apply Z.div_pos; lia|apply Z.div_lt_upper_bound; lia]. }
  destruct (Hb x Hx), (Hb y Hy). apply hex_char_inj in E1, E2; try done.
  f_equal; [|by apply IH]. rewrite (Z.div_mod x 16), (Z.div_mod y 16) by lia. congruence.
Qed.

Lemma no_colon_dec (z : Z) : 58 ∉ dec z.
Proof.
  assert (forall u, 0 <= u -> 58 ∉ map (Z.add 48) (digits_of 10 20 u [])) as H.
  { intros u Hu Hin. apply list_elem_of_In, List.in_map_iff in Hin as (d & Hd & Hin).
    assert (Forall (fun d => 0 <= d < 10) (digits_of 10 20 u [])) as Hf
      by (apply digits_of_range; [lia|lia|constructor]).
    apply list_elem_of_In in Hin. eapply Forall_forall in Hf; [|done]. lia. }
  unfold dec. case_if; [|by apply H]. apply not_elem_of_cons. split; [lia|]. apply H. lia.
Qed.

Lemma no_colon_hex (z : Z) : 0 <= z -> 58 ∉ print_hex z.
Proof.
  intros Hz Hin. apply list_elem_of_In, List.in_map_iff in Hin as (d & Hd & Hin).
  assert (Forall (fun d => 0 <= d < 16) (digits_of 16 16 z [])) as Hf
    by (apply digits_of_range; [lia|lia|constructor]).
  apply list_elem_of_In in Hin. eapply Forall_forall in Hf; [|done].
  pose proof (hex_char_range d Hf). lia.
Qed.

Lemma file_key_eq (id : file_id) :
  id_ok id ->
  file_key id KEY_MAX = match id with
                        | IdHandle ty bs => 104 :: dec ty ++ 58 :: mjoin (print_02x <$> bs)
                        | IdInode dev ino => 105 :: print_hex dev ++ 58 :: print_hex ino
                        end.
Proof.
  destruct id as [ty bs|dev ino]; cbn [file_key id_ok].
  - intros (_ & Hl & _). pose proof (length_dec ty).
    assert (length (104%Z :: dec ty ++ [58%Z]) <= 23)%nat.
    { simpl. rewrite length_app. simpl. lia. }
    rewrite snprintf_s_id by (unfold KEY_MAX; lia). rewrite take_ge by lia.
    rewrite key_bytes_full by (unfold KEY_MAX; lia). simpl. by rewrite <- (assoc_L (++)).
  - intros _. apply snprintf_s_id. simpl. rewrite length_app. simpl.
    pose proof (length_print_hex dev). pose proof (length_print_hex ino). unfold KEY_MAX. lia.
Qed.

Lemma file_key_inj (a b : file_id) :
  id_ok a -> id_ok b -> file_key a KEY_MAX = file_key b KEY_MAX -> a = b.
Proof.
  intros Ha Hb. rewrite !file_key_eq by done.
  destruct a as [ty bs|dev ino], b as [ty' bs'|dev' ino']; simpl in *; intros E; try done;
    injection E as E; apply split_unique in E as [E1 E2]; auto using no_colon_dec.
  - destruct Ha as (? & _ & ?), Hb as (? & _ & ?).
    apply dec_inj in E1; [|done|done]. apply print_02x_inj in E2; [|done|done]. by subst.
  - destruct Ha, Hb. apply print_hex_inj in E1, E2; try done. by subst.
  - apply no_colon_hex. lia.
  - apply no_colon_hex. lia.
Qed.

(** ** Lemmas: the table *)

Lemma seen_spec (tb : Table) (key : list Z) :
  seen tb key = true <-> key ∈ at_key <$> take (g_natt tb) (g_att tb).
Proof.
  unfold seen. rewrite existsb_exists, list_elem_of_fmap. split.
  - intros (a & Ha & E). apply strcmp_eq_true in E as <-. exists a. split; [done|].
    by apply list_elem_of_In.
  - intros (a & -> & Ha). exists a. split; [by apply list_elem_of_In|apply strcmp_eq_refl].
Qed.

Lemma table_grows_trans (t1 t2 t3 : Table) :
  table_grows t1 t2 -> table_grows t2 t3 -> table_grows t1 t3.
Proof.
  intros (_ & Hn & Ht) (Hok & Hn' & Ht'). split_and!; [done|lia|].
  apply (f_equal (take (g_natt t1))) in Ht'. rewrite !take_take, !Nat.min_l in Ht' by lia.
  congruence.
Qed.

Lemma table_add_spec (tb : Table) (key : list Z) (link : bool) :
  table_ok tb -> (g_natt tb < ATT_MAX)%nat -> seen tb key = false -> (length key < KEY_MAX)%nat ->
  exists tb', table_add tb key link = Some tb' /\ table_grows tb tb' /\
    g_natt tb' = S (g_natt tb).
Proof.
  intros (Hl & Hn & Hnd) Hlt Hs Hk. unfold table_add. rewrite Hl, (proj2 (Nat.ltb_lt _ _)) by done.
  rewrite snprintf_s_id by done. eexists. split; [done|]. split; [|done].
  split_and!; simpl; [|lia|by rewrite take_insert_ge].
  split_and!; simpl; [by rewrite length_insert|lia|].
  rewrite take_S_insert by lia. rewrite fmap_app. apply NoDup_app. split_and!; [done| |].
  - intros k Hin. simpl. rewrite list_elem_of_singleton. intros ->.
    apply seen_spec in Hin. congruence.
  - apply NoDup_singleton.
Qed.

Section ScanLemmas.
Context {F : Files} {P : Proc}.

(** Started with room in the table, the scan stays inside it, keeps what it
    holds, and records each file once. *)
Lemma scan_loop_spec (names : list (list Z)) (self : Z) (dry : bool) (tb : Table) (fresh : Z) :
  table_ok tb -> (g_natt tb < ATT_MAX)%nat ->
  exists n tb' out, scan_loop names self dry tb fresh = Some (n, tb', out) /\
    table_grows tb tb' /\ length out = (g_natt tb' - g_natt tb)%nat /\
    fresh <= n /\ Z.of_nat (length out) <= n - fresh /\
    (dry = true -> Z.of_nat (length out) = n - fresh).
Proof.
  revert tb fresh. induction names as [|name names IH]; intros tb fresh Hok Hn; simpl.
  { exists fresh, tb, []. split; [done|]. rewrite Nat.sub_diag.
    split_and!; try done; simpl; lia. }
  destruct (strtol name) as [pid stop].
  case_if; [by apply IH|].
  destruct (libssl_of pid) as [[use id]|]; [|by apply IH].
  destruct (seen tb (file_key id KEY_MAX)) eqn:Es; [by apply IH|].
  assert (forall tb1 out1, table_grows tb tb1 -> length out1 = (g_natt tb1 - g_natt tb)%nat ->
    (length out1 <= 1)%nat -> (dry = true -> length out1 = 1%nat) ->
    exists n tb' out,
      (if (ATT_MAX <=? g_natt tb1)%nat then Some (fresh + 1, tb1, out1)
       else '(n, tb, out') ← scan_loop names self dry tb1 (fresh + 1); Some (n, tb, out1 ++ out'))
        = Some (n, tb', out) /\
      table_grows tb tb' /\ length out = (g_natt tb' - g_natt tb)%nat /\
      fresh <= n /\ Z.of_nat (length out) <= n - fresh /\
      (dry = true -> Z.of_nat (length out) = n - fresh)) as Hnext.
  { intros tb1 out1 Hg Hl Hle Hdry. case_if.
    - do 3 eexists. split; [done|]. split_and!; [done|done|lia|lia|]. intros Hd.
      rewrite (Hdry Hd). lia.
    - pose proof Hg as (Hok1 & Hg1 & _).
      destruct (IH tb1 (fresh + 1)) as (n & tb' & out & -> & Hg' & Hl' & Hf & Hlo & Hd'); [done|lia|].
      do 3 eexists. split; [done|]. pose proof Hg' as (_ & Hg1' & _). rewrite length_app.
      split_and!; [by eapply table_grows_trans|lia|lia|lia|].
      intros Hd. specialize (Hd' Hd). specialize (Hdry Hd). lia. }
  pose proof (file_key_length id) as Hlen.
  destruct dry.
  { destruct (table_add_spec tb (file_key id KEY_MAX) false) as (tb1 & -> & Hg & Hn1); [done..|].
    simpl. apply Hnext; simpl; try done; lia. }
  destruct (attach_ok use).
  { destruct (table_add_spec tb (file_key id KEY_MAX) true) as (tb1 & -> & Hg & Hn1); [done..|].
    simpl. apply Hnext; simpl; try done; lia. }
  simpl. apply Hnext; simpl; try done; lia.
Qed.

End ScanLemmas.

(** ** Lemmas: the event handler *)

(** The five functions are resolved without a fault when the two libraries can be
    read, and to their addresses in the process when it has loaded them. *)
Lemma resolve_all_readable {F : Files} (pid : Z) :
  libs_readable pid -> is_Some (resolve_all (R := symbols_resolver pid)).
Proof.
  intros [Hc Hs]. unfold resolve_all, resolve, symbols_resolver.
  destruct (resolve_symbol_readable pid libc_so sym_mmap) as [a1 ->]; [done|done|].
  destruct (resolve_symbol_readable pid libc_so sym_munmap) as [a2 ->]; [done|done|].
  destruct (resolve_symbol_readable pid libssl_so sym_d2i) as [a3 ->]; [done|done|].
  destruct (resolve_symbol_readable pid libssl_so sym_set) as [a4 ->]; [done|done|].
  destruct (resolve_symbol_readable pid libssl_so sym_free) as [a5 ->]; [done|done|].
  by eexists.
Qed.

Lemma resolve_all_loaded {F : Files} (pid cb sb : Z) (cl sl : list symbol) :
  loaded pid libc_so cb cl -> loaded pid libssl_so sb sl ->
  resolve_all (R := symbols_resolver pid) = Some (loaded_fns cb cl sb sl).
Proof.
  intros Hc Hs. unfold resolve_all, resolve, symbols_resolver.
  rewrite !(resolve_symbol_loaded pid cb libc_so _ cl) by done.
  by rewrite !(resolve_symbol_loaded pid sb libssl_so _ sl) by done.
Qed.

Section HandlerLemmas.
Context {env : Env} {K : Kernel} {R : Resolver} {bad : Prop}.

Lemma returns_in_world {A} (m : M World A) (d : Daemon) (Q : A -> Daemon -> Prop) :
  returns_or bad m (d_world d) (fun a w => Q a (mkDaemon w (d_target d) (d_cont d))) ->
  returns_or bad (in_world m) d Q.
Proof. unfold returns_or, in_world. by destruct (m (d_world d)) as [[a w]|]. Qed.

Lemma returns_in_target {A} (m : M Target A) (d : Daemon) (Q : A -> Daemon -> Prop) :
  returns_or bad m (d_target d) (fun a t => Q a (mkDaemon (d_world d) t (d_cont d))) ->
  returns_or bad (in_target m) d Q.
Proof. unfold returns_or, in_target. by destruct (m (d_target d)) as [[a t]|]. Qed.

Lemma returns_kill_cont (pid : Z) (d : Daemon) (Q : unit -> Daemon -> Prop) :
  Q tt (mkDaemon (d_world d) (d_target d) (d_cont d ++ [pid])) -> returns_or bad (kill_cont pid) d Q.
Proof. done. Qed.

(** The tail of the handler once the answer of the agent is in a block of its own. *)
Lemma install_tail_spec (e : ssl_event) (dest : list Z) (g : Got) (l : nat) (bs : list Z)
    (d : Daemon) (h : gmap nat (list Z)) (I : Z -> Target -> Prop)
    (Q : list event_report -> Daemon -> Prop) :
  g_der g = Some l -> h !! l = None -> w_heap (d_world d) = <[l := bs]> h ->
  returns_or bad (inject_session (ev_ssl e) bs (u64 (g_der_len g))) (d_target d) I ->
  (forall rc d', I rc (d_target d') -> w_heap (d_world d') = h ->
     w_next (d_world d') = w_next (d_world d) -> d_cont d' = d_cont d ->
     Q [if rc =? 0 then EResumed (ev_pid e) (ev_ssl e) dest (from_option id [] (g_group g))
        else EInstallFailed (ev_pid e) (ev_ssl e) dest (from_option id [] (g_group g))] d') ->
  returns_or bad (der ← in_world (load (g_der g));
           rc ← in_target (inject_session (ev_ssl e) der (u64 (g_der_len g)));
           _ ← in_world (free (g_der g));
           mret [if rc =? 0 then EResumed (ev_pid e) (ev_ssl e) dest (from_option id [] (g_group g))
                 else EInstallFailed (ev_pid e) (ev_ssl e) dest (from_option id [] (g_group g))])
    d Q.
Proof.
  intros Hg Hl Hh Hinj HQ. rewrite Hg.
  assert (w_heap (d_world d) !! l = Some bs) as Hb by (rewrite Hh; apply lookup_insert_eq).
  apply returns_bind, returns_in_world. eapply returns_load; [done|].
  apply returns_bind, returns_in_target. eapply returns_mono; [exact Hinj|]. intros rc t' HI.
  apply returns_bind, returns_in_world, returns_free; [simpl; eauto|].
  apply returns_ret, HQ; [done| |done|done]. simpl. by rewrite Hh, delete_insert_id.
Qed.

Lemma on_event_spec (agent_sock dest : list Z) (pr : peer) (e : ssl_event) (len : Z) (d : Daemon) :
  (resolve_all = None -> bad) -> heap_wf (d_world d) -> conn_bytes_ok (pr_conn pr) = true ->
  returns_or bad (on_event agent_sock dest pr e len) d (fun out d' =>
    d_cont d' = d_cont d ++ (if len <? SSL_EVENT_SIZE then [] else [s32 (ev_pid e)]) /\
    w_heap (d_world d') = w_heap (d_world d) /\ heap_wf (d_world d') /\
    target_step (d_target d) (d_target d') /\
    ((out = (if len <? SSL_EVENT_SIZE then [] else [EMiss (ev_pid e) dest]) /\
      d_target d' = d_target d) \/
     exists group, out = [EResumed (ev_pid e) (ev_ssl e) dest group] \/
       out = [EInstallFailed (ev_pid e) (ev_ssl e) dest group])).
Proof.
  intros Hres Hwf Hb. unfold on_event.
  assert (target_step (d_target d) (d_target d)) as Hrefl by (split_and!; auto).
  destruct (len <? SSL_EVENT_SIZE).
  { apply returns_ret. rewrite app_nil_r. split_and!; auto. }
  apply returns_bind, returns_in_world. eapply returns_mono; [by apply uds_get_safe|].
  intros [[st g] oc] w1 [(Hwf1 & [Hle _] & Hg) _]. destruct g as [g|].
  - destruct Hg as (-> & l & bs & Hd & Hfr & Hh & Hr & Hl). cbn [Z.eqb UDS_STATUS_OK].
    apply returns_bind, returns_bind. eapply returns_lift; [done|].
    eapply install_tail_spec; [done|exact Hfr|exact Hh| |].
    { apply inject_session_total; [done| |apply wrapU_range; lia].
      intros [_ Hn]. destruct (decide (0 <= g_der_len g)) as [Hp|Hp].
      - rewrite wrapU_small by lia. specialize (Hl Hp). lia.
      - exfalso. revert Hn. unfold wrapU. rewrite <- (Z.mod_add _ 1), Z.mod_small by lia. lia. }
    cbn [d_target d_cont d_world]. intros rc d' Hend Hw Hnx Hc. apply returns_bind.
    apply returns_kill_cont, returns_ret. simpl. rewrite Hc. split_and!; try done.
    + intros k. rewrite Hw, Hnx. intros Hk%Hwf. lia.
    + right. exists (from_option id [] (g_group g)). destruct (rc =? 0); auto.
  - destruct Hg as [Hst Hh]. rewrite (proj2 (Z.eqb_neq _ _)) by done.
    apply returns_bind, returns_ret, returns_bind, returns_kill_cont, returns_ret.
    simpl. split_and!; auto.
Qed.

(** When the agent answers with the frame of a session and the symbols resolve,
    success means that the bytes of that session were installed. *)
Lemma on_event_installs_spec (f : Fns) (agent_sock dest : list Z) (pr : peer) (e : ssl_event)
    (len : Z) (s : session) (d : Daemon) :
  heap_wf (d_world d) -> env_alloc (w_step (d_world d)) = true ->
  can_ask agent_sock dest pr = true -> SSL_EVENT_SIZE <= len ->
  0 < Z.of_nat (length (s_der s)) < 2 ^ 31 -> (length (s_group s) < GROUP_MAX)%nat ->
  no_nul (s_group s) = true -> delivered (c_in (pr_conn pr)) = response_frame s ->
  t_alive (d_target d) = true -> t_traced (d_target d) = false ->
  resolve_all = Some f -> fns_ok f = true ->
  returns_or bad (on_event agent_sock dest pr e len) d (fun out d' =>
    d_cont d' = d_cont d ++ [s32 (ev_pid e)] /\
    (out = [EInstallFailed (ev_pid e) (ev_ssl e) dest (s_group s)] \/
     (out = [EResumed (ev_pid e) (ev_ssl e) dest (s_group s)] /\
      exists sig r0 es tail,
        t_log (d_target d') =
          t_log (d_target d) ++ [EvSeize; EvStop (WStopped sig) r0] ++ es ++ tail /\
        injected f (ev_ssl e) (s_der s) 0 es /\
        (refused (d_target d) (d_target d') \/ t_alive (d_target d') = false \/
         (t_traced (d_target d') = false /\ t_stopped (d_target d') = false /\
          t_regs (d_target d') = r0))))).
Proof.
  intros Hwf Hal Hask Hlen Hder Hgl Hgn Hdel Ha Ht Hr Hf. unfold on_event.
  rewrite (proj2 (Z.ltb_ge _ _)) by lia.
  apply returns_bind, returns_in_world.
  eapply returns_mono; [by apply uds_get_decodes|].
  intros [[st g] oc] w1 (-> & _ & _ & l & -> & Hfr & Hh). cbn [Z.eqb UDS_STATUS_OK].
  apply returns_bind, returns_bind. eapply returns_lift; [done|].
  eapply install_tail_spec; [done|exact Hfr|exact Hh| |].
  { cbn [g_der_len d_target]. rewrite wrapU_small by lia.
    apply returns_excuse, (inject_session_spec f); [lia|done..]. }
  cbn [d_target d_cont g_group from_option id]. intros rc d' HI Hw _ Hc. apply returns_bind.
  apply returns_ret. simpl. rewrite Hc. split; [done|].
  destruct HI as [[-> _]|(sig & r0 & es & Hrc & Hend & Hlog & Hinj)]; [by left|].
  destruct Hrc as [-> | ->]; [right|by left]. split; [done|].
  destruct Hlog as [Hl|Hl]; [exists sig, r0, es, []|exists sig, r0, es, [EvDetach]];
    (split_and!; [|done|done]); by rewrite Hl, ?app_nil_r.
Qed.

End HandlerLemmas.
