(* ===== verification/Bpf.v ===== *)
(** * Bpf: the SSL_connect probe

    [excluded] and [on_ssl_connect] of bpf/ssl_connect.bpf.c as functions of what
    the kernel helpers return; the result is what the probe does, in order.  What
    becomes of the events it submits is in
    [System]. *)

From stdpp Require Import base numbers list gmap strings relations.
From S2P Require Import Prelude Runtime Symbols InjectorMain.

Open Scope Z_scope.

(** ** The probe *)

Definition COMM_SIZE : nat := 16.

(** The loop of [excluded]; [None] for a read outside an array. *)
Fixpoint excluded_loop (n : nat) (ex comm : list Z) : option bool :=
  match n with
  | O => Some true
  | S n' =>
      match ex, comm with
      | e :: ex', c :: comm' =>
          if e =? 0 then Some (c =? 0)
          else if negb (c =? e) then Some false
          else excluded_loop n' ex' comm'
      | _, _ => None
      end
  end.

Definition excluded (exclude_comm comm : list Z) : option bool :=
  match exclude_comm with
  | [] => None
  | e :: _ => if e =? 0 then Some false else excluded_loop COMM_SIZE exclude_comm comm
  end.

(** The read-only configuration set before the program is loaded. *)
Record rodata := mkRodata {
  ro_freeze : bool;
  ro_exclude : list Z;
  ro_pidns : option (Z * Z)
}.

(** [main]: [snprintf] into the 16 bytes of [exclude_comm], which start zeroed. *)
Definition set_exclude (name : list Z) : list Z :=
  let s := snprintf_s COMM_SIZE name in s ++ replicate (COMM_SIZE - length s) 0.

(** What the helpers return in one firing of the probe. *)
Record helpers := mkHelpers {
  h_comm : list Z;
  h_reserve : bool;
  h_pid_tgid : Z;
  h_ns_pid : option (Z * Z)
}.

(** What the probe does to the outside, in this order: [bpf_ringbuf_submit] of an
    event, [bpf_send_signal(SIGSTOP)]. *)
Inductive probe_act :=
  | ASubmit (e : ssl_event)
  | AStop.

(** [on_ssl_connect]: the actions of one firing; [None] for a read outside an
    array. *)
Definition on_ssl_connect (ro : rodata) (h : helpers) (ssl : Z) : option (list probe_act) :=
  x ← excluded (ro_exclude ro) (h_comm h);
  if (x : bool) then Some []
  else if negb (h_reserve h) then Some []
  else
    let id := h_pid_tgid h in
    let e := mkSslEvent (u32 (Z.shiftr id 32)) (u32 id) ssl in
    let e := match ro_pidns ro with
             | None => e
             | Some _ =>
                 match h_ns_pid h with
                 | Some (tgid, pid) => mkSslEvent tgid pid ssl
                 | None => e
                 end
             end in
    Some (ASubmit e :: (if ro_freeze ro then [AStop] else [])).

(** ** Lemmas *)

Lemma excluded_loop_spec (n : nat) (ex comm : list Z) :
  length ex = n -> length comm = n -> no_nul comm = false ->
  excluded_loop n ex comm = Some (strcmp_eq (cstr comm) (cstr ex)).
Proof.
  revert ex comm. induction n as [|n IH]; intros [|e ex] [|c comm] He Hc Hn; try done.
  cbn [excluded_loop cstr]. simpl in He, Hc, Hn.
  destruct (e =? 0) eqn:Ee; bool_prop.
  - by destruct (c =? 0).
  - destruct (c =? 0) eqn:Ec; bool_prop.
    + subst. by rewrite (proj2 (Z.eqb_neq 0 e)) by done.
    + simpl in Hn. destruct (c =? e) eqn:Ece; bool_prop; simpl.
      * subst. rewrite IH by (done || lia). f_equal. unfold strcmp_eq.
        apply bool_decide_ext. split; [by intros ->|by intros [=]].
      * f_equal. symmetry. apply strcmp_eq_false. by intros [=].
Qed.

Lemma excluded_spec (ex comm : list Z) :
  length ex = COMM_SIZE -> length comm = COMM_SIZE -> no_nul comm = false ->
  excluded ex comm = Some (negb (bool_decide (cstr ex = [])) && strcmp_eq (cstr comm) (cstr ex)).
Proof.
  intros He Hc Hn. unfold excluded. destruct ex as [|e ex]; [done|].
  destruct (e =? 0) eqn:Ee.
  - cbn [cstr]. by rewrite Ee.
  - rewrite excluded_loop_spec by done. cbn [cstr]. by rewrite Ee.
Qed.

Lemma length_set_exclude (name : list Z) : length (set_exclude name) = COMM_SIZE.
Proof.
  unfold set_exclude. rewrite length_app, length_replicate.
  assert (length (snprintf_s COMM_SIZE name) < COMM_SIZE)%nat
    by (apply snprintf_s_length; unfold COMM_SIZE; lia). lia.
Qed.
