(* ===== verification/InjectorLoop.v ===== *)
(** * InjectorLoop: the injector daemon as a whole (injector/main.c)

    [inj_start] is [main] up to the main loop, [daemon_loop] the loop with the
    events it hands to [on_event] and its periodic scans, [inj_main] both with the
    clean-up of the links, the ring buffer and the skeleton.  The processes of the node are a map from process ids to targets;
    what a poll of the ring buffer delivers is an input, and so are the files and
    the state of [/proc] at each poll, and the kernel as each process sees it. *)

From stdpp Require Import base numbers list gmap strings.
From S2P Require Import Prelude Runtime Uds UdsLemmas Remote RemoteLemmas Install Symbols.
From S2P Require Import InjectorMain Bpf.

Open Scope Z_scope.

(** ** Starting the daemon *)

(** What libbpf answers while [main] sets up, and the pid namespace. *)
Class Bpf := {
  bpf_open : bool;
  bpf_load : bool;
  bpf_pidns : option (Z * Z);
  bpf_attach_pid : Z -> list Z -> bool;
  bpf_ring : bool
}.

(** The objects of libbpf [main] holds besides the links of the table: the
    skeleton, the link of the skeleton ([--pid] mode), the ring buffer. *)
Record objects := mkObjects {
  ob_skel : bool;
  ob_link : bool;
  ob_ring : bool
}.

Definition no_objects : objects := mkObjects false false false.

(** How the set-up of [main] ends: with an exit code and what it still holds, or
    in the main loop with this configuration, the table of attached files, the
    agent and the destination. *)
Inductive started :=
  | Exited (rc : Z) (ob : objects)
  | Running (ro : rodata) (tb : Table) (ob : objects) (agent dest : list Z).

Definition inj_start {F : Files} {P : Proc} {B : Bpf} (self : Z) (a : inj_args)
    : option started :=
  let ro exclude := mkRodata true (set_exclude exclude) bpf_pidns in
  let skel := mkObjects true false false in
  match choose_mode a with
  | ModeUsage => Some (Exited 2 no_objects)
  | ModeDryRun => '(_, _, _) ← scan self true table_init; Some (Exited 0 no_objects)
  | ModePid pid agent dest libssl exclude =>
      if negb bpf_open then Some (Exited 1 no_objects)
      else if negb bpf_load then Some (Exited 1 skel)
      else
        match (match libssl with Some l => Some l | None => find_libssl_for_pid pid 512 end) with
        | None => Some (Exited 1 skel)
        | Some l =>
            if bpf_attach_pid pid l
            then Some (Running (ro exclude) table_init (mkObjects true true bpf_ring) agent dest)
            else Some (Exited 1 skel)
        end
  | ModeScan agent dest exclude =>
      if negb bpf_open then Some (Exited 1 no_objects)
      else if negb bpf_load then Some (Exited 1 skel)
      else
        '(_, tb, _) ← scan self false table_init;
        Some (Running (ro exclude) tb (mkObjects true false bpf_ring) agent dest)
  end.

(** ** The state of the daemon and of the node *)

Record Node := mkNode {
  nd_world : World;
  nd_targets : gmap Z Target;
  nd_cont : list Z;
  nd_table : Table;
  nd_objs : objects;
  nd_out : list event_report
}.

(** What one iteration of the main loop meets: whether [g_running] still holds,
    the records [ring_buffer__poll] hands to the handler (each with its length
    and the agent's side of the connection made for it), and its return value. *)
Record poll := mkPoll {
  po_running : bool;
  po_events : list (ssl_event * Z * peer);
  po_ret : Z
}.

(** A process id that is not in use. *)
Definition no_process : Target :=
  mkTarget (mkRegs 0 0 0 0 0 0 0 0 0 []) ∅ false false false 0 [].

Section Loop.
Context {env : Env} (K : Z -> Kernel) (F : nat -> Files) (P : nat -> Proc).

(** [on_event] on the process the event names, during poll [k]. *)
Definition handle_event (k : nat) (agent_sock dest : list Z) (ev : ssl_event * Z * peer)
    : M Node unit :=
  fun nd =>
    let '(e, len, pr) := ev in
    let pid := s32 (ev_pid e) in
    match on_event (K := K pid) (R := symbols_resolver (F := F k) pid) agent_sock dest pr e len
            (mkDaemon (nd_world nd) (default no_process (nd_targets nd !! pid)) (nd_cont nd)) with
    | None => None
    | Some (out, d) =>
        Some (tt, mkNode (d_world d) (alter (fun _ => d_target d) pid (nd_targets nd)) (d_cont d)
                    (nd_table nd) (nd_objs nd) (nd_out nd ++ out))
    end.

Fixpoint handle_events (k : nat) (agent_sock dest : list Z) (evs : list (ssl_event * Z * peer))
    : M Node unit :=
  match evs with
  | [] => mret tt
  | ev :: rest => _ ← handle_event k agent_sock dest ev; handle_events k agent_sock dest rest
  end.

(** The periodic scan; [k] numbers the polls. *)
Definition rescan (self : Z) (k : nat) : M Node unit := fun nd =>
  match scan (F := F k) (P := P k) self false (nd_table nd) with
  | None => None
  | Some (_, tb, _) =>
      Some (tt, mkNode (nd_world nd) (nd_targets nd) (nd_cont nd) tb (nd_objs nd) (nd_out nd))
  end.

(** The main loop: [true] when it has ended, [false] while it still polls.  Polling
    the null pointer that a failed [ring_buffer__new] returns is undefined. *)
Fixpoint daemon_loop (rb : bool) (self : Z) (agent_sock dest : list Z) (do_scan : bool) (since_scan : Z)
    (k : nat) (polls : list poll) : M Node bool :=
  match polls with
  | [] => mret false
  | po :: rest =>
      if negb (po_running po) then mret true
      else if negb rb then ub
      else
        _ ← handle_events k agent_sock dest (po_events po);
        if (po_ret po <? 0) && negb (po_ret po =? -4) then mret true
        else if do_scan && (25 <=? since_scan + 1) then
          _ ← rescan self k;
          daemon_loop rb self agent_sock dest do_scan 0 (S k) rest
        else
          daemon_loop rb self agent_sock dest do_scan
            (if do_scan then since_scan + 1 else since_scan) (S k) rest
  end.

(** The table and the objects are as given from here on. *)
Definition set_bpf (tb : Table) (ob : objects) : M Node unit := fun nd =>
  Some (tt, mkNode (nd_world nd) (nd_targets nd) (nd_cont nd) tb ob (nd_out nd)).

(** [bpf_link__destroy] of every link in the table. *)
Definition destroy_links (tb : Table) : Table :=
  mkTable (((fun a => mkAttached (at_key a) false) <$> take (g_natt tb) (g_att tb)) ++
           drop (g_natt tb) (g_att tb)) (g_natt tb).

(** The clean-up of [main]: the ring buffer, the links of the table, and the
    skeleton with its link. *)
Definition ring_buffer__free : M Node unit := fun nd =>
  set_bpf (nd_table nd) (mkObjects (ob_skel (nd_objs nd)) (ob_link (nd_objs nd)) false) nd.
Definition destroy_table : M Node unit := fun nd =>
  set_bpf (destroy_links (nd_table nd)) (nd_objs nd) nd.
Definition ssl_connect_bpf__destroy : M Node unit := fun nd =>
  set_bpf (nd_table nd) (mkObjects false false (ob_ring (nd_objs nd))) nd.

(** [main] for the arguments behind [argv[0]]: the exit code, or [None] while the
    daemon runs.  The set-up sees the files as they are at the first poll. *)
Definition inj_main {B : Bpf} (self : Z) (args : list (list Z)) (polls : list poll)
    : M Node (option Z) :=
  o ← lift_option (parse_args args args_init);
  match o with
  | None => mret (Some 2)
  | Some a =>
      s ← lift_option (inj_start (F := F 0) (P := P 0) self a);
      match s with
      | Exited rc ob => nd ← get_state; _ ← set_bpf (nd_table nd) ob; mret (Some rc)
      | Running _ tb ob agent_sock dest =>
          _ ← set_bpf tb ob;
          ended ← daemon_loop (ob_ring ob) self agent_sock dest (ia_scan a) 0 0 polls;
          if (ended : bool) then
            _ ← ring_buffer__free;
            _ ← destroy_table;
            _ ← ssl_connect_bpf__destroy;
            mret (Some 0)
          else mret None
      end
  end.

(** ** Specification vocabulary *)

(** The processes a list of events concerns, and those it makes the handler send
    SIGCONT to. *)
Definition event_pid (ev : ssl_event * Z * peer) : Z := s32 (ev_pid ev.1.1).
Definition released (ev : ssl_event * Z * peer) : list Z :=
  if ev.1.2 <? SSL_EVENT_SIZE then [] else [event_pid ev].
Definition all_events (polls : list poll) : list (ssl_event * Z * peer) :=
  mjoin (po_events <$> polls).
(** The events of the polls the main loop makes: it ends when [g_running] has been
    cleared, and after a poll that failed for another reason than a signal. *)
Fixpoint polled (polls : list poll) : list (ssl_event * Z * peer) :=
  match polls with
  | [] => []
  | po :: rest =>
      if po_running po then
        po_events po ++ (if (po_ret po <? 0) && negb (po_ret po =? -4) then [] else polled rest)
      else []
  end.

(** The events [main] handles, by its exit code: none when it is a dry run or an
    error exit. *)
Definition handled (args : list (list Z)) (polls : list poll) (rc : option Z)
    : list (ssl_event * Z * peer) :=
  match parse_args args args_init with
  | Some (Some a) =>
      if negb (ia_dry a) && bool_decide (rc = None \/ rc = Some 0) then polled polls else []
  | _ => []
  end.

Definition events_ok (evs : list (ssl_event * Z * peer)) : Prop :=
  Forall (fun ev => conn_bytes_ok (pr_conn ev.2) = true) evs.

(** What handling the events [evs] does: one SIGCONT for each, in order, nothing
    leaked, the other processes untouched, and none left traced. *)
Definition node_step (evs : list (ssl_event * Z * peer)) (nd nd' : Node) : Prop :=
  heap_wf (nd_world nd') /\ w_heap (nd_world nd') = w_heap (nd_world nd) /\
  nd_cont nd' = nd_cont nd ++ mjoin (released <$> evs) /\
  (forall pid, pid ∉ event_pid <$> evs -> nd_targets nd' !! pid = nd_targets nd !! pid) /\
  (forall pid t, nd_targets nd !! pid = Some t ->
     exists t', nd_targets nd' !! pid = Some t' /\ target_step (K := K pid) t t').

(** The probed files are among [ids], and the table holds some of them. *)
Definition files_in (ids : list file_id) : Prop :=
  forall k path id, @stat_id (P k) path = Some id -> id ∈ ids.
Definition table_in (ids : list file_id) (tb : Table) : Prop :=
  table_ok tb /\
  forall key, key ∈ at_key <$> take (g_natt tb) (g_att tb) ->
    exists id, id ∈ ids /\ key = file_key id KEY_MAX.

(** Why the daemon may have no defined behaviour, all of which the code does not
    guard against: a library of a process is not a well-formed ELF file, there are
    as many libraries to probe as the table has cells, the ring buffer could not be
    made, or [--pid] is given a number that is not an [int]. *)
Definition too_many_files : Prop :=
  forall ids, files_in ids -> (ATT_MAX <= length ids)%nat.
Definition main_faults {B : Bpf} (args : list (list Z)) : Prop :=
  (exists k pid, ~ libs_readable (F := F k) pid) \/ too_many_files \/ bpf_ring = false \/
  parse_args args args_init = None.

(** What a run of the daemon leaves: it handled exactly the events of its polls, in
    order, and while it runs no event of a poll is left out; it kept the table well formed; while it runs it holds its
    skeleton, and when it exited, no link, of the table or of the skeleton, and no
    ring buffer is left, nor, unless it exited with 1, the skeleton. *)
Definition main_post (args : list (list Z)) (polls : list poll) (nd : Node) (rc : option Z)
    (nd' : Node) : Prop :=
  node_step (handled args polls rc) nd nd' /\
  (rc = None -> handled args polls rc = all_events polls) /\
  table_ok (nd_table nd') /\
  match rc with
  | None => ob_skel (nd_objs nd') = true
  | Some rc => (rc = 0 \/ rc = 1 \/ rc = 2) /\
      Forall (fun a => at_link a = false) (take (g_natt (nd_table nd')) (g_att (nd_table nd'))) /\
      ob_link (nd_objs nd') = false /\ ob_ring (nd_objs nd') = false /\
      (ob_skel (nd_objs nd') = true -> rc = 1)
  end.

End Loop.

(** ** Lemmas: the table of attached files *)

Section TableLemmas.
Context {F : Files} {P : Proc}.
Context (ids : list file_id) (Hids : forall path id, stat_id path = Some id -> id ∈ ids).

Lemma libssl_of_in (pid : Z) (use : list Z) (id : file_id) :
  libssl_of pid = Some (use, id) -> id ∈ ids.
Proof.
  unfold libssl_of. destruct (find_libssl_for_pid (s32 pid) 512) as [path|]; [|done].
  destruct (stat_id (snprintf_s 600 _)) as [i|] eqn:E1; [intros [= <- <-]; by eapply Hids|].
  destruct (stat_id path) as [i|] eqn:E2; [intros [= <- <-]; by eapply Hids|done].
Qed.

(** The keys a scan enters are keys of files of the node. *)
Lemma scan_loop_keys (names : list (list Z)) (self fresh : Z) (dry : bool) (tb : Table) n tb' out :
  scan_loop names self dry tb fresh = Some (n, tb', out) ->
  (forall key, key ∈ at_key <$> take (g_natt tb) (g_att tb) ->
     exists id, id ∈ ids /\ key = file_key id KEY_MAX) ->
  (forall key, key ∈ at_key <$> take (g_natt tb') (g_att tb') ->
     exists id, id ∈ ids /\ key = file_key id KEY_MAX).
Proof.
  revert tb fresh n out. induction names as [|name names IH]; intros tb fresh n out; simpl.
  { by intros [= <- <- <-]. }
  destruct (strtol name) as [pid stop]. case_if; [by apply IH|].
  destruct (libssl_of pid) as [[use id]|] eqn:El; [|by apply IH].
  destruct (seen tb _); [by apply IH|]. intros E Hin. apply libssl_of_in in El.
  assert (forall link tb1, table_add tb (file_key id KEY_MAX) link = Some tb1 ->
    forall key, key ∈ at_key <$> take (g_natt tb1) (g_att tb1) ->
      exists id, id ∈ ids /\ key = file_key id KEY_MAX) as Hadd.
  { intros link tb1. unfold table_add. case_if; [|done]. intros [= <-] key. simpl.
    rewrite take_S_insert by lia. rewrite fmap_app, elem_of_app. intros [Hk|Hk]; [by apply Hin|].
    apply list_elem_of_singleton in Hk as ->. simpl.
    rewrite snprintf_s_id by apply file_key_length. eauto. }
  assert (forall tb1 out1,
    (forall key, key ∈ at_key <$> take (g_natt tb1) (g_att tb1) ->
      exists id, id ∈ ids /\ key = file_key id KEY_MAX) ->
    (if (ATT_MAX <=? g_natt tb1)%nat then Some (fresh + 1, tb1, out1)
     else '(n, tb, out') ← scan_loop names self dry tb1 (fresh + 1); Some (n, tb, out1 ++ out'))
      = Some (n, tb', out) ->
    (forall key, key ∈ at_key <$> take (g_natt tb') (g_att tb') ->
      exists id, id ∈ ids /\ key = file_key id KEY_MAX)) as Hnext.
  { intros tb1 out1 H1. case_if; [by intros [= <- <- <-]|].
    destruct (scan_loop names self dry tb1 (fresh + 1)) as [[[n1 tb2] out2]|] eqn:Es; [|done].
    simpl. intros [= <- <- <-]. by eapply IH. }
  destruct dry; [|destruct (attach_ok use)].
  - destruct (table_add tb _ false) as [tb1|] eqn:Ea; [|done]. eapply Hnext; [exact (Hadd _ _ Ea)|exact E].
  - destruct (table_add tb _ true) as [tb1|] eqn:Ea; [|done]. eapply Hnext; [exact (Hadd _ _ Ea)|exact E].
  - eapply Hnext; [exact Hin|exact E].
Qed.

(** With fewer files than cells there is always room. *)
Lemma table_in_room (tb : Table) :
  (length ids < ATT_MAX)%nat -> table_in ids tb -> (g_natt tb < ATT_MAX)%nat.
Proof.
  intros Hlt ((Hl & Hn & Hnd) & Hin).
  assert (at_key <$> take (g_natt tb) (g_att tb) ⊆+ (fun id => file_key id KEY_MAX) <$> ids) as Hs.
  { apply NoDup_submseteq; [done|]. intros key (id & Hid & ->)%Hin. apply list_elem_of_fmap. by exists id. }
  apply submseteq_length in Hs. rewrite !length_fmap, length_take in Hs. lia.
Qed.

Lemma scan_keys (self : Z) (dry : bool) (tb tb' : Table) n out :
  scan self dry tb = Some (n, tb', out) -> table_in ids tb -> table_ok tb' -> table_in ids tb'.
Proof.
  unfold scan. destruct proc_names as [names|]; [|by intros [= <- <- <-]].
  intros E [_ Hin] Hok. split; [done|]. by eapply scan_loop_keys.
Qed.

End TableLemmas.

(** A scan that starts with a full table does not change it. *)
Lemma scan_loop_full {F : Files} {P : Proc} (names : list (list Z)) (self fresh : Z) (dry : bool)
    (tb tb' : Table) n out :
  (length (g_att tb) <= g_natt tb)%nat ->
  scan_loop names self dry tb fresh = Some (n, tb', out) -> tb' = tb.
Proof.
  intros Hf. revert fresh n out. induction names as [|name names IH]; intros fresh n out; simpl.
  { by intros [= <- <- <-]. }
  destruct (strtol name) as [pid stop]. case_if; [by apply IH|].
  destruct (libssl_of pid) as [[use id]|]; [|by apply IH].
  destruct (seen tb _); [by apply IH|].
  assert (forall link, table_add tb (file_key id KEY_MAX) link = None) as Hadd.
  { intros link. unfold table_add. by rewrite (proj2 (Nat.ltb_ge _ _)). }
  destruct dry; [by rewrite Hadd|]. destruct (attach_ok use); [by rewrite Hadd|]. simpl.
  case_if; [by intros [= <- <- <-]|].
  destruct (scan_loop names self false tb (fresh + 1)) as [[[n1 tb2] out2]|] eqn:Es; [|done].
  simpl. intros [= <- <- <-]. by eapply IH.
Qed.

(** Whatever the table, a scan keeps it well formed, or it was full. *)
Lemma scan_any {F : Files} {P : Proc} (self : Z) (dry : bool) (tb : Table) :
  table_ok tb ->
  match scan self dry tb with
  | None => g_natt tb = ATT_MAX
  | Some (_, tb', _) => table_ok tb'
  end.
Proof.
  intros Hok. unfold scan. destruct proc_names as [names|]; [|done].
  destruct (decide (g_natt tb < ATT_MAX)%nat) as [Hroom|Hfull].
  - destruct (scan_loop_spec names self dry tb 0 Hok Hroom) as (n & tb' & out & -> & (Hok' & _) & _).
    done.
  - pose proof Hok as (Hl & Hn & _).
    destruct (scan_loop names self dry tb 0) as [[[n tb'] out]|] eqn:E; [|lia].
    apply scan_loop_full in E as ->; [done|lia].
Qed.

Lemma table_in_init (ids : list file_id) : table_in ids table_init.
Proof.
  split; [|simpl; set_solver]. split_and!; [done|unfold ATT_MAX; simpl; lia|constructor].
Qed.

Lemma destroy_links_spec (tb : Table) :
  table_ok tb ->
  table_ok (destroy_links tb) /\
  Forall (fun a => at_link a = false)
    (take (g_natt (destroy_links tb)) (g_att (destroy_links tb))).
Proof.
  intros (Hl & Hn & Hnd). unfold destroy_links. simpl.
  set (as_ := (fun a => mkAttached (at_key a) false) <$> take (g_natt tb) (g_att tb)).
  assert (length as_ = g_natt tb) as Has by (unfold as_; rewrite length_fmap, length_take; lia).
  rewrite take_app_length' by done. split.
  - split_and!; simpl; [rewrite length_app, length_drop; lia|done|].
    rewrite take_app_length' by done. unfold as_. by rewrite <- list_fmap_compose.
  - apply Forall_fmap, Forall_true. done.
Qed.

(** ** Lemmas: events *)

Lemma target_step_refl {K : Kernel} (t : Target) : target_step t t.
Proof. split_and!; auto. Qed.

Lemma target_step_trans {K : Kernel} (t1 t2 t3 : Target) :
  target_step t1 t2 -> target_step t2 t3 -> target_step t1 t3.
Proof.
  intros (Hs & Hd & Ht) (Hs' & Hd' & Ht'). split_and!; [lia|auto|]. intros H1.
  destruct (Ht H1) as [Hr|[Ha|Hu]]; [left; by eapply refused_mono; [| |exact Hr]|auto|].
  destruct (Ht' Hu) as [Hr|[Ha|Hu']]; [left; by eapply refused_mono; [| |exact Hr]|auto..].
Qed.

Section LoopLemmas.
Context {env : Env} (K : Z -> Kernel) (F : nat -> Files) (P : nat -> Proc).
Context {bad : Prop} (Hlib : forall k pid, ~ libs_readable (F := F k) pid -> bad)
  (Hmany : too_many_files P -> bad).

Lemma node_step_refl (nd : Node) : heap_wf (nd_world nd) -> node_step K [] nd nd.
Proof.
  intros Hwf. split_and!; try done; [by rewrite app_nil_r|]. eauto using target_step_refl.
Qed.

Lemma node_step_trans (evs evs' : list (ssl_event * Z * peer)) (nd1 nd2 nd3 : Node) :
  node_step K evs nd1 nd2 -> node_step K evs' nd2 nd3 -> node_step K (evs ++ evs') nd1 nd3.
Proof.
  intros (_ & Hh & Hc & Hu & Ht) (Hwf & Hh' & Hc' & Hu' & Ht'). split_and!; [done|congruence|..].
  - by rewrite Hc', Hc, fmap_app, join_app, (assoc_L (++)).
  - intros pid Hp. rewrite fmap_app, not_elem_of_app in Hp. destruct Hp.
    rewrite Hu' by done. by apply Hu.
  - intros pid t (t2 & H2 & Hs)%Ht. destruct (Ht' pid t2 H2) as (t3 & H3 & Hs').
    eauto using target_step_trans.
Qed.

Lemma handle_event_spec (k : nat) (agent_sock dest : list Z) (ev : ssl_event * Z * peer) (nd : Node) :
  heap_wf (nd_world nd) -> conn_bytes_ok (pr_conn ev.2) = true ->
  returns_or bad (handle_event K F k agent_sock dest ev) nd (fun _ nd' =>
    node_step K [ev] nd nd' /\ nd_table nd' = nd_table nd /\ nd_objs nd' = nd_objs nd).
Proof.
  destruct ev as [[e len] pr]. intros Hwf Hb. set (pid := s32 (ev_pid e)).
  pose proof (on_event_spec (bad := bad) (K := K pid) (R := symbols_resolver (F := F k) pid) agent_sock
    dest pr e len (mkDaemon (nd_world nd) (default no_process (nd_targets nd !! pid)) (nd_cont nd)))
    as Hspec.
  unfold returns_or, handle_event in *. fold pid. destruct (on_event _ _ _ _ _ _) as [[out d]|] eqn:Hev.
  2: { apply Hspec; [|done..]. intros HN. apply (Hlib k pid). intros [f Hf]%resolve_all_readable.
       congruence. }
  destruct Hspec as (Hc & Hh & Hwf' & Ht & _); [|done..|].
  { intros HN. apply (Hlib k pid). intros [f Hf]%resolve_all_readable. congruence. }
  split; [|done]. split_and!; simpl; try done.
  - simpl in Hc. rewrite Hc, app_nil_r. done.
  - intros q Hq. apply lookup_alter_ne. intros <-. apply Hq. by left.
  - intros q t Hq. destruct (decide (q = pid)) as [->|Hne].
    + rewrite lookup_alter_eq, Hq. eexists. split; [done|]. simpl in Ht. by rewrite Hq in Ht.
    + rewrite lookup_alter_ne by done. eauto using target_step_refl.
Qed.

Lemma handle_events_spec (k : nat) (agent_sock dest : list Z) (evs : list (ssl_event * Z * peer))
    (nd : Node) :
  heap_wf (nd_world nd) -> events_ok evs ->
  returns_or bad (handle_events K F k agent_sock dest evs) nd (fun _ nd' =>
    node_step K evs nd nd' /\ nd_table nd' = nd_table nd /\ nd_objs nd' = nd_objs nd).
Proof.
  intros Hwf Hb. revert nd Hwf. induction Hb as [|ev evs Hev _ IH]; intros nd Hwf; simpl.
  { apply returns_ret. auto using node_step_refl. }
  apply returns_bind. eapply returns_mono; [by apply handle_event_spec|].
  intros [] nd1 (Hst & Htb & Hob). pose proof Hst as (Hwf1 & _).
  eapply returns_mono; [by apply IH|]. intros [] nd2 (Hst2 & Htb2 & Hob2).
  split_and!; [by apply (node_step_trans [ev] evs nd nd1)|congruence..].
Qed.

(** ** Lemmas: the main loop *)

(** The table is well formed and holds files of the node only. *)
Definition table_good (tb : Table) : Prop :=
  table_ok tb /\ forall ids, files_in P ids -> table_in ids tb.

Lemma rescan_spec (self : Z) (k : nat) (nd : Node) :
  heap_wf (nd_world nd) -> table_good (nd_table nd) ->
  returns_or bad (rescan F P self k) nd (fun _ nd' =>
    node_step K [] nd nd' /\ table_good (nd_table nd') /\ nd_objs nd' = nd_objs nd).
Proof.
  intros Hwf [Hok Htb]. unfold returns_or, rescan.
  pose proof (scan_any (F := F k) (P := P k) self false (nd_table nd) Hok) as Hany.
  destruct (scan self false (nd_table nd)) as [[[n tb] out]|] eqn:Es.
  - destruct (node_step_refl nd Hwf) as (? & ? & ? & ? & ?). split; [by split_and!|].
    split; [|done]. split; [done|]. intros ids Hids.
    eapply (scan_keys (F := F k) (P := P k) ids); [apply Hids|exact Es|by apply Htb|done].
  - apply Hmany. intros ids Hids. destruct (decide (ATT_MAX <= length ids)%nat) as [|Hlt]; [done|].
    specialize (Htb ids Hids). apply table_in_room in Htb; lia.
Qed.

(** The loop handles the events of its polls in order, leaving none out while it
    runs, and never overruns the table. *)
Lemma daemon_loop_spec (rb : bool) (self : Z) (agent_sock dest : list Z) (do_scan : bool) (since : Z)
    (k : nat) (polls : list poll) (nd : Node) :
  (rb = false -> bad) ->
  heap_wf (nd_world nd) -> table_good (nd_table nd) -> events_ok (all_events polls) ->
  returns_or bad (daemon_loop K F P rb self agent_sock dest do_scan since k polls) nd
    (fun ended nd' => node_step K (polled polls) nd nd' /\ table_good (nd_table nd') /\
      nd_objs nd' = nd_objs nd /\ (ended = false -> polled polls = all_events polls)).
Proof.
  intros Hrb. revert since k nd. induction polls as [|po polls IH]; intros since k nd Hwf Htb Hb.
  { apply returns_ret. auto using node_step_refl. }
  apply Forall_app in Hb as [Hb1 Hb2]. cbn [daemon_loop polled].
  destruct (po_running po); cbn [negb].
  2: { apply returns_ret. split_and!; auto using node_step_refl; done. }
  case_if; bool_prop; [by apply returns_ub, Hrb|].
  apply returns_bind. eapply returns_mono; [by apply handle_events_spec|].
  intros [] nd1 (Hst1 & Htb1 & Hob1). pose proof Hst1 as (Hwf1 & _). rewrite <- Htb1 in Htb.
  assert (forall nd2 since', node_step K [] nd1 nd2 -> table_good (nd_table nd2) ->
    nd_objs nd2 = nd_objs nd1 ->
    returns_or bad (daemon_loop K F P rb self agent_sock dest do_scan since' (S k) polls) nd2
      (fun ended nd' => node_step K (po_events po ++ polled polls) nd nd' /\
        table_good (nd_table nd') /\ nd_objs nd' = nd_objs nd /\
        (ended = false -> po_events po ++ polled polls = all_events (po :: polls)))) as Hnext.
  { intros nd2 since' Hst2 Htb2 Hob2. pose proof Hst2 as (Hwf2 & _).
    eapply returns_mono; [by apply IH|]. intros ended nd' (Hst & Htb' & Hob & Hall).
    split_and!; [|done|congruence|by intros ->%Hall].
    eapply node_step_trans; [exact Hst1|]. by apply (node_step_trans [] (polled polls) nd1 nd2). }
  case_if.
  { apply returns_ret. by rewrite app_nil_r. }
  case_if; [|by apply Hnext; [apply node_step_refl|..]].
  apply returns_bind. eapply returns_mono; [by apply rescan_spec|].
  intros [] nd2 (Hst2 & Htb2 & Hob2). by apply Hnext.
Qed.

End LoopLemmas.

(** ** Lemmas: the whole program *)

(** Starting always ends, and the daemon only runs with the freeze armed, the
    configured name excluded, an agent and a destination to ask, and its skeleton. *)
Lemma inj_start_spec {F : Files} {P : Proc} {B : Bpf} (self : Z) (a : inj_args) :
  exists s, inj_start self a = Some s /\
    match s with
    | Exited rc ob => (rc = 0 \/ rc = 1 \/ rc = 2) /\ ob_link ob = false /\ ob_ring ob = false /\
        (ob_skel ob = true -> rc = 1) /\ (rc = 0 -> ia_dry a = true)
    | Running ro tb ob agent dest =>
        ro_freeze ro = true /\ ro_exclude ro = set_exclude (ia_exclude a) /\
        length (ro_exclude ro) = COMM_SIZE /\ table_ok tb /\
        (tb = table_init \/ exists n out, scan self false table_init = Some (n, tb, out)) /\
        ob_skel ob = true /\ ob_ring ob = bpf_ring /\
        ia_dry a = false /\ ia_agent a = Some agent /\ ia_dest a = Some dest
    end.
Proof.
  pose proof (proj1 (table_in_init [])) as H0.
  assert (forall dry, exists n tb out, scan self dry table_init = Some (n, tb, out) /\
    table_ok tb) as Hscan.
  { intros dry. pose proof (scan_any self dry table_init H0) as Hany.
    destruct (scan self dry table_init) as [[[n tb] out]|]; [by eauto|done]. }
  unfold inj_start, choose_mode. cbv zeta.
  destruct ((ia_target a <=? 0) && negb (ia_scan a)); [eexists; split; [done|simpl; naive_solver]|].
  destruct (ia_dry a) eqn:Ed.
  { destruct (Hscan true) as (n & tb & out & -> & _). eexists. split; [done|simpl; naive_solver]. }
  destruct (ia_agent a) as [agent|]; [|eexists; split; [done|simpl; naive_solver]].
  destruct (ia_dest a) as [dest|]; [|eexists; split; [done|simpl; naive_solver]].
  destruct (0 <? ia_target a).
  - destruct bpf_open, bpf_load; cbn [negb]; try (eexists; split; [done|simpl; naive_solver]).
    destruct (match ia_libssl a with Some l => Some l | None => _ end) as [l|];
      [|eexists; split; [done|simpl; naive_solver]].
    destruct (bpf_attach_pid (ia_target a) l); eexists; (split; [done|]); [|simpl; naive_solver].
    simpl. split_and!; eauto using length_set_exclude.
  - destruct bpf_open, bpf_load; cbn [negb]; try (eexists; split; [done|simpl; naive_solver]).
    destruct (Hscan false) as (n & tb & out & E & Htb). rewrite E. eexists. split; [done|].
    simpl. split_and!; eauto using length_set_exclude.
Qed.

Lemma inj_main_spec {env : Env} {B : Bpf} (K : Z -> Kernel) (F : nat -> Files)
    (P : nat -> Proc) (self : Z) (args : list (list Z)) (polls : list poll) (nd : Node) :
  heap_wf (nd_world nd) -> nd_table nd = table_init -> nd_objs nd = no_objects ->
  events_ok (all_events polls) ->
  returns_or (main_faults F P args) (inj_main K F P self args polls) nd (main_post K args polls nd).
Proof.
  intros Hwf Htb Hob Hb. unfold inj_main.
  assert (forall rc ob (nd' : Node), handled args polls (Some rc) = [] ->
    nd_world nd' = nd_world nd -> nd_targets nd' = nd_targets nd ->
    nd_cont nd' = nd_cont nd -> nd_table nd' = table_init -> nd_objs nd' = ob ->
    (rc = 0 \/ rc = 1 \/ rc = 2) /\ ob_link ob = false /\ ob_ring ob = false /\
      (ob_skel ob = true -> rc = 1) -> main_post K args polls nd (Some rc) nd') as Hexit.
  { intros rc ob nd' Hh Hw Ht Hc Htb' <- (Hrc & Hl & Hr & Hs). unfold main_post. rewrite Htb', Hh.
    split; [|split; [done|split; [apply (table_in_init [])|]]].
    2: { split; [done|]. split; [apply Forall_nil_2|done]. }
    split_and!; rewrite ?Hw, ?Ht, ?Hc; try done; [by rewrite app_nil_r|].
    eauto using target_step_refl. }
  apply returns_bind, returns_lift_or; [by do 3 right|]. intros [a|] Hpa.
  2: { apply returns_ret. apply (Hexit 2 no_objects); try done; [by unfold handled; rewrite Hpa|].
       simpl. naive_solver. }
  destruct (inj_start_spec (F := F 0%nat) (P := P 0%nat) self a) as (s & Hs & Hs').
  apply returns_bind. eapply returns_lift; [exact Hs|].
  destruct s as [rc ob|ro tb ob agent dest].
  { apply returns_bind, returns_get, returns_bind. eapply returns_intro; [done|].
    destruct Hs' as (Hrc & Hl & Hr & Hsk & Hdry). apply returns_ret. apply (Hexit rc ob); try done.
    unfold handled. rewrite Hpa. destruct (ia_dry a); [done|]. cbn [negb andb].
    rewrite bool_decide_false; [done|]. intros [|[= ->]]; [done|]. by discriminate Hdry. }
  destruct Hs' as (_ & _ & _ & Hok & Hscan & Hsk & Hring & Hdry & _).
  assert (forall rc, rc = None \/ rc = Some 0 -> handled args polls rc = polled polls) as Hh.
  { intros rc Hrc. unfold handled. rewrite Hpa, Hdry. by rewrite bool_decide_true. }
  apply returns_bind. eapply returns_intro; [done|]. apply returns_bind. eapply returns_mono.
  { apply (daemon_loop_spec K F P); simpl; try done.
    - intros k pid Hn. left. by exists k, pid.
    - by right; left.
    - rewrite Hring. intros Hrb. right; right; by left.
    - split; [done|]. intros ids Hids. pose proof (table_in_init ids) as H0.
      destruct Hscan as [->|(n & out & E)]; [done|].
      eapply (scan_keys (F := F 0%nat) (P := P 0%nat) ids); [apply Hids|exact E|done|done]. }
  intros ended nd' (Hst & [Hok2 _] & Hob2 & Hall). destruct Hst as (? & ? & ? & ? & ?).
  destruct ended.
  - do 3 (apply returns_bind; eapply returns_intro; [done|]). cbn [nd_table nd_objs].
    destruct (destroy_links_spec _ Hok2) as [Hok3 Hl].
    apply returns_ret. unfold main_post. rewrite Hh by auto. split_and!; simpl; try done. by left.
  - apply returns_ret. unfold main_post. rewrite Hh by auto.
    split_and!; auto; [by split_and!|by rewrite Hob2].
Qed.
