(* ===== verification/DaemonProps.v ===== *)
(** * DaemonProps: the properties of the injector daemon and the probe

    The theorems about injector/main.c and bpf/ssl_connect.bpf.c, with their
    witnesses. *)

From stdpp Require Import base numbers list gmap strings relations.
From S2P Require Import Prelude Runtime Pool PoolProps Uds UdsLemmas UdsProps.
From S2P Require Import Remote RemoteLemmas Install InjectProps Symbols SymbolsProps.
From S2P Require Import InjectorMain Bpf InjectorLoop.

Open Scope Z_scope.

(** ** Concrete inputs *)

Definition demo_handle : file_id := IdHandle 1 [0xde; 0xad; 0x07].
Definition demo_inode : file_id := IdInode 0x801 123.

(** Process 42 maps a libssl; the directory also has other names. *)
Definition demo_proc : Proc :=
  {| proc_names := Some [of_string "self"; of_string "42"; of_string "43"];
     stat_id := fun p => if strstr p (of_string "libssl") then Some demo_handle else None;
     attach_ok := fun _ => true |}.

Definition full_table : Table :=
  mkTable (replicate ATT_MAX (mkAttached (of_string "x") true)) ATT_MAX.

Definition demo_event : ssl_event := mkSslEvent 42 43 0xABC.
Definition demo_daemon : Daemon := mkDaemon demo_world demo_running [].

(** What process 42 has mapped: a libc and a libssl with the five functions, where
    the concrete target expects them. *)
Definition libc_path : list Z := of_string "/usr/lib/libc.so.6".
Definition libssl_path : list Z := of_string "/usr/lib/libssl.so.3".
Definition libc_entry : map_entry :=
  mkEntry (unhex "4000") (unhex "6000") (of_string "r--p") (unhex "00000000")
    (of_string "08:01") (of_string "123") (of_string " ") libc_path.
Definition libssl_entry : map_entry :=
  mkEntry (unhex "403000") (unhex "405000") (of_string "r-xp") (unhex "00000000")
    (of_string "08:01") (of_string "456") (of_string " ") libssl_path.
Definition node_entries : list map_entry := [libc_entry; libssl_entry].
Definition node_maps : list Z := Eval vm_compute in maps_text node_entries.
Definition libc_elf : list Z :=
  elf_of 0 [(of_string "mmap", 0x1000); (of_string "munmap", 0x1010)].
Definition libssl_elf : list Z :=
  elf_of 0x400000 [(of_string "SSL_connect", 0x9990); (of_string "d2i_SSL_SESSION", 0x2020);
                   (of_string "SSL_set_session", 0x2030); (of_string "SSL_SESSION_free", 0x2040)].
Definition node_libc : list symbol :=
  [mkSymbol [] 0 0; mkSymbol (of_string "mmap") 7 0x1000; mkSymbol (of_string "munmap") 7 0x1010].
Definition node_libssl : list symbol :=
  [mkSymbol [] 0 0; mkSymbol (of_string "SSL_connect") 7 0x9990;
   mkSymbol (of_string "d2i_SSL_SESSION") 7 0x2020;
   mkSymbol (of_string "SSL_set_session") 7 0x2030;
   mkSymbol (of_string "SSL_SESSION_free") 7 0x2040].
Definition node_files : Files :=
  {| file := fun p =>
       if strcmp_eq p (of_string "/proc/42/maps") then Some node_maps
       else if strcmp_eq p (of_string "/proc/42/root/usr/lib/libc.so.6") then Some libc_elf
       else if strcmp_eq p (of_string "/proc/42/root/usr/lib/libssl.so.3") then Some libssl_elf
       else None;
     mmap_ok := fun _ => true |}.

(** A node with that process, and a daemon that scans, handles one event, and is
    told to stop. *)
Definition demo_bpf : Bpf :=
  {| bpf_open := true; bpf_load := true; bpf_pidns := None; bpf_attach_pid := fun _ _ => true;
     bpf_ring := true |}.
Definition demo_node : Node :=
  mkNode demo_world {[ 42 := demo_running ]} [] table_init no_objects [].
Definition demo_args : list (list Z) :=
  [of_string "--agent"; demo_path; of_string "--dest"; demo_dest; of_string "--scan"].
Definition demo_polls : list poll :=
  [mkPoll true [(demo_event, 16, demo_peer demo_answer)] 1; mkPoll true [] (-4); mkPoll false [] 0].

(** ** Lemmas on the concrete objects *)

(** The lines of [node_entries] that match are those of the given library. *)
Ltac solve_loaded entry :=
  split_and!; [reflexivity|reflexivity|..];
  [ exists entry; split; [apply list_elem_of_In; simpl; by auto|split; vm_compute; reflexivity]
  | intros e He Hm; apply list_elem_of_In in He;
    repeat (destruct He as [<-|He]; [first [discriminate Hm|split; [reflexivity|by vm_compute]]|]);
    destruct He
  | apply (bool_decide_unpack _); vm_compute; exact I
  | reflexivity | reflexivity | ].

Lemma node_libc_loaded : loaded (F := node_files) 42 libc_so 0x4000 node_libc.
Proof. exists node_entries, libc_path, libc_elf, 0. solve_loaded libc_entry. solve_elf 320 3%nat. Qed.

Lemma node_libssl_loaded : loaded (F := node_files) 42 libssl_so 0x3000 node_libssl.
Proof. exists node_entries, libssl_path, libssl_elf, 0x400000. solve_loaded libssl_entry. solve_elf 368 5%nat. Qed.

(** ** Theorems *)

(** C30. Two files have the same key exactly when they are the same file: the
    key is an injective encoding of the file handle (or of device and inode),
    never truncated by its 300-byte buffer, and the two kinds of identity never
    collide.  So the table neither probes a file twice nor skips a new one. *)
Theorem file_key_injective (a b : file_id) :
  id_ok a -> id_ok b ->
  (file_key a KEY_MAX = file_key b KEY_MAX <-> a = b) /\
  (length (file_key a KEY_MAX) < KEY_MAX)%nat.
Proof.
  intros Ha Hb. split; [|apply file_key_length].
  split; [by apply file_key_inj|by intros ->].
Qed.

Lemma file_key_injective_witness :
  (file_key demo_handle KEY_MAX = file_key demo_inode KEY_MAX <-> demo_handle = demo_inode) /\
  (length (file_key demo_handle KEY_MAX) < KEY_MAX)%nat.
Proof.
  apply (file_key_injective demo_handle demo_inode).
  - simpl. split; [lia|]. split; [lia|]. repeat constructor; lia.
  - simpl. lia.
Defined.

(** C31. A scan that starts with room in the table stays inside it: whatever is
    under [/proc] and whichever probes attach, [scan] writes only free cells of
    the 512, keeps the entries there were, never enters a file twice, reports
    each file it entered, and counts at least those as fresh (exactly those in a
    dry run). *)
Theorem scan_safe {F : Files} {P : Proc} (self : Z) (dry : bool) (tb : Table) :
  table_ok tb -> (g_natt tb < ATT_MAX)%nat ->
  exists n tb' out, scan self dry tb = Some (n, tb', out) /\
    length (g_att tb') = ATT_MAX /\ (g_natt tb <= g_natt tb' <= ATT_MAX)%nat /\
    NoDup (at_key <$> take (g_natt tb') (g_att tb')) /\
    take (g_natt tb) (g_att tb') = take (g_natt tb) (g_att tb) /\
    length out = (g_natt tb' - g_natt tb)%nat /\
    (is_Some proc_names -> Z.of_nat (length out) <= n /\
       (dry = true -> Z.of_nat (length out) = n)).
Proof.
  intros Hok Hn. unfold scan. destruct proc_names as [names|].
  - destruct (scan_loop_spec names self dry tb 0 Hok Hn)
      as (n & tb' & out & E & ((Hl & Hm & Hnd) & Hg & Ht) & Hlen & Hf & Hle & Hd).
    exists n, tb', out. split_and!; try done; try lia. intros _. split; [lia|].
    intros Hdry. specialize (Hd Hdry). lia.
  - destruct Hok as (Hl & Hm & Hnd). exists (-1), tb, [].
    split_and!; try done; simpl; lia.
Qed.

Lemma scan_safe_witness :
  exists n tb' out,
    scan (F := demo_files two_libs_maps) (P := demo_proc) 7 false table_init = Some (n, tb', out) /\
    length (g_att tb') = ATT_MAX /\ (g_natt table_init <= g_natt tb' <= ATT_MAX)%nat /\
    NoDup (at_key <$> take (g_natt tb') (g_att tb')) /\
    take (g_natt table_init) (g_att tb') = take (g_natt table_init) (g_att table_init) /\
    length out = (g_natt tb' - g_natt table_init)%nat /\
    (is_Some (@proc_names demo_proc) -> Z.of_nat (length out) <= n /\
       (false = true -> Z.of_nat (length out) = n)).
Proof.
  apply (@scan_safe (demo_files two_libs_maps) demo_proc 7 false table_init).
  - split; [reflexivity|]. split; [unfold ATT_MAX; simpl; lia|]. constructor.
  - unfold ATT_MAX. simpl. lia.
Defined.

(** A later scan does not check for room first: with a full table, a library that
    is not in it yet makes the scan write behind the table. *)
Example scan_overflow :
  scan (F := demo_files two_libs_maps) (P := demo_proc) 7 false full_table = None.
Proof. vm_compute. reflexivity. Qed.

(** C32. The event handler always releases the process: for every record, answer
    of the agent, behaviour of the kernel and of the target, whatever state that is
    in, [on_event] has no undefined behaviour but a fault of the symbol lookup on a
    malformed library of the target.  It ignores a record that is too short;
    otherwise it sends exactly one SIGCONT to the process of the event, leaves its
    own heap as it was, does not touch the target on a miss, and does not leave a
    target traced that was not, unless it died or the kernel refused a request. *)
Theorem on_event_releases {env : Env} {K : Kernel} {R : Resolver} (agent_sock dest : list Z)
    (pr : peer) (e : ssl_event) (len : Z) (d : Daemon) :
  heap_wf (d_world d) -> conn_bytes_ok (pr_conn pr) = true ->
  returns_or (resolve_all = None) (on_event agent_sock dest pr e len) d (fun out d' =>
    w_heap (d_world d') = w_heap (d_world d) /\
    if len <? SSL_EVENT_SIZE
    then out = [] /\ d_cont d' = d_cont d /\ d_target d' = d_target d
    else
      d_cont d' = d_cont d ++ [s32 (ev_pid e)] /\
      (t_traced (d_target d) = false ->
       refused (d_target d) (d_target d') \/ t_alive (d_target d') = false \/
       t_traced (d_target d') = false) /\
      ((out = [EMiss (ev_pid e) dest] /\ d_target d' = d_target d) \/
       exists group, out = [EResumed (ev_pid e) (ev_ssl e) dest group] \/
         out = [EInstallFailed (ev_pid e) (ev_ssl e) dest group])).
Proof.
  intros Hwf Hb. destruct (len <? SSL_EVENT_SIZE) eqn:El.
  { unfold on_event. rewrite El. by apply returns_ret. }
  eapply returns_mono; [by apply on_event_spec|]. rewrite El.
  intros out d' (Hc & Hh & _ & (_ & _ & He) & Ho). by split_and!.
Qed.

Lemma on_event_releases_witness :
  returns_or (resolve_all (R := demo_resolver) = None)
    (on_event (env := demo_env) (K := demo_kernel) (R := demo_resolver) demo_path demo_dest
             (demo_peer [0x54; 1; 1; 0; 0; 0; 0; 0; 0]) demo_event 16) demo_daemon (fun out d' =>
    w_heap (d_world d') = w_heap (d_world demo_daemon) /\
    d_cont d' = d_cont demo_daemon ++ [s32 (ev_pid demo_event)] /\
    (t_traced (d_target demo_daemon) = false ->
     refused (K := demo_kernel) (d_target demo_daemon) (d_target d') \/
     t_alive (d_target d') = false \/ t_traced (d_target d') = false) /\
    ((out = [EMiss (ev_pid demo_event) demo_dest] /\ d_target d' = d_target demo_daemon) \/
     exists group, out = [EResumed (ev_pid demo_event) (ev_ssl demo_event) demo_dest group] \/
       out = [EInstallFailed (ev_pid demo_event) (ev_ssl demo_event) demo_dest group])).
Proof.
  apply (@on_event_releases demo_env demo_kernel demo_resolver demo_path demo_dest
           (demo_peer [0x54; 1; 1; 0; 0; 0; 0; 0; 0]) demo_event 16 demo_daemon).
  - exact demo_heap_wf.
  - reflexivity.
Defined.

(** C33. From the agent to the target: when the agent answers with the frame of
    a session, the target is alive and not traced, and it has loaded a libc and a
    libssl that define the five functions (as its maps and the bytes of the two ELF
    files say), the handler releases it and reports either RESUMED or
    install-failed with that session's group.  RESUMED is only reported after the
    remote [mmap] returned a mapping, the exact bytes of that session were
    transferred into it, [d2i_SSL_SESSION] returned a session parsed from them, and
    [SSL_set_session] of the SSL object of the event and that session returned 1,
    each by a call at the address the library's symbol has in that process; and
    the target then has the registers it was stopped with, unless it died or the
    kernel refused a request. *)
Theorem on_event_installs {env : Env} {K : Kernel} {F : Files} (agent_sock dest : list Z)
    (pr : peer) (e : ssl_event) (len cb sb : Z) (cl sl : list symbol) (s : session) (d : Daemon) :
  let pid := s32 (ev_pid e) in
  let f := loaded_fns cb cl sb sl in
  heap_wf (d_world d) -> env_alloc (w_step (d_world d)) = true ->
  can_ask agent_sock dest pr = true -> SSL_EVENT_SIZE <= len ->
  0 < Z.of_nat (length (s_der s)) < 2 ^ 31 -> (length (s_group s) < GROUP_MAX)%nat ->
  no_nul (s_group s) = true -> delivered (c_in (pr_conn pr)) = response_frame s ->
  t_alive (d_target d) = true -> t_traced (d_target d) = false ->
  loaded pid libc_so cb cl -> loaded pid libssl_so sb sl -> fns_ok f = true ->
  returns (on_event (R := symbols_resolver pid) agent_sock dest pr e len) d (fun out d' =>
    d_cont d' = d_cont d ++ [pid] /\
    (out = [EInstallFailed (ev_pid e) (ev_ssl e) dest (s_group s)] \/
     (out = [EResumed (ev_pid e) (ev_ssl e) dest (s_group s)] /\
      exists sig r0 es tail,
        t_log (d_target d') =
          t_log (d_target d) ++ [EvSeize; EvStop (WStopped sig) r0] ++ es ++ tail /\
        injected f (ev_ssl e) (s_der s) 0 es /\
        (refused (d_target d) (d_target d') \/ t_alive (d_target d') = false \/
         (t_traced (d_target d') = false /\ t_stopped (d_target d') = false /\
          t_regs (d_target d') = r0))))).
Proof.
  intros pid f. intros. apply (on_event_installs_spec (R := symbols_resolver pid) f); try done.
  by apply resolve_all_loaded.
Qed.

Lemma on_event_installs_witness :
  returns (on_event (env := demo_env) (K := demo_kernel)
             (R := symbols_resolver (F := node_files) 42) demo_path demo_dest
             (demo_peer demo_answer) demo_event 16) demo_daemon (fun out d' =>
    d_cont d' = d_cont demo_daemon ++ [42] /\
    (out = [EInstallFailed (ev_pid demo_event) (ev_ssl demo_event) demo_dest
              (s_group demo_session)] \/
     (out = [EResumed (ev_pid demo_event) (ev_ssl demo_event) demo_dest (s_group demo_session)] /\
      exists sig r0 es tail, t_log (d_target d') =
          t_log (d_target demo_daemon) ++ [EvSeize; EvStop (WStopped sig) r0] ++ es ++ tail /\
        injected (loaded_fns 0x4000 node_libc 0x3000 node_libssl)
          (ev_ssl demo_event) (s_der demo_session) 0 es /\
        (refused (K := demo_kernel) (d_target demo_daemon) (d_target d') \/
         t_alive (d_target d') = false \/
         (t_traced (d_target d') = false /\ t_stopped (d_target d') = false /\
          t_regs (d_target d') = r0))))).
Proof.
  apply (@on_event_installs demo_env demo_kernel node_files demo_path demo_dest
           (demo_peer demo_answer) demo_event 16 0x4000 0x3000 node_libc node_libssl demo_session
           demo_daemon).
  - exact demo_heap_wf.
  - reflexivity.
  - reflexivity.
  - unfold SSL_EVENT_SIZE. lia.
  - vm_compute. split; reflexivity.
  - apply (bool_decide_unpack _). vm_compute. exact I.
  - reflexivity.
  - reflexivity.
  - reflexivity.
  - reflexivity.
  - exact node_libc_loaded.
  - exact node_libssl_loaded.
  - vm_compute. reflexivity.
Defined.

(** The concrete event ends with RESUMED. *)
Example on_event_demo :
  (fst <$> on_event (env := demo_env) (K := demo_kernel) (R := demo_resolver) demo_path demo_dest
             (demo_peer demo_answer) demo_event 16 demo_daemon)
  = Some [EResumed 42 0xABC demo_dest (of_string "X25519MLKEM768")].
Proof. vm_compute. reflexivity. Qed.

(** The libraries of the target are trusted: one with a malformed header makes the
    injector read outside its mapping of the file. *)
Definition hostile_files : Files :=
  {| file := fun p => if strcmp_eq p (of_string "/proc/42/maps") then Some node_maps else Some bad_elf;
     mmap_ok := fun _ => true |}.

Example hostile_library_faults :
  inject_session (K := demo_kernel) (R := symbols_resolver (F := hostile_files) 42) 0xABC demo_der 8
    demo_running = None.
Proof. vm_compute. reflexivity. Qed.

(** C34. The daemon as a whole: for every command line, every sequence of polls
    and events, every behaviour of the agent, the kernel and the processes, [main]
    has no undefined behaviour but for the four things the code does not guard
    against: a library that is not a well-formed ELF file, as many libraries to
    probe as the table has cells, a ring buffer that could not be made, and a
    [--pid] that is not an [int].  It handles the events of its polls, all
    of them and in order, up to a signal or a failing poll, with one SIGCONT for
    each, and none in a dry run or an error exit; it leaks no memory, touches no process
    without an event and leaves none traced unless it died or the kernel refused a
    request; and when it exits no probe is left attached, of the table or of the
    [--pid] mode, the ring buffer is freed, and so is the skeleton unless it exits
    with 1 (the error exits do not destroy it). *)
Theorem injector_main_safe {env : Env} {B : Bpf} (K : Z -> Kernel) (F : nat -> Files)
    (P : nat -> Proc) (self : Z) (args : list (list Z)) (polls : list poll) (nd : Node) :
  heap_wf (nd_world nd) -> nd_table nd = table_init -> nd_objs nd = no_objects ->
  events_ok (all_events polls) ->
  returns_or (main_faults F P args) (inj_main K F P self args polls) nd (main_post K args polls nd).
Proof. apply inj_main_spec. Qed.

Lemma injector_main_safe_witness :
  returns_or (main_faults (B := demo_bpf) (fun _ => node_files) (fun _ => demo_proc) demo_args)
    (inj_main (env := demo_env) (B := demo_bpf) (fun _ => demo_kernel)
       (fun _ => node_files) (fun _ => demo_proc) 7 demo_args demo_polls)
    demo_node (main_post (fun _ => demo_kernel) demo_args demo_polls demo_node).
Proof.
  apply (@injector_main_safe demo_env demo_bpf (fun _ => demo_kernel) (fun _ => node_files)
           (fun _ => demo_proc)).
  - exact demo_heap_wf.
  - reflexivity.
  - reflexivity.
  - repeat constructor.
Defined.

(** The concrete run: one probe attached, the event answered with RESUMED. *)
Example injector_main_demo :
  (fun '(rc, nd) => (rc, nd_out nd, nd_cont nd, g_natt (nd_table nd), nd_objs nd)) <$>
    inj_main (env := demo_env) (B := demo_bpf) (fun _ => demo_kernel)
      (fun _ => node_files) (fun _ => demo_proc)
      7 demo_args demo_polls demo_node
  = Some (Some 0, [EResumed 42 0xABC demo_dest (of_string "X25519MLKEM768")], [42], 1%nat,
          no_objects).
Proof. vm_compute. reflexivity. Qed.

(** A program that cannot be loaded: the skeleton is not destroyed. *)
Definition unloadable_bpf : Bpf :=
  {| bpf_open := true; bpf_load := false; bpf_pidns := None; bpf_attach_pid := fun _ _ => true;
     bpf_ring := true |}.

Example injector_main_error_exit :
  (fun '(rc, nd) => (rc, ob_skel (nd_objs nd))) <$>
    inj_main (env := demo_env) (B := unloadable_bpf) (fun _ => demo_kernel)
      (fun _ => node_files) (fun _ => demo_proc)
      7 demo_args demo_polls demo_node
  = Some (Some 1, true).
Proof. vm_compute. reflexivity. Qed.

(** A ring buffer that cannot be made: the null pointer is polled. *)
Definition ringless_bpf : Bpf :=
  {| bpf_open := true; bpf_load := true; bpf_pidns := None; bpf_attach_pid := fun _ _ => true;
     bpf_ring := false |}.

Example injector_main_null_ring :
  inj_main (env := demo_env) (B := ringless_bpf) (fun _ => demo_kernel)
    (fun _ => node_files) (fun _ => demo_proc) 7 demo_args demo_polls demo_node = None.
Proof. vm_compute. reflexivity. Qed.

(** C35. The agent is excluded by name, and only the agent: with the name the
    daemon configures (cut to the 15 characters a kernel task name can have),
    [excluded] holds exactly for tasks whose name is that name, and for none when
    no name is configured; it never reads outside its arrays. *)
Theorem excluded_iff_name (name comm : list Z) :
  no_nul name = true -> length comm = COMM_SIZE -> no_nul comm = false ->
  excluded (set_exclude name) comm =
    Some (negb (bool_decide (name = [])) && strcmp_eq (cstr comm) (take 15 name)).
Proof.
  intros Hn Hc Hnul. unfold set_exclude.
  assert (length (snprintf_s COMM_SIZE name) < 16)%nat as Hl by (apply snprintf_s_length; lia).
  assert (exists k, replicate (COMM_SIZE - length (snprintf_s COMM_SIZE name)) 0 = 0 :: k) as [k Hk].
  { destruct (COMM_SIZE - length (snprintf_s COMM_SIZE name))%nat eqn:E;
      [unfold COMM_SIZE in *; lia|]. by eexists. }
  rewrite excluded_spec; [|rewrite length_app, length_replicate; unfold COMM_SIZE in *; lia|done|done].
  rewrite Hk, cstr_app_nul by by apply snprintf_s_no_nul.
  do 2 f_equal. f_equal. apply bool_decide_ext. unfold snprintf_s, COMM_SIZE.
  destruct name; [done|]. by simpl.
Qed.

Lemma excluded_iff_name_witness :
  excluded (set_exclude (of_string "ticket-agent")) (of_string "ticket-agent" ++ [0; 0; 0; 0]) =
    Some (negb (bool_decide (of_string "ticket-agent" = [])) &&
          strcmp_eq (cstr (of_string "ticket-agent" ++ [0; 0; 0; 0]))
            (take 15 (of_string "ticket-agent"))).
Proof.
  apply (excluded_iff_name (of_string "ticket-agent") (of_string "ticket-agent" ++ [0; 0; 0; 0]));
    reflexivity.
Defined.

(** C36. The probe never freezes a thread without reporting it first: one firing
    does nothing at all exactly when the process has the excluded name or the ring
    buffer is full; otherwise it submits one event, with the SSL pointer of the
    call and the ids of the thread (those in the injector's pid namespace when that
    is configured and the lookup succeeds), and only after that, when freezing is
    configured, has the thread stopped. *)
Theorem probe_reports_what_it_freezes (ro : rodata) (h : helpers) (ssl : Z) :
  length (ro_exclude ro) = COMM_SIZE -> length (h_comm h) = COMM_SIZE ->
  no_nul (h_comm h) = false ->
  let silent := (cstr (ro_exclude ro) <> [] /\ cstr (h_comm h) = cstr (ro_exclude ro)) \/
                h_reserve h = false in
  (silent /\ on_ssl_connect ro h ssl = Some []) \/
  (~ silent /\ exists e,
     on_ssl_connect ro h ssl = Some ([ASubmit e] ++ if ro_freeze ro then [AStop] else []) /\
     ev_ssl e = ssl /\
     (ev_pid e, ev_tid e) =
       match ro_pidns ro, h_ns_pid h with
       | Some _, Some ids => ids
       | _, _ => (u32 (Z.shiftr (h_pid_tgid h) 32), u32 (h_pid_tgid h))
       end).
Proof.
  intros He Hc Hn silent. unfold silent, on_ssl_connect. rewrite excluded_spec by done. simpl.
  destruct (bool_decide_reflect (cstr (ro_exclude ro) = [])) as [Hx|Hx]; simpl.
  - destruct (h_reserve h); simpl; [right|by left; auto]. split; [naive_solver|].
    eexists. split; [done|]. by destruct (ro_pidns ro), (h_ns_pid h) as [[]|].
  - destruct (strcmp_eq (cstr (h_comm h)) (cstr (ro_exclude ro))) eqn:Ex.
    { left. apply strcmp_eq_true in Ex. auto. }
    assert (cstr (h_comm h) <> cstr (ro_exclude ro)) as Hne.
    { intros E. rewrite E, strcmp_eq_refl in Ex. done. }
    destruct (h_reserve h); simpl; [right|by left; auto]. split; [naive_solver|].
    eexists. split; [done|]. by destruct (ro_pidns ro), (h_ns_pid h) as [[]|].
Qed.

Definition curl_fires : helpers :=
  mkHelpers (of_string "curl" ++ replicate 12 0) true (42 * 2 ^ 32 + 43) None.
Definition agent_excluded : rodata :=
  mkRodata true (set_exclude (of_string "ticket-agent")) None.

Lemma probe_reports_what_it_freezes_witness :
  let silent := (cstr (ro_exclude agent_excluded) <> [] /\
                 cstr (h_comm curl_fires) = cstr (ro_exclude agent_excluded)) \/
                h_reserve curl_fires = false in
  (silent /\ on_ssl_connect agent_excluded curl_fires 0xABC = Some []) \/
  (~ silent /\ exists e,
     on_ssl_connect agent_excluded curl_fires 0xABC =
       Some ([ASubmit e] ++ if ro_freeze agent_excluded then [AStop] else []) /\
     ev_ssl e = 0xABC /\
     (ev_pid e, ev_tid e) =
       match ro_pidns agent_excluded, h_ns_pid curl_fires with
       | Some _, Some ids => ids
       | _, _ => (u32 (Z.shiftr (h_pid_tgid curl_fires) 32), u32 (h_pid_tgid curl_fires))
       end).
Proof.
  apply (probe_reports_what_it_freezes agent_excluded curl_fires 0xABC); reflexivity.
Defined.
