(* ===== verification/System.v ===== *)
(** * System: probed processes, the ring buffer and the daemon together

    Any number of threads of any number of processes run into the probe of
    bpf/ssl_connect.bpf.c while the daemon of injector/main.c handles one event
    after the other.  The model keeps the order in which the two programs act on
    each other: the probe submits its event and then has SIGSTOP sent; the daemon
    takes the oldest event, asks the agent, installs the session or does not, and
    sends SIGCONT.  A step is an executable function of its label.

    What the kernel contributes is what signal(7), ptrace(2) and bpf-helpers(7)
    say: SIGSTOP and SIGCONT act on the whole process, and a SIGCONT has no effect
    on a later SIGSTOP; a thread runs the probe to its end before it can stop or
    be stopped; [PTRACE_SEIZE] and the wait that follows are about the thread whose
    id is the process id, and resuming it without a signal drops a SIGSTOP that was
    about to be delivered. *)

From stdpp Require Import base numbers list gmap strings relations.
From S2P Require Import Prelude Runtime Symbols InjectorMain Bpf.

Open Scope Z_scope.

(** ** State *)

(** A thread runs its own code, or is in the probe with its event submitted and
    the signal still to be sent, or is at the entry of [SSL_connect]. *)
Inductive phase :=
  | TUser
  | TSubmitted (ssl : Z) (stop : bool)
  | TEntry (ssl : Z).

Record thread := mkThread {
  th_pid : Z;
  th_tid : Z;
  (** connections the thread is still going to make *)
  th_left : nat;
  th_phase : phase;
  (** whether a session was installed in the connection under way *)
  th_session : bool;
  (** for each connection that was reported, whether it had a session *)
  th_log : list bool
}.

(** [on_event]: waiting for an event, handling one with the agent's answer and the
    target's symbols looked up ([hit]: there is a session to install and it can
    be), or about to send SIGCONT. *)
Inductive daemon :=
  | DPolling
  | DGot (e : ssl_event) (hit : bool)
  | DDone (e : ssl_event).

#[export] Instance ssl_event_eq_dec : EqDecision ssl_event.
Proof. solve_decision. Defined.
#[export] Instance daemon_eq_dec : EqDecision daemon.
Proof. solve_decision. Defined.

Record Sys := mkSys {
  s_threads : list thread;
  (** the processes with a stop pending or in force *)
  s_stopped : gset Z;
  s_queue : list ssl_event;
  s_daemon : daemon
}.

Inductive label :=
  | LProbe (i : nat) (h : helpers) (ssl : Z)
  | LSignal (i : nat)
  | LProceed (i : nat)
  | LTake (hit : bool)
  | LInstall (swallow : bool)
  | LMiss
  | LCont.

(** ** The probe *)

(** What is left to do for the probe after the event was submitted. *)
Definition sends_stop (rest : list probe_act) : bool :=
  match rest with AStop :: _ => true | _ => false end.

(** [SSL_connect] is entered: the probe reports the call, or lets it pass. *)
Definition probe_fire (ro : rodata) (i : nat) (h : helpers) (ssl : Z) (s : Sys) : option Sys :=
  th ← s_threads s !! i;
  match th_phase th, th_left th with
  | TUser, S n =>
      if bool_decide (th_pid th ∈ s_stopped s) then None
      else
        acts ← on_ssl_connect ro h ssl;
        let next ph := mkThread (th_pid th) (th_tid th) n ph false (th_log th) in
        match acts with
        | [] => Some (mkSys (<[i := next TUser]> (s_threads s)) (s_stopped s) (s_queue s) (s_daemon s))
        | ASubmit e :: rest =>
            Some (mkSys (<[i := next (TSubmitted ssl (sends_stop rest))]> (s_threads s)) (s_stopped s)
                    (s_queue s ++ [e]) (s_daemon s))
        | AStop :: _ => None (* the probe has no such firing *)
        end
  | _, _ => None
  end.

Definition with_phase (ph : phase) (th : thread) : thread :=
  mkThread (th_pid th) (th_tid th) (th_left th) ph (th_session th) (th_log th).

(** [bpf_send_signal(SIGSTOP)], which signals the process. *)
Definition probe_signal (i : nat) (s : Sys) : option Sys :=
  th ← s_threads s !! i;
  match th_phase th with
  | TSubmitted ssl stop =>
      Some (mkSys (<[i := with_phase (TEntry ssl) th]> (s_threads s))
              (if stop : bool then {[ th_pid th ]} ∪ s_stopped s else s_stopped s)
              (s_queue s) (s_daemon s))
  | _ => None
  end.

(** The thread goes on into the handshake, unless its process is stopped. *)
Definition proceed (i : nat) (s : Sys) : option Sys :=
  th ← s_threads s !! i;
  match th_phase th with
  | TEntry ssl =>
      if bool_decide (th_pid th ∈ s_stopped s) then None
      else Some (mkSys (<[i := mkThread (th_pid th) (th_tid th) (th_left th) TUser false
                                 (th_log th ++ [th_session th])]> (s_threads s))
                   (s_stopped s) (s_queue s) (s_daemon s))
  | _ => None
  end.

(** ** The daemon *)

(** [ring_buffer__poll] calls [on_event], and [uds_get] answers. *)
Definition daemon_take (hit : bool) (s : Sys) : option Sys :=
  match s_daemon s, s_queue s with
  | DPolling, e :: q => Some (mkSys (s_threads s) (s_stopped s) q (DGot e hit))
  | _, _ => None
  end.

(** The thread that the seizure of [pid] waits for is in the probe. *)
Definition leader_in_probe (pid : Z) (ths : list thread) : bool :=
  existsb (fun th => (th_pid th =? pid) && (th_tid th =? pid) &&
                     match th_phase th with TSubmitted _ _ => true | _ => false end) ths.

(** [SSL_set_session] on the object of the event, which is in use by a thread that
    is at the entry of its [SSL_connect], or has gone on. *)
Definition install (e : ssl_event) (th : thread) : thread :=
  match th_phase th with
  | TSubmitted ssl _ | TEntry ssl =>
      if (th_pid th =? ev_pid e) && (ssl =? ev_ssl e)
      then mkThread (th_pid th) (th_tid th) (th_left th) (th_phase th) true (th_log th)
      else th
  | TUser => th
  end.

(** [inject_session(e->pid, e->ssl, ...)]: [swallow] when resuming the target drops
    a SIGSTOP that was about to be delivered. *)
Definition daemon_install (swallow : bool) (s : Sys) : option Sys :=
  match s_daemon s with
  | DGot e true =>
      if leader_in_probe (ev_pid e) (s_threads s) then None
      else Some (mkSys (install e <$> s_threads s)
                   (if swallow then s_stopped s ∖ {[ ev_pid e ]} else s_stopped s)
                   (s_queue s) (DDone e))
  | _ => None
  end.

(** No session, or none that can be installed: the target is not touched. *)
Definition daemon_miss (s : Sys) : option Sys :=
  match s_daemon s with
  | DGot e false => Some (mkSys (s_threads s) (s_stopped s) (s_queue s) (DDone e))
  | _ => None
  end.

(** [kill(e->pid, SIGCONT)] *)
Definition daemon_cont (s : Sys) : option Sys :=
  match s_daemon s with
  | DDone e => Some (mkSys (s_threads s) (s_stopped s ∖ {[ ev_pid e ]}) (s_queue s) DPolling)
  | _ => None
  end.

Definition sys_next (ro : rodata) (l : label) (s : Sys) : option Sys :=
  match l with
  | LProbe i h ssl => probe_fire ro i h ssl s
  | LSignal i => probe_signal i s
  | LProceed i => proceed i s
  | LTake hit => daemon_take hit s
  | LInstall swallow => daemon_install swallow s
  | LMiss => daemon_miss s
  | LCont => daemon_cont s
  end.

Fixpoint sys_run (ro : rodata) (ls : list label) (s : Sys) : option Sys :=
  match ls with
  | [] => Some s
  | l :: ls' => s' ← sys_next ro l s; sys_run ro ls' s'
  end.

Definition sys_init (ths : list thread) : Sys := mkSys ths ∅ [] DPolling.

(** A thread that has not connected yet. *)
Definition new_thread (pid tid : Z) (n : nat) : thread := mkThread pid tid n TUser false [].

(** The same steps as a relation, for proofs by cases. *)
Inductive sys_step (ro : rodata) (s : Sys) : label -> Sys -> Prop :=
  | StepPass i h ssl th n :
      s_threads s !! i = Some th -> th_phase th = TUser -> th_left th = S n ->
      th_pid th ∉ s_stopped s -> on_ssl_connect ro h ssl = Some [] ->
      sys_step ro s (LProbe i h ssl)
        (mkSys (<[i := mkThread (th_pid th) (th_tid th) n TUser false (th_log th)]> (s_threads s))
           (s_stopped s) (s_queue s) (s_daemon s))
  | StepSubmit i h ssl th n e rest :
      s_threads s !! i = Some th -> th_phase th = TUser -> th_left th = S n ->
      th_pid th ∉ s_stopped s -> on_ssl_connect ro h ssl = Some (ASubmit e :: rest) ->
      sys_step ro s (LProbe i h ssl)
        (mkSys (<[i := mkThread (th_pid th) (th_tid th) n (TSubmitted ssl (sends_stop rest)) false
                         (th_log th)]> (s_threads s))
           (s_stopped s) (s_queue s ++ [e]) (s_daemon s))
  | StepSignal i th ssl (stop : bool) :
      s_threads s !! i = Some th -> th_phase th = TSubmitted ssl stop ->
      sys_step ro s (LSignal i)
        (mkSys (<[i := with_phase (TEntry ssl) th]> (s_threads s))
           (if stop then {[ th_pid th ]} ∪ s_stopped s else s_stopped s) (s_queue s) (s_daemon s))
  | StepProceed i th ssl :
      s_threads s !! i = Some th -> th_phase th = TEntry ssl -> th_pid th ∉ s_stopped s ->
      sys_step ro s (LProceed i)
        (mkSys (<[i := mkThread (th_pid th) (th_tid th) (th_left th) TUser false
                         (th_log th ++ [th_session th])]> (s_threads s))
           (s_stopped s) (s_queue s) (s_daemon s))
  | StepTake hit e q :
      s_daemon s = DPolling -> s_queue s = e :: q ->
      sys_step ro s (LTake hit) (mkSys (s_threads s) (s_stopped s) q (DGot e hit))
  | StepInstall (swallow : bool) e :
      s_daemon s = DGot e true -> leader_in_probe (ev_pid e) (s_threads s) = false ->
      sys_step ro s (LInstall swallow)
        (mkSys (install e <$> s_threads s)
           (if swallow then s_stopped s ∖ {[ ev_pid e ]} else s_stopped s) (s_queue s) (DDone e))
  | StepMiss e :
      s_daemon s = DGot e false ->
      sys_step ro s LMiss (mkSys (s_threads s) (s_stopped s) (s_queue s) (DDone e))
  | StepCont e :
      s_daemon s = DDone e ->
      sys_step ro s LCont
        (mkSys (s_threads s) (s_stopped s ∖ {[ ev_pid e ]}) (s_queue s) DPolling).

(** ** Runs *)

(** The helpers report the ids the injector knows the thread by. *)
Definition reports_ids (ro : rodata) (h : helpers) (ssl : Z) (th : thread) : Prop :=
  forall e rest, on_ssl_connect ro h ssl = Some (ASubmit e :: rest) ->
    ev_pid e = th_pid th /\ ev_tid e = th_tid th.

(** Runs in which there is always a session to install and ids are right. *)
Definition hit_label (ro : rodata) (s : Sys) (l : label) : Prop :=
  match l with
  | LProbe i h ssl => forall th, s_threads s !! i = Some th -> reports_ids ro h ssl th
  | LTake hit => hit = true
  | _ => True
  end.

(** The process of a thread does not call [SSL_connect] again between the end of an
    injection and the SIGCONT the daemon then sends. *)
Definition prompt_label (s : Sys) (l : label) : Prop :=
  match l with
  | LProbe i _ _ => forall th e, s_threads s !! i = Some th -> s_daemon s = DDone e ->
                      ev_pid e <> th_pid th
  | _ => True
  end.

Definition hit_step (ro : rodata) (s s' : Sys) : Prop :=
  exists l, hit_label ro s l /\ sys_next ro l s = Some s'.

Definition prompt_step (ro : rodata) (s s' : Sys) : Prop :=
  exists l, hit_label ro s l /\ prompt_label s l /\ sys_next ro l s = Some s'.

(** The events the daemon has not finished with, before and after the installation. *)
Definition pending (s : Sys) : list ssl_event :=
  match s_daemon s with DGot e _ => e :: s_queue s | _ => s_queue s end.

Definition outstanding (s : Sys) : list ssl_event :=
  match s_daemon s with DGot e _ | DDone e => e :: s_queue s | DPolling => s_queue s end.

(** Everyone is done: no connection left or under way, no process stopped, no event. *)
Definition finished (s : Sys) : Prop :=
  Forall (fun th => th_left th = O /\ th_phase th = TUser) (s_threads s) /\
  s_stopped s = ∅ /\ outstanding s = [].

(** How far a run is from its end. *)
Definition phase_rank (ph : phase) : nat :=
  match ph with TUser => 0 | TSubmitted _ _ => 2 | TEntry _ => 1 end.

Definition thread_rank (th : thread) : nat := 6 * th_left th + phase_rank (th_phase th).

Definition sys_rank (s : Sys) : nat :=
  sum_list_with thread_rank (s_threads s) + 3 * length (s_queue s) +
  match s_daemon s with DPolling => 0 | DGot _ _ => 2 | DDone _ => 1 end.

Definition in_probe (th : thread) : Prop :=
  match th_phase th with TSubmitted _ _ => True | _ => False end.

(** Processes of one thread each. *)
Definition single_threaded (ths : list thread) : Prop :=
  Forall (fun th => th_tid th = th_pid th) ths.

(** A stopped process has a SIGCONT to come, and one in the probe has it still
    ahead of the installation. *)
Record sys_inv (s : Sys) : Prop := {
  inv_single : single_threaded (s_threads s);
  inv_stopped : forall p, p ∈ s_stopped s -> p ∈ ev_pid <$> outstanding s;
  inv_probe : forall th, th ∈ s_threads s -> in_probe th -> th_pid th ∈ ev_pid <$> pending s;
  inv_hit : forall e, s_daemon s <> DGot e false
}.

(** What the rest of the system holds for process [p]: its events ahead of the
    installation, and whether the daemon is about to release it. *)
Definition events_of (p : Z) (s : Sys) : list ssl_event :=
  filter (fun e => ev_pid e = p) (pending s).

Definition releasing (p : Z) (s : Sys) : Prop := exists e, s_daemon s = DDone e /\ ev_pid e = p.

(** The connection of [ssl] waits for its session. *)
Definition waiting (p ssl : Z) (s : Sys) : Prop :=
  ~ releasing p s /\ exists e, events_of p s = [e] /\ ev_ssl e = ssl.

(** A thread of a prompt run: stopped with its event ahead of the daemon, or with
    its session. *)
Definition thread_inv (s : Sys) (th : thread) : Prop :=
  match th_phase th with
  | TUser => events_of (th_pid th) s = [] /\ th_pid th ∉ s_stopped s
  | TSubmitted ssl stop => stop = true /\ waiting (th_pid th) ssl s
  | TEntry ssl =>
      (th_pid th ∈ s_stopped s /\ waiting (th_pid th) ssl s) \/
      (events_of (th_pid th) s = [] /\ th_session th = true)
  end /\ Forall (eq true) (th_log th).

Record prompt_inv (s : Sys) : Prop := {
  pinv_single : single_threaded (s_threads s);
  pinv_pids : NoDup (th_pid <$> s_threads s);
  pinv_hit : forall e, s_daemon s <> DGot e false;
  pinv_threads : Forall (thread_inv s) (s_threads s)
}.

(** Two states look the same to process [p]. *)
Definition same_view (p : Z) (s s' : Sys) : Prop :=
  events_of p s' = events_of p s /\ (p ∈ s_stopped s' <-> p ∈ s_stopped s) /\
  (releasing p s' <-> releasing p s).

(** ** Lemmas *)

Lemma sum_list_with_insert {A} (f : A -> nat) (l : list A) (i : nat) (x y : A) :
  l !! i = Some x -> (sum_list_with f (<[i := y]> l) + f x = sum_list_with f l + f y)%nat.
Proof.
  revert i. induction l as [|z l IH]; intros [|i]; simpl; try done.
  - intros [= ->]. lia.
  - intros Hl. specialize (IH i Hl). lia.
Qed.

Lemma install_ids (e : ssl_event) (th : thread) :
  th_pid (install e th) = th_pid th /\ th_tid (install e th) = th_tid th /\
  th_left (install e th) = th_left th /\ th_phase (install e th) = th_phase th /\
  th_log (install e th) = th_log th.
Proof. unfold install. repeat case_match; done. Qed.

(** The function computes the relation. *)
Lemma sys_next_step (ro : rodata) (l : label) (s s' : Sys) :
  sys_next ro l s = Some s' <-> sys_step ro s l s'.
Proof.
  split.
  - destruct l as [i h ssl|i|i|hit|sw| |]; simpl.
    + unfold probe_fire. destruct (s_threads s !! i) as [th|] eqn:Hi; [|done]. simpl.
      destruct (th_phase th) eqn:Hp, (th_left th) as [|n] eqn:Hn; try done.
      case_bool_decide; [done|].
      destruct (on_ssl_connect ro h ssl) as [[|[e|] rest]|] eqn:Ho; simpl; [| |done|done];
        intros [= <-]; [by eapply StepPass|by eapply StepSubmit].
    + unfold probe_signal. destruct (s_threads s !! i) as [th|] eqn:Hi; [|done]. simpl.
      destruct (th_phase th) eqn:Hp; try done. intros [= <-]. by apply StepSignal.
    + unfold proceed. destruct (s_threads s !! i) as [th|] eqn:Hi; [|done]. simpl.
      destruct (th_phase th) eqn:Hp; try done. case_bool_decide; [done|]. intros [= <-].
      by eapply StepProceed.
    + unfold daemon_take. destruct (s_daemon s) eqn:Hd, (s_queue s) eqn:Hq; try done.
      intros [= <-]. by constructor.
    + unfold daemon_install. destruct (s_daemon s) as [|e []|] eqn:Hd; try done.
      case_match eqn:Hl; [done|]. intros [= <-]. by constructor.
    + unfold daemon_miss. destruct (s_daemon s) as [|e []|] eqn:Hd; try done.
      intros [= <-]. by constructor.
    + unfold daemon_cont. destruct (s_daemon s) eqn:Hd; try done. intros [= <-]. by constructor.
  - destruct 1; simpl;
      unfold probe_fire, probe_signal, proceed, daemon_take, daemon_install, daemon_miss, daemon_cont;
      repeat match goal with H : _ = _ |- _ => rewrite H; clear H end; simpl;
      rewrite ?bool_decide_eq_false_2 by done; simpl;
      repeat match goal with H : _ = _ |- _ => rewrite H; clear H end; done.
Qed.

Lemma install_rank (e : ssl_event) (ths : list thread) :
  sum_list_with thread_rank (install e <$> ths) = sum_list_with thread_rank ths.
Proof.
  induction ths as [|th ths IH]; [done|]. rewrite fmap_cons. simpl. rewrite IH.
  unfold thread_rank. by destruct (install_ids e th) as (_ & _ & -> & -> & _).
Qed.

(** A step of one thread changes only its summand. *)
Ltac rank_of_insert :=
  match goal with
  | Hi : _ !! ?i = Some ?th, Hp : th_phase ?th = _ |- context [<[?i := ?y]> _] =>
      pose proof (sum_list_with_insert thread_rank _ i th y Hi) as Hr;
      rewrite ?length_app; unfold thread_rank in Hr at 2 4; simpl in *; rewrite Hp in Hr;
      try match goal with Hn : th_left th = _ |- _ => rewrite Hn in Hr end;
      simpl in *; lia
  end.

(** Every step, of whatever run, is progress. *)
Lemma sys_step_rank (ro : rodata) (l : label) (s s' : Sys) :
  sys_step ro s l s' -> (sys_rank s' < sys_rank s)%nat.
Proof.
  unfold sys_rank. destruct 1 as
    [i h ssl th n Hi Hp Hn _ _|i h ssl th n e rest Hi Hp Hn _ _|i th ssl stop Hi Hp
    |i th ssl Hi Hp _|hit e q Hd Hq|sw e Hd _|e Hd|e Hd]; cbn [s_threads s_queue s_daemon].
  1-4: rank_of_insert.
  - rewrite Hd, Hq. simpl. lia.
  - rewrite Hd, install_rank. lia.
  - rewrite Hd. lia.
  - rewrite Hd. lia.
Qed.

Lemma leader_in_probe_false (pid : Z) (ths : list thread) (th : thread) :
  single_threaded ths -> leader_in_probe pid ths = false -> th ∈ ths -> th_pid th = pid ->
  ~ in_probe th.
Proof.
  unfold single_threaded, leader_in_probe. rewrite Forall_forall.
  intros Hs Hl Hin Hp Hpr. apply not_true_iff_false in Hl. apply Hl, existsb_exists.
  exists th. split; [by apply list_elem_of_In|]. rewrite (Hs th Hin), Hp, Z.eqb_refl. simpl.
  unfold in_probe in Hpr. by destruct (th_phase th).
Qed.

(** Replacing a thread by another state of it. *)
Lemma elem_of_insert_thread (ths : list thread) (i : nat) (x y : thread) :
  x ∈ <[i := y]> ths -> x = y \/ x ∈ ths.
Proof.
  rewrite !list_elem_of_lookup. intros [j Hj]. destruct (decide (i = j)) as [<-|Hne].
  - left. apply list_lookup_insert_Some in Hj. naive_solver.
  - right. exists j. by rewrite list_lookup_insert_ne in Hj.
Qed.

Lemma single_threaded_insert (ths : list thread) (i : nat) (th y : thread) :
  single_threaded ths -> ths !! i = Some th -> th_pid y = th_pid th -> th_tid y = th_tid th ->
  single_threaded (<[i := y]> ths).
Proof.
  intros Hs Hi Hp Ht. apply Forall_insert; [done|]. rewrite Hp, Ht.
  by eapply (Forall_lookup_1 _ _ _ _ Hs).
Qed.

(** Where the pids of the events a step leaves come from. *)
Lemma elem_of_pids (p : Z) (es : list ssl_event) :
  p ∈ ev_pid <$> es <-> exists e, e ∈ es /\ ev_pid e = p.
Proof. rewrite list_elem_of_fmap. naive_solver. Qed.

(** A step of one thread that leaves the daemon and the pids of the events it has
    to handle, or adds to them. *)
Lemma sys_inv_thread (s : Sys) (i : nat) (th y : thread) (st : gset Z) (es : list ssl_event) :
  sys_inv s -> s_threads s !! i = Some th -> th_pid y = th_pid th -> th_tid y = th_tid th ->
  (in_probe y -> th_pid th ∈ ev_pid <$> pending s ++ es) ->
  (forall p, p ∈ st -> p ∈ s_stopped s \/ p ∈ ev_pid <$> pending s) ->
  sys_inv (mkSys (<[i := y]> (s_threads s)) st (s_queue s ++ es) (s_daemon s)).
Proof.
  intros [H1 H2 H3 H4] Hi Hp Ht Hy Hst.
  assert (forall p, p ∈ ev_pid <$> pending s -> p ∈ ev_pid <$> outstanding s) as Hpo.
  { intros p. unfold pending, outstanding. case_match; set_solver. }
  split; cbn [s_threads s_stopped s_daemon].
  - by eapply single_threaded_insert.
  - intros p Hps. assert (p ∈ ev_pid <$> outstanding s) as Hin by (destruct (Hst p Hps); auto).
    revert Hin. unfold outstanding. simpl. rewrite !elem_of_pids. case_match; set_solver.
  - intros x Hx Hpr. assert (th_pid x ∈ ev_pid <$> pending s ++ es) as Hin.
    { apply elem_of_insert_thread in Hx as [->|Hx]; [rewrite Hp; auto|].
      rewrite fmap_app. apply elem_of_app. auto. }
    revert Hin. unfold pending. simpl. rewrite !elem_of_pids. case_match; set_solver.
  - done.
Qed.

(** Every step of a run without misses keeps the invariant. *)
Lemma sys_inv_step (ro : rodata) (s s' : Sys) : sys_inv s -> hit_step ro s s' -> sys_inv s'.
Proof.
  intros Hinv (l & Hl & Hs). apply sys_next_step in Hs. pose proof Hinv as [H1 H2 H3 H4].
  destruct Hs as
    [i h ssl th n Hi Hp Hn Hst _|i h ssl th n e rest Hi Hp Hn Hst Ho|i th ssl stop Hi Hp
    |i th ssl Hi Hp _|hit e q Hd Hq|sw e Hd Hlead|e Hd|e Hd]; cbn in Hl.
  - rewrite <- (app_nil_r (s_queue s)). by eapply sys_inv_thread; eauto.
  - eapply sys_inv_thread; eauto. intros _. destruct (Hl th Hi e rest Ho) as [<- _]. set_solver.
  - rewrite <- (app_nil_r (s_queue s)). eapply sys_inv_thread; eauto; [done|].
    intros p Hps. assert (in_probe th) as Hpr by (unfold in_probe; by rewrite Hp).
    specialize (H3 th (list_elem_of_lookup_2 _ _ _ Hi) Hpr). destruct stop; set_solver.
  - rewrite <- (app_nil_r (s_queue s)). by eapply sys_inv_thread; eauto.
  - subst hit. unfold pending, outstanding in *. rewrite Hd, Hq in *. by split.
  - unfold pending, outstanding in *. rewrite Hd in *.
    split; unfold pending, outstanding; cbn [s_threads s_queue s_daemon s_stopped].
    + apply Forall_fmap. eapply Forall_impl; [exact H1|]. intros th Ht. simpl.
      by destruct (install_ids e th) as (-> & -> & _).
    + intros p. destruct sw; set_solver.
    + intros x (th & -> & Hth)%list_elem_of_fmap. unfold in_probe.
      destruct (install_ids e th) as (-> & _ & _ & -> & _). intros Hpr.
      specialize (H3 th Hth Hpr). apply elem_of_cons in H3 as [He|H3]; [|done].
      by destruct (leader_in_probe_false _ _ th H1 Hlead Hth He).
    + done.
  - by destruct (H4 e).
  - unfold pending, outstanding in *. rewrite Hd in *.
    split; unfold pending, outstanding; cbn [s_threads s_queue s_daemon s_stopped]; try done.
    intros p [Hps Hne]%elem_of_difference. specialize (H2 p Hps). set_solver.
Qed.

(** A full ring buffer lets every call pass. *)
Lemma probe_full (ro : rodata) (ssl : Z) :
  length (ro_exclude ro) = COMM_SIZE ->
  on_ssl_connect ro (mkHelpers (replicate COMM_SIZE 0) false 0 None) ssl = Some [].
Proof.
  intros Hro. unfold on_ssl_connect. cbn [h_comm h_reserve].
  rewrite excluded_spec by done. simpl. by case_match.
Qed.

(** A daemon that is handling an event can go on, or the thread it waits for can. *)
Lemma daemon_progress (ro : rodata) (s : Sys) :
  sys_inv s -> s_daemon s <> DPolling -> red (hit_step ro) s.
Proof.
  intros [H1 H2 H3 H4] Hd. destruct (s_daemon s) as [|e hit|e] eqn:Ed; [done| |].
  - destruct hit; [|by destruct (H4 e)].
    destruct (leader_in_probe (ev_pid e) (s_threads s)) eqn:El.
    + apply existsb_exists in El as (th & Hin & Hp). apply list_elem_of_In in Hin.
      apply list_elem_of_lookup in Hin as [i Hi]. apply andb_prop in Hp as [_ Hp].
      destruct (th_phase th) as [|ssl stop|] eqn:Eph; try done.
      eexists. exists (LSignal i). split; [done|]. apply sys_next_step. by eapply StepSignal.
    + eexists. exists (LInstall false). split; [done|]. apply sys_next_step. by eapply StepInstall.
  - eexists. exists LCont. split; [done|]. apply sys_next_step. by eapply StepCont.
Qed.

(** A run without misses stops only when everyone is done. *)
Lemma hit_progress (ro : rodata) (s : Sys) :
  length (ro_exclude ro) = COMM_SIZE -> sys_inv s -> nf (hit_step ro) s -> finished s.
Proof.
  intros Hro Hinv Hnf. pose proof Hinv as [H1 H2 H3 H4].
  destruct (decide (s_daemon s = DPolling)) as [Hd|Hd]; [|destruct Hnf; by apply daemon_progress].
  unfold pending, outstanding in *. rewrite Hd in *. destruct (s_queue s) as [|e q] eqn:Hq.
  2: { destruct Hnf. eexists. exists (LTake true). split; [done|].
       apply sys_next_step. by eapply StepTake. }
  assert (s_stopped s = ∅) as Hst by (apply set_eq; set_solver).
  split_and!; [|done|unfold outstanding; by rewrite Hd].
  apply Forall_lookup. intros i th Hi. destruct (th_phase th) as [|ssl stop|ssl] eqn:Hp.
  - split; [|done]. destruct (th_left th) as [|n] eqn:Hn; [done|]. destruct Hnf. eexists.
    exists (LProbe i (mkHelpers (replicate COMM_SIZE 0) false 0 None) 0). split.
    + intros th' _ e rest Ho. rewrite probe_full in Ho by done. congruence.
    + apply sys_next_step. eapply StepPass; [done..|by rewrite Hst|by apply probe_full].
  - specialize (H3 th (list_elem_of_lookup_2 _ _ _ Hi)). unfold in_probe in H3. rewrite Hp in H3.
    specialize (H3 I). set_solver.
  - destruct Hnf. eexists. exists (LProceed i). split; [done|].
    apply sys_next_step. eapply StepProceed; [done..|]. by rewrite Hst.
Qed.

Lemma sys_inv_init (ths : list thread) :
  single_threaded ths -> Forall (fun th => ~ in_probe th) ths -> sys_inv (sys_init ths).
Proof.
  intros Hs Hp. split; simpl; [done|set_solver| |done].
  intros th Hin Hpr. rewrite Forall_forall in Hp. by destruct (Hp th Hin).
Qed.

Lemma sys_inv_run (ro : rodata) (s s' : Sys) : sys_inv s -> rtc (hit_step ro) s s' -> sys_inv s'.
Proof. intros H Hr. induction Hr; [done|]. eauto using sys_inv_step. Qed.

(** The length of a run is bounded by its rank. *)
Lemma hit_run_bound (ro : rodata) (n : nat) (s s' : Sys) :
  nsteps (hit_step ro) n s s' -> (n + sys_rank s' <= sys_rank s)%nat.
Proof.
  induction 1 as [s|n s s1 s2 (l & _ & Hl) _ IH]; [done|].
  apply sys_next_step, sys_step_rank in Hl. lia.
Qed.

Lemma sys_rank_init (ths : list thread) :
  Forall (fun th => th_phase th = TUser) ths ->
  sys_rank (sys_init ths) = (6 * sum_list_with th_left ths)%nat.
Proof.
  intros Hu. unfold sys_rank. simpl. rewrite !Nat.add_0_r.
  induction Hu as [|th ths Hp _ IH]; [done|]. simpl. rewrite IH. unfold thread_rank.
  rewrite Hp. simpl. lia.
Qed.

(** ** Prompt runs *)

Lemma on_ssl_connect_ssl (ro : rodata) (h : helpers) (ssl : Z) (e : ssl_event)
    (rest : list probe_act) :
  on_ssl_connect ro h ssl = Some (ASubmit e :: rest) ->
  ev_ssl e = ssl /\ sends_stop rest = ro_freeze ro.
Proof.
  unfold on_ssl_connect. destruct (excluded _ _) as [[]|]; simpl; [done| |done].
  destruct (h_reserve h); simpl; [|done]. intros [= <- <-]. split; [|by destruct (ro_freeze ro)].
  by destruct (ro_pidns ro), (h_ns_pid h) as [[]|].
Qed.

Lemma thread_inv_frame (s s' : Sys) (th : thread) :
  same_view (th_pid th) s s' -> thread_inv s th -> thread_inv s' th.
Proof.
  intros (He & Hs & Hr). unfold thread_inv, waiting. rewrite He.
  destruct (th_phase th); by rewrite ?Hs, ?Hr.
Qed.

(** A step of one thread, seen by that thread only. *)
Lemma prompt_inv_thread (s s' : Sys) (i : nat) (th y : thread) :
  prompt_inv s -> s_threads s !! i = Some th -> s_threads s' = <[i := y]> (s_threads s) ->
  s_daemon s' = s_daemon s -> th_pid y = th_pid th -> th_tid y = th_tid th ->
  (forall p, p <> th_pid th -> same_view p s s') -> thread_inv s' y -> prompt_inv s'.
Proof.
  intros [H1 H2 H3 H4] Hi Ht Hd Hp Htid Hv Hy. split; rewrite ?Ht, ?Hd; [| |done|].
  - by eapply single_threaded_insert.
  - rewrite list_fmap_insert, Hp, list_insert_id; [done|]. by rewrite list_lookup_fmap, Hi.
  - apply Forall_lookup. intros j x Hx. destruct (decide (i = j)) as [<-|Hne].
    + apply list_lookup_insert_Some in Hx as [(_ & <- & _)|[? _]]; [done|done].
    + rewrite list_lookup_insert_ne in Hx by done. apply (thread_inv_frame s).
      * apply Hv. intros Heq. apply Hne.
        eapply (NoDup_lookup _ _ _ _ H2); rewrite list_lookup_fmap; [by rewrite Hi|].
        by rewrite Hx, <- Heq.
      * by eapply (Forall_lookup_1 _ _ _ _ H4).
Qed.

Lemma thread_inv_at (s : Sys) (i : nat) (th : thread) :
  prompt_inv s -> s_threads s !! i = Some th -> thread_inv s th.
Proof. intros [_ _ _ H] Hi. by eapply (Forall_lookup_1 _ _ _ _ H). Qed.

Lemma events_of_app (p : Z) (ths : list thread) (st : gset Z) (q es : list ssl_event) (d : daemon) :
  events_of p (mkSys ths st (q ++ es) d) =
  events_of p (mkSys ths st q d) ++ filter (fun e => ev_pid e = p) es.
Proof. unfold events_of, pending. simpl. destruct d; rewrite <- filter_app; done. Qed.

(** A step that changes neither the events nor the daemon. *)
Lemma same_view_intro (p : Z) (s s' : Sys) :
  events_of p s' = events_of p s -> s_daemon s' = s_daemon s ->
  (p ∈ s_stopped s' <-> p ∈ s_stopped s) -> same_view p s s'.
Proof. intros He Hd Hs. split_and!; [done|done|]. unfold releasing. by rewrite Hd. Qed.

Lemma install_other (e : ssl_event) (th : thread) : th_pid th <> ev_pid e -> install e th = th.
Proof.
  intros Hne. unfold install. rewrite (proj2 (Z.eqb_neq _ _) Hne). by destruct (th_phase th).
Qed.

Lemma prompt_inv_submit (s : Sys) (i : nat) (th : thread) (n : nat) (ssl : Z) (e : ssl_event) :
  prompt_inv s -> s_threads s !! i = Some th -> th_phase th = TUser ->
  ev_pid e = th_pid th -> ev_ssl e = ssl -> ~ releasing (th_pid th) s ->
  prompt_inv
    (mkSys (<[i := mkThread (th_pid th) (th_tid th) n (TSubmitted ssl true) false (th_log th)]>
              (s_threads s))
       (s_stopped s) (s_queue s ++ [e]) (s_daemon s)).
Proof.
  intros Hinv Hi Hp Hpid Hssl Hrel.
  destruct (thread_inv_at _ _ _ Hinv Hi) as [Hph Hlog]. rewrite Hp in Hph.
  assert (forall ths p, events_of p (mkSys ths (s_stopped s) (s_queue s ++ [e]) (s_daemon s)) =
            events_of p s ++ filter (fun e => ev_pid e = p) [e]) as Hev
    by (intros; by rewrite events_of_app).
  eapply prompt_inv_thread; try done.
  - intros p Hne. apply same_view_intro; [|done|done].
    rewrite Hev, filter_cons_False, filter_nil, app_nil_r; [done|congruence].
  - split; [|done]. simpl. split; [done|]. split; [done|].
    exists e. rewrite Hev, (proj1 Hph), filter_cons_True by done. done.
Qed.

(** The installation, seen by its own process. *)
Lemma thread_inv_install (s : Sys) (th : thread) (e : ssl_event) (st : gset Z) :
  s_daemon s = DGot e true -> ~ in_probe th -> th_pid th = ev_pid e -> thread_inv s th ->
  thread_inv (mkSys (install e <$> s_threads s) st (s_queue s) (DDone e)) (install e th).
Proof.
  intros Hd Hpr Hp [Hph Hlog]. unfold thread_inv.
  assert (events_of (th_pid th) s = e :: filter (fun e => ev_pid e = th_pid th) (s_queue s)) as Hev.
  { unfold events_of, pending. by rewrite Hd, filter_cons_True by done. }
  unfold waiting in Hph. rewrite Hev in Hph.
  destruct (install_ids e th) as (-> & _ & _ & -> & ->). split; [|done].
  unfold in_probe in Hpr. destruct (th_phase th) as [|ssl stop|ssl] eqn:Eph; [by destruct Hph|done|].
  destruct Hph as [(_ & _ & e' & [= -> Hq] & Hssl)|[? _]]; [|done].
  right. split; [by unfold events_of, pending; simpl|].
  unfold install. by rewrite Eph, Hp, Hssl, !Z.eqb_refl.
Qed.

Lemma prompt_inv_install (s : Sys) (e : ssl_event) (sw : bool) :
  prompt_inv s -> s_daemon s = DGot e true -> leader_in_probe (ev_pid e) (s_threads s) = false ->
  prompt_inv
    (mkSys (install e <$> s_threads s)
       (if sw then s_stopped s ∖ {[ ev_pid e ]} else s_stopped s) (s_queue s) (DDone e)).
Proof.
  intros [H1 H2 H3 H4] Hd Hl. split; cbn [s_threads s_daemon]; [| |done|].
  - apply Forall_fmap. eapply Forall_impl; [exact H1|]. intros th Ht. simpl.
    by destruct (install_ids e th) as (-> & -> & _).
  - rewrite <- list_fmap_compose. erewrite list_fmap_ext; [exact H2|].
    intros i th _. simpl. by destruct (install_ids e th) as (-> & _).
  - apply Forall_fmap, Forall_forall. intros th Hth. rewrite Forall_forall in H4.
    specialize (H4 th Hth). simpl. destruct (decide (th_pid th = ev_pid e)) as [Hp|Hp].
    + apply thread_inv_install; try done. by eapply leader_in_probe_false.
    + rewrite install_other by done. eapply thread_inv_frame; [|exact H4]. split_and!.
      * unfold events_of, pending. simpl. by rewrite Hd, filter_cons_False by congruence.
      * simpl. destruct sw; set_solver.
      * unfold releasing. simpl. rewrite Hd. naive_solver.
Qed.

(** The release, whoever it is for. *)
Lemma thread_inv_cont (s : Sys) (th : thread) (e : ssl_event) :
  s_daemon s = DDone e -> thread_inv s th ->
  thread_inv (mkSys (s_threads s) (s_stopped s ∖ {[ ev_pid e ]}) (s_queue s) DPolling) th.
Proof.
  intros Hd Hth. assert (forall p, events_of p (mkSys (s_threads s)
    (s_stopped s ∖ {[ ev_pid e ]}) (s_queue s) DPolling) = events_of p s) as Hev.
  { intros p. unfold events_of, pending. by rewrite Hd. }
  destruct (decide (th_pid th = ev_pid e)) as [Hp|Hp].
  - assert (releasing (th_pid th) s) as Hrel by (by exists e).
    destruct Hth as [Hph Hlog]. split; [|done]. unfold waiting in *. rewrite Hev.
    destruct (th_phase th); [|by destruct Hph as (_ & ? & _)|].
    + simpl. set_solver.
    + right. by destruct Hph as [(_ & ? & _)|?].
  - eapply thread_inv_frame; [|exact Hth]. split_and!; [done|simpl; set_solver|].
    unfold releasing. simpl. rewrite Hd. naive_solver.
Qed.

(** Every step of a prompt run keeps its invariant. *)
Lemma prompt_inv_step (ro : rodata) (s s' : Sys) :
  ro_freeze ro = true -> prompt_inv s -> prompt_step ro s s' -> prompt_inv s'.
Proof.
  intros Hro Hinv (l & Hl & Hpl & Hs). apply sys_next_step in Hs. destruct Hs as
    [i h ssl th n Hi Hp Hn Hst _|i h ssl th n e rest Hi Hp Hn Hst Ho|i th ssl stop Hi Hp
    |i th ssl Hi Hp Hst|hit e q Hd Hq|sw e Hd Hlead|e Hd|e Hd]; cbn in Hl, Hpl.
  1-4: destruct (thread_inv_at _ _ _ Hinv Hi) as [Hph Hlog]; rewrite Hp in Hph.
  - by eapply prompt_inv_thread.
  - destruct (Hl _ Hi _ _ Ho) as [Hpid _]. apply on_ssl_connect_ssl in Ho as [Hssl ->].
    rewrite Hro. apply prompt_inv_submit; try done. intros (e' & He' & Hp').
    by apply (Hpl _ _ Hi He').
  - destruct Hph as [-> Hw]. eapply prompt_inv_thread; try done.
    + intros p Hne. apply same_view_intro; [done|done|]. simpl. set_solver.
    + split; [|done]. left. split; [simpl; set_solver|done].
  - destruct Hph as [[? _]|[He Hsess]]; [done|].
    eapply prompt_inv_thread; try done. split; [done|]. simpl.
    rewrite Hsess. apply Forall_app. split; [done|]. by repeat constructor.
  - destruct Hinv as [H1 H2 H3 H4]. subst hit. split; try done.
    eapply Forall_impl; [exact H4|]. intros th. apply thread_inv_frame. split_and!; [|done|].
    + unfold events_of, pending. by rewrite Hd, Hq.
    + unfold releasing. rewrite Hd. naive_solver.
  - by apply prompt_inv_install.
  - by destruct (pinv_hit _ Hinv e).
  - destruct Hinv as [H1 H2 H3 H4]. split; try done.
    eapply Forall_impl; [exact H4|]. intros th. by apply thread_inv_cont.
Qed.

Lemma prompt_inv_run (ro : rodata) (s s' : Sys) :
  ro_freeze ro = true -> prompt_inv s -> rtc (prompt_step ro) s s' -> prompt_inv s'.
Proof. intros Hro H Hr. induction Hr; [done|]. eauto using prompt_inv_step. Qed.

Lemma prompt_inv_init (ths : list thread) :
  single_threaded ths -> NoDup (th_pid <$> ths) ->
  Forall (fun th => th_phase th = TUser /\ th_log th = []) ths -> prompt_inv (sys_init ths).
Proof.
  intros Hs Hnd Hu. split; simpl; try done. eapply Forall_impl; [exact Hu|].
  intros th [Hp Hlog]. split; [|by rewrite Hlog]. rewrite Hp. split; [done|set_solver].
Qed.
