(* ===== verification/SystemProps.v ===== *)
(** * SystemProps: the properties of the probe and the daemon together

    Runs of [System] in which every event finds a session end with everyone
    released; what the order of the two signals allows otherwise is shown by
    explicit runs. *)

From stdpp Require Import base numbers list gmap strings relations.
From S2P Require Import Prelude Runtime Symbols InjectorMain Bpf System.

Open Scope Z_scope.

(** ** Concrete runs *)

Definition demo_ro : rodata := mkRodata true (set_exclude (of_string "ticket-agent")) None.

(** A firing of the probe in thread [tid] of process [pid]. *)
Definition fires (pid tid : Z) : helpers :=
  mkHelpers (of_string "curl" ++ replicate 12 0) true (pid * 2 ^ 32 + tid) None.

(** One connection from the probe to the handshake; the daemon works in between. *)
Definition one_connection (i : nat) (pid tid ssl : Z) : list label :=
  [LProbe i (fires pid tid) ssl; LSignal i; LTake true; LInstall false; LCont; LProceed i].

(** A miss is over before the probe has its signal sent. *)
Definition miss_race : list label :=
  [LProbe 0 (fires 7 7) 0xABC; LTake false; LMiss; LCont; LSignal 0].

(** So is an injection that waits for another thread. *)
Definition leader_race : list label :=
  [LProbe 1 (fires 7 8) 0xABC; LTake true; LInstall false; LCont; LSignal 1].

(** Two threads of a process connect at the same time. *)
Definition early_release : list label :=
  [LProbe 0 (fires 7 7) 0xABC; LProbe 1 (fires 7 8) 0xDEF; LSignal 0; LSignal 1;
   LTake true; LInstall false; LCont; LProceed 1].

(** The lookup of the ids in the injector's namespace fails: process 7 of that
    namespace is reported by its id in the root namespace. *)
Definition ns_ro : rodata := mkRodata true (set_exclude (of_string "ticket-agent")) (Some (4, 0xeffffffc)).
Definition wrong_ids : list label :=
  [LProbe 0 (fires 1007 1007) 0xABC; LSignal 0; LTake true; LInstall false; LCont].

(** Thread [i] waits in a stopped process, and nothing will ever happen again. *)
Definition frozen_for_ever (ro : rodata) (i : nat) (s : Sys) : Prop :=
  (exists th ssl, s_threads s !! i = Some th /\ th_phase th = TEntry ssl /\
     th_pid th ∈ s_stopped s) /\
  forall l, sys_next ro l s = None.

(** Nothing can happen when the daemon has no event and every process is stopped. *)
Lemma stuck (ro : rodata) (ths : list thread) (st : gset Z) (l : label) :
  Forall (fun th => th_pid th ∈ st /\ ~ in_probe th) ths ->
  sys_next ro l (mkSys ths st [] DPolling) = None.
Proof.
  intros Hth. rewrite Forall_lookup in Hth.
  destruct l as [i h ssl|i|i|hit|sw| |]; try done; simpl;
    unfold probe_fire, probe_signal, proceed; simpl;
    destruct (ths !! i) as [th|] eqn:Hi; simpl; try done;
    destruct (Hth i th Hi) as [Hst Hpr]; unfold in_probe in Hpr; rewrite ?bool_decide_eq_true_2 by done;
    destruct (th_phase th); try done. by destruct (th_left th).
Qed.

(** Evaluating a run and reading the result off. *)
Lemma run_freezes (ro : rodata) (ls : list label) (ths ths' : list thread) (p : Z) (i : nat)
    (th : thread) (ssl : Z) :
  sys_run ro ls (sys_init ths) = Some (mkSys ths' {[ p ]} [] DPolling) ->
  Forall (fun th => th_pid th ∈ ({[ p ]} : gset Z) /\ ~ in_probe th) ths' ->
  ths' !! i = Some th -> th_phase th = TEntry ssl ->
  exists s, sys_run ro ls (sys_init ths) = Some s /\ frozen_for_ever ro i s.
Proof.
  intros Hr Hf Hi Hp. eexists. split; [exact Hr|]. split; [|intros l; by apply stuck].
  exists th, ssl. split_and!; [done|done|]. rewrite Forall_lookup in Hf. by apply (Hf i th).
Qed.

(** ** Theorems *)

(** C37. Frozen processes are released.  For any number of single-threaded
    processes that each make any number of connections, in every run in which the
    helpers report the ids the injector knows the thread by, the agent has a
    session for each event and it can be installed: a stopped process always has a
    SIGCONT to come, a run has at most six steps per connection, and a run that
    cannot go on has made every connection, released every process and handled
    every event. *)
Theorem hit_runs_finish (ro : rodata) (ths : list thread) (s : Sys) :
  length (ro_exclude ro) = COMM_SIZE -> single_threaded ths ->
  Forall (fun th => th_phase th = TUser) ths ->
  rtc (hit_step ro) (sys_init ths) s ->
  (forall p, p ∈ s_stopped s -> p ∈ ev_pid <$> outstanding s) /\
  (forall n s', nsteps (hit_step ro) n (sys_init ths) s' ->
     (n <= 6 * sum_list_with th_left ths)%nat) /\
  (nf (hit_step ro) s -> finished s).
Proof.
  intros Hro Hs Hu Hr.
  assert (sys_inv (sys_init ths)) as H0.
  { apply sys_inv_init; [done|]. eapply Forall_impl; [exact Hu|]. unfold in_probe.
    intros th Hp. rewrite Hp. by intros []. }
  pose proof (sys_inv_run _ _ _ H0 Hr) as Hinv. split_and!.
  - apply Hinv.
  - intros n s' Hn%hit_run_bound. rewrite sys_rank_init in Hn by done. lia.
  - by apply hit_progress.
Qed.

(** Evaluating a run and checking the condition on each of its steps. *)
Ltac take_step l := eapply rtc_l; [exists l; split_and!; [..|vm_compute; reflexivity]|].

(** Two processes, the second connection while the first is being handled. *)
Definition demo_pair : list thread := [new_thread 7 7 1; new_thread 9 9 2].
Definition demo_pair_mid : Sys :=
  mkSys [mkThread 7 7 0 (TEntry 0xABC) false []; mkThread 9 9 1 (TSubmitted 0xDEF true) false []]
    {[ 7 ]} [mkSslEvent 9 9 0xDEF] (DGot (mkSslEvent 7 7 0xABC) true).

Lemma hit_runs_finish_witness :
  (forall p, p ∈ s_stopped demo_pair_mid -> p ∈ ev_pid <$> outstanding demo_pair_mid) /\
  (forall n s', nsteps (hit_step demo_ro) n (sys_init demo_pair) s' ->
     (n <= 6 * sum_list_with th_left demo_pair)%nat) /\
  (nf (hit_step demo_ro) demo_pair_mid -> finished demo_pair_mid).
Proof.
  apply (hit_runs_finish demo_ro demo_pair demo_pair_mid).
  - reflexivity.
  - repeat constructor.
  - repeat constructor.
  - take_step (LProbe 0 (fires 7 7) 0xABC).
    { intros th [= <-] e rest Ho. vm_compute in Ho. injection Ho as <- <-. split; reflexivity. }
    take_step (LSignal 0); [exact I|].
    take_step (LProbe 1 (fires 9 9) 0xDEF).
    { intros th [= <-] e rest Ho. vm_compute in Ho. injection Ho as <- <-. split; reflexivity. }
    take_step (LTake true); [reflexivity|].
    apply rtc_refl.
Defined.

(** C38. A reported connection resumes: when single-threaded processes with
    distinct ids run under the freezing probe, the helpers report those ids, there
    is a session that can be installed for every event, and no process calls
    [SSL_connect] again between the end of an injection and the SIGCONT the daemon
    then sends, every connection that was reported goes on only with its session
    installed, in whatever order the processes and the daemon act and whether or
    not an injection drops a stop signal. *)
Theorem reported_connections_resume (ro : rodata) (ths : list thread) (s : Sys) (th : thread) :
  ro_freeze ro = true -> single_threaded ths -> NoDup (th_pid <$> ths) ->
  Forall (fun th => th_phase th = TUser /\ th_log th = []) ths ->
  rtc (prompt_step ro) (sys_init ths) s -> th ∈ s_threads s ->
  Forall (eq true) (th_log th).
Proof.
  intros Hro Hs Hnd Hu Hr Hin. destruct (prompt_inv_run ro (sys_init ths) s Hro) as [_ _ _ H].
  - by apply prompt_inv_init.
  - done.
  - rewrite Forall_forall in H. by apply (H th).
Qed.

Definition demo_resumed : thread := mkThread 7 7 0 TUser false [true].

Lemma reported_connections_resume_witness :
  th_log demo_resumed = [true] /\ Forall (eq true) (th_log demo_resumed).
Proof.
  split; [reflexivity|].
  apply (reported_connections_resume demo_ro [new_thread 7 7 1]
           (mkSys [demo_resumed] ∅ [] DPolling) demo_resumed).
  - reflexivity.
  - repeat constructor.
  - repeat constructor. set_solver.
  - repeat constructor.
  - take_step (LProbe 0 (fires 7 7) 0xABC).
    { intros th [= <-] e rest Ho. vm_compute in Ho. injection Ho as <- <-. split; reflexivity. }
    { intros th e _ [=]. }
    take_step (LSignal 0); [exact I..|].
    take_step (LTake true); [reflexivity|exact I|].
    take_step (LInstall false); [exact I..|].
    take_step LCont; [exact I..|].
    take_step (LProceed 0); [exact I..|].
    apply rtc_refl.
  - constructor.
Defined.

(** C39. The two signals are not ordered otherwise, and act on processes, not on
    threads.  The event is submitted before SIGSTOP is sent, so that a daemon with
    nothing to install can send its SIGCONT first, and the process then stops for
    ever; so it can with a session to install when the caller is not the thread the
    injection waits for.  A SIGCONT meant for one thread lets another thread of the
    process go on without its session.  When the lookup of the ids fails, the
    process that is stopped is not the one that is continued. *)
Theorem sigcont_can_be_lost :
  (exists s, sys_run demo_ro miss_race (sys_init [new_thread 7 7 1]) = Some s /\
     frozen_for_ever demo_ro 0 s) /\
  (exists s, sys_run demo_ro leader_race (sys_init [new_thread 7 7 0; new_thread 7 8 1]) = Some s /\
     frozen_for_ever demo_ro 1 s) /\
  (exists s th, sys_run demo_ro early_release (sys_init [new_thread 7 7 1; new_thread 7 8 1]) = Some s /\
     s_threads s !! 1%nat = Some th /\ th_log th = [false] /\ (8 ∈ ev_tid <$> outstanding s)) /\
  (exists s, sys_run ns_ro wrong_ids (sys_init [new_thread 7 7 1]) = Some s /\
     frozen_for_ever ns_ro 0 s).
Proof.
  split_and!.
  - eapply (run_freezes _ _ _ _ 7); [vm_compute; reflexivity| |reflexivity|reflexivity].
    repeat constructor; set_solver.
  - eapply (run_freezes _ _ _ _ 7); [vm_compute; reflexivity| |reflexivity|reflexivity].
    repeat constructor; set_solver.
  - do 2 eexists. split_and!; [vm_compute; reflexivity|reflexivity|reflexivity|].
    vm_compute. repeat constructor.
  - eapply (run_freezes _ _ _ _ 7); [vm_compute; reflexivity| |reflexivity|reflexivity].
    repeat constructor; set_solver.
Qed.
